(** * 6fs: a shallow embedding of the object store and its filesystem logic

    The development follows the layering of the sources:
    Storage (storage.cpp and its backends), Map (map.cpp), ChunkManager
    (chunk.cpp), the encryption frame (encrypt.cpp), Base (base.cpp),
    Handle (handle.cpp) and SixFS (sixfs.cpp).

    Conventions.
    - [uint64_t] values are integers in [Z]; every operation that can leave
      the range [0, 2^64) in the source is wrapped with [u64].
    - A C++ method [int C::f(args, &out)] on an object with state [t]
      becomes [C.f : t -> args -> Z * out * t]: the returned [int]
      (0 or a negative errno), the out-parameter and the new state.
    - The process-global [emergencyType] latch of emergency.cpp is written by
      [emergency(t)] with "first writer wins".  Map and ChunkManager never
      read it, so their methods return, next to their result, the emergency
      they raised ([EmergencyNone] if none); Base keeps the latch itself.
    - Locks and log output are not part of the model. *)

From Stdlib Require Import ZArith Lia Ascii String.
From stdpp Require Import prelude gmap strings.

Local Open Scope Z_scope.

(** ** Machine integers *)

Definition u64 (z : Z) : Z := z mod 2 ^ 64.

Definition UINT64_MAX : Z := 2 ^ 64 - 1.

(** [~x] on a [uint64_t]. *)
Definition not64 (x : Z) : Z := u64 (Z.lnot x).

(** [(int)x] for a [size_t] x: reduction to a signed 32-bit value. *)
Definition to_int (z : Z) : Z := (z + 2 ^ 31) mod 2 ^ 32 - 2 ^ 31.

(** [__builtin_ctzll(x)] for [x != 0]: index of the lowest set bit. *)
Fixpoint ctz_from (n : nat) (i : Z) (x : Z) : Z :=
  match n with
  | O => i
  | S n' => if Z.testbit x i then i else ctz_from n' (i + 1) x
  end.

Definition ctzll (x : Z) : Z := ctz_from 64 0 x.

(** ** Error numbers (Linux errno values; results are their negations) *)

Definition ENOENT : Z := 2.
Definition EIO : Z := 5.
Definition EBADF : Z := 9.
Definition ENOMEM : Z := 12.
Definition EEXIST : Z := 17.
Definition ENOTDIR : Z := 20.
Definition EISDIR : Z := 21.
Definition EINVAL : Z := 22.
Definition ENOSPC : Z := 28.
Definition EROFS : Z := 30.
Definition EMLINK : Z := 31.
Definition ENAMETOOLONG : Z := 36.
Definition ENOTEMPTY : Z := 39.
Definition ENOTRECOVERABLE : Z := 131.

(** ** emergency.cpp *)

Inductive EmergencyType : Type :=
  | EmergencyNone
  | EmergencyBug
  | EmergencySystemFailure.

Definition EmergencyType_eqb (a b : EmergencyType) : bool :=
  match a, b with
  | EmergencyNone, EmergencyNone => true
  | EmergencyBug, EmergencyBug => true
  | EmergencySystemFailure, EmergencySystemFailure => true
  | _, _ => false
  end.

(** [emergency(t)] applied to the latch value [latch]:
    [if (emergencyType == EmergencyNone) emergencyType = t;] *)
Definition emergency (t : EmergencyType) (latch : EmergencyType) : EmergencyType :=
  match latch with
  | EmergencyNone => t
  | _ => latch
  end.

(** Modelled from the spec: index.hpp is not among the sources.  The spec
    calls the value "the sentinel INVALID"; it is the 64-bit value with all
    bits set. *)
Definition InvalidIndex : Z := UINT64_MAX.

(** ** Storage (storage.cpp, storage_memory.cpp, storage_file.cpp, storage_mmap.cpp)

    A Storage is a sequence of equally sized chunks.  The model keeps one
    list element per chunk; [A] is the type of the chunk contents and
    [zero] the content of a chunk of zero bytes.  Whether a call of a
    backend fails is not decided by the program; the model takes it from a
    fault plan: every call of a backend method consumes the head of
    [faults]; [Some e] makes the call fail with [-e], [None] (or an empty
    plan) lets it proceed.  [punchZeroes] tells whether the backend really
    turns a punched chunk into zeroes (file backend) or ignores the request
    (memory, mmap).

    In two places the backends differ in what a call does that does not
    fail, and the model follows two of the three backends:
    - A container that grows ([setSize], or [write] past the end) is filled
      with zeroes, as [std::vector::resize] does in the memory backend and
      [ftruncate] and [pwrite] do in the file backend.  The mmap backend only
      assigns [_size] as long as the number of mapped pages stays the same,
      so that bytes cut off by an earlier shrink are there again; module
      [StorageMmap] below embeds that backend, and the part on the backends
      among the properties shows the difference.
    - A read past the end returns [-EIO], as in the memory and mmap
      backends.  In the file backend such a read does not return; module
      [StorageFile] below embeds its read loop, and lemma
      [file_read_past_the_end_never_returns] shows it.
    The theorems on Map and ChunkManager are stated so that they hold with
    either behaviour: where it matters, for calls that do not make the
    bitmap grow, and for containers that hold as many chunks as the Map
    counts, so that no read reaches past the end.  The auxiliary lemmas
    that rely on the zero filling say so. *)

Module Storage.
Section WithChunk.
Context {A : Type}.

Record t : Type := mk {
  _chunkSize : Z;
  chunks : list A;
  faults : list (option positive);
  punchZeroes : bool
}.

Definition set_chunks (l : list A) (s : t) : t :=
  mk (_chunkSize s) l (faults s) (punchZeroes s).

Definition chunkSize (s : t) : Z := _chunkSize s.

(** One call into the backend: its outcome and the remaining plan. *)
Definition backend (s : t) : Z * t :=
  match faults s with
  | Some e :: rest => (Z.neg e, mk (_chunkSize s) (chunks s) rest (punchZeroes s))
  | None :: rest => (0, mk (_chunkSize s) (chunks s) rest (punchZeroes s))
  | [] => (0, s)
  end.

(** [int Storage::size(&s)]; [old] is the value of [s] before. *)
Definition size (s : t) (old : Z) : Z * Z * t :=
  let '(r, s) := backend s in
  if r <? 0 then (r, old, s)
  else (0, Z.of_nat (length (chunks s)), s).

(** [int Storage::read(index, 1, buf)]; [buf] is the buffer before. *)
Definition read (s : t) (index : Z) (buf : A) : Z * A * t :=
  let '(r, s) := backend s in
  if r <? 0 then (r, buf, s)
  else match chunks s !! Z.to_nat index with
       | Some c => (0, c, s)
       | None => (- EIO, buf, s)
       end.

(** [int Storage::write(index, 1, buf)]. *)
Definition write (zero : A) (s : t) (index : Z) (buf : A) : Z * t :=
  let '(r, s) := backend s in
  if r <? 0 then (r, s)
  else if index <? Z.of_nat (length (chunks s))
       then (0, set_chunks (<[Z.to_nat index := buf]> (chunks s)) s)
       else (0, set_chunks (resize (Z.to_nat index) zero (chunks s) ++ [buf]) s).

(** [int Storage::punchHole(index, 1)]. *)
Definition punchHole (zero : A) (s : t) (index : Z) : Z * t :=
  let '(r, s) := backend s in
  if r <? 0 then (r, s)
  else if punchZeroes s
       then (0, set_chunks (<[Z.to_nat index := zero]> (chunks s)) s)
       else (0, s).

(** [int Storage::setSize(size)]: truncate, or extend with zero chunks. *)
Definition setSize (zero : A) (s : t) (size : Z) : Z * t :=
  let '(r, s) := backend s in
  if r <? 0 then (r, s)
  else (0, set_chunks (resize (Z.to_nat size) zero (chunks s)) s).

(** [int Storage::close()] of a backend. *)
Definition close (s : t) : Z * t := backend s.

End WithChunk.
Arguments t : clear implicits.
End Storage.

(** ** StorageMemory (storage_memory.cpp) under Storage (storage.cpp)

    The memory backend keeps the whole container in the byte vector
    [_storage]; the base class Storage turns chunk numbers into byte
    offsets and counts the chunks that pass.  [std::vector::resize] throws
    when the allocation fails and leaves the vector as it was; whether it
    throws is not decided by the program, so the model takes the outcome of
    every call of [resize] from the plan [allocs] ([true]: the call
    throws; an empty plan: it does not).  Buffers are lists of bytes. *)

Module StorageMemory.

Record t : Type := mk {
  _chunkSize : Z;
  _chunksIn : Z;
  _chunksOut : Z;
  _chunksPunchedHole : Z;
  _storage : list Z;
  _fatalError : bool;
  allocs : list bool
}.

Definition set_chunkSize (v : Z) (s : t) : t :=
  mk v (_chunksIn s) (_chunksOut s) (_chunksPunchedHole s) (_storage s) (_fatalError s)
    (allocs s).
Definition set_chunksIn (v : Z) (s : t) : t :=
  mk (_chunkSize s) v (_chunksOut s) (_chunksPunchedHole s) (_storage s) (_fatalError s)
    (allocs s).
Definition set_chunksOut (v : Z) (s : t) : t :=
  mk (_chunkSize s) (_chunksIn s) v (_chunksPunchedHole s) (_storage s) (_fatalError s)
    (allocs s).
Definition set_chunksPunchedHole (v : Z) (s : t) : t :=
  mk (_chunkSize s) (_chunksIn s) (_chunksOut s) v (_storage s) (_fatalError s)
    (allocs s).
Definition set_storage (v : list Z) (s : t) : t :=
  mk (_chunkSize s) (_chunksIn s) (_chunksOut s) (_chunksPunchedHole s) v (_fatalError s)
    (allocs s).

(** [Storage::Storage()] and [StorageMemory::StorageMemory()] *)
Definition new (allocs : list bool) : t := mk 1 0 0 0 [] false allocs.

(** [try { _storage.resize(newSize); } catch (...) { _fatalError = true; }];
    the new elements are zero. *)
Definition resize_storage (s : t) (newSize : Z) : t :=
  match allocs s with
  | true :: rest =>
      mk (_chunkSize s) (_chunksIn s) (_chunksOut s) (_chunksPunchedHole s) (_storage s)
        true rest
  | false :: rest =>
      mk (_chunkSize s) (_chunksIn s) (_chunksOut s) (_chunksPunchedHole s)
        (resize (Z.to_nat newSize) 0 (_storage s)) (_fatalError s) rest
  | [] => set_storage (resize (Z.to_nat newSize) 0 (_storage s)) s
  end.

(** [int StorageMemory::open()] *)
Definition open (s : t) : Z * t := (0, s).

(** [int StorageMemory::close()] *)
Definition close (s : t) : Z * t :=
  if _fatalError s then (- EIO, s) else (0, set_storage [] s).

(** [int StorageMemory::sizeInBytes(uint64_t* s)]; [old] is the value of
    the out-parameter before the call. *)
Definition sizeInBytes (s : t) (old : Z) : Z * Z * t :=
  if _fatalError s then (- EIO, old, s)
  else (0, Z.of_nat (length (_storage s)), s).

(** [int StorageMemory::readBytes(uint64_t index, uint64_t size, void* buf)];
    [buf] is the buffer before the call, the result carries the buffer
    after it.  (When [index + size] wraps around, the source copies from
    outside the vector; the model then copies what [drop] leaves.) *)
Definition readBytes (s : t) (index size : Z) (buf : list Z) : Z * list Z * t :=
  if _fatalError s then (- EIO, buf, s)
  else if u64 (index + size) >? Z.of_nat (length (_storage s)) then (- EIO, buf, s)
  else (0, take (Z.to_nat size) (drop (Z.to_nat index) (_storage s))
           ++ drop (Z.to_nat size) buf, s).

(** [int StorageMemory::writeBytes(uint64_t index, uint64_t size, const void* buf)];
    a [buf] shorter than [size] is padded with zeroes (the source reads
    past the buffer then). *)
Definition writeBytes (s : t) (index size : Z) (buf : list Z) : Z * t :=
  if _fatalError s then (- EIO, s)
  else
    let s :=
      if u64 (index + size) >? Z.of_nat (length (_storage s))
      then resize_storage s (u64 (index + size))
      else s in
    if _fatalError s then (- ENOMEM, s)
    else
      (0, set_storage
            (take (Z.to_nat index) (_storage s) ++ resize (Z.to_nat size) 0 buf
             ++ drop (Z.to_nat index + Z.to_nat size) (_storage s)) s).

(** [int StorageMemory::punchHoleBytes(uint64_t, uint64_t)] *)
Definition punchHoleBytes (s : t) (index size : Z) : Z * t :=
  if _fatalError s then (- EIO, s) else (0, s).

(** [int StorageMemory::setSizeBytes(uint64_t size)] *)
Definition setSizeBytes (s : t) (size : Z) : Z * t :=
  if _fatalError s then (- EIO, s)
  else
    let s := resize_storage s size in
    if _fatalError s then (- ENOMEM, s) else (0, s).

(** [size_t Storage::chunkSize() const], [void Storage::setChunkSize(size_t)] *)
Definition chunkSize (s : t) : Z := _chunkSize s.
Definition setChunkSize (s : t) (chunkSize : Z) : t := set_chunkSize chunkSize s.

(** [int Storage::size(uint64_t* s)]; [old] is the value of the
    out-parameter before the call. *)
Definition size (s : t) (old : Z) : Z * Z * t :=
  let '(r, bytes, s) := sizeInBytes s 0 in
  if r <? 0 then (r, old, s)
  else (0, bytes / _chunkSize s, s).

(** [int Storage::read(uint64_t index, uint64_t size, void* buf)] *)
Definition read (s : t) (index size : Z) (buf : list Z) : Z * list Z * t :=
  let '(r, buf, s) :=
    readBytes s (u64 (index * _chunkSize s)) (u64 (size * _chunkSize s)) buf in
  if r <? 0 then (r, buf, s)
  else (0, buf, set_chunksIn (u64 (_chunksIn s + size)) s).

(** [int Storage::write(uint64_t index, uint64_t size, const void* buf)] *)
Definition write (s : t) (index size : Z) (buf : list Z) : Z * t :=
  let '(r, s) :=
    writeBytes s (u64 (index * _chunkSize s)) (u64 (size * _chunkSize s)) buf in
  if r <? 0 then (r, s)
  else (0, set_chunksOut (u64 (_chunksOut s + size)) s).

(** [int Storage::punchHole(uint64_t index, uint64_t size)] *)
Definition punchHole (s : t) (index size : Z) : Z * t :=
  let '(r, s) :=
    punchHoleBytes s (u64 (index * _chunkSize s)) (u64 (size * _chunkSize s)) in
  if r <? 0 then (r, s)
  else (0, set_chunksPunchedHole (u64 (_chunksPunchedHole s + size)) s).

(** [int Storage::setSize(uint64_t size)] *)
Definition setSize (s : t) (size : Z) : Z * t :=
  setSizeBytes s (u64 (size * _chunkSize s)).

(** The bytes of chunk [j] of the container. *)
Definition chunk (s : t) (j : Z) : list Z :=
  take (Z.to_nat (_chunkSize s)) (drop (Z.to_nat (j * _chunkSize s)) (_storage s)).

End StorageMemory.

(** ** StorageMmap (storage_mmap.cpp)

    The mmap backend maps the container file into memory: [_map] holds the
    [_len] bytes of the mapping, a whole number of pages, of which the
    first [_size] are the container.  The model is of an open container
    and of the methods that work on it.  Whether [ftruncate] and [mremap]
    fail is taken from the plan [calls] ([Some e]: the call fails with
    errno [e]; an empty plan: it succeeds).  Pages that [ftruncate] adds
    to the file are zero. *)

Module StorageMmap.

Record t : Type := mk {
  _pagesize : Z;
  _map : list Z;
  _len : Z;
  _size : Z;
  calls : list (option positive)
}.

Definition set_map (v : list Z) (s : t) : t :=
  mk (_pagesize s) v (_len s) (_size s) (calls s).
Definition set_len (v : Z) (s : t) : t :=
  mk (_pagesize s) (_map s) v (_size s) (calls s).
Definition set_size (v : Z) (s : t) : t :=
  mk (_pagesize s) (_map s) (_len s) v (calls s).

(** [static size_t sizeToMapLength(size_t pagesize, size_t size)] *)
Definition sizeToMapLength (pagesize size : Z) : Z :=
  let l := size in
  let l := if negb (l mod pagesize =? 0) then u64 (u64 (l / pagesize + 1) * pagesize) else l in
  if l =? 0 then pagesize else l.

(** One system call: its result (0 or [-errno]) and the remaining plan. *)
Definition call (s : t) : Z * t :=
  match calls s with
  | Some e :: rest => (Z.neg e, mk (_pagesize s) (_map s) (_len s) (_size s) rest)
  | None :: rest => (0, mk (_pagesize s) (_map s) (_len s) (_size s) rest)
  | [] => (0, s)
  end.

(** [int StorageMmap::sizeInBytes(uint64_t* s)] *)
Definition sizeInBytes (s : t) : Z * Z * t := (0, _size s, s).

(** [int StorageMmap::readBytes(uint64_t index, uint64_t size, void* buf)];
    [buf] is the buffer before the call, the result carries the buffer
    after it. *)
Definition readBytes (s : t) (index size : Z) (buf : list Z) : Z * list Z * t :=
  if u64 (index + size) >? _size s then (- EIO, buf, s)
  else (0, take (Z.to_nat size) (drop (Z.to_nat index) (_map s))
           ++ drop (Z.to_nat size) buf, s).

(** [int StorageMmap::setSizeBytes(uint64_t size)]: [setFileSize] and
    [mremap] are called only when the number of mapped pages changes;
    the mapping is then cut, or extended with the zero bytes of the new
    pages of the file.  Otherwise only [_size] is assigned. *)
Definition setSizeBytes (s : t) (size : Z) : Z * t :=
  let newLen := sizeToMapLength (_pagesize s) size in
  let '(r, s) :=
    if negb (newLen =? _len s) then
      let '(r, s) := call s in
      if negb (r =? 0) then (r, s)
      else
        let '(r, s) := call s in
        if negb (r =? 0) then (r, s)
        else (0, set_len newLen (set_map (resize (Z.to_nat newLen) 0 (_map s)) s))
    else (0, s) in
  if negb (r =? 0) then (r, s) else (0, set_size size s).

(** [int StorageMmap::writeBytes(uint64_t index, uint64_t size, const void* buf)];
    a [buf] shorter than [size] is padded with zeroes (the source reads
    past the buffer then). *)
Definition writeBytes (s : t) (index size : Z) (buf : list Z) : Z * t :=
  let '(r, s) :=
    if u64 (index + size) >? _size s then setSizeBytes s (u64 (index + size))
    else (0, s) in
  if negb (r =? 0) then (r, s)
  else
    (0, set_map
          (take (Z.to_nat index) (_map s) ++ resize (Z.to_nat size) 0 buf
           ++ drop (Z.to_nat index + Z.to_nat size) (_map s)) s).

(** [int StorageMmap::punchHoleBytes(uint64_t, uint64_t)] *)
Definition punchHoleBytes (s : t) (index size : Z) : Z * t := (0, s).

End StorageMmap.

(** ** StorageFile (storage_file.cpp): reading

    [file] are the bytes of the container file.  [pread] on a regular file
    gives the bytes from the offset to the end of the file, at most as
    many as asked for, and 0 at or behind the end; whether it fails is
    taken from the plan [calls]. *)

Module StorageFile.

Record t : Type := mk {
  file : list Z;
  calls : list (option positive)
}.

(** [pread(_fd, buf, size, index)]: the number of bytes read, or [-errno]
    where the call returns -1; the bytes are copied to the start of
    [buf]. *)
Definition pread (s : t) (buf : list Z) (size index : Z) : Z * list Z * t :=
  let data := take (Z.to_nat size) (drop (Z.to_nat index) (file s)) in
  match calls s with
  | Some e :: rest => (Z.neg e, buf, mk (file s) rest)
  | None :: rest =>
      (Z.of_nat (length data), data ++ drop (length data) buf, mk (file s) rest)
  | [] => (Z.of_nat (length data), data ++ drop (length data) buf, s)
  end.

(** [int StorageFile::readBytes(uint64_t index, uint64_t size, void* buf)]:
    [while (size > 0) { r = pread(_fd, buf, size, index);
       if (r < 0) return -errno; size -= r; index += r; } return 0;]
    (the source does not advance [buf]).  [None]: the loop is still
    running after [fuel] rounds. *)
Fixpoint readBytes (fuel : nat) (s : t) (index size : Z) (buf : list Z)
    : option (Z * list Z * t) :=
  match fuel with
  | O => None
  | S fuel' =>
      if size >? 0 then
        let '(r, buf, s) := pread s buf size index in
        if r <? 0 then Some (r, buf, s)
        else readBytes fuel' s (u64 (index + r)) (u64 (size - r)) buf
      else Some (0, buf, s)
  end.

End StorageFile.

(** ** Map (map.cpp): the allocation bitmap

    The backing Storage holds one 64-bit word per chunk. *)

Module Map.

Record t : Type := mk {
  _storage : Storage.t Z;
  _bitChunksInStorage : Z;
  _currentBitChunk : Z;
  _currentBitChunkIndex : Z;
  _currentBitChunkModified : bool;
  _firstZeroCandidate : Z
}.

Definition set_storage (s : Storage.t Z) (m : t) : t :=
  mk s (_bitChunksInStorage m) (_currentBitChunk m) (_currentBitChunkIndex m)
     (_currentBitChunkModified m) (_firstZeroCandidate m).
Definition set_bitChunksInStorage (n : Z) (m : t) : t :=
  mk (_storage m) n (_currentBitChunk m) (_currentBitChunkIndex m)
     (_currentBitChunkModified m) (_firstZeroCandidate m).
Definition set_currentBitChunk (c : Z) (m : t) : t :=
  mk (_storage m) (_bitChunksInStorage m) c (_currentBitChunkIndex m)
     (_currentBitChunkModified m) (_firstZeroCandidate m).
Definition set_currentBitChunkIndex (i : Z) (m : t) : t :=
  mk (_storage m) (_bitChunksInStorage m) (_currentBitChunk m) i
     (_currentBitChunkModified m) (_firstZeroCandidate m).
Definition set_currentBitChunkModified (b : bool) (m : t) : t :=
  mk (_storage m) (_bitChunksInStorage m) (_currentBitChunk m)
     (_currentBitChunkIndex m) b (_firstZeroCandidate m).
Definition set_firstZeroCandidate (i : Z) (m : t) : t :=
  mk (_storage m) (_bitChunksInStorage m) (_currentBitChunk m)
     (_currentBitChunkIndex m) (_currentBitChunkModified m) i.

(** [Map::Map(Storage* storage)]; the constructor sets the chunk size of
    the storage to [sizeof(uint64_t)]. *)
Definition new (storage : Storage.t Z) : t :=
  mk (Storage.mk 8 (Storage.chunks storage) (Storage.faults storage)
        (Storage.punchZeroes storage))
     0 0 InvalidIndex false 0.

Definition toBitChunkIndex (index : Z) : Z := index / 64.
Definition toBitIndex (index : Z) : Z := index mod 64.

(** [int Map::initialize()] *)
Definition initialize (m : t) : Z * t :=
  let '(r, n, s) := Storage.size (_storage m) (_bitChunksInStorage m) in
  let m := set_bitChunksInStorage n (set_storage s m) in
  if r <? 0 then (r, m)
  else
    let '(r, m) :=
      if _bitChunksInStorage m =? 0 then
        let m := set_bitChunksInStorage 1 (set_currentBitChunk 0 m) in
        let '(r, s) := Storage.setSize 0 (_storage m) (_bitChunksInStorage m) in
        (r, set_storage s m)
      else
        let '(r, c, s) := Storage.read (_storage m) 0 (_currentBitChunk m) in
        (r, set_currentBitChunk c (set_storage s m)) in
    if r <? 0 then (r, m)
    else (0, set_currentBitChunkIndex 0 m).

(** The loop of [Map::sync()]:
    [while (_currentBitChunkIndex > 1) { _currentBitChunkIndex--;
       r = _storage->read(_currentBitChunkIndex, 1, &_currentBitChunk);
       if (r < 0 || _currentBitChunk != 0) break; }].
    The index decreases in every round, so [Z.to_nat] of the index it
    starts from bounds the number of rounds. *)
Fixpoint sync_loop (n : nat) (r : Z) (m : t) : Z * t :=
  match n with
  | O => (r, m)
  | S n' =>
      if _currentBitChunkIndex m >? 1 then
        let m := set_currentBitChunkIndex (u64 (_currentBitChunkIndex m - 1)) m in
        let '(r, c, s) :=
          Storage.read (_storage m) (_currentBitChunkIndex m) (_currentBitChunk m) in
        let m := set_currentBitChunk c (set_storage s m) in
        if (r <? 0) || negb (_currentBitChunk m =? 0) then (r, m)
        else sync_loop n' r m
      else (r, m)
  end.

(** [int Map::sync()] *)
Definition sync (m : t) : Z * t * EmergencyType :=
  if _currentBitChunkIndex m >=? _bitChunksInStorage m then
    (- ENOTRECOVERABLE, m, EmergencyBug)
  else
    let '(r, m) :=
      if (_currentBitChunk m =? 0)
         && (u64 (_currentBitChunkIndex m + 1) =? _bitChunksInStorage m) then
        let m := set_bitChunksInStorage (u64 (_bitChunksInStorage m - 1)) m in
        let '(r, m) := sync_loop (Z.to_nat (_currentBitChunkIndex m)) 0 m in
        if r =? 0 then
          let '(r, s) := Storage.setSize 0 (_storage m) (_bitChunksInStorage m) in
          (r, set_storage s m)
        else (r, m)
      else if _currentBitChunkModified m then
        let '(r, s) :=
          Storage.write 0 (_storage m) (_currentBitChunkIndex m) (_currentBitChunk m) in
        (r, set_storage s m)
      else (0, m) in
    if r <? 0 then (r, m, EmergencyNone)
    else (0, set_currentBitChunkModified false m, EmergencyNone).

(** [int Map::setCurrentBitChunkIndex(uint64_t bitChunkIndex)] *)
Definition setCurrentBitChunkIndex (m : t) (bitChunkIndex : Z) : Z * t * EmergencyType :=
  if bitChunkIndex =? _currentBitChunkIndex m then (0, m, EmergencyNone)
  else
    let '(r, m, e) := sync m in
    if r <? 0 then (r, m, e)
    else
      let '(r, m) :=
        if bitChunkIndex >=? _bitChunksInStorage m then
          let m := set_bitChunksInStorage (u64 (bitChunkIndex + 1))
                     (set_currentBitChunk 0 m) in
          let '(r, s) := Storage.setSize 0 (_storage m) (_bitChunksInStorage m) in
          (r, set_storage s m)
        else
          let '(r, c, s) := Storage.read (_storage m) bitChunkIndex (_currentBitChunk m) in
          (r, set_currentBitChunk c (set_storage s m)) in
      if r <? 0 then (r, m, e)
      else (0, set_currentBitChunkIndex bitChunkIndex m, e).

(** The loop of [Map::firstZero()], started at [bitChunkIndex].  It
    returns the result of the failing [setCurrentBitChunkIndex], or 0 and
    the chunk index and bit index at the [break].  When the fuel runs
    out the result is [1], a value that the source never returns;
    [firstZero] provides fuel for more rounds than the loop can make. *)
Fixpoint firstZero_loop (fuel : nat) (m : t) (bitChunkIndex : Z)
    : Z * (Z * Z) * t * EmergencyType :=
  match fuel with
  | O => (1, (bitChunkIndex, 0), m, EmergencyNone)
  | S fuel' =>
      let '(r, m, e) := setCurrentBitChunkIndex m bitChunkIndex in
      if r <? 0 then (r, (bitChunkIndex, 0), m, e)
      else if negb (not64 (_currentBitChunk m) =? 0) then
        (0, (bitChunkIndex, ctzll (not64 (_currentBitChunk m))), m, e)
      else
        let '(r, ij, m, e') := firstZero_loop fuel' m (u64 (bitChunkIndex + 1)) in
        (r, ij, m, emergency e' e)
  end.

(** [int Map::firstZero(uint64_t* index)]; [index] is the value of the
    out-parameter before the call. *)
Definition firstZero (m : t) (index : Z) : Z * Z * t * EmergencyType :=
  let '(r, (bitChunkIndex, bitIndex), m, e) :=
    firstZero_loop (Z.to_nat (_bitChunksInStorage m) + 2) m
      (toBitChunkIndex (_firstZeroCandidate m)) in
  if r =? 0 then
    let m := set_firstZeroCandidate (u64 (bitChunkIndex * 64 + bitIndex)) m in
    (0, _firstZeroCandidate m, m, e)
  else (r, index, m, e).

(** [int Map::set(uint64_t index, bool b)] *)
Definition set (m : t) (index : Z) (b : bool) : Z * t * EmergencyType :=
  let '(r, m, e) := setCurrentBitChunkIndex m (toBitChunkIndex index) in
  if r <? 0 then (r, m, e)
  else
    let previousBitChunk := _currentBitChunk m in
    let mask := u64 (Z.shiftl 1 (toBitIndex index)) in
    let m :=
      if b then
        let m := set_currentBitChunk (Z.lor (_currentBitChunk m) mask) m in
        if index =? _firstZeroCandidate m
        then set_firstZeroCandidate (u64 (_firstZeroCandidate m + 1)) m
        else m
      else
        let m := set_currentBitChunk (Z.land (_currentBitChunk m) (not64 mask)) m in
        if index <? _firstZeroCandidate m
        then set_firstZeroCandidate index m
        else m in
    (0, set_currentBitChunkModified (negb (previousBitChunk =? _currentBitChunk m)) m, e).

(** [int Map::get(uint64_t index, bool* b)]; [b] is the value of the
    out-parameter before the call. *)
Definition get (m : t) (index : Z) (b : bool) : Z * bool * t * EmergencyType :=
  let '(r, m, e) := setCurrentBitChunkIndex m (toBitChunkIndex index) in
  if r <? 0 then (r, b, m, e)
  else
    let mask := u64 (Z.shiftl 1 (toBitIndex index)) in
    (0, negb (Z.land (_currentBitChunk m) mask =? 0), m, e).

Definition setZero (m : t) (index : Z) := set m index false.
Definition setOne (m : t) (index : Z) := set m index true.

(** [uint64_t Map::storageSizeInBytes() const] *)
Definition storageSizeInBytes (m : t) : Z :=
  u64 (_bitChunksInStorage m * Storage.chunkSize (_storage m)).

(** The allocation bit of slot [index] as the Map holds it: the bit in
    the resident chunk when the slot belongs to it, else the bit in the
    backing Storage; a chunk that does not exist has no bit set. *)
Definition bit (m : t) (index : Z) : bool :=
  if toBitChunkIndex index =? _currentBitChunkIndex m
  then Z.testbit (_currentBitChunk m) (toBitIndex index)
  else Z.testbit
         (default 0 (Storage.chunks (_storage m) !! Z.to_nat (toBitChunkIndex index)))
         (toBitIndex index).

(** A [uint64_t] value. *)
Definition word (c : Z) : Prop := 0 <= c < 2 ^ 64.

(** What the loops of the Map rely on: the resident chunk and the chunks
    of the backing Storage are 64-bit words, and the two counters are
    [uint64_t] values. *)
Definition inv (m : t) : Prop :=
  word (_currentBitChunk m)
  /\ word (_currentBitChunkIndex m)
  /\ word (_bitChunksInStorage m)
  /\ Forall word (Storage.chunks (_storage m)).

(** A Map whose slot numbers stay below [2 ^ 63], so that no slot number
    that [firstZero] computes wraps around: fewer than [2 ^ 57] chunks of
    64 bits each, and a candidate below [2 ^ 63]. *)
Definition wf (m : t) : Prop :=
  inv m
  /\ _bitChunksInStorage m < 2 ^ 57
  /\ 0 <= _firstZeroCandidate m < 2 ^ 63.

(** Bit chunk [k] as the backing Storage holds it; a chunk that does not
    exist counts as zero. *)
Definition stored (m : t) (k : Z) : Z :=
  default 0 (Storage.chunks (_storage m) !! Z.to_nat k).

(** The resident chunk and the backing Storage agree: the Storage has
    [_bitChunksInStorage] chunks, and when the resident chunk is not marked
    as modified it is the chunk that the Storage holds at its index. *)
Definition coherent (m : t) : Prop :=
  inv m
  /\ Z.of_nat (length (Storage.chunks (_storage m))) = _bitChunksInStorage m
  /\ (_currentBitChunkModified m = false ->
      stored m (_currentBitChunkIndex m) = _currentBitChunk m).

(** Bit chunk [k] as the Map sees it: the resident chunk at its index, the
    stored chunk elsewhere. *)
Definition chunkAt (m : t) (k : Z) : Z :=
  if k =? _currentBitChunkIndex m then _currentBitChunk m else stored m k.

(** The hint is sound: every slot below [_firstZeroCandidate] is set. *)
Definition hint_ok (m : t) : Prop :=
  forall j, 0 <= j < _firstZeroCandidate m -> bit m j = true.

End Map.

(** ** ChunkManager (chunk.cpp)

    A ChunkManager owns a Map and a data Storage whose chunks have contents
    of type [A]; [zero] is the all-zero content. *)

Module ChunkManager.
Section WithChunk.
Context {A : Type} (zero : A).

Record t : Type := mk {
  _map : Map.t;
  _chunks : Storage.t A;
  _punchHolesForEmptyChunks : bool;
  _chunksInStorage : Z
}.

Definition set_map (m : Map.t) (c : t) : t :=
  mk m (_chunks c) (_punchHolesForEmptyChunks c) (_chunksInStorage c).
Definition set_chunks (s : Storage.t A) (c : t) : t :=
  mk (_map c) s (_punchHolesForEmptyChunks c) (_chunksInStorage c).
Definition set_chunksInStorage (n : Z) (c : t) : t :=
  mk (_map c) (_chunks c) (_punchHolesForEmptyChunks c) n.

(** [ChunkManager::ChunkManager(map, storage, chunkSize, punchHoles)] *)
Definition new (map : Map.t) (storage : Storage.t A) (chunkSize : Z)
    (punchHolesForEmptyChunks : bool) : t :=
  mk map
     (Storage.mk chunkSize (Storage.chunks storage) (Storage.faults storage)
        (Storage.punchZeroes storage))
     punchHolesForEmptyChunks 0.

Definition chunkSize (c : t) : Z := Storage.chunkSize (_chunks c).

(** [int ChunkManager::initialize()] *)
Definition initialize (c : t) : Z * t :=
  let '(r, m) := Map.initialize (_map c) in
  let c := set_map m c in
  if r =? 0 then
    let '(r, n, s) := Storage.size (_chunks c) (_chunksInStorage c) in
    (r, set_chunksInStorage n (set_chunks s c))
  else (r, c).

Definition chunksInStorage (c : t) : Z := _chunksInStorage c.

(** [int ChunkManager::sync()] *)
Definition sync (c : t) : Z * t * EmergencyType :=
  let '(r, m, e) := Map.sync (_map c) in
  (r, set_map m c, e).

(** [int ChunkManager::add(uint64_t* index, const void* buf)]; [index] is
    the value of the out-parameter before the call. *)
Definition add (c : t) (index : Z) (buf : A) : Z * Z * t * EmergencyType :=
  let '(r, index, m, e) := Map.firstZero (_map c) index in
  let c := set_map m c in
  let '(r, c, e) :=
    if r =? 0 then
      let '(r, m, e') := Map.setOne (_map c) index in
      (r, set_map m c, emergency e' e)
    else (r, c, e) in
  let '(r, c, e) :=
    if (r =? 0) && (index >=? _chunksInStorage c) then
      let c := set_chunksInStorage (u64 (index + 1)) c in
      let '(r, s) := Storage.setSize zero (_chunks c) (_chunksInStorage c) in
      let c := set_chunks s c in
      if r <? 0 then
        let '(r2, m, e') := Map.setZero (_map c) index in
        (r, set_map m c, emergency e' e)
      else (r, c, e)
    else (r, c, e) in
  if r =? 0 then
    let '(r, s) := Storage.write zero (_chunks c) index buf in
    let c := set_chunks s c in
    if r <? 0 then
      let '(r2, m, e') := Map.setZero (_map c) index in
      let c := set_map m c in
      let e := emergency e' e in
      if (r2 =? 0) && (u64 (index + 1) =? _chunksInStorage c) then
        let c := set_chunksInStorage (u64 (_chunksInStorage c - 1)) c in
        let '(r2, s) := Storage.setSize zero (_chunks c) (_chunksInStorage c) in
        (r, index, set_chunks s c, e)
      else (r, index, c, e)
    else (r, index, c, e)
  else (r, index, c, e).

(** The loop of [ChunkManager::remove()]:
    [while (index > 0) { index--; r2 = _map->get(index, &b);
       if (r2 < 0) { emergency(EmergencySystemFailure);
                     r = -ENOTRECOVERABLE; break; }
       if (b) break; _chunksInStorage--; }] *)
Fixpoint remove_loop (n : nat) (c : t) (index : Z) (r : Z) (e : EmergencyType)
    : Z * t * EmergencyType :=
  match n with
  | O => (r, c, e)
  | S n' =>
      if index >? 0 then
        let index := u64 (index - 1) in
        let '(r2, b, m, e') := Map.get (_map c) index false in
        let c := set_map m c in
        let e := emergency e' e in
        if r2 <? 0 then (- ENOTRECOVERABLE, c, emergency EmergencySystemFailure e)
        else if b then (r, c, e)
        else remove_loop n' (set_chunksInStorage (u64 (_chunksInStorage c - 1)) c) index r e
      else (r, c, e)
  end.

(** [int ChunkManager::remove(uint64_t index)] *)
Definition remove (c : t) (index : Z) : Z * t * EmergencyType :=
  if index >=? _chunksInStorage c then (- ENOTRECOVERABLE, c, EmergencyBug)
  else
    let '(r, m, e) := Map.setZero (_map c) index in
    let c := set_map m c in
    if r =? 0 then
      if u64 (index + 1) =? _chunksInStorage c then
        let c := set_chunksInStorage (u64 (_chunksInStorage c - 1)) c in
        let '(r, c, e) := remove_loop (Z.to_nat index) c index r e in
        if r =? 0 then
          let '(r2, s) := Storage.setSize zero (_chunks c) (_chunksInStorage c) in
          let c := set_chunks s c in
          if r2 <? 0 then (- ENOTRECOVERABLE, c, emergency EmergencySystemFailure e)
          else (r, c, e)
        else (r, c, e)
      else if _punchHolesForEmptyChunks c then
        let '(r2, s) := Storage.punchHole zero (_chunks c) index in
        (r, set_chunks s c, e)
      else (r, c, e)
    else (r, c, e).

(** [int ChunkManager::read(uint64_t index, void* buf)] *)
Definition read (c : t) (index : Z) (buf : A) : Z * A * t * EmergencyType :=
  if index >=? _chunksInStorage c then (- ENOTRECOVERABLE, buf, c, EmergencyBug)
  else
    let '(r, buf, s) := Storage.read (_chunks c) index buf in
    (r, buf, set_chunks s c, EmergencyNone).

(** [int ChunkManager::write(uint64_t index, const void* buf)] *)
Definition write (c : t) (index : Z) (buf : A) : Z * t * EmergencyType :=
  if index >=? _chunksInStorage c then (- ENOTRECOVERABLE, c, EmergencyBug)
  else
    let '(r, s) := Storage.write zero (_chunks c) index buf in
    (r, set_chunks s c, EmergencyNone).

(** [uint64_t ChunkManager::storageSizeInBytes() const] *)
Definition storageSizeInBytes (c : t) : Z :=
  u64 (u64 (_chunksInStorage c * Storage.chunkSize (_chunks c))
       + Map.storageSizeInBytes (_map c)).

End WithChunk.
Arguments t : clear implicits.
End ChunkManager.

(** ** The encryption frame (encrypt.hpp, encrypt.cpp)

    [crypto_secretbox_easy], [crypto_secretbox_open_easy] and
    [randombytes_buf] belong to libsodium.  The two secretbox functions are
    parameters of the section; the 24 random bytes that [randombytes_buf]
    writes are the argument [nonce] of [enc].  Buffers are lists of bytes.
    [dec] also reports how often it called [crypto_secretbox_open_easy]. *)

Module Encrypt.

Definition crypto_secretbox_KEYBYTES : Z := 32.
Definition crypto_secretbox_NONCEBYTES : Z := 24.
Definition crypto_secretbox_MACBYTES : Z := 16.

(** [constexpr size_t EncOverhead = 1 + NONCEBYTES + MACBYTES] *)
Definition EncOverhead : Z :=
  1 + crypto_secretbox_NONCEBYTES + crypto_secretbox_MACBYTES.

Section WithSecretbox.
(** [crypto_secretbox_easy(c, m, mlen, n, k)]: the ciphertext [c] (tag
    and encrypted message) for the message, the nonce and the key. *)
Variable crypto_secretbox_easy : list Z -> list Z -> list Z -> list Z.
(** [crypto_secretbox_open_easy(m, c, clen, n, k)]: [Some m] when it
    returns 0, [None] when the verification fails. *)
Variable crypto_secretbox_open_easy : list Z -> list Z -> list Z -> option (list Z).

(** [void enc(key, msg, msgSize, out)]; the result is [out]. *)
Definition enc (key : list Z) (msg : list Z) (msgSize : Z) (nonce : list Z) : list Z :=
  255 :: nonce ++ crypto_secretbox_easy (take (Z.to_nat msgSize) msg) nonce key.

(** [int dec(key, in, inSize, msg, msgSize)]; [msg] is the output buffer
    before the call; the result is the returned value, the output buffer
    and the number of calls of [crypto_secretbox_open_easy]. *)
Definition dec (key : list Z) (input : list Z) (inSize : Z) (msg : list Z) (msgSize : Z)
    : Z * list Z * nat :=
  let nonce := take (Z.to_nat crypto_secretbox_NONCEBYTES) (drop 1 input) in
  let ciphertextLen := inSize - crypto_secretbox_NONCEBYTES - 1 in
  let ciphertext :=
    take (Z.to_nat ciphertextLen)
      (drop (Z.to_nat (1 + crypto_secretbox_NONCEBYTES)) input) in
  if default 0 (input !! 0%nat) =? 0 then
    (0, replicate (Z.to_nat msgSize) 0, 0%nat)
  else
    match crypto_secretbox_open_easy ciphertext nonce key with
    | Some m => (0, m, 1%nat)
    | None => (- EIO, msg, 1%nat)
    end.

End WithSecretbox.
End Encrypt.

(** ** Time (time.cpp) *)

Module Time.
(** Modelled from the spec: time.hpp is not among the sources; a time is
    [seconds:i64, nanoseconds:u32]. *)
Record t : Type := mk {
  seconds : Z;
  nanoseconds : Z
}.

#[global] Instance eq_dec : EqDecision t.
Proof. solve_decision. Defined.

(** [bool Time::isOlderThan(const Time& t) const] *)
Definition isOlderThan (self other : t) : bool :=
  (seconds self <? seconds other)
  || ((seconds self =? seconds other) && (nanoseconds self <? nanoseconds other)).
End Time.

(** ** Inode (inode.hpp, inode.cpp)

    The constants are octal in the source: [TypeMask = 0170000],
    [TypeREG = 0100000], [TypeDIR = 0040000], [ModeSUID = 04000], ... *)

Definition TypeMask : Z := 0xF000.
Definition TypeSOCK : Z := 0xC000.
Definition TypeLNK : Z := 0xA000.
Definition TypeREG : Z := 0x8000.
Definition TypeBLK : Z := 0x6000.
Definition TypeDIR : Z := 0x4000.
Definition TypeCHR : Z := 0x2000.
Definition TypeFIFO : Z := 0x1000.

Definition ModeMask : Z := 0xFFF.
Definition ModeSUID : Z := 0x800.
Definition ModeSGID : Z := 0x400.
Definition ModeSVTX : Z := 0x200.
Definition ModeRWXU : Z := 0x1C0.

(** [~x] on a [uint32_t]. *)
Definition not32 (x : Z) : Z := Z.lnot x mod 2 ^ 32.

Module Inode.
Record t : Type := mk {
  atime : Time.t;
  ctime : Time.t;
  mtime : Time.t;
  uid : Z;
  gid : Z;
  typeAndMode : Z;
  nlink : Z;
  rdev : Z;
  size : Z;
  slotTrees : list Z;   (* uint64_t slotTrees[5] *)
  xattrIndex : Z
}.

#[global] Instance eq_dec : EqDecision t.
Proof. solve_decision. Defined.

Definition set_atime (v : Time.t) (i : t) : t :=
  mk v (ctime i) (mtime i) (uid i) (gid i) (typeAndMode i) (nlink i) (rdev i)
    (size i) (slotTrees i) (xattrIndex i).
Definition set_ctime (v : Time.t) (i : t) : t :=
  mk (atime i) v (mtime i) (uid i) (gid i) (typeAndMode i) (nlink i) (rdev i)
    (size i) (slotTrees i) (xattrIndex i).
Definition set_mtime (v : Time.t) (i : t) : t :=
  mk (atime i) (ctime i) v (uid i) (gid i) (typeAndMode i) (nlink i) (rdev i)
    (size i) (slotTrees i) (xattrIndex i).
Definition set_uid (v : Z) (i : t) : t :=
  mk (atime i) (ctime i) (mtime i) v (gid i) (typeAndMode i) (nlink i) (rdev i)
    (size i) (slotTrees i) (xattrIndex i).
Definition set_gid (v : Z) (i : t) : t :=
  mk (atime i) (ctime i) (mtime i) (uid i) v (typeAndMode i) (nlink i) (rdev i)
    (size i) (slotTrees i) (xattrIndex i).
Definition set_typeAndMode (v : Z) (i : t) : t :=
  mk (atime i) (ctime i) (mtime i) (uid i) (gid i) v (nlink i) (rdev i)
    (size i) (slotTrees i) (xattrIndex i).
Definition set_nlink (v : Z) (i : t) : t :=
  mk (atime i) (ctime i) (mtime i) (uid i) (gid i) (typeAndMode i) v (rdev i)
    (size i) (slotTrees i) (xattrIndex i).
Definition set_rdev (v : Z) (i : t) : t :=
  mk (atime i) (ctime i) (mtime i) (uid i) (gid i) (typeAndMode i) (nlink i) v
    (size i) (slotTrees i) (xattrIndex i).
Definition set_size (v : Z) (i : t) : t :=
  mk (atime i) (ctime i) (mtime i) (uid i) (gid i) (typeAndMode i) (nlink i) (rdev i)
    v (slotTrees i) (xattrIndex i).
Definition set_slotTrees (v : list Z) (i : t) : t :=
  mk (atime i) (ctime i) (mtime i) (uid i) (gid i) (typeAndMode i) (nlink i) (rdev i)
    (size i) v (xattrIndex i).

(** [uint32_t type() const { return typeAndMode & TypeMask; }] *)
Definition type (i : t) : Z := Z.land (typeAndMode i) TypeMask.

(** The content of a chunk of zero bytes read as an inode. *)
Definition zero : t :=
  mk (Time.mk 0 0) (Time.mk 0 0) (Time.mk 0 0) 0 0 0 0 0 0 [0; 0; 0; 0; 0] 0.

(** [Inode::Inode()] *)
Definition new : t :=
  mk (Time.mk 0 0) (Time.mk 0 0) (Time.mk 0 0) 0 0 0 0 0 0
    [InvalidIndex; InvalidIndex; InvalidIndex; InvalidIndex; InvalidIndex]
    InvalidIndex.

(** [slotTrees[k]] and [slotTrees[k] = v] *)
Definition slotTree (i : t) (k : Z) : Z :=
  default 0 (slotTrees i !! Z.to_nat k).
Definition set_slotTree (k : Z) (v : Z) (i : t) : t :=
  set_slotTrees (<[Z.to_nat k := v]> (slotTrees i)) i.

(** [Inode Inode::empty()]; [now] is [Time::now()], [euid] and [egid] are
    [geteuid()] and [getegid()]. *)
Definition empty (now : Time.t) (euid egid : Z) : t :=
  set_nlink 1 (set_gid egid (set_uid euid
    (set_mtime now (set_ctime now (set_atime now new))))).

(** [Inode Inode::directory(const Inode* parent, uint32_t mode)] *)
Definition directory (now : Time.t) (euid egid : Z) (parent : option t) (mode : Z) : t :=
  let inode := empty now euid egid in
  let sgid :=
    match parent with
    | Some p => negb (Z.land (typeAndMode p) ModeSGID =? 0)
    | None => false
    end in
  let inode := if sgid then set_gid (gid (default zero parent)) inode else inode in
  let inode := set_typeAndMode (Z.lor TypeDIR (Z.land (not32 TypeMask) mode)) inode in
  let inode :=
    if sgid then set_typeAndMode (Z.lor (typeAndMode inode) ModeSGID) inode else inode in
  set_nlink 2 inode.

(** [Inode Inode::node(uint32_t typeAndMode, uint64_t rdev)] *)
Definition node (now : Time.t) (euid egid : Z) (typeAndMode' : Z) (rdev' : Z) : t :=
  set_rdev rdev' (set_typeAndMode typeAndMode' (empty now euid egid)).

(** [Inode Inode::symlink(size_t targetLen, uint64_t blockIndex)] *)
Definition symlink (now : Time.t) (euid egid : Z) (targetLen : Z) (blockIndex : Z) : t :=
  set_slotTree 0 blockIndex (set_size targetLen
    (set_typeAndMode TypeLNK (empty now euid egid))).
End Inode.

(** ** Dirent *)

Module Dirent.
(** Modelled from the spec: dirent.hpp is not among the sources.  A
    directory entry is a null-terminated name in a buffer of 256 bytes
    (255 bytes of content and the terminator) and the target
    [inodeIndex].  The name is kept as the string before the terminator. *)
Record t : Type := mk {
  name : string;
  inodeIndex : Z
}.

Definition set_name (v : string) (d : t) : t := mk v (inodeIndex d).

(** [sizeof(Dirent::name)] *)
Definition nameSize : Z := 256.

(** The content of a chunk of zero bytes read as a directory entry. *)
Definition zero : t := mk "" 0.
End Dirent.

(** ** Block (block.hpp)

    A block is 4096 bytes; the union members [data], [indices] and
    [target] are views of the same bytes.  The model keeps the bytes and
    reads [indices[j]] as the little-endian 64-bit word at byte [8*j]. *)

Definition Block : Type := list Z.

Module Block.
(** [sizeof(Block)] *)
Definition size : Z := 4096.

Definition zero : Block := replicate 4096 0.

(** Modelled from the spec: block.cpp is not among the sources.  A data
    block is initialized with zeroes, an indirection block with all
    entries [InvalidIndex]. *)
Definition initializeData : Block := replicate 4096 0.
Definition initializeIndices : Block := replicate 4096 255.

Definition le64 (l : list Z) : Z := foldr (fun b acc => b + 256 * acc) 0 l.
Definition bytes64 (v : Z) : list Z :=
  (fun k => (v / 256 ^ k) mod 256) <$> [0; 1; 2; 3; 4; 5; 6; 7].

(** [b.indices[j]] *)
Definition index (b : Block) (j : Z) : Z :=
  le64 (take 8 (drop (8 * Z.to_nat j) b)).
(** [b.indices[j] = v] *)
Definition set_index (b : Block) (j : Z) (v : Z) : Block :=
  take (8 * Z.to_nat j) b ++ bytes64 v ++ drop (8 * Z.to_nat j + 8) b.

(** [memcpy(b.data + off, buf, len)]; a [buf] shorter than [len] is
    padded with zeroes (the source reads past the buffer then). *)
Definition memcpy_in (b : Block) (off : Z) (buf : list Z) (len : Z) : Block :=
  take (Z.to_nat off) b ++ resize (Z.to_nat len) 0 buf
    ++ drop (Z.to_nat off + Z.to_nat len) b.
(** [memset(b.data + off, 0, len)] *)
Definition memset0 (b : Block) (off : Z) (len : Z) : Block :=
  take (Z.to_nat off) b ++ replicate (Z.to_nat len) 0
    ++ drop (Z.to_nat off + Z.to_nat len) b.
End Block.

(** ** Handle (handle.hpp): the state of a handle *)

Record Handle : Type := mkHandle {
  _inodeIndex : Z;
  _inode : Inode.t;
  _slotCount : Z;
  _readOnly : bool;
  _append : bool;
  _refCount : Z;
  _removeOnceUnused : bool;
  _cachedBlockIndices : list Z;   (* uint64_t _cachedBlockIndices[4] *)
  _cachedBlocks : list Block      (* Block _cachedBlocks[4] *)
}.

Definition set_inode (v : Inode.t) (h : Handle) : Handle :=
  mkHandle (_inodeIndex h) v (_slotCount h) (_readOnly h) (_append h) (_refCount h)
    (_removeOnceUnused h) (_cachedBlockIndices h) (_cachedBlocks h).
Definition set_slotCount (v : Z) (h : Handle) : Handle :=
  mkHandle (_inodeIndex h) (_inode h) v (_readOnly h) (_append h) (_refCount h)
    (_removeOnceUnused h) (_cachedBlockIndices h) (_cachedBlocks h).
Definition set_refCount (v : Z) (h : Handle) : Handle :=
  mkHandle (_inodeIndex h) (_inode h) (_slotCount h) (_readOnly h) (_append h) v
    (_removeOnceUnused h) (_cachedBlockIndices h) (_cachedBlocks h).
Definition set_removeOnceUnused (v : bool) (h : Handle) : Handle :=
  mkHandle (_inodeIndex h) (_inode h) (_slotCount h) (_readOnly h) (_append h)
    (_refCount h) v (_cachedBlockIndices h) (_cachedBlocks h).
Definition set_cachedBlockIndices (v : list Z) (h : Handle) : Handle :=
  mkHandle (_inodeIndex h) (_inode h) (_slotCount h) (_readOnly h) (_append h)
    (_refCount h) (_removeOnceUnused h) v (_cachedBlocks h).
Definition set_cachedBlocks (v : list Block) (h : Handle) : Handle :=
  mkHandle (_inodeIndex h) (_inode h) (_slotCount h) (_readOnly h) (_append h)
    (_refCount h) (_removeOnceUnused h) (_cachedBlockIndices h) v.

(** ** Base (base.hpp, base.cpp)

    The model is of a Base without key: [encrypt()] is false and the
    gateway methods ([inodeWrite], [blockRead], ...) pass the records to
    the raw methods unchanged.  [emergencyType] is the process-global latch
    of emergency.cpp. *)

Record Base : Type := mkBase {
  _maxSize : Z;
  _punchHoles : bool;
  _inodeMgr : ChunkManager.t Inode.t;
  _direntMgr : ChunkManager.t Dirent.t;
  _blockMgr : ChunkManager.t Block;
  _handleMap : gmap Z Handle;
  emergencyType : EmergencyType
}.

Definition set_inodeMgr (v : ChunkManager.t Inode.t) (b : Base) : Base :=
  mkBase (_maxSize b) (_punchHoles b) v (_direntMgr b) (_blockMgr b) (_handleMap b)
    (emergencyType b).
Definition set_direntMgr (v : ChunkManager.t Dirent.t) (b : Base) : Base :=
  mkBase (_maxSize b) (_punchHoles b) (_inodeMgr b) v (_blockMgr b) (_handleMap b)
    (emergencyType b).
Definition set_blockMgr (v : ChunkManager.t Block) (b : Base) : Base :=
  mkBase (_maxSize b) (_punchHoles b) (_inodeMgr b) (_direntMgr b) v (_handleMap b)
    (emergencyType b).
Definition set_handleMap (v : gmap Z Handle) (b : Base) : Base :=
  mkBase (_maxSize b) (_punchHoles b) (_inodeMgr b) (_direntMgr b) (_blockMgr b) v
    (emergencyType b).
Definition set_emergencyType (v : EmergencyType) (b : Base) : Base :=
  mkBase (_maxSize b) (_punchHoles b) (_inodeMgr b) (_direntMgr b) (_blockMgr b)
    (_handleMap b) v.

(** A call of [emergency(t)] (possibly inside a lower layer, which reports
    it as [t]; [EmergencyNone] when there was none). *)
Definition raise (t : EmergencyType) (b : Base) : Base :=
  set_emergencyType (emergency t (emergencyType b)) b.

Module Base.

(** [uint64_t Base::storageSizeInBytes() const] *)
Definition storageSizeInBytes (b : Base) : Z :=
  u64 (u64 (ChunkManager.storageSizeInBytes (_inodeMgr b)
            + ChunkManager.storageSizeInBytes (_direntMgr b))
       + ChunkManager.storageSizeInBytes (_blockMgr b)).

(** [int Base::checkWriteAction(uint64_t additionalBytes) const] *)
Definition checkWriteAction (b : Base) (additionalBytes : Z) : Z :=
  if negb (EmergencyType_eqb (emergencyType b) EmergencyNone) then - EROFS
  else if (_maxSize b >? 0) && (additionalBytes >? 0) then
    let additionalBytes := u64 (additionalBytes + 4 * Block.size) in
    if u64 (storageSizeInBytes b + additionalBytes) >? _maxSize b then - ENOSPC
    else 0
  else 0.

(** [inodeAdd] = [inodeAddRaw] = [entityAddRaw(_inodeMgr, ...)], and so on
    for the other eleven gateway methods. *)
Definition inodeAdd (b : Base) (index : Z) (inode : Inode.t) : Z * Z * Base :=
  let r := checkWriteAction b (ChunkManager.chunkSize (_inodeMgr b)) in
  if r =? 0 then
    let '(r, index, mgr, e) := ChunkManager.add Inode.zero (_inodeMgr b) index inode in
    (r, index, raise e (set_inodeMgr mgr b))
  else (r, index, b).

Definition inodeRemove (b : Base) (index : Z) : Z * Base :=
  let r := checkWriteAction b 0 in
  if r =? 0 then
    let '(r, mgr, e) := ChunkManager.remove Inode.zero (_inodeMgr b) index in
    (r, raise e (set_inodeMgr mgr b))
  else (r, b).

Definition inodeRead (b : Base) (index : Z) (inode : Inode.t) : Z * Inode.t * Base :=
  let '(r, inode, mgr, e) := ChunkManager.read (_inodeMgr b) index inode in
  (r, inode, raise e (set_inodeMgr mgr b)).

Definition inodeWrite (b : Base) (index : Z) (inode : Inode.t) : Z * Base :=
  let '(r, mgr, e) := ChunkManager.write Inode.zero (_inodeMgr b) index inode in
  (r, raise e (set_inodeMgr mgr b)).

Definition direntAdd (b : Base) (index : Z) (dirent : Dirent.t) : Z * Z * Base :=
  let r := checkWriteAction b (ChunkManager.chunkSize (_direntMgr b)) in
  if r =? 0 then
    let '(r, index, mgr, e) := ChunkManager.add Dirent.zero (_direntMgr b) index dirent in
    (r, index, raise e (set_direntMgr mgr b))
  else (r, index, b).

Definition direntRemove (b : Base) (index : Z) : Z * Base :=
  let r := checkWriteAction b 0 in
  if r =? 0 then
    let '(r, mgr, e) := ChunkManager.remove Dirent.zero (_direntMgr b) index in
    (r, raise e (set_direntMgr mgr b))
  else (r, b).

Definition direntRead (b : Base) (index : Z) (dirent : Dirent.t) : Z * Dirent.t * Base :=
  let '(r, dirent, mgr, e) := ChunkManager.read (_direntMgr b) index dirent in
  (r, dirent, raise e (set_direntMgr mgr b)).

Definition direntWrite (b : Base) (index : Z) (dirent : Dirent.t) : Z * Base :=
  let '(r, mgr, e) := ChunkManager.write Dirent.zero (_direntMgr b) index dirent in
  (r, raise e (set_direntMgr mgr b)).

Definition blockAdd (b : Base) (index : Z) (block : Block) : Z * Z * Base :=
  let r := checkWriteAction b (ChunkManager.chunkSize (_blockMgr b)) in
  if r =? 0 then
    let '(r, index, mgr, e) := ChunkManager.add Block.zero (_blockMgr b) index block in
    (r, index, raise e (set_blockMgr mgr b))
  else (r, index, b).

Definition blockRemove (b : Base) (index : Z) : Z * Base :=
  let r := checkWriteAction b 0 in
  if r =? 0 then
    let '(r, mgr, e) := ChunkManager.remove Block.zero (_blockMgr b) index in
    (r, raise e (set_blockMgr mgr b))
  else (r, b).

Definition blockRead (b : Base) (index : Z) (block : Block) : Z * Block * Base :=
  let '(r, block, mgr, e) := ChunkManager.read (_blockMgr b) index block in
  (r, block, raise e (set_blockMgr mgr b)).

Definition blockWrite (b : Base) (index : Z) (block : Block) : Z * Base :=
  let '(r, mgr, e) := ChunkManager.write Block.zero (_blockMgr b) index block in
  (r, raise e (set_blockMgr mgr b)).

(** [int Base::initialize(std::string& errStr, bool* needsRootNode)].
    The six arguments are the six containers as the backends open them;
    [sizeofInode] and [sizeofDirent] stand for [sizeof(Inode)] and
    [sizeof(Dirent)], which depend on headers that are not among the
    sources.  When the result is negative the source deletes all parts
    of the Base; the Base returned by the model is not to be used then. *)
Definition initialize (maxSize : Z) (punchHoles : bool) (sizeofInode sizeofDirent : Z)
    (inodeMapStorage : Storage.t Z) (inodeChunkStorage : Storage.t Inode.t)
    (direntMapStorage : Storage.t Z) (direntChunkStorage : Storage.t Dirent.t)
    (blockMapStorage : Storage.t Z) (blockChunkStorage : Storage.t Block)
    (latch : EmergencyType) : Z * bool * Base :=
  let inodeMgr := ChunkManager.new (Map.new inodeMapStorage) inodeChunkStorage
                    sizeofInode false in
  let direntMgr := ChunkManager.new (Map.new direntMapStorage) direntChunkStorage
                     sizeofDirent false in
  let blockMgr := ChunkManager.new (Map.new blockMapStorage) blockChunkStorage
                    Block.size punchHoles in
  let '(r, inodeMgr) := ChunkManager.initialize inodeMgr in
  let '(r, direntMgr) :=
    if r =? 0 then ChunkManager.initialize direntMgr else (r, direntMgr) in
  let '(r, blockMgr) :=
    if r =? 0 then ChunkManager.initialize blockMgr else (r, blockMgr) in
  let b := mkBase maxSize punchHoles inodeMgr direntMgr blockMgr ∅ latch in
  let needsRootNode := (r =? 0) && (ChunkManager.chunksInStorage inodeMgr =? 0) in
  if (r =? 0) && negb needsRootNode then
    let '(r, inode, b) := inodeRead b 0 Inode.new in
    if (r =? 0) && negb (Z.shiftr (Inode.typeAndMode inode) 16 =? 0)
    then (- EBADF, needsRootNode, b)
    else (r, needsRootNode, b)
  else (r, needsRootNode, b).

(** [int Base::createRootNode()] *)
Definition createRootNode (now : Time.t) (euid egid : Z) (b : Base) : Z * Base :=
  let root := Inode.directory now euid egid None ModeRWXU in
  let '(r, rootIndex, b) := inodeAdd b 0 root in
  (r, b).

(** [int Base::cleanup()]: the three managers are synced and the six
    containers closed (the statistics that the source logs are not
    modelled); the result is the first negative one of the nine results.
    The source deletes the parts of the Base; what is left of the Base
    returned by the model are the containers. *)
Definition cleanup (b : Base) : Z * Base :=
  let '(r0, blockMgr, e0) := ChunkManager.sync (_blockMgr b) in
  let '(r1, blockChunks) := Storage.close (ChunkManager._chunks blockMgr) in
  let '(r2, blockMap) := Storage.close (Map._storage (ChunkManager._map blockMgr)) in
  let blockMgr :=
    ChunkManager.set_map (Map.set_storage blockMap (ChunkManager._map blockMgr))
      (ChunkManager.set_chunks blockChunks blockMgr) in
  let '(r3, direntMgr, e3) := ChunkManager.sync (_direntMgr b) in
  let '(r4, direntChunks) := Storage.close (ChunkManager._chunks direntMgr) in
  let '(r5, direntMap) := Storage.close (Map._storage (ChunkManager._map direntMgr)) in
  let direntMgr :=
    ChunkManager.set_map (Map.set_storage direntMap (ChunkManager._map direntMgr))
      (ChunkManager.set_chunks direntChunks direntMgr) in
  let '(r6, inodeMgr, e6) := ChunkManager.sync (_inodeMgr b) in
  let '(r7, inodeChunks) := Storage.close (ChunkManager._chunks inodeMgr) in
  let '(r8, inodeMap) := Storage.close (Map._storage (ChunkManager._map inodeMgr)) in
  let inodeMgr :=
    ChunkManager.set_map (Map.set_storage inodeMap (ChunkManager._map inodeMgr))
      (ChunkManager.set_chunks inodeChunks inodeMgr) in
  let b := raise e6 (raise e3 (raise e0
             (set_inodeMgr inodeMgr (set_direntMgr direntMgr (set_blockMgr blockMgr b))))) in
  (default 0 (head (filter (fun r => r < 0) [r0; r1; r2; r3; r4; r5; r6; r7; r8])), b).

End Base.

(** ** Handle (handle.cpp)

    A method of a Handle works on the handle's own state and, through the
    [_base] pointer, on the Base; it takes and returns both.
    [Time::now()] is the argument [now]. *)

Module Handle.

(** [N = sizeof(Block) / sizeof(uint64_t)] *)
Definition N : Z := 512.
Definition maxSlotCount : Z := 1 + N + N * N + N * N * N + N * N * N * N.

(** [(int64_t)x] for a [uint64_t] x. *)
Definition to_int64 (x : Z) : Z := (x + 2 ^ 63) mod 2 ^ 64 - 2 ^ 63.

(** [static uint64_t slotCount(const Inode& inode)] *)
Definition inodeSlotCount (inode : Inode.t) : Z :=
  if Inode.type inode =? TypeREG then
    u64 (Inode.size inode / Block.size + (if negb (Inode.size inode mod Block.size =? 0) then 1 else 0))
  else if Inode.type inode =? TypeDIR then Inode.size inode
  else 0.

(** [Handle::Handle(Base* base, uint64_t inodeIndex, const Inode& inode)] *)
Definition new (inodeIndex : Z) (inode : Inode.t) : Handle :=
  mkHandle inodeIndex inode (inodeSlotCount inode) false false 0 false
    [InvalidIndex; InvalidIndex; InvalidIndex; InvalidIndex]
    [Block.zero; Block.zero; Block.zero; Block.zero].

Definition cachedBlockIndex (h : Handle) (l : Z) : Z :=
  default 0 (_cachedBlockIndices h !! Z.to_nat l).
Definition cachedBlock (h : Handle) (l : Z) : Block :=
  default [] (_cachedBlocks h !! Z.to_nat l).
Definition set_cachedBlockIndex (l : Z) (v : Z) (h : Handle) : Handle :=
  set_cachedBlockIndices (<[Z.to_nat l := v]> (_cachedBlockIndices h)) h.
Definition set_cachedBlock (l : Z) (v : Block) (h : Handle) : Handle :=
  set_cachedBlocks (<[Z.to_nat l := v]> (_cachedBlocks h)) h.

(** [bool Handle::updateATime()] *)
Definition updateATime (now : Time.t) (h : Handle) : bool * Handle :=
  let nowMinus24hrs := Time.mk (Time.seconds now - 60 * 60 * 24) (Time.nanoseconds now) in
  if Time.isOlderThan (Inode.atime (_inode h)) (Inode.ctime (_inode h))
     || Time.isOlderThan (Inode.atime (_inode h)) (Inode.mtime (_inode h))
     || Time.isOlderThan (Inode.atime (_inode h)) nowMinus24hrs
  then (true, set_inode (Inode.set_atime now (_inode h)) h)
  else (false, h).

(** [void Handle::slotToTreeIndices(uint64_t slot, int* tree, uint64_t ijkl[4])] *)
Definition slotToTreeIndices (slot : Z) : Z * list Z :=
  if slot =? 0 then (0, [InvalidIndex; InvalidIndex; InvalidIndex; InvalidIndex])
  else
    let slot := u64 (slot - 1) in
    if slot <? N then (1, [slot; InvalidIndex; InvalidIndex; InvalidIndex])
    else
      let slot := u64 (slot - N) in
      if slot <? N * N then
        let i := slot / N in
        let slot := u64 (slot - i * N) in
        (2, [i; slot mod N; InvalidIndex; InvalidIndex])
      else
        let slot := u64 (slot - N * N) in
        if slot <? N * N * N then
          let i := slot / (N * N) in
          let slot := u64 (slot - i * (N * N)) in
          let j := slot / N in
          let slot := u64 (slot - j * N) in
          (3, [i; j; slot mod N; InvalidIndex])
        else
          let slot := u64 (slot - N * N * N) in
          let i := slot / (N * N * N) in
          let slot := u64 (slot - i * (N * N * N)) in
          let j := slot / (N * N) in
          let slot := u64 (slot - j * (N * N)) in
          let k := slot / N in
          let slot := u64 (slot - k * N) in
          (4, [i; j; k; slot mod N]).

Definition ijkl_at (ijkl : list Z) (l : Z) : Z := default 0 (ijkl !! Z.to_nat l).

(** [int Handle::cacheBlock(int treeLevel, uint64_t blockIndex)] *)
Definition cacheBlock (b : Base) (h : Handle) (treeLevel : Z) (blockIndex : Z)
    : Z * Base * Handle :=
  if negb (cachedBlockIndex h treeLevel =? blockIndex) then
    let '(r, blk, b) := Base.blockRead b blockIndex (cachedBlock h treeLevel) in
    let h := set_cachedBlock treeLevel blk h in
    (r, b, set_cachedBlockIndex treeLevel (if r =? 0 then blockIndex else InvalidIndex) h)
  else (0, b, h).

(** [uint64_t Handle::slotCount() const] *)
Definition slotCount (h : Handle) : Z := _slotCount h.

(** The loop of [Handle::getSlot()] over the levels [l < tree]; [n] counts
    the levels that remain. *)
Fixpoint getSlot_loop (n : nat) (b : Base) (h : Handle) (tree : Z) (ijkl : list Z)
    (l : Z) (blockIndex : Z) (index : Z) : Z * Z * Base * Handle :=
  match n with
  | O => (0, index, b, h)
  | S n' =>
      if blockIndex =? InvalidIndex then (0, InvalidIndex, b, h)
      else
        let '(r, b, h) := cacheBlock b h l blockIndex in
        if r <? 0 then (r, index, b, h)
        else if l =? tree - 1 then
          (0, Block.index (cachedBlock h l) (ijkl_at ijkl l), b, h)
        else
          getSlot_loop n' b h tree ijkl (l + 1)
            (Block.index (cachedBlock h l) (ijkl_at ijkl l)) index
  end.

(** [int Handle::getSlot(uint64_t slot, uint64_t* index)] *)
Definition getSlot (b : Base) (h : Handle) (slot : Z) (index : Z)
    : Z * Z * Base * Handle :=
  if slot >=? slotCount h then (- ENOTRECOVERABLE, index, raise EmergencyBug b, h)
  else
    let '(tree, ijkl) := slotToTreeIndices slot in
    if tree =? 0 then (0, Inode.slotTree (_inode h) 0, b, h)
    else
      getSlot_loop (Z.to_nat tree) b h tree ijkl 0 (Inode.slotTree (_inode h) tree) index.

(** [for (j = 0; allEntriesInvalid && j < N; j++)
      if (block.indices[j] != InvalidIndex) allEntriesInvalid = false;]
    started with [allEntriesInvalid] true. *)
Definition allEntriesInvalid (blk : Block) : bool :=
  forallb (fun j => Block.index blk (Z.of_nat j) =? InvalidIndex) (seq 0 (Z.to_nat N)).

(** The loop [for (int ll = l; allEntriesInvalid && ll >= 0; ll--)] of
    [Handle::setSlot()] that deletes an indirection block and, if
    possible, its predecessors; [n] is [ll + 1]. *)
Fixpoint setSlot_delete (n : nat) (b : Base) (h : Handle) (tree : Z) (ijkl : list Z)
    : Z * Base * Handle :=
  match n with
  | O => (0, b, h)
  | S ll' =>
      let ll := Z.of_nat ll' in
      let '(r, b) := Base.blockRemove b (cachedBlockIndex h ll) in
      if r <? 0 then (r, b, h)
      else
        let h := set_cachedBlockIndex ll InvalidIndex h in
        if ll >? 0 then
          let h := set_cachedBlock (ll - 1)
                     (Block.set_index (cachedBlock h (ll - 1)) (ijkl_at ijkl (ll - 1))
                        InvalidIndex) h in
          if allEntriesInvalid (cachedBlock h (ll - 1)) then
            setSlot_delete ll' b h tree ijkl
          else
            let '(r, b) :=
              Base.blockWrite b (cachedBlockIndex h (ll - 1)) (cachedBlock h (ll - 1)) in
            if r <? 0 then (r, b, h) else (0, b, h)
        else
          (0, b, set_inode (Inode.set_slotTree tree InvalidIndex (_inode h)) h)
  end.

(** The loop of [Handle::setSlot()] over the levels [l < tree]; [n] counts
    the levels that remain. *)
Fixpoint setSlot_loop (n : nat) (b : Base) (h : Handle) (tree : Z) (ijkl : list Z)
    (l : Z) (blockIndex : Z) (index : Z) : Z * Base * Handle :=
  match n with
  | O => (0, b, h)
  | S n' =>
      let '(r, blockIndex, b, h) :=
        if blockIndex =? InvalidIndex then
          let h := set_cachedBlock l Block.initializeIndices h in
          let '(r, blockIndex, b) := Base.blockAdd b blockIndex (cachedBlock h l) in
          if r <? 0 then (r, blockIndex, b, set_cachedBlockIndex l InvalidIndex h)
          else
            let h := set_cachedBlockIndex l blockIndex h in
            if l >? 0 then
              let h := set_cachedBlock (l - 1)
                         (Block.set_index (cachedBlock h (l - 1)) (ijkl_at ijkl (l - 1))
                            blockIndex) h in
              let '(r, b) :=
                Base.blockWrite b (cachedBlockIndex h (l - 1)) (cachedBlock h (l - 1)) in
              (r, blockIndex, b, h)
            else
              (0, blockIndex, b,
               set_inode (Inode.set_slotTree tree blockIndex (_inode h)) h)
        else (0, blockIndex, b, h) in
      if r <? 0 then (r, b, h)
      else
        let '(r, b, h) := cacheBlock b h l blockIndex in
        if r <? 0 then (r, b, h)
        else if l =? tree - 1 then
          let oldI := Block.index (cachedBlock h l) (ijkl_at ijkl l) in
          let h := set_cachedBlock l
                     (Block.set_index (cachedBlock h l) (ijkl_at ijkl l) index) h in
          if (index =? InvalidIndex) && allEntriesInvalid (cachedBlock h l) then
            setSlot_delete (Z.to_nat (l + 1)) b h tree ijkl
          else
            let '(r, b) := Base.blockWrite b (cachedBlockIndex h l) (cachedBlock h l) in
            if r <? 0 then
              (r, b, set_cachedBlock l
                       (Block.set_index (cachedBlock h l) (ijkl_at ijkl l) oldI) h)
            else (0, b, h)
        else
          setSlot_loop n' b h tree ijkl (l + 1)
            (Block.index (cachedBlock h l) (ijkl_at ijkl l)) index
  end.

(** [int Handle::setSlot(uint64_t slot, uint64_t index)] *)
Definition setSlot (b : Base) (h : Handle) (slot : Z) (index : Z) : Z * Base * Handle :=
  if slot >=? slotCount h then (- ENOTRECOVERABLE, raise EmergencyBug b, h)
  else
    let '(tree, ijkl) := slotToTreeIndices slot in
    if tree =? 0 then (0, b, set_inode (Inode.set_slotTree 0 index (_inode h)) h)
    else
      setSlot_loop (Z.to_nat tree) b h tree ijkl 0 (Inode.slotTree (_inode h) tree) index.

(** The loop of [Handle::insertSlot()]:
    [for (int64_t i = int64_t(slotCount()) - 1; i > int64_t(slot); i--)
       { r = getSlot(i - 1, &tmp); ... r = setSlot(i, tmp); ... }] *)
Fixpoint insertSlot_loop (n : nat) (b : Base) (h : Handle) (i : Z) (slot : Z)
    : Z * Base * Handle :=
  match n with
  | O => (0, b, h)
  | S n' =>
      if i >? to_int64 slot then
        let '(r, tmp, b, h) := getSlot b h (u64 (i - 1)) 0 in
        if r <? 0 then (r, b, h)
        else
          let '(r, b, h) := setSlot b h (u64 i) tmp in
          if r <? 0 then (r, b, h)
          else insertSlot_loop n' b h (i - 1) slot
      else (0, b, h)
  end.

(** [int Handle::insertSlot(uint64_t slot, uint64_t index)] *)
Definition insertSlot (b : Base) (h : Handle) (slot : Z) (index : Z)
    : Z * Base * Handle :=
  if slot >=? u64 (slotCount h + 1) then (- ENOTRECOVERABLE, raise EmergencyBug b, h)
  else if slotCount h =? maxSlotCount then (- ENOSPC, b, h)
  else
    let h := set_slotCount (u64 (_slotCount h + 1)) h in
    let i := to_int64 (slotCount h) - 1 in
    let '(r, b, h) := insertSlot_loop (Z.to_nat (i - to_int64 slot)) b h i slot in
    if r <? 0 then (r, b, h)
    else setSlot b h slot index.

(** The loop of [Handle::removeSlot()]:
    [for (uint64_t i = slot; i < slotCount() - 1; i++)
       { r = getSlot(i + 1, &tmp); ... r = setSlot(i, tmp); ... }] *)
Fixpoint removeSlot_loop (n : nat) (b : Base) (h : Handle) (i : Z)
    : Z * Base * Handle :=
  match n with
  | O => (0, b, h)
  | S n' =>
      if i <? u64 (slotCount h - 1) then
        let '(r, tmp, b, h) := getSlot b h (u64 (i + 1)) 0 in
        if r <? 0 then (r, b, h)
        else
          let '(r, b, h) := setSlot b h i tmp in
          if r <? 0 then (r, b, h)
          else removeSlot_loop n' b h (u64 (i + 1))
      else (0, b, h)
  end.

(** [int Handle::removeSlot(uint64_t slot, bool removeDirentOrBlock)] *)
Definition removeSlot (b : Base) (h : Handle) (slot : Z) (removeDirentOrBlock : bool)
    : Z * Base * Handle :=
  if slot >=? slotCount h then (- ENOTRECOVERABLE, raise EmergencyBug b, h)
  else
    let '(r, index, b, h) :=
      if removeDirentOrBlock then getSlot b h slot InvalidIndex
      else (0, InvalidIndex, b, h) in
    if r <? 0 then (r, b, h)
    else
      let '(r, b, h) :=
        removeSlot_loop (Z.to_nat (u64 (slotCount h - 1) - slot)) b h slot in
      if r <? 0 then (r, b, h)
      else
        let '(r, b, h) := setSlot b h (u64 (slotCount h - 1)) InvalidIndex in
        if r <? 0 then (r, b, h)
        else
          let '(r, b) :=
            if removeDirentOrBlock && negb (index =? InvalidIndex) then
              if Inode.type (_inode h) =? TypeDIR then Base.direntRemove b index
              else if Inode.type (_inode h) =? TypeREG then Base.blockRemove b index
              else (- EINVAL, b)
            else (0, b) in
          if r <? 0 then (r, b, h)
          else (0, b, set_slotCount (u64 (_slotCount h - 1)) h).

(** [uint64_t Handle::inodeIndex() const], [const Inode& Handle::inode() const] *)
Definition inodeIndex (h : Handle) : Z := _inodeIndex h.
Definition inode (h : Handle) : Inode.t := _inode h.
Definition removeOnceUnused (h : Handle) : bool := _removeOnceUnused h.
Definition refCount (h : Handle) : Z := _refCount h.

(** The two loops of [Handle::truncateNow()]:
    [while (r == 0 && newBlockCount < slotCount())
       r = removeSlot(slotCount() - 1, true);] and
    [while (r == 0 && newBlockCount > slotCount())
       r = insertSlot(slotCount(), InvalidIndex);].
    Every successful round moves [slotCount()] one step towards
    [newBlockCount]. *)
Fixpoint truncateNow_shrink (n : nat) (b : Base) (h : Handle) (newBlockCount : Z) (r : Z)
    : Z * Base * Handle :=
  match n with
  | O => (r, b, h)
  | S n' =>
      if (r =? 0) && (newBlockCount <? slotCount h) then
        let '(r, b, h) := removeSlot b h (u64 (slotCount h - 1)) true in
        truncateNow_shrink n' b h newBlockCount r
      else (r, b, h)
  end.

Fixpoint truncateNow_grow (n : nat) (b : Base) (h : Handle) (newBlockCount : Z) (r : Z)
    : Z * Base * Handle :=
  match n with
  | O => (r, b, h)
  | S n' =>
      if (r =? 0) && (newBlockCount >? slotCount h) then
        let '(r, b, h) := insertSlot b h (slotCount h) InvalidIndex in
        truncateNow_grow n' b h newBlockCount r
      else (r, b, h)
  end.

(** [int Handle::truncateNow(uint64_t length)] *)
Definition truncateNow (b : Base) (h : Handle) (length : Z) : Z * Base * Handle :=
  if negb (length =? Inode.size (_inode h)) then
    let origSize := Inode.size (_inode h) in
    let origBlockCount := slotCount h in
    let newBlockCount :=
      u64 (length / Block.size + (if negb (length mod Block.size =? 0) then 1 else 0)) in
    let '(r, b, h) :=
      truncateNow_shrink (Z.to_nat (slotCount h - newBlockCount)) b h newBlockCount 0 in
    let '(r, b, h) :=
      truncateNow_grow (Z.to_nat (newBlockCount - slotCount h)) b h newBlockCount r in
    let '(r, b, h) :=
      if (r =? 0) && (length >? Inode.size (_inode h)) && negb (origSize mod Block.size =? 0) then
        let lastOrigBlockSlot := u64 (origBlockCount - 1) in
        let lastOrigBlockValidDataSize := Inode.size (_inode h) mod Block.size in
        let '(r, lastOrigBlockIndex, b, h) := getSlot b h lastOrigBlockSlot 0 in
        if (r =? 0) && negb (lastOrigBlockIndex =? InvalidIndex) then
          let '(r, lastOrigBlock, b) := Base.blockRead b lastOrigBlockIndex Block.zero in
          if r =? 0 then
            let lastOrigBlock :=
              Block.memset0 lastOrigBlock lastOrigBlockValidDataSize
                (Block.size - lastOrigBlockValidDataSize) in
            let '(r, b) := Base.blockWrite b lastOrigBlockIndex lastOrigBlock in
            (r, b, h)
          else (r, b, h)
        else (r, b, h)
      else (r, b, h) in
    if r =? 0 then (r, b, set_inode (Inode.set_size length (_inode h)) h)
    else (r, b, h)
  else (0, b, h).

(** [int Handle::link()] *)
Definition link (now : Time.t) (b : Base) (h : Handle) : Z * Base * Handle :=
  let r := 0 in
  let r := if negb (Inode.type (_inode h) =? TypeREG) then - EINVAL else r in
  let r := if Inode.nlink (_inode h) =? UINT64_MAX then - EMLINK else r in
  if r =? 0 then
    let oldCtime := Inode.ctime (_inode h) in
    let h := set_inode (Inode.set_nlink (u64 (Inode.nlink (_inode h) + 1)) (_inode h)) h in
    let h := set_inode (Inode.set_ctime now (_inode h)) h in
    let '(r, b) := Base.inodeWrite b (_inodeIndex h) (_inode h) in
    if r <? 0 then
      let h := set_inode (Inode.set_nlink (u64 (Inode.nlink (_inode h) - 1)) (_inode h)) h in
      (r, b, set_inode (Inode.set_ctime oldCtime (_inode h)) h)
    else (r, b, h)
  else (r, b, h).

(** The inner loop of [Handle::removeNow()] over the four cache levels:
    [for (int l = 0; r == 0 && l < 4; l++)
       if (_cachedBlockIndices[l] != lastRemovedIndirectionBlock[l]) {
         if (_cachedBlockIndices[l] != InvalidIndex)
           r = _base->blockRemove(_cachedBlockIndices[l]);
         lastRemovedIndirectionBlock[l] = _cachedBlockIndices[l]; }] *)
Fixpoint removeNow_levels (n : nat) (b : Base) (h : Handle) (l : Z) (last : list Z) (r : Z)
    : Z * Base * list Z :=
  match n with
  | O => (r, b, last)
  | S n' =>
      if r =? 0 then
        if negb (cachedBlockIndex h l =? default 0 (last !! Z.to_nat l)) then
          let '(r, b) :=
            if negb (cachedBlockIndex h l =? InvalidIndex)
            then Base.blockRemove b (cachedBlockIndex h l)
            else (r, b) in
          removeNow_levels n' b h (l + 1) (<[Z.to_nat l := cachedBlockIndex h l]> last) r
        else removeNow_levels n' b h (l + 1) last r
      else (r, b, last)
  end.

(** The outer loop of [Handle::removeNow()]:
    [for (uint64_t slot = 0; r == 0 && slot < slotCount(); slot++)] *)
Fixpoint removeNow_slots (n : nat) (b : Base) (h : Handle) (slot : Z) (last : list Z) (r : Z)
    : Z * Base * Handle :=
  match n with
  | O => (r, b, h)
  | S n' =>
      if (r =? 0) && (slot <? slotCount h) then
        let '(r, blockIndex, b, h) := getSlot b h slot 0 in
        let '(r, b) :=
          if (r =? 0) && negb (blockIndex =? InvalidIndex)
          then Base.blockRemove b blockIndex
          else (r, b) in
        let '(r, b, last) := removeNow_levels 4 b h 0 last r in
        removeNow_slots n' b h (u64 (slot + 1)) last r
      else (r, b, h)
  end.

(** [int Handle::removeNow()] *)
Definition removeNow (now : Time.t) (b : Base) (h : Handle) : Z * Base * Handle :=
  if Inode.type (_inode h) =? TypeREG then
    if Inode.nlink (_inode h) =? 0 then (- ENOTRECOVERABLE, raise EmergencyBug b, h)
    else
      let h := set_inode (Inode.set_nlink (u64 (Inode.nlink (_inode h) - 1)) (_inode h)) h in
      if Inode.nlink (_inode h) =? 0 then
        let '(r, b) := Base.inodeRemove b (_inodeIndex h) in
        removeNow_slots (Z.to_nat (slotCount h)) b h 0
          [InvalidIndex; InvalidIndex; InvalidIndex; InvalidIndex] r
      else
        let h := set_inode (Inode.set_ctime now (_inode h)) h in
        let '(r, b) := Base.inodeWrite b (_inodeIndex h) (_inode h) in
        (r, b, h)
  else if Inode.type (_inode h) =? TypeLNK then
    let '(r, b) := Base.inodeRemove b (_inodeIndex h) in
    if r =? 0 then
      let '(r, b) := Base.blockRemove b (Inode.slotTree (_inode h) 0) in
      (r, b, h)
    else (r, b, h)
  else
    let '(r, b) := Base.inodeRemove b (_inodeIndex h) in
    (r, b, h).

(** [int Handle::remove()] *)
Definition remove (now : Time.t) (b : Base) (h : Handle) : Z * Base * Handle :=
  if refCount h <=? 0 then removeNow now b h
  else (0, b, set_removeOnceUnused true h).

(** [strcmp(a, b)] on the strings before the terminators: negative, zero
    or positive. *)
Definition strcmp (a b : string) : Z :=
  match String.compare a b with
  | Lt => -1
  | Eq => 0
  | Gt => 1
  end.

(** The binary search of [Handle::findDirentNow()]:
    [while (b >= a) { c = (a + b) / 2; ... }]; the result is
    [(r, found, a, direntSlot, direntIndex, dirent)]. *)
Fixpoint findDirentNow_loop (n : nat) (b : Base) (h : Handle) (name : string)
    (lo hi : Z) (direntSlot direntIndex : Z) (dirent : Dirent.t)
    : Z * bool * Z * Z * Z * Dirent.t * Base * Handle :=
  match n with
  | O => (0, false, lo, direntSlot, direntIndex, dirent, b, h)
  | S n' =>
      if hi >=? lo then
        let c := Z.quot (lo + hi) 2 in
        let '(r, direntIndex, b, h) := getSlot b h (u64 c) direntIndex in
        if r <? 0 then (r, false, lo, direntSlot, direntIndex, dirent, b, h)
        else
          let '(r, dirent, b) := Base.direntRead b direntIndex dirent in
          if r <? 0 then (r, false, lo, direntSlot, direntIndex, dirent, b, h)
          else
            let cmp := strcmp name (Dirent.name dirent) in
            if cmp >? 0 then
              findDirentNow_loop n' b h name (c + 1) hi direntSlot direntIndex dirent
            else if cmp <? 0 then
              findDirentNow_loop n' b h name lo (c - 1) direntSlot direntIndex dirent
            else (r, true, lo, u64 c, direntIndex, dirent, b, h)
      else (0, false, lo, direntSlot, direntIndex, dirent, b, h)
  end.

(** [int Handle::findDirentNow(name, nameLen, &direntSlot, &direntIndex, &dirent)];
    [name] is the string of the first [nameLen] characters. *)
Definition findDirentNow (b : Base) (h : Handle) (name : string)
    (direntSlot direntIndex : Z) (dirent : Dirent.t)
    : Z * Z * Z * Dirent.t * Base * Handle :=
  let '(r, found, lo, direntSlot, direntIndex, dirent, b, h) :=
    findDirentNow_loop (Z.to_nat (to_int64 (slotCount h))) b h name
      0 (to_int64 (slotCount h) - 1) direntSlot direntIndex dirent in
  if r =? 0 then
    if negb found then (- ENOENT, u64 lo, direntIndex, dirent, b, h)
    else (r, direntSlot, direntIndex, dirent, b, h)
  else (r, direntSlot, direntIndex, dirent, b, h).

(** [int Handle::findDirent(...)]: [findDirentNow] under the shared lock. *)
Definition findDirent := findDirentNow.

(** [void Handle::getAttr(uint64_t* inodeIndex, Inode* inode)] *)
Definition getAttr (h : Handle) : Z * Inode.t := (_inodeIndex h, _inode h).

(** [int Handle::mkdirent(name, nameLen, existingInodeIndex, inodeCreator)];
    [name] is the string of the first [nameLen] characters. *)
Definition mkdirent (now : Time.t) (b : Base) (h : Handle) (name : string)
    (existingInodeIndex : Z) (inodeCreator : Inode.t -> Inode.t) : Z * Base * Handle :=
  let r := 0 in
  let r := if (r =? 0) && negb (Inode.type (_inode h) =? TypeDIR) then - ENOTDIR else r in
  let r := if (r =? 0) && (Z.of_nat (String.length name) >=? Dirent.nameSize)
           then - ENAMETOOLONG else r in
  let r := if (r =? 0) && (Inode.nlink (_inode h) =? UINT64_MAX) then - EMLINK else r in
  let r := if (r =? 0) && (slotCount h =? maxSlotCount) then - ENOSPC else r in
  if negb (r =? 0) then (r, b, h)
  else
    let '(r, direntSlot, tmpDirentIndex, tmpDirent, b, h) :=
      findDirentNow b h name 0 0 Dirent.zero in
    let r := if r =? 0 then - EEXIST else if r =? - ENOENT then 0 else r in
    let newInodeIndex := existingInodeIndex in
    let '(r, newInodeIndex, b) :=
      if (r =? 0) && (newInodeIndex =? InvalidIndex) then
        Base.inodeAdd b newInodeIndex (inodeCreator (_inode h))
      else (r, newInodeIndex, b) in
    let '(r, direntIndex, b) :=
      if r =? 0 then Base.direntAdd b 0 (Dirent.mk name newInodeIndex)
      else (r, 0, b) in
    let '(r, b, h) :=
      if r =? 0 then insertSlot b h direntSlot direntIndex else (r, b, h) in
    if r =? 0 then
      let i := _inode h in
      let i := Inode.set_size (u64 (Inode.size i + 1)) i in
      let i := Inode.set_mtime now i in
      let i := Inode.set_ctime now i in
      let i := Inode.set_nlink (u64 (Inode.nlink i + 1)) i in
      let h := set_inode i h in
      let '(r, b) := Base.inodeWrite b (_inodeIndex h) (_inode h) in
      (r, b, h)
    else (r, b, h).

(** [int Handle::readlink(char* buf, size_t bufsize)]; the result carries
    the bytes copied to [buf] before the terminator. *)
Definition readlink (now : Time.t) (b : Base) (h : Handle) (bufsize : Z)
    : Z * list Z * Base * Handle :=
  if negb (Inode.type (_inode h) =? TypeLNK) then (- EINVAL, [], b, h)
  else
    let '(r, block, b) := Base.blockRead b (Inode.slotTree (_inode h) 0) Block.zero in
    if r =? 0 then
      let bytesToCopy := Z.min (u64 (bufsize - 1)) (Inode.size (_inode h)) in
      let out := take (Z.to_nat bytesToCopy) block in
      let oldInode := _inode h in
      let '(updated, h) := updateATime now h in
      if updated then
        let '(r, b) := Base.inodeWrite b (_inodeIndex h) (_inode h) in
        if negb (r =? 0) then (r, out, b, set_inode oldInode h)
        else (r, out, b, h)
      else (r, out, b, h)
    else (r, [], b, h).

(** [int Handle::chmod(uint32_t mode)] *)
Definition chmod (now : Time.t) (b : Base) (h : Handle) (mode : Z) : Z * Base * Handle :=
  let oldInode := _inode h in
  let i := Inode.set_typeAndMode
             (Z.lor (Z.land (Inode.typeAndMode (_inode h)) TypeMask) mode) (_inode h) in
  let h := set_inode (Inode.set_ctime now i) h in
  let '(r, b) := Base.inodeWrite b (_inodeIndex h) (_inode h) in
  if negb (r =? 0) then (r, b, set_inode oldInode h) else (r, b, h).

(** [int Handle::truncate(uint64_t length)] *)
Definition truncate (now : Time.t) (b : Base) (h : Handle) (length : Z)
    : Z * Base * Handle :=
  let '(r, b, h) := truncateNow b h length in
  if r =? 0 then
    let i := Inode.set_typeAndMode
               (Z.land (Inode.typeAndMode (_inode h)) (not32 (Z.lor ModeSUID ModeSGID)))
               (_inode h) in
    let h := set_inode (Inode.set_ctime now (Inode.set_mtime now i)) h in
    let '(r, b) := Base.inodeWrite b (_inodeIndex h) (_inode h) in
    (r, b, h)
  else (r, b, h).

(** [int Handle::openDir()] *)
Definition openDir (now : Time.t) (b : Base) (h : Handle) : Z * Base * Handle :=
  if negb (Inode.type (_inode h) =? TypeDIR) then (- ENOTDIR, b, h)
  else
    let oldInode := _inode h in
    let '(updated, h) := updateATime now h in
    if updated then
      let '(r, b) := Base.inodeWrite b (_inodeIndex h) (_inode h) in
      if negb (r =? 0) then (r, b, set_inode oldInode h) else (r, b, h)
    else (0, b, h).

(** [int Handle::readDirent(uint64_t direntSlot, Dirent* dirent)] *)
Definition readDirent (b : Base) (h : Handle) (direntSlot : Z) (dirent : Dirent.t)
    : Z * Dirent.t * Base * Handle :=
  if direntSlot >=? slotCount h then (- EINVAL, dirent, b, h)
  else
    let '(r, direntIndex, b, h) := getSlot b h direntSlot 0 in
    if r =? 0 then
      let '(r, dirent, b) := Base.direntRead b direntIndex dirent in
      (r, dirent, b, h)
    else (r, dirent, b, h).

(** [int Handle::open(bool readOnly, bool trunc, bool append)].  The
    statements [readOnly = readOnly; append = append;] of the source
    assign the parameters to themselves: [_readOnly] and [_append] keep
    their values. *)
Definition open (now : Time.t) (b : Base) (h : Handle) (readOnly trunc append : bool)
    : Z * Base * Handle :=
  if negb (Inode.type (_inode h) =? TypeREG) then (- EINVAL, b, h)
  else
    let '(r, b, h) :=
      if trunc && negb (Inode.size (_inode h) =? 0) then truncateNow b h 0
      else (0, b, h) in
    if r =? 0 then
      let '(updated, h) :=
        if readOnly then updateATime now h
        else
          let i := Inode.set_ctime now (Inode.set_mtime now (_inode h)) in
          let i := Inode.set_typeAndMode
                     (Z.land (Inode.typeAndMode i) (not32 (Z.lor ModeSUID ModeSGID))) i in
          (true, set_inode i h) in
      if updated then
        let '(r, b) := Base.inodeWrite b (_inodeIndex h) (_inode h) in
        (r, b, h)
      else (r, b, h)
    else (r, b, h).

(** The loop of [Handle::read()]: [while (count > 0) { ... }]; [out] are
    the bytes copied to [buf] so far.  Every round that does not break
    lowers [count] by [len >= 1]. *)
Fixpoint read_loop (n : nat) (b : Base) (h : Handle) (offset count : Z)
    (block : Block) (out : list Z) : Z * list Z * Base * Handle :=
  match n with
  | O => (0, out, b, h)
  | S n' =>
      if count >? 0 then
        let blockSlot := offset / Block.size in
        let '(r, blockIndex, b, h) := getSlot b h blockSlot 0 in
        if r <? 0 then (r, out, b, h)
        else
          let '(r, block, b) :=
            if blockIndex =? InvalidIndex then (r, Block.initializeData, b)
            else Base.blockRead b blockIndex block in
          if r <? 0 then (r, out, b, h)
          else
            let blockOffset := offset mod Block.size in
            let len := Z.min count (Block.size - blockOffset) in
            let out := out ++ take (Z.to_nat len) (drop (Z.to_nat blockOffset) block) in
            read_loop n' b h (u64 (offset + len)) (count - len) block out
      else (0, out, b, h)
  end.

(** [int Handle::read(uint64_t offset, unsigned char* buf, size_t count)];
    the result carries the bytes copied to [buf]. *)
Definition read (b : Base) (h : Handle) (offset : Z) (count : Z)
    : Z * list Z * Base * Handle :=
  let count :=
    if offset >=? Inode.size (_inode h) then 0
    else if u64 (offset + count) >? Inode.size (_inode h)
         then u64 (Inode.size (_inode h) - offset)
         else count in
  let ret := to_int count in
  let '(r, out, b, h) := read_loop (Z.to_nat count) b h offset count Block.zero [] in
  (if r <? 0 then r else ret, out, b, h).

(** The loop of [Handle::write()]: [while (r == 0 && count > 0) { ... }].
    Every round that does not break lowers [count] by [len >= 1]. *)
Fixpoint write_loop (n : nat) (b : Base) (h : Handle) (offset : Z) (buf : list Z)
    (count : Z) (block : Block) (r : Z) : Z * Base * Handle :=
  match n with
  | O => (r, b, h)
  | S n' =>
      if (r =? 0) && (count >? 0) then
        let blockSlot := offset / Block.size in
        let blockOffset := offset mod Block.size in
        let len := Z.min count (Block.size - blockOffset) in
        if blockSlot >=? maxSlotCount then (- ENOSPC, b, h)
        else if blockSlot >? slotCount h then (- ENOTRECOVERABLE, raise EmergencyBug b, h)
        else
          let '(r, blockIndex, b, h) :=
            if blockSlot <? slotCount h then getSlot b h blockSlot InvalidIndex
            else (r, InvalidIndex, b, h) in
          if r <? 0 then (r, b, h)
          else
            let whole := (blockOffset =? 0) && (len =? Block.size) in
            let '(r, block, b, h) :=
              if blockIndex =? InvalidIndex then
                let block := if negb whole then Block.initializeData else block in
                let block := Block.memcpy_in block blockOffset buf len in
                let '(r, blockIndex, b) := Base.blockAdd b blockIndex block in
                if r =? 0 then
                  let '(r, b, h) :=
                    if blockSlot =? slotCount h then insertSlot b h blockSlot blockIndex
                    else setSlot b h blockSlot blockIndex in
                  (r, block, b, h)
                else (r, block, b, h)
              else
                let '(r, block, b) :=
                  if negb whole then Base.blockRead b blockIndex block
                  else (r, block, b) in
                if r <? 0 then (r, block, b, h)
                else
                  let block := Block.memcpy_in block blockOffset buf len in
                  let '(r, b) := Base.blockWrite b blockIndex block in
                  (r, block, b, h) in
            if r <? 0 then (r, b, h)
            else
              let h :=
                if u64 (offset + len) >? Inode.size (_inode h)
                then set_inode (Inode.set_size (u64 (offset + len)) (_inode h)) h
                else h in
              write_loop n' b h (u64 (offset + len)) (drop (Z.to_nat len) buf)
                (count - len) block r
      else (r, b, h)
  end.

(** The part of [Handle::write()] before the inode is written back:
    the redirection of [offset] in append mode, the call of
    [truncateNow(offset)] when writing past the end, and the loop. *)
Definition write_blocks (b : Base) (h : Handle) (offset : Z) (buf : list Z) (count : Z)
    : Z * Base * Handle :=
  let offset := if _append h then Inode.size (_inode h) else offset in
  let '(r, b, h) :=
    if offset >? Inode.size (_inode h) then truncateNow b h offset else (0, b, h) in
  write_loop (Z.to_nat count) b h offset buf count Block.zero r.

(** [int Handle::write(uint64_t offset, const unsigned char* buf, size_t count)] *)
Definition write (b : Base) (h : Handle) (offset : Z) (buf : list Z) (count : Z)
    : Z * Base * Handle :=
  let origInode := _inode h in
  let ret := to_int count in
  let '(r, b, h) := write_blocks b h offset buf count in
  let '(r, b) :=
    if negb (bool_decide (_inode h = origInode))
    then Base.inodeWrite b (_inodeIndex h) (_inode h)
    else (r, b) in
  (if r <? 0 then r else ret, b, h).

(** [int Handle::renameHelperAdd(uint64_t direntSlot, uint64_t direntIndex)] *)
Definition renameHelperAdd (b : Base) (h : Handle) (direntSlot direntIndex : Z)
    : Z * Base * Handle :=
  let '(r, b, h) := insertSlot b h direntSlot direntIndex in
  if r =? 0 then
    let h := set_inode (Inode.set_size (u64 (Inode.size (_inode h) + 1)) (_inode h)) h in
    let '(r, b) := Base.inodeWrite b (_inodeIndex h) (_inode h) in
    (r, b, h)
  else (r, b, h).

(** [int Handle::renameHelperRemove(uint64_t direntSlot)] *)
Definition renameHelperRemove (b : Base) (h : Handle) (direntSlot : Z)
    : Z * Base * Handle :=
  let '(r, b, h) := removeSlot b h direntSlot false in
  if r =? 0 then
    let h := set_inode (Inode.set_size (u64 (Inode.size (_inode h) - 1)) (_inode h)) h in
    let '(r, b) := Base.inodeWrite b (_inodeIndex h) (_inode h) in
    (r, b, h)
  else (r, b, h).

(** [int Handle::renameHelperReplace(uint64_t direntSlot, uint64_t newDirentIndex)] *)
Definition renameHelperReplace (b : Base) (h : Handle) (direntSlot newDirentIndex : Z)
    : Z * Base * Handle :=
  let '(r, b, h) := setSlot b h direntSlot newDirentIndex in
  if r =? 0 then
    let '(r, b) := Base.inodeWrite b (_inodeIndex h) (_inode h) in
    (r, b, h)
  else (r, b, h).

(** [int Handle::chown(uint32_t uid, uint32_t gid)] *)
Definition chown (now : Time.t) (b : Base) (h : Handle) (uid gid : Z) : Z * Base * Handle :=
  let oldInode := _inode h in
  let i := Inode.set_gid gid (Inode.set_uid uid (_inode h)) in
  let i := Inode.set_typeAndMode
             (Z.land (Inode.typeAndMode i) (not32 (Z.lor ModeSUID ModeSGID))) i in
  let h := set_inode (Inode.set_ctime now i) h in
  let '(r, b) := Base.inodeWrite b (_inodeIndex h) (_inode h) in
  if negb (r =? 0) then (r, b, set_inode oldInode h) else (r, b, h).

(** [int Handle::utimens(updateAtime, atime, updateMtime, mtime, updateCtime, ctime)] *)
Definition utimens (b : Base) (h : Handle) (updateAtime : bool) (atime : Time.t)
    (updateMtime : bool) (mtime : Time.t) (updateCtime : bool) (ctime : Time.t)
    : Z * Base * Handle :=
  if negb updateAtime && negb updateMtime && negb updateCtime then (0, b, h)
  else
    let oldInode := _inode h in
    let i := _inode h in
    let i := if updateAtime then Inode.set_atime atime i else i in
    let i := if updateMtime then Inode.set_mtime mtime i else i in
    let i := if updateCtime then Inode.set_ctime ctime i else i in
    let h := set_inode i h in
    let '(r, b) := Base.inodeWrite b (_inodeIndex h) (_inode h) in
    if negb (r =? 0) then (r, b, set_inode oldInode h) else (r, b, h).

(** [int Handle::readDirentPlus(uint64_t direntSlot, Dirent* dirent, Inode* inode)] *)
Definition readDirentPlus (b : Base) (h : Handle) (direntSlot : Z)
    (dirent : Dirent.t) (inode : Inode.t) : Z * Dirent.t * Inode.t * Base * Handle :=
  if direntSlot >=? slotCount h then (- EINVAL, dirent, inode, b, h)
  else
    let '(r, direntIndex, b, h) := getSlot b h direntSlot 0 in
    let '(r, dirent, b) :=
      if r =? 0 then Base.direntRead b direntIndex dirent else (r, dirent, b) in
    let '(r, inode, b) :=
      if r =? 0 then Base.inodeRead b (Dirent.inodeIndex dirent) inode
      else (r, inode, b) in
    (r, dirent, inode, b, h).

End Handle.

(** ** The handle cache of Base (base.cpp)

    [Base::handleGet] and [Base::handleRelease] call methods of Handle and
    are therefore placed after it.  A [Handle*] is modelled by the key of
    the handle in [_handleMap], its inode index; [None] is [nullptr]. *)

Module HandleCache.

(** [int Base::handleGet(uint64_t inodeIndex, Handle** handle)] *)
Definition handleGet (b : Base) (inodeIndex : Z) : Z * option Z * Base :=
  let '(r, found, b) :=
    match _handleMap b !! inodeIndex with
    | Some h => (0, Some h, b)
    | None =>
        let '(r, inode, b) := Base.inodeRead b inodeIndex Inode.new in
        if r =? 0 then (r, Some (Handle.new inodeIndex inode), b)
        else (r, None, b)
    end in
  match found with
  | Some h =>
      let h := set_refCount (_refCount h + 1) h in
      (r, Some inodeIndex, set_handleMap (<[inodeIndex := h]> (_handleMap b)) b)
  | None => (r, None, b)
  end.

(** [int Base::handleRelease(Handle* handle)] *)
Definition handleRelease (now : Time.t) (b : Base) (handle : option Z) : Z * Base :=
  match handle with
  | None => (0, b)
  | Some k =>
      match _handleMap b !! k with
      | None => (0, b)
      | Some h =>
          let h := set_refCount (_refCount h - 1) h in
          if _refCount h =? 0 then
            let b := set_handleMap (delete k (_handleMap b)) b in
            if Handle.removeOnceUnused h then
              let '(r, b, h) := Handle.remove now b h in
              (r, b)
            else (0, b)
          else (0, set_handleMap (<[k := h]> (_handleMap b)) b)
      end
  end.

(** A method [f] of the handle that [handle] points to, called on it in
    place. *)
Definition call {R : Type} (err : R) (b : Base) (handle : option Z)
    (f : Base -> Handle -> R * Base * Handle) : R * Base :=
  match handle with
  | Some k =>
      match _handleMap b !! k with
      | Some h =>
          let '(r, b, h) := f b h in
          (r, set_handleMap (<[k := h]> (_handleMap b)) b)
      | None => (err, b)
      end
  | None => (err, b)
  end.

(** The handle that [handle] points to (a fresh handle of inode 0 stands
    for a pointer that is not valid). *)
Definition deref (b : Base) (handle : option Z) : Handle :=
  default (Handle.new 0 Inode.new) (handle ≫= fun k => _handleMap b !! k).

(** [int Handle::rmdirent(name, nameLen, inodeChecker)] on the handle that
    [this] points to; [name] is the string of the first [nameLen]
    characters.  The method calls [Base::handleGet] and
    [Base::handleRelease], which work on the handle map that holds the
    handle itself, so every step is performed on the handle in the map. *)
Definition rmdirent (now : Time.t) (b : Base) (this : option Z) (name : string)
    (inodeChecker : Inode.t -> Z) : Z * Base :=
  let r := 0 in
  let r := if (r =? 0) && negb (Inode.type (Handle.inode (deref b this)) =? TypeDIR)
           then - ENOTDIR else r in
  let r := if (r =? 0) && (Z.of_nat (String.length name) >=? Dirent.nameSize)
           then - ENAMETOOLONG else r in
  let r := if (r =? 0) && (Inode.nlink (Handle.inode (deref b this)) =? 2)
           then - ENOENT else r in
  if negb (r =? 0) then (r, b)
  else
    let '((r, direntSlot, direntIndex, dirent), b) :=
      call (0, 0, 0, Dirent.zero) b this (fun b h =>
        let '(r, direntSlot, direntIndex, dirent, b, h) :=
          Handle.findDirentNow b h name 0 0 Dirent.zero in
        ((r, direntSlot, direntIndex, dirent), b, h)) in
    let '(r, handle, b) :=
      if r =? 0 then handleGet b (Dirent.inodeIndex dirent) else (r, None, b) in
    let r := if r =? 0 then inodeChecker (Handle.inode (deref b handle)) else r in
    let '(r, b) :=
      if r =? 0 then call r b this (fun b h => Handle.removeSlot b h direntSlot true)
      else (r, b) in
    let '(r, b) :=
      if r =? 0 then call r b handle (Handle.remove now) else (r, b) in
    let '(r, b) :=
      match handle with
      | Some _ => handleRelease now b handle
      | None => (r, b)
      end in
    if r =? 0 then
      call r b this (fun b h =>
        let i := _inode h in
        let i := Inode.set_size (u64 (Inode.size i - 1)) i in
        let i := Inode.set_mtime now i in
        let i := Inode.set_ctime now i in
        let i := Inode.set_nlink (u64 (Inode.nlink i - 1)) i in
        let h := set_inode i h in
        let '(r, b) := Base.inodeWrite b (_inodeIndex h) (_inode h) in
        (r, b, h))
    else (r, b).

End HandleCache.

(** ** SixFS (sixfs.hpp, sixfs.cpp)

    The state of a mounted SixFS is its Base.  The arguments [now], [euid]
    and [egid] stand for [Time::now()], [geteuid()] and [getegid()]. *)

Module SixFS.

Inductive RenameMode : Type := RenameNormal | RenameNoreplace | RenameExchange.

#[global] Instance RenameMode_eq_dec : EqDecision RenameMode.
Proof. solve_decision. Defined.

Definition strlen (path : string) : Z := Z.of_nat (String.length path).

(** [path[i] == '/'] *)
Definition isSlash (path : string) (i : Z) : bool :=
  match String.get (Z.to_nat i) path with
  | Some c => bool_decide (c = "/"%char)
  | None => false
  end.

(** [path + offset] cut after [len] characters. *)
Definition sub (path : string) (offset len : Z) : string :=
  String.substring (Z.to_nat offset) (Z.to_nat len) path.

(** The loop of [SixFS::separate()]:
    [while (parentLen > 0) { if (path[parentLen] == '/') break; parentLen--; }] *)
Fixpoint separate_loop (n : nat) (path : string) (parentLen : Z) : Z :=
  match n with
  | O => parentLen
  | S n' =>
      if parentLen >? 0 then
        if isSlash path parentLen then parentLen
        else separate_loop n' path (parentLen - 1)
      else parentLen
  end.

(** [void SixFS::separate(path, len, &parentLen, &nameOffset, &nameLen)] *)
Definition separate (path : string) (len : Z) : Z * Z * Z :=
  let parentLen := u64 (len - 1) in
  let parentLen := separate_loop (Z.to_nat parentLen) path parentLen in
  let parentLen := if parentLen =? 0 then 1 else parentLen in
  let nameOffset := if parentLen =? 1 then 1 else parentLen + 1 in
  (parentLen, nameOffset, u64 (len - nameOffset)).

(** [int SixFS::recursiveFind(const char* path, size_t len, uint64_t* inodeIndex)].
    [len] decreases in every call ([parentLen < len]), and the recursion
    ends at [len == 1]; [n] is at least [len - 1]. *)
Fixpoint recursiveFind (n : nat) (b : Base) (path : string) (len : Z) : Z * Z * Base :=
  match n with
  | O => (0, 0, b)
  | S n' =>
      if len =? 1 then (0, 0, b)
      else
        let '(parentLen, nameOffset, nameLen) := separate path len in
        if nameLen >=? Dirent.nameSize then (- ENAMETOOLONG, InvalidIndex, b)
        else
          let '(r, parentIndex, b) := recursiveFind n' b path parentLen in
          if r <? 0 then (r, InvalidIndex, b)
          else
            let '(r, parentInode, b) := Base.inodeRead b parentIndex Inode.new in
            if r <? 0 then (r, InvalidIndex, b)
            else if negb (Inode.type parentInode =? TypeDIR) then (- ENOTDIR, InvalidIndex, b)
            else
              let handle := Handle.new parentIndex parentInode in
              let '(r, direntSlot, direntIndex, dirent, b, handle) :=
                Handle.findDirentNow b handle (sub path nameOffset nameLen)
                  0 0 Dirent.zero in
              if r <? 0 then (r, InvalidIndex, b)
              else (0, Dirent.inodeIndex dirent, b)
  end.

(** [int SixFS::findInode(const char* path, size_t pathLen, uint64_t* inodeIndex)] *)
Definition findInode (b : Base) (path : string) (pathLen : Z) (inodeIndex : Z)
    : Z * Z * Base :=
  if negb (isSlash path 0) then (- ENOENT, inodeIndex, b)
  else recursiveFind (Z.to_nat (pathLen - 1)) b path pathLen.

(** [int SixFS::getHandle(const char* path, size_t pathLen, Handle** handle)] *)
Definition getHandle (b : Base) (path : string) (pathLen : Z) : Z * option Z * Base :=
  let '(r, inodeIndex, b) := findInode b path pathLen 0 in
  if r =? 0 then HandleCache.handleGet b inodeIndex
  else (r, None, b).

(** [int SixFS::releaseHandle(Handle* handle)] *)
Definition releaseHandle := HandleCache.handleRelease.

(** [int SixFS::mkdirent(path, existingInodeIndex, inodeCreator)] *)
Definition mkdirent (now : Time.t) (b : Base) (path : string) (existingInodeIndex : Z)
    (inodeCreator : Inode.t -> Inode.t) : Z * Base :=
  let pathLen := strlen path in
  let '(parentLen, nameOffset, nameLen) := separate path pathLen in
  let '(r, parentHandle, b) := getHandle b path parentLen in
  let '(r, b) :=
    if r =? 0 then
      HandleCache.call r b parentHandle (fun b h =>
        Handle.mkdirent now b h (sub path nameOffset nameLen) existingInodeIndex
          inodeCreator)
    else (r, b) in
  match parentHandle with
  | Some _ =>
      let '(r2, b) := releaseHandle now b parentHandle in
      (if (r =? 0) && (r2 <? 0) then r2 else r, b)
  | None => (r, b)
  end.

(** [int SixFS::mount(std::string& errStr)]; see [Base.initialize] for
    the arguments. *)
Definition mount (now : Time.t) (euid egid : Z) (maxSize : Z) (punchHoles : bool)
    (sizeofInode sizeofDirent : Z)
    (inodeMapStorage : Storage.t Z) (inodeChunkStorage : Storage.t Inode.t)
    (direntMapStorage : Storage.t Z) (direntChunkStorage : Storage.t Dirent.t)
    (blockMapStorage : Storage.t Z) (blockChunkStorage : Storage.t Block)
    (latch : EmergencyType) : Z * Base :=
  let '(r, needsRootNode, b) :=
    Base.initialize maxSize punchHoles sizeofInode sizeofDirent
      inodeMapStorage inodeChunkStorage direntMapStorage direntChunkStorage
      blockMapStorage blockChunkStorage latch in
  if (r =? 0) && needsRootNode then Base.createRootNode now euid egid b
  else (r, b).

(** [int SixFS::getAttr(Handle* handle, path, &inodeIndex, &inode)] for
    [handle == nullptr]. *)
Definition getAttr (now : Time.t) (b : Base) (path : string)
    : Z * (Z * Inode.t) * Base :=
  let '(r, h, b) := getHandle b path (strlen path) in
  let attr := if r =? 0 then Handle.getAttr (HandleCache.deref b h)
              else (InvalidIndex, Inode.new) in
  match h with
  | Some _ =>
      let '(r2, b) := releaseHandle now b h in
      (if (r =? 0) && (r2 <? 0) then r2 else r, attr, b)
  | None => (r, attr, b)
  end.

(** [int SixFS::mkdir(const char* path, uint16_t typeAndMode)] *)
Definition mkdir (now : Time.t) (euid egid : Z) (b : Base) (path : string)
    (typeAndMode : Z) : Z * Base :=
  mkdirent now b path InvalidIndex
    (fun parentInode => Inode.directory now euid egid (Some parentInode) typeAndMode).

(** [int SixFS::mknod(const char* path, uint16_t typeAndMode, uint64_t rdev)] *)
Definition mknod (now : Time.t) (euid egid : Z) (b : Base) (path : string)
    (typeAndMode : Z) (rdev : Z) : Z * Base :=
  mkdirent now b path InvalidIndex (fun _ => Inode.node now euid egid typeAndMode rdev).

(** [int SixFS::link(const char* oldpath, const char* newpath)] *)
Definition link (now : Time.t) (b : Base) (oldpath newpath : string) : Z * Base :=
  let '(r, handle, b) := getHandle b oldpath (strlen oldpath) in
  let '(r, b) :=
    if r =? 0 then HandleCache.call r b handle (Handle.link now) else (r, b) in
  let '(r, b) :=
    if r =? 0 then
      let '(r, b) :=
        mkdirent now b newpath (Handle.inodeIndex (HandleCache.deref b handle))
          (fun _ => Inode.new) in
      if r <? 0 then
        let '(r2, b) := HandleCache.call 0 b handle (Handle.remove now) in
        if r2 <? 0 then (- ENOTRECOVERABLE, raise EmergencySystemFailure b)
        else (r, b)
      else (r, b)
    else (r, b) in
  match handle with
  | Some _ =>
      let '(r2, b) := releaseHandle now b handle in
      (if (r =? 0) && (r2 <? 0) then r2 else r, b)
  | None => (r, b)
  end.

(** [handle->findDirent(name, nameLen, &direntSlot, &direntIndex, &dirent)]
    on the handle that [handle] points to. *)
Definition findDirentAt (b : Base) (handle : option Z) (name : string)
    (direntSlot direntIndex : Z) (dirent : Dirent.t) : Z * Z * Z * Dirent.t * Base :=
  let '((r, direntSlot, direntIndex, dirent), b) :=
    HandleCache.call (0, direntSlot, direntIndex, dirent) b handle (fun b h =>
      let '(r, direntSlot, direntIndex, dirent, b, h) :=
        Handle.findDirent b h name direntSlot direntIndex dirent in
      ((r, direntSlot, direntIndex, dirent), b, h)) in
  (r, direntSlot, direntIndex, dirent, b).

(** The [case RenameNoreplace: case RenameNormal:] part of
    [SixFS::rename()]. *)
Definition rename_normal (now : Time.t) (b : Base)
    (oldParentHandle newParentHandle : option Z) (oldName newName : string)
    (oldDirentSlot oldDirentIndex : Z) (oldDirent : Dirent.t)
    (newPathExists : bool) (newDirentSlot newDirentIndex : Z) (newDirent : Dirent.t)
    (r : Z) : Z * Base :=
  let undo := false in
  let oldDirent := Dirent.set_name newName oldDirent in
  let '(r, b) := Base.direntWrite b oldDirentIndex oldDirent in
  let '(r, undo, oldDirentSlot, b) :=
    if r =? 0 then
      if newPathExists then
        let '(r, b) :=
          HandleCache.call r b newParentHandle (fun b h =>
            Handle.renameHelperReplace b h newDirentSlot oldDirentIndex) in
        let b :=
          if r =? 0 then
            let '(r2, b) := Base.direntRemove b newDirentIndex in
            let '(r3, handle, b) :=
              HandleCache.handleGet b (Dirent.inodeIndex newDirent) in
            if r3 <? 0 then b
            else
              let '(r4, b) := HandleCache.call 0 b handle (Handle.remove now) in
              let '(r5, b) := releaseHandle now b handle in
              b
          else b in
        (r, (r <? 0) || undo, oldDirentSlot, b)
      else
        let '(r, b) :=
          HandleCache.call r b newParentHandle (fun b h =>
            Handle.renameHelperAdd b h newDirentSlot oldDirentIndex) in
        let undo := (r <? 0) || undo in
        let oldDirentSlot :=
          if (r =? 0)
             && (Handle.inodeIndex (HandleCache.deref b oldParentHandle)
                 =? Handle.inodeIndex (HandleCache.deref b newParentHandle))
             && (oldDirentSlot >=? newDirentSlot)
          then u64 (oldDirentSlot + 1) else oldDirentSlot in
        (r, undo, oldDirentSlot, b)
    else (r, undo, oldDirentSlot, b) in
  let '(r, undo, b) :=
    if r =? 0 then
      let '(r, b) :=
        HandleCache.call r b oldParentHandle (fun b h =>
          Handle.renameHelperRemove b h oldDirentSlot) in
      (r, (r <? 0) || undo, b)
    else (r, undo, b) in
  if undo then
    let oldDirent := Dirent.set_name oldName oldDirent in
    let '(r2, b) := Base.direntWrite b oldDirentIndex oldDirent in
    if r2 <? 0 then (- ENOTRECOVERABLE, raise EmergencySystemFailure b)
    else (r, b)
  else (r, b).

(** The [case RenameExchange:] part of [SixFS::rename()]. *)
Definition rename_exchange (b : Base) (oldParentHandle newParentHandle : option Z)
    (oldDirentSlot oldDirentIndex newDirentSlot newDirentIndex : Z) (r : Z) : Z * Base :=
  let '(r, b) :=
    HandleCache.call r b oldParentHandle (fun b h =>
      Handle.renameHelperReplace b h oldDirentSlot newDirentIndex) in
  if r =? 0 then
    let '(r, b) :=
      HandleCache.call r b newParentHandle (fun b h =>
        Handle.renameHelperReplace b h newDirentSlot oldDirentIndex) in
    if r <? 0 then
      let '(r2, b) :=
        HandleCache.call 0 b oldParentHandle (fun b h =>
          Handle.renameHelperReplace b h oldDirentSlot oldDirentIndex) in
      if r2 <? 0 then (- ENOTRECOVERABLE, raise EmergencySystemFailure b)
      else (r, b)
    else (r, b)
  else (r, b).

(** [int SixFS::rename(const char* oldPath, const char* newPath, RenameMode mode)] *)
Definition rename (now : Time.t) (b : Base) (oldPath newPath : string) (mode : RenameMode)
    : Z * Base :=
  let oldPathLen := strlen oldPath in
  let '(oldParentLen, oldNameOffset, oldNameLen) := separate oldPath oldPathLen in
  let newPathLen := strlen newPath in
  let '(newParentLen, newNameOffset, newNameLen) := separate newPath newPathLen in
  let r := if (oldNameLen >=? Dirent.nameSize) || (newNameLen >=? Dirent.nameSize)
           then - ENAMETOOLONG else 0 in
  let '(r, oldParentHandle, b) :=
    if r =? 0 then getHandle b oldPath oldParentLen else (r, None, b) in
  let r :=
    if (r =? 0)
       && negb (Inode.type (Handle.inode (HandleCache.deref b oldParentHandle)) =? TypeDIR)
    then - ENOTDIR else r in
  let '(r, newParentInodeIndex, b) :=
    if r =? 0 then findInode b newPath newParentLen InvalidIndex
    else (r, InvalidIndex, b) in
  let '(r, newParentHandle, b) :=
    if r =? 0 then
      if newParentInodeIndex =? Handle.inodeIndex (HandleCache.deref b oldParentHandle)
      then (r, oldParentHandle, b)
      else getHandle b newPath newParentLen
    else (r, None, b) in
  let r :=
    if (r =? 0)
       && negb (Inode.type (Handle.inode (HandleCache.deref b newParentHandle)) =? TypeDIR)
    then - ENOTDIR else r in
  let oldName := sub oldPath oldNameOffset oldNameLen in
  let newName := sub newPath newNameOffset newNameLen in
  let '(r, oldDirentSlot, oldDirentIndex, oldDirent, b) :=
    if r =? 0 then findDirentAt b oldParentHandle oldName 0 0 Dirent.zero
    else (r, 0, 0, Dirent.zero, b) in
  let '(r, newPathExists, newDirentSlot, newDirentIndex, newDirent, b) :=
    if r =? 0 then
      let '(r, newDirentSlot, newDirentIndex, newDirent, b) :=
        findDirentAt b newParentHandle newName InvalidIndex InvalidIndex Dirent.zero in
      (if r =? - ENOENT then 0 else r, r =? 0, newDirentSlot, newDirentIndex, newDirent, b)
    else (r, false, InvalidIndex, InvalidIndex, Dirent.zero, b) in
  let '(r, oldInode, b) :=
    if r =? 0 then Base.inodeRead b (Dirent.inodeIndex oldDirent) Inode.new
    else (r, Inode.new, b) in
  let '(r, newInode, b) :=
    if (r =? 0) && newPathExists
    then Base.inodeRead b (Dirent.inodeIndex newDirent) Inode.new
    else (r, Inode.new, b) in
  let oldIsDir := Inode.type oldInode =? TypeDIR in
  let newIsDir := Inode.type newInode =? TypeDIR in
  let r := if (r =? 0) && newPathExists && oldIsDir && negb newIsDir
           then - ENOTDIR else r in
  let r := if (r =? 0) && newPathExists && oldIsDir && negb newIsDir
              && (Inode.size newInode >? 0)
           then - ENOTEMPTY else r in
  let r := if (r =? 0) && newPathExists && negb oldIsDir && newIsDir
           then - EISDIR else r in
  let r := if (r =? 0) && newPathExists
              && bool_decide (mode = RenameNoreplace)
           then - EEXIST else r in
  let r := if (r =? 0) && negb newPathExists
              && bool_decide (mode = RenameExchange)
           then - ENOENT else r in
  let '(r, b) :=
    if r =? 0 then
      if newPathExists && (Inode.type oldInode =? TypeREG)
         && (Dirent.inodeIndex oldDirent =? Dirent.inodeIndex newDirent)
      then (r, b)
      else
        match mode with
        | RenameNoreplace | RenameNormal =>
            rename_normal now b oldParentHandle newParentHandle oldName newName
              oldDirentSlot oldDirentIndex oldDirent
              newPathExists newDirentSlot newDirentIndex newDirent r
        | RenameExchange =>
            rename_exchange b oldParentHandle newParentHandle
              oldDirentSlot oldDirentIndex newDirentSlot newDirentIndex r
        end
    else (r, b) in
  let b :=
    match oldParentHandle with
    | Some _ => snd (releaseHandle now b oldParentHandle)
    | None => b
    end in
  let b :=
    match newParentHandle with
    | Some _ =>
        if negb (bool_decide (newParentHandle = oldParentHandle))
        then snd (releaseHandle now b newParentHandle)
        else b
    | None => b
    end in
  (r, b).

(** [int SixFS::open(path, readOnly, trunc, append, Handle** handle)] *)
Definition open (now : Time.t) (b : Base) (path : string) (readOnly trunc append : bool)
    : Z * option Z * Base :=
  let '(r, handle, b) := getHandle b path (strlen path) in
  let '(r, b) :=
    if r =? 0 then
      HandleCache.call r b handle (fun b h => Handle.open now b h readOnly trunc append)
    else (r, b) in
  if (r <? 0) && bool_decide (handle <> None) then
    let '(r2, b) := releaseHandle now b handle in
    (r, None, b)
  else (r, handle, b).

(** [int SixFS::close(Handle* handle)] *)
Definition close (now : Time.t) (b : Base) (handle : option Z) : Z * Base :=
  releaseHandle now b handle.

(** [int SixFS::read(Handle* handle, offset, buf, count)]; the result
    carries the bytes copied to [buf]. *)
Definition read (b : Base) (handle : option Z) (offset count : Z) : Z * list Z * Base :=
  let '((r, out), b) :=
    HandleCache.call (0, []) b handle (fun b h =>
      let '(r, out, b, h) := Handle.read b h offset count in ((r, out), b, h)) in
  (r, out, b).

(** [int SixFS::write(Handle* handle, offset, buf, count)] *)
Definition write (b : Base) (handle : option Z) (offset : Z) (buf : list Z) (count : Z)
    : Z * Base :=
  HandleCache.call 0 b handle (fun b h => Handle.write b h offset buf count).

(** [int SixFS::chmod(Handle* handle, const char* path, uint16_t mode)] *)
Definition chmod (now : Time.t) (b : Base) (handle : option Z) (path : string) (mode : Z)
    : Z * Base :=
  let '(r, h, b) :=
    match handle with
    | Some _ => (0, handle, b)
    | None => getHandle b path (strlen path)
    end in
  let '(r, b) :=
    if r =? 0 then HandleCache.call r b h (fun b h => Handle.chmod now b h mode)
    else (r, b) in
  if negb (bool_decide (h = handle)) then
    let '(r2, b) := releaseHandle now b h in
    (if (r =? 0) && (r2 <? 0) then r2 else r, b)
  else (r, b).

(** [int SixFS::rmdirent(path, inodeChecker)] *)
Definition rmdirent (now : Time.t) (b : Base) (path : string)
    (inodeChecker : Inode.t -> Z) : Z * Base :=
  let pathLen := strlen path in
  let '(parentLen, nameOffset, nameLen) := separate path pathLen in
  let '(r, parentHandle, b) := getHandle b path parentLen in
  let '(r, b) :=
    if r =? 0 then
      HandleCache.rmdirent now b parentHandle (sub path nameOffset nameLen) inodeChecker
    else (r, b) in
  match parentHandle with
  | Some _ =>
      let '(r2, b) := releaseHandle now b parentHandle in
      (if (r =? 0) && (r2 <? 0) then r2 else r, b)
  | None => (r, b)
  end.

(** The checker of [SixFS::rmdir()]:
    [if (inode.type() != TypeDIR) return -ENOTDIR;
     if (inode.size > 0) return -ENOTEMPTY; return 0;] *)
Definition rmdir_checker (inode : Inode.t) : Z :=
  if negb (Inode.type inode =? TypeDIR) then - ENOTDIR
  else if Inode.size inode >? 0 then - ENOTEMPTY
  else 0.

(** [int SixFS::rmdir(const char* path)] *)
Definition rmdir (now : Time.t) (b : Base) (path : string) : Z * Base :=
  rmdirent now b path rmdir_checker.

(** The checker of [SixFS::unlink()]:
    [if (inode.type() == TypeDIR) return -EISDIR; return 0;] *)
Definition unlink_checker (inode : Inode.t) : Z :=
  if Inode.type inode =? TypeDIR then - EISDIR else 0.

(** [int SixFS::unlink(const char* path)] *)
Definition unlink (now : Time.t) (b : Base) (path : string) : Z * Base :=
  rmdirent now b path unlink_checker.

(** [int SixFS::readlink(const char* path, char* buf, size_t bufsize)];
    the result carries the bytes copied to [buf] before the terminator. *)
Definition readlink (now : Time.t) (b : Base) (path : string) (bufsize : Z)
    : Z * list Z * Base :=
  let '(r, handle, b) := getHandle b path (strlen path) in
  let '((r, out), b) :=
    if r =? 0 then
      HandleCache.call (r, []) b handle (fun b h =>
        let '(r, out, b, h) := Handle.readlink now b h bufsize in ((r, out), b, h))
    else ((r, []), b) in
  match handle with
  | Some _ =>
      let '(r2, b) := releaseHandle now b handle in
      (if (r =? 0) && (r2 <? 0) then r2 else r, out, b)
  | None => (r, out, b)
  end.

(** [int SixFS::chown(Handle* handle, const char* path, uint32_t uid, uint32_t gid)] *)
Definition chown (now : Time.t) (b : Base) (handle : option Z) (path : string)
    (uid gid : Z) : Z * Base :=
  let '(r, h, b) :=
    match handle with
    | Some _ => (0, handle, b)
    | None => getHandle b path (strlen path)
    end in
  let '(r, b) :=
    if r =? 0 then HandleCache.call r b h (fun b h => Handle.chown now b h uid gid)
    else (r, b) in
  if negb (bool_decide (h = handle)) then
    let '(r2, b) := releaseHandle now b h in
    (if (r =? 0) && (r2 <? 0) then r2 else r, b)
  else (r, b).

(** [int SixFS::utimens(Handle* handle, path, updateAtime, atime,
    updateMtime, mtime, updateCtime, ctime)] *)
Definition utimens (now : Time.t) (b : Base) (handle : option Z) (path : string)
    (updateAtime : bool) (atime : Time.t) (updateMtime : bool) (mtime : Time.t)
    (updateCtime : bool) (ctime : Time.t) : Z * Base :=
  let '(r, h, b) :=
    match handle with
    | Some _ => (0, handle, b)
    | None => getHandle b path (strlen path)
    end in
  let '(r, b) :=
    if r =? 0 then
      HandleCache.call r b h (fun b h =>
        Handle.utimens b h updateAtime atime updateMtime mtime updateCtime ctime)
    else (r, b) in
  if negb (bool_decide (h = handle)) then
    let '(r2, b) := releaseHandle now b h in
    (if (r =? 0) && (r2 <? 0) then r2 else r, b)
  else (r, b).

(** [int SixFS::truncate(Handle* handle, const char* path, uint64_t length)]
    for a [handle] that is not [nullptr], given by its key: the type test
    of the source reads [handle->inode()], not [h->inode()], so a call
    with a path only dereferences a null pointer as soon as the path has
    been found. *)
Definition truncate (now : Time.t) (b : Base) (handle : Z) (path : string) (length : Z)
    : Z * Base :=
  let h := Some handle in
  let r := 0 in
  let r := if (r =? 0)
              && negb (Inode.type (Handle.inode (HandleCache.deref b (Some handle)))
                       =? TypeREG)
           then - EINVAL else r in
  if r =? 0 then HandleCache.call r b h (fun b h => Handle.truncate now b h length)
  else (r, b).

(** [int SixFS::openDir(const char* path, Handle** handle)] *)
Definition openDir (now : Time.t) (b : Base) (path : string) : Z * option Z * Base :=
  let '(r, handle, b) := getHandle b path (strlen path) in
  let '(r, b) :=
    if r =? 0 then HandleCache.call r b handle (Handle.openDir now) else (r, b) in
  if (r <? 0) && bool_decide (handle <> None) then
    let '(r2, b) := releaseHandle now b handle in
    (r, None, b)
  else (r, handle, b).

(** [int SixFS::closeDir(Handle* handle)] *)
Definition closeDir (now : Time.t) (b : Base) (handle : option Z) : Z * Base :=
  releaseHandle now b handle.

(** [int SixFS::readDirent(Handle* handle, uint64_t direntSlot, Dirent* dirent)] *)
Definition readDirent (b : Base) (handle : option Z) (direntSlot : Z) (dirent : Dirent.t)
    : Z * Dirent.t * Base :=
  let '((r, dirent), b) :=
    HandleCache.call (0, dirent) b handle (fun b h =>
      let '(r, dirent, b, h) := Handle.readDirent b h direntSlot dirent in
      ((r, dirent), b, h)) in
  (r, dirent, b).

(** [int SixFS::readDirentPlus(Handle* handle, direntSlot, Dirent* dirent, Inode* inode)] *)
Definition readDirentPlus (b : Base) (handle : option Z) (direntSlot : Z)
    (dirent : Dirent.t) (inode : Inode.t) : Z * Dirent.t * Inode.t * Base :=
  let '((r, dirent, inode), b) :=
    HandleCache.call (0, dirent, inode) b handle (fun b h =>
      let '(r, dirent, inode, b, h) := Handle.readDirentPlus b h direntSlot dirent inode in
      ((r, dirent, inode), b, h)) in
  (r, dirent, inode, b).

(** [int SixFS::unmount()] *)
Definition unmount (b : Base) : Z * Base := Base.cleanup b.

(** [SixFS::mount] on the six containers that [b], unmounted, left. *)
Definition remount (now : Time.t) (euid egid : Z) (maxSize : Z) (punchHoles : bool)
    (b : Base) : Z * Base :=
  mount now euid egid maxSize punchHoles
    (ChunkManager.chunkSize (_inodeMgr b)) (ChunkManager.chunkSize (_direntMgr b))
    (Map._storage (ChunkManager._map (_inodeMgr b))) (ChunkManager._chunks (_inodeMgr b))
    (Map._storage (ChunkManager._map (_direntMgr b))) (ChunkManager._chunks (_direntMgr b))
    (Map._storage (ChunkManager._map (_blockMgr b))) (ChunkManager._chunks (_blockMgr b))
    (emergencyType b).

End SixFS.

(** An empty container: no chunks, no faults planned. *)
Definition emptyStorage {A : Type} (chunkSize : Z) : Storage.t A :=
  Storage.mk chunkSize [] [] false.

(** ** Sequences of calls on a Map *)

Inductive MapCall : Type :=
  | CallFirstZero
  | CallSet (index : Z) (b : bool)
  | CallGet (index : Z)
  | CallSync.

Definition Map_call (m : Map.t) (c : MapCall) : Z * Map.t :=
  match c with
  | CallFirstZero => let '(r, _, m, _) := Map.firstZero m 0 in (r, m)
  | CallSet index b => let '(r, m, _) := Map.set m index b in (r, m)
  | CallGet index => let '(r, _, m, _) := Map.get m index false in (r, m)
  | CallSync => let '(r, m, _) := Map.sync m in (r, m)
  end.

(** The results of the calls, in order, and the Map after them. *)
Fixpoint Map_run (m : Map.t) (cs : list MapCall) : list Z * Map.t :=
  match cs with
  | [] => ([], m)
  | c :: cs =>
      let '(r, m) := Map_call m c in
      let '(rs, m) := Map_run m cs in
      (r :: rs, m)
  end.

(** A run of calls in which every call returns 0, every [set] changes the
    bit of its slot, and the Map stays well-formed. *)
Fixpoint calls_effective (m : Map.t) (cs : list MapCall) : Prop :=
  match cs with
  | [] => True
  | c :: cs =>
      Map.wf m
      /\ match c with
         | CallSet index b => 0 <= index < 2 ^ 63 /\ Map.bit m index = negb b
         | CallGet index => 0 <= index < 2 ^ 63
         | CallFirstZero | CallSync => True
         end
      /\ fst (Map_call m c) = 0
      /\ calls_effective (snd (Map_call m c)) cs
  end.

(** ** Example states *)

(** The Map of a new, empty container after [Map::initialize()]. *)
Definition map_fresh : Map.t := snd (Map.initialize (Map.new (emptyStorage 8))).

(** Slots 0..63 are set one by one and slot 5 is set once more; then slot
    64 is set, twice; then bit 0 is read. *)
Definition calls_redundant_set : list MapCall :=
  ((fun i => CallSet (Z.of_nat i) true) <$> seq 0 64)
    ++ [CallSet 5 true; CallSet 64 true; CallSet 64 true; CallGet 0].

(** A Map over the bit chunks [1; 0; 0; 0] with the last chunk resident. *)
Definition map_trailing : Map.t :=
  snd (Map_run
         (snd (Map.initialize (Map.new (Storage.mk 8 [1; 0; 0; 0] [] false))))
         [CallGet 192]).

(** The moment of the calls in the examples, and the sizes used for
    [sizeof(Inode)] and [sizeof(Dirent)]. *)
Definition t1000 : Time.t := Time.mk 1000 0.
Definition t2000 : Time.t := Time.mk 2000 0.

(** A filesystem mounted on six new, empty containers, with the byte
    ceiling [maxSize] (0: none). *)
Definition fs_fresh (maxSize : Z) : Z * Base :=
  SixFS.mount t1000 0 0 maxSize false 132 264
    (emptyStorage 8) (emptyStorage 132) (emptyStorage 8) (emptyStorage 264)
    (emptyStorage 8) (emptyStorage 4096) EmergencyNone.

(** The results of a sequence of operations and the final state. *)
Fixpoint fs_run (b : Base) (ops : list (Base -> Z * Base)) : list Z * Base :=
  match ops with
  | [] => ([], b)
  | op :: ops =>
      let '(r, b) := op b in
      let '(rs, b) := fs_run b ops in
      (r :: rs, b)
  end.

(** [mknod("/f", S_IFREG | 04755, 0)] on a fresh filesystem: one regular
    file with the setuid bit. *)
Definition fs_one_file : list Z * Base :=
  fs_run (snd (fs_fresh 0))
    [fun b => SixFS.mknod t1000 0 0 b "/f" (Z.lor TypeREG 0x9ED) 0].

(** The same filesystem unmounted and mounted again with a ceiling of one
    byte. *)
Definition fs_one_file_quota : list Z * Base :=
  fs_run (snd fs_one_file)
    [SixFS.unmount; SixFS.remount t1000 0 0 1 false].

(** The directory "/a" with the regular files "x", "y" and "z", made in
    this order (end-to-end scenarios 1 and 2 of the specification). *)
Definition fs_three_files : list Z * Base :=
  fs_run (snd (fs_fresh 0))
    [fun b => SixFS.mkdir t1000 0 0 b "/a" 0x1ED;
     fun b => SixFS.mknod t1000 0 0 b "/a/x" (Z.lor TypeREG 0x1A4) 0;
     fun b => SixFS.mknod t1000 0 0 b "/a/y" (Z.lor TypeREG 0x1A4) 0;
     fun b => SixFS.mknod t1000 0 0 b "/a/z" (Z.lor TypeREG 0x1A4) 0].

(** The result of resolving [path] and the inode index it resolves to. *)
Definition fs_lookup (b : Base) (path : string) : Z * Z :=
  let '(r, attr, _) := SixFS.getAttr t2000 b path in (r, fst attr).

(** A stand-in for the secretbox of libsodium that keeps its contract but
    hides nothing: the tag is 16 zero bytes and the message follows in the
    clear.  It shows that the assumptions made about the secretbox can be
    met. *)
Definition toy_secretbox_easy (m nonce key : list Z) : list Z :=
  replicate 16 0 ++ m.
Definition toy_secretbox_open_easy (c nonce key : list Z) : option (list Z) :=
  if bool_decide (take 16 c = replicate 16 0) then Some (drop 16 c) else None.

(** "/f" is opened and gets one byte in slot 1 and one in slot 513, so that
    it has an indirection block of tree 1 and two of tree 2; "/h" gets one
    byte; then "/g" is renamed to "/f", which unlinks the open file, and the
    file is closed, which removes it. *)
Definition fs_unlinked_open_file : list Z * Base :=
  fs_run (snd (fs_fresh 0))
    [fun b => SixFS.mknod t1000 0 0 b "/f" (Z.lor TypeREG 0x1A4) 0;
     fun b => SixFS.mknod t1000 0 0 b "/g" (Z.lor TypeREG 0x1A4) 0;
     fun b => SixFS.mknod t1000 0 0 b "/h" (Z.lor TypeREG 0x1A4) 0;
     fun b => let '(r, h, b) := SixFS.open t2000 b "/f" false false false in (r, b);
     fun b => let '(r, h, b) := SixFS.open t2000 b "/h" false false false in (r, b);
     fun b => SixFS.write b (Some 1) 4096 [65] 1;
     fun b => SixFS.write b (Some 1) (513 * 4096) [66] 1;
     fun b => SixFS.write b (Some 3) 0 [67] 1;
     fun b => SixFS.rename t2000 b "/g" "/f" SixFS.RenameNormal;
     fun b => SixFS.close t2000 b (Some 1)].

(** A ChunkManager over a new, empty container after
    [ChunkManager::initialize()]; its chunks are single numbers, and [plan]
    is the fault plan of the data Storage, whose first entry the
    [Storage::size] call of [initialize] consumes. *)
Definition cm_fresh (plan : list (option positive)) : ChunkManager.t Z :=
  snd (ChunkManager.initialize
         (ChunkManager.new (Map.new (emptyStorage 8)) (Storage.mk 8 [] plan false) 8 false)).

(** The data Storage grows, then fails the write with EIO (5) and the
    shrinking that follows with ENOSPC (28). *)
Definition plan_write_and_shrink_fail : list (option positive) :=
  [None; None; Some 5%positive; Some 28%positive].

(** The data Storage fails to grow, with ENOSPC (28). *)
Definition plan_grow_fails : list (option positive) :=
  [None; Some 28%positive].

(** ** Derived notions *)

(** What the slot operations of a handle leave alone: the inode but for
    its slot trees, and the fields [_append] and [_inodeIndex]. *)
Definition kept (h : Handle) : Inode.t * bool * Z :=
  (Inode.set_slotTrees [] (_inode h), _append h, _inodeIndex h).

(** What [Handle::write] and [Handle::truncateNow] leave alone: the inode
    but for its size and its slot trees, and the fields [_append] and
    [_inodeIndex]. *)
Definition kept_attrs (h : Handle) : Inode.t * bool * Z :=
  (Inode.set_size 0 (Inode.set_slotTrees [] (_inode h)), _append h, _inodeIndex h).

(** A directory inode whose link count has reached the maximum. *)
Definition inode_dir_maxlinks : Inode.t :=
  Inode.set_nlink UINT64_MAX (Inode.directory t1000 0 0 None ModeRWXU).

(** "/f" of [fs_one_file] (inode 1) opened for writing at time 2000, and
    one byte written at offset 0. *)
Definition fs_file_written : list Z * Base :=
  fs_run (snd fs_one_file)
    [fun b => let '(r, h, b) := SixFS.open t2000 b "/f" false false false in (r, b);
     fun b => SixFS.write b (Some 1) 0 [65] 1].

(** "/f" of [fs_one_file] opened for writing at time 2000 and given the
    mode 04755 through the open handle. *)
Definition fs_file_suid : list Z * Base :=
  fs_run (snd fs_one_file)
    [fun b => let '(r, h, b) := SixFS.open t2000 b "/f" false false false in (r, b);
     fun b => SixFS.chmod t2000 b (Some 1) "/f" 0x9ED].

(** "/f" of [fs_one_file_quota] (inode 1) opened read-only. *)
Definition fs_file_quota_opened : list Z * Base :=
  fs_run (snd fs_one_file_quota)
    [fun b => let '(r, h, b) := SixFS.open t2000 b "/f" true false false in (r, b)].

(** The slot that a tree number and the indices of
    [Handle::slotToTreeIndices] stand for: the slots are numbered tree by
    tree, and within a tree by the indices as digits to the base [N]. *)
Definition treeIndicesToSlot (tree : Z) (ijkl : list Z) : Z :=
  let i := Handle.ijkl_at ijkl 0 in
  let j := Handle.ijkl_at ijkl 1 in
  let k := Handle.ijkl_at ijkl 2 in
  let l := Handle.ijkl_at ijkl 3 in
  let N := Handle.N in
  if tree =? 0 then 0
  else if tree =? 1 then 1 + i
  else if tree =? 2 then 1 + N + (i * N + j)
  else if tree =? 3 then 1 + N + N * N + ((i * N + j) * N + k)
  else 1 + N + N * N + N * N * N + (((i * N + j) * N + k) * N + l).

(** A Map in which slot 1 has been freed again: the slots 0 and 2 are in
    use, and the resident chunk has been written back. *)
Definition map_reused : Map.t :=
  snd (Map_run map_fresh
         [CallSet 0 true; CallSet 1 true; CallSet 2 true; CallGet 100;
          CallSet 1 false; CallSync]).

(** A ChunkManager whose chunks 0, 1 and 2 are in use. *)
Definition cm_three : ChunkManager.t Z :=
  let c := snd (fst (ChunkManager.add 0 (cm_fresh []) 0 7)) in
  let c := snd (fst (ChunkManager.add 0 c 0 8)) in
  snd (fst (ChunkManager.add 0 c 0 9)).

(** A memory container of chunks of four bytes that holds two chunks. *)
Definition sm_two_chunks : StorageMemory.t :=
  snd (StorageMemory.write (StorageMemory.setChunkSize (StorageMemory.new []) 4)
         0 2 [1; 2; 3; 4; 5; 6; 7; 8]).

(** "/f" on a filesystem with a ceiling of 25000 bytes, opened for writing:
    one block can still be added, a second one cannot. *)
Definition fs_file_quota_one_block : list Z * Base :=
  fs_run (snd (fs_fresh 25000))
    [fun b => SixFS.mknod t1000 0 0 b "/f" (Z.lor TypeREG 0x1A4) 0;
     fun b => let '(r, h, b) := SixFS.open t2000 b "/f" false false false in (r, b)].

(** A mapping of one page of 4096 bytes that holds a container of 16
    bytes. *)
Definition mmap_sixteen_bytes : StorageMmap.t :=
  StorageMmap.mk 4096 (replicate (Z.to_nat 4096) 0) 4096 16 [].

(** * Properties *)

(** ** Map *)

(** C6.  [Map::sync()] on the Map of a new container, whose single chunk is
    all-zero, returns 0 and leaves no chunk in the backing Storage (the
    claim and the comment in the source promise one); and on a Map over the
    chunks [1; 0; 0; 0] with the last chunk resident it removes only one of
    the three trailing zero chunks. *)
Lemma sync_drops_the_last_chunk :
  Storage.chunks (Map._storage map_fresh) = [0]
  /\ Map._bitChunksInStorage map_fresh = 1
  /\ (let '(r, m, e) := Map.sync map_fresh in
      r = 0 /\ Storage.chunks (Map._storage m) = [] /\ Map._bitChunksInStorage m = 0)
  /\ Storage.chunks (Map._storage map_trailing) = [1; 0; 0; 0]
  /\ Map._currentBitChunkIndex map_trailing = 3
  /\ (let '(r, m, e) := Map.sync map_trailing in
      r = 0 /\ Storage.chunks (Map._storage m) = [1; 0; 0]).
Proof. vm_compute. repeat split; reflexivity. Qed.

(** C1.  All calls of [calls_redundant_set] on a fresh Map return 0; they
    set the slots 0..64 and clear none.  In the Map they lead to,
    [Map::firstZero()] returns 0 and the index 64, the slot that the two
    calls [set(64, true)] have allocated; and in the Map that [firstZero]
    leaves, the bits of the slots 0 and 63 are zero, as [Map::get] reports
    for slot 0: neither is 64 a slot whose bit was left zero by the calls,
    nor is it the smallest slot whose bit is zero in the Map. *)
Lemma firstZero_after_redundant_set :
  let '(rs, m) := Map_run map_fresh calls_redundant_set in
  Forall (fun r => r = 0) rs
  /\ Storage.chunks (Map._storage m) = [0; 0]
  /\ Map._firstZeroCandidate m = 65
  /\ (let '(r, index, m', _) := Map.firstZero m 0 in
      r = 0 /\ index = 64
      /\ Map.bit m' 0 = false /\ Map.bit m' 63 = false
      /\ (let '(r, b, _, _) := Map.get m' 0 true in r = 0 /\ b = false)).
Proof.
  vm_compute. split; [repeat constructor | repeat split; reflexivity].
Qed.

(** ** Base *)

(** C7, as stated, fails for [additionalBytes = 0]: on a filesystem with one
    file, mounted with a ceiling of one byte, the latch is not set, the
    ceiling is positive and exceeded, and the result is 0, not [-ENOSPC]. *)
Lemma checkWriteAction_zero_bytes_counterexample :
  let b := snd fs_one_file_quota in
  Forall (fun r => r = 0) (fst fs_one_file_quota)
  /\ emergencyType b = EmergencyNone
  /\ _maxSize b > 0
  /\ Base.storageSizeInBytes b + 0 + 4 * Block.size > _maxSize b
  /\ Base.checkWriteAction b 0 = 0
  /\ Base.checkWriteAction b 0 <> - ENOSPC.
Proof.
  vm_compute. split; [repeat constructor | repeat split; congruence].
Qed.

(** C7, amended.  [Base::checkWriteAction(additionalBytes)] returns
    [-EROFS] if and only if the emergency latch is set; otherwise it returns
    [-ENOSPC] if and only if [maxSize > 0], [additionalBytes > 0] and
    [storageSizeInBytes() + additionalBytes + 4 * sizeof(Block) > maxSize]
    (the sum in 64-bit unsigned arithmetic, as the source computes it), and
    0 in every other case. *)
Theorem checkWriteAction_spec (b : Base) (additionalBytes : Z) :
  (Base.checkWriteAction b additionalBytes = - EROFS
   <-> emergencyType b <> EmergencyNone)
  /\ (emergencyType b = EmergencyNone ->
      (Base.checkWriteAction b additionalBytes = - ENOSPC
       <-> _maxSize b > 0 /\ additionalBytes > 0
           /\ u64 (Base.storageSizeInBytes b + u64 (additionalBytes + 4 * Block.size))
              > _maxSize b)
      /\ (Base.checkWriteAction b additionalBytes <> - ENOSPC ->
          Base.checkWriteAction b additionalBytes = 0)).
Proof.
  unfold Base.checkWriteAction.
  destruct (emergencyType b) eqn:He; simpl.
  - split; [split; [intros H | intros []; reflexivity] | intros _].
    + destruct (_ && _); [destruct (_ >? _) |]; discriminate H.
    + destruct (_maxSize b >? 0) eqn:Hm; destruct (additionalBytes >? 0) eqn:Ha; simpl.
      * destruct (_ >? _maxSize b) eqn:Hs.
        -- split; [split; [intros _; lia | reflexivity] | congruence].
        -- split; [split; [discriminate | lia] | reflexivity].
      * split; [split; [discriminate | lia] | reflexivity].
      * split; [split; [discriminate | lia] | reflexivity].
      * split; [split; [discriminate | lia] | reflexivity].
  - split; [split; [congruence | reflexivity] | discriminate].
  - split; [split; [congruence | reflexivity] | discriminate].
Qed.

(** ** Handle: what the slot operations leave alone *)

Lemma kept_set_cachedBlock h l v : kept (Handle.set_cachedBlock l v h) = kept h.
Proof. reflexivity. Qed.

Lemma kept_set_cachedBlockIndex h l v : kept (Handle.set_cachedBlockIndex l v h) = kept h.
Proof. reflexivity. Qed.

Lemma kept_set_slotCount h v : kept (set_slotCount v h) = kept h.
Proof. reflexivity. Qed.

Lemma kept_set_slotTree h i k v :
  kept (set_inode (Inode.set_slotTree k v i) h) = kept (set_inode i h).
Proof. reflexivity. Qed.

Lemma kept_set_inode_same h : kept (set_inode (_inode h) h) = kept h.
Proof. reflexivity. Qed.

Lemma kept_set_inode_cachedBlock h i l v :
  kept (set_inode i (Handle.set_cachedBlock l v h)) = kept (set_inode i h).
Proof. reflexivity. Qed.

Lemma kept_set_inode_cachedBlockIndex h i l v :
  kept (set_inode i (Handle.set_cachedBlockIndex l v h)) = kept (set_inode i h).
Proof. reflexivity. Qed.

Lemma kept_set_inode_slotCount h i v :
  kept (set_inode i (set_slotCount v h)) = kept (set_inode i h).
Proof. reflexivity. Qed.

Lemma kept_inode h h' :
  kept h' = kept h ->
  Inode.set_slotTrees (Inode.slotTrees (_inode h')) (_inode h) = _inode h'
  /\ _append h' = _append h /\ _inodeIndex h' = _inodeIndex h.
Proof.
  unfold kept. intros H.
  destruct h as [? [] ? ? ? ? ? ? ?], h' as [? [] ? ? ? ? ? ? ?]; simpl in *.
  inversion H; subst. repeat split.
Qed.

Lemma kept_kept_attrs h h' : kept h' = kept h -> kept_attrs h' = kept_attrs h.
Proof.
  unfold kept, kept_attrs. intros H.
  destruct h as [? [] ? ? ? ? ? ? ?], h' as [? [] ? ? ? ? ? ? ?]; simpl in *.
  inversion H; subst. reflexivity.
Qed.

Lemma kept_size h h' :
  kept h' = kept h -> Inode.size (_inode h') = Inode.size (_inode h).
Proof.
  unfold kept. intros H.
  destruct h as [? [] ? ? ? ? ? ? ?], h' as [? [] ? ? ? ? ? ? ?]; simpl in *.
  inversion H; subst. reflexivity.
Qed.

Lemma kept_attrs_set_size h v :
  kept_attrs (set_inode (Inode.set_size v (_inode h)) h) = kept_attrs h.
Proof. reflexivity. Qed.

Lemma kept_attrs_inode h h' :
  kept_attrs h' = kept_attrs h ->
  Inode.atime (_inode h') = Inode.atime (_inode h)
  /\ Inode.ctime (_inode h') = Inode.ctime (_inode h)
  /\ Inode.mtime (_inode h') = Inode.mtime (_inode h)
  /\ Inode.typeAndMode (_inode h') = Inode.typeAndMode (_inode h)
  /\ Inode.nlink (_inode h') = Inode.nlink (_inode h)
  /\ Inode.uid (_inode h') = Inode.uid (_inode h)
  /\ Inode.gid (_inode h') = Inode.gid (_inode h).
Proof.
  unfold kept_attrs. intros H.
  destruct h as [? [] ? ? ? ? ? ? ?], h' as [? [] ? ? ? ? ? ? ?]; simpl in *.
  inversion H; subst. repeat split.
Qed.

#[global] Opaque kept kept_attrs.

Create Rewrite HintDb kept.
#[local] Hint Rewrite kept_set_cachedBlock kept_set_cachedBlockIndex kept_set_slotCount
  kept_set_slotTree kept_set_inode_cachedBlock kept_set_inode_cachedBlockIndex
  kept_set_inode_slotCount kept_set_inode_same : kept.

(** One step of a case analysis on the code: a conditional or a
    pair-binding [let] in a hypothesis, innermost first. *)
Ltac step :=
  match goal with
  | H : context [if ?c then _ else _] |- _ =>
      lazymatch c with
      | context [if _ then _ else _] => fail
      | context [let '(_, _) := _ in _] => fail
      | _ => destruct c eqn:?
      end
  | H : context [let '(_, _) := ?e in _] |- _ =>
      lazymatch e with
      | context [if _ then _ else _] => fail
      | context [let '(_, _) := _ in _] => fail
      | _ => destruct e as [? ?] eqn:?
      end
  end.

(** The hypotheses that equate two tuples of results. *)
Ltac results :=
  repeat match goal with
         | E : (_, _) = (_, _) |- _ => inversion E; subst; clear E
         end.

Ltac kept_done := autorewrite with kept in *; try congruence.

Lemma cacheBlock_kept b h l i r b' h' :
  Handle.cacheBlock b h l i = (r, b', h') -> kept h' = kept h.
Proof.
  unfold Handle.cacheBlock. intros H.
  repeat step; results; kept_done.
Qed.

(** Turn the equation [E] of a call into what the call leaves alone. *)
Ltac kept_fact E := apply cacheBlock_kept in E.

Ltac kept_cases :=
  repeat step; results;
  repeat match goal with
         | E : _ = (_, _) |- _ => kept_fact E
         | IH : (forall _, _), E : _ = (_, _) |- _ => apply IH in E
         end;
  kept_done.

Lemma getSlot_loop_kept n : forall b h tree ijkl l bi idx r out b' h',
  Handle.getSlot_loop n b h tree ijkl l bi idx = (r, out, b', h') -> kept h' = kept h.
Proof.
  induction n as [|n IH]; simpl; intros b h tree ijkl l bi idx r out b' h' H; kept_cases.
Qed.

Ltac kept_fact E ::=
  first [apply cacheBlock_kept in E | apply getSlot_loop_kept in E].

Lemma getSlot_kept b h slot idx r out b' h' :
  Handle.getSlot b h slot idx = (r, out, b', h') -> kept h' = kept h.
Proof. unfold Handle.getSlot. intros H. kept_cases. Qed.

Ltac kept_fact E ::= first [apply cacheBlock_kept in E | apply getSlot_kept in E].

Lemma setSlot_delete_kept n : forall b h tree ijkl r b' h',
  Handle.setSlot_delete n b h tree ijkl = (r, b', h') -> kept h' = kept h.
Proof.
  induction n as [|n IH]; simpl; intros b h tree ijkl r b' h' H; kept_cases.
Qed.

Ltac kept_fact E ::=
  first [apply cacheBlock_kept in E | apply getSlot_kept in E
        | apply setSlot_delete_kept in E].

Lemma setSlot_loop_kept n : forall b h tree ijkl l bi idx r b' h',
  Handle.setSlot_loop n b h tree ijkl l bi idx = (r, b', h') -> kept h' = kept h.
Proof.
  induction n as [|n IH]; simpl; intros b h tree ijkl l bi idx r b' h' H; kept_cases.
Qed.

Ltac kept_fact E ::=
  first [apply cacheBlock_kept in E | apply getSlot_kept in E
        | apply setSlot_delete_kept in E | apply setSlot_loop_kept in E].

Lemma setSlot_kept b h slot idx r b' h' :
  Handle.setSlot b h slot idx = (r, b', h') -> kept h' = kept h.
Proof. unfold Handle.setSlot. intros H. kept_cases. Qed.

Ltac kept_fact E ::=
  first [apply cacheBlock_kept in E | apply getSlot_kept in E
        | apply setSlot_kept in E].

Lemma insertSlot_loop_kept n : forall b h i slot r b' h',
  Handle.insertSlot_loop n b h i slot = (r, b', h') -> kept h' = kept h.
Proof.
  induction n as [|n IH]; simpl; intros b h i slot r b' h' H; kept_cases.
Qed.

Ltac kept_fact E ::=
  first [apply cacheBlock_kept in E | apply getSlot_kept in E
        | apply setSlot_kept in E | apply insertSlot_loop_kept in E].

Lemma insertSlot_kept b h slot idx r b' h' :
  Handle.insertSlot b h slot idx = (r, b', h') -> kept h' = kept h.
Proof. unfold Handle.insertSlot. intros H. kept_cases. Qed.

Lemma removeSlot_loop_kept n : forall b h i r b' h',
  Handle.removeSlot_loop n b h i = (r, b', h') -> kept h' = kept h.
Proof.
  induction n as [|n IH]; simpl; intros b h i r b' h' H; kept_cases.
Qed.

Ltac kept_fact E ::=
  first [apply cacheBlock_kept in E | apply getSlot_kept in E
        | apply setSlot_kept in E | apply insertSlot_kept in E
        | apply removeSlot_loop_kept in E].

Lemma removeSlot_kept b h slot flag r b' h' :
  Handle.removeSlot b h slot flag = (r, b', h') -> kept h' = kept h.
Proof. unfold Handle.removeSlot. intros H. kept_cases. Qed.

Ltac kept_fact E ::=
  first [apply cacheBlock_kept in E | apply getSlot_kept in E
        | apply setSlot_kept in E | apply insertSlot_kept in E
        | apply removeSlot_kept in E].

(** ** Handle: reading *)

Lemma cacheBlock_inode b h l i r b' h' :
  Handle.cacheBlock b h l i = (r, b', h') -> _inode h' = _inode h.
Proof.
  unfold Handle.cacheBlock. intros H. repeat step; results; reflexivity.
Qed.

Lemma getSlot_loop_inode n : forall b h tree ijkl l bi idx r out b' h',
  Handle.getSlot_loop n b h tree ijkl l bi idx = (r, out, b', h') -> _inode h' = _inode h.
Proof.
  induction n as [|n IH]; simpl; intros b h tree ijkl l bi idx r out b' h' H;
    repeat step; results; try reflexivity;
    repeat match goal with
           | E : Handle.cacheBlock _ _ _ _ = _ |- _ => apply cacheBlock_inode in E
           | E : Handle.getSlot_loop _ _ _ _ _ _ _ _ = _ |- _ => apply IH in E
           end;
    congruence.
Qed.

Lemma getSlot_inode b h slot idx r out b' h' :
  Handle.getSlot b h slot idx = (r, out, b', h') -> _inode h' = _inode h.
Proof.
  unfold Handle.getSlot. intros H. repeat step; results; try reflexivity.
  eapply getSlot_loop_inode; eassumption.
Qed.

Lemma read_loop_inode n : forall b h offset count block out r out' b' h',
  Handle.read_loop n b h offset count block out = (r, out', b', h') ->
  _inode h' = _inode h.
Proof.
  induction n as [|n IH]; simpl; intros b h offset count block out r out' b' h' H;
    repeat step; results; try reflexivity;
    repeat match goal with
           | E : Handle.getSlot _ _ _ _ = _ |- _ => apply getSlot_inode in E
           | E : Handle.read_loop _ _ _ _ _ _ _ = _ |- _ => apply IH in E
           end;
    congruence.
Qed.

Lemma read_inode b h offset count r out b' h' :
  Handle.read b h offset count = (r, out, b', h') -> _inode h' = _inode h.
Proof.
  unfold Handle.read. intros H.
  destruct (Handle.read_loop _ _ _ _ _ _ _) as [[[r0 out0] b0] h0] eqn:E.
  apply read_loop_inode in E. results. assumption.
Qed.

(** C8, as stated, fails: in [fs_file_written] the atime of "/f" (1000 s) is
    older than its mtime and ctime (2000 s); a read of one byte succeeds and
    leaves atime at 1000 s. *)
Lemma read_atime_counterexample :
  let b := snd fs_file_written in
  let h := HandleCache.deref b (Some 1) in
  Forall (fun r => 0 <= r) (fst fs_file_written)
  /\ Time.isOlderThan (Inode.atime (_inode h)) (Inode.mtime (_inode h)) = true
  /\ Time.isOlderThan (Inode.atime (_inode h)) (Inode.ctime (_inode h)) = true
  /\ (let '(r, out, b') := SixFS.read b (Some 1) 0 1 in
      r = 1 /\ out = [65]
      /\ Inode.atime (_inode (HandleCache.deref b' (Some 1))) = Time.mk 1000 0).
Proof.
  vm_compute. split; [repeat constructor; discriminate | repeat split; reflexivity].
Qed.

(** ** Handle: hard links *)

(** C10, as stated, fails for an inode whose link count is at the maximum:
    for such a directory [Handle::link] returns [-EMLINK], not [-EINVAL]. *)
Lemma link_maxlinks_counterexample :
  let h := Handle.new 5 inode_dir_maxlinks in
  Inode.type (_inode h) = TypeDIR
  /\ Inode.type (_inode h) <> TypeREG
  /\ (let '(r, b', h') := Handle.link t2000 (snd fs_one_file) h in
      r = - EMLINK /\ r <> - EINVAL).
Proof. vm_compute. repeat split; congruence. Qed.

(** C10, amended.  For every inode whose type is not regular file
    [Handle::link] returns an error and changes neither the handle (inode,
    nlink and ctime included) nor the Base: [-EMLINK] when the link count is
    [2^64 - 1], [-EINVAL] otherwise. *)
Theorem link_rejects_non_regular (now : Time.t) (b : Base) (h : Handle) :
  Inode.type (_inode h) <> TypeREG ->
  Handle.link now b h
  = (if Inode.nlink (_inode h) =? UINT64_MAX then - EMLINK else - EINVAL, b, h).
Proof.
  intros Ht. unfold Handle.link.
  destruct (Inode.type (_inode h) =? TypeREG) eqn:E; [apply Z.eqb_eq in E; contradiction |].
  simpl. destruct (Inode.nlink (_inode h) =? UINT64_MAX); reflexivity.
Qed.

Lemma link_rejects_non_regular_witness :
  Handle.link t2000 (snd fs_one_file) (Handle.new 0 (Inode.directory t1000 0 0 None ModeRWXU))
  = (- EINVAL, snd fs_one_file, Handle.new 0 (Inode.directory t1000 0 0 None ModeRWXU)).
Proof.
  apply (link_rejects_non_regular t2000 (snd fs_one_file)
           (Handle.new 0 (Inode.directory t1000 0 0 None ModeRWXU))).
  vm_compute. discriminate.
Defined.

(** ** Handle: truncation and writing *)

Lemma truncateNow_shrink_kept n : forall b h nbc r0 r b' h',
  Handle.truncateNow_shrink n b h nbc r0 = (r, b', h') -> kept h' = kept h.
Proof.
  induction n as [|n IH]; simpl; intros b h nbc r0 r b' h' H; kept_cases.
Qed.

Lemma truncateNow_grow_kept n : forall b h nbc r0 r b' h',
  Handle.truncateNow_grow n b h nbc r0 = (r, b', h') -> kept h' = kept h.
Proof.
  induction n as [|n IH]; simpl; intros b h nbc r0 r b' h' H; kept_cases.
Qed.

Ltac kept_fact E ::=
  first [apply cacheBlock_kept in E | apply getSlot_kept in E
        | apply setSlot_kept in E | apply insertSlot_kept in E
        | apply removeSlot_kept in E | apply truncateNow_shrink_kept in E
        | apply truncateNow_grow_kept in E].

Create Rewrite HintDb kept_attrs.
#[local] Hint Rewrite kept_attrs_set_size : kept_attrs.

(** As [kept_cases], for what [truncateNow] and [write] leave alone. *)
Ltac attrs_fact E := fail.

Ltac attrs_cases :=
  repeat step; results;
  repeat match goal with
         | E : _ = (_, _) |- _ => first [kept_fact E; apply kept_kept_attrs in E | attrs_fact E]
         | IH : (forall _, _), E : _ = (_, _) |- _ => apply IH in E
         end;
  autorewrite with kept_attrs in *; try congruence.

Lemma truncateNow_kept_attrs b h length r b' h' :
  Handle.truncateNow b h length = (r, b', h') -> kept_attrs h' = kept_attrs h.
Proof. unfold Handle.truncateNow. intros H. attrs_cases. Qed.

Lemma truncateNow_size b h length b' h' :
  Handle.truncateNow b h length = (0, b', h') -> Inode.size (_inode h') = length.
Proof.
  unfold Handle.truncateNow. intros H.
  destruct (length =? Inode.size (_inode h)) eqn:E; simpl in H.
  - results. apply Z.eqb_eq in E. congruence.
  - destruct (Handle.truncateNow_shrink _ _ _ _ _) as [[r1 b1] h1].
    destruct (Handle.truncateNow_grow _ _ _ _ _) as [[r2 b2] h2].
    match type of H with
    | (let '(_, _) := ?e in _) = _ => destruct e as [[r3 b3] h3]
    end.
    destruct (r3 =? 0) eqn:E3; results; [reflexivity |].
    discriminate E3.
Qed.

Ltac attrs_fact E ::= apply truncateNow_kept_attrs in E.

Lemma write_loop_kept_attrs n : forall b h offset buf count block r0 r b' h',
  Handle.write_loop n b h offset buf count block r0 = (r, b', h') ->
  kept_attrs h' = kept_attrs h.
Proof.
  induction n as [|n IH]; simpl; intros b h offset buf count block r0 r b' h' H;
    attrs_cases.
Qed.

Ltac attrs_fact E ::=
  first [apply truncateNow_kept_attrs in E | apply write_loop_kept_attrs in E].


(** Boolean comparisons in the hypotheses as propositions. *)
Ltac bools :=
  repeat match goal with
         | H : (_ && _) = true |- _ => apply andb_true_iff in H; destruct H
         | H : negb _ = true |- _ => apply negb_true_iff in H
         | H : negb _ = false |- _ => apply negb_false_iff in H
         | H : (_ =? _) = true |- _ => apply Z.eqb_eq in H
         | H : (_ =? _) = false |- _ => apply Z.eqb_neq in H
         | H : (_ <? _) = true |- _ => apply Z.ltb_lt in H
         | H : (_ <? _) = false |- _ => apply Z.ltb_ge in H
         | H : (_ >? _) = true |- _ => rewrite Z.gtb_ltb in H; apply Z.ltb_lt in H
         | H : (_ >? _) = false |- _ => rewrite Z.gtb_ltb in H; apply Z.ltb_ge in H
         | H : (_ >=? _) = true |- _ => rewrite Z.geb_leb in H; apply Z.leb_le in H
         | H : (_ >=? _) = false |- _ => rewrite Z.geb_leb in H; apply Z.leb_gt in H
         | H : (_ <=? _) = true |- _ => apply Z.leb_le in H
         | H : (_ <=? _) = false |- _ => apply Z.leb_gt in H
         end.




Lemma triple_eta {A B C : Type} (x : A * B * C) : x = (fst (fst x), snd (fst x), snd x).
Proof. destruct x as [[? ?] ?]; reflexivity. Qed.

(** ** Handle: where the relatime rule is applied *)

(** [Handle::updateATime] sets atime to the current time or does nothing. *)
Lemma updateATime_cases (now : Time.t) (h : Handle) :
  Handle.updateATime now h = (true, set_inode (Inode.set_atime now (_inode h)) h)
  \/ Handle.updateATime now h = (false, h).
Proof.
  unfold Handle.updateATime.
  destruct (_ || _); [left|right]; reflexivity.
Qed.

(** Putting the old inode back gives the old handle. *)
Lemma set_inode_back (i : Inode.t) (h : Handle) :
  set_inode (_inode h) (set_inode i h) = h.
Proof. destruct h; reflexivity. Qed.

(** C8, amended.  [Handle::read] never changes the inode of the handle: no
    read touches atime.  The relatime rule is what [Handle::updateATime]
    implements: it sets atime to the current time if and only if atime is
    older than ctime, older than mtime, or older than 24 hours before now,
    and changes nothing else.  [Handle::open] applies it to a regular file
    that is opened read-only, once the truncation, if one is asked for and
    the file is not empty, has returned 0; when the truncation fails,
    [open] returns its error and atime stays as it was.  [Handle::openDir]
    applies it to a directory, and [Handle::readlink] to a symbolic link
    whose target block has been read; these two write the refreshed inode
    and put the inode back as it was when that write fails. *)
Theorem read_leaves_atime_relatime_on_open :
  (forall b h offset count,
     let '(r, out, b', h') := Handle.read b h offset count in _inode h' = _inode h)
  /\ (forall now h,
        let '(updated, h') := Handle.updateATime now h in
        (updated = true <->
           Time.isOlderThan (Inode.atime (_inode h)) (Inode.ctime (_inode h)) = true
           \/ Time.isOlderThan (Inode.atime (_inode h)) (Inode.mtime (_inode h)) = true
           \/ Time.isOlderThan (Inode.atime (_inode h))
                (Time.mk (Time.seconds now - 86400) (Time.nanoseconds now)) = true)
        /\ (updated = true -> h' = set_inode (Inode.set_atime now (_inode h)) h)
        /\ (updated = false -> h' = h))
  /\ (forall now b h trunc append r b' h',
        Inode.type (_inode h) = TypeREG ->
        Handle.open now b h true trunc append = (r, b', h') ->
        let '(rt, bt, ht) :=
          if trunc && negb (Inode.size (_inode h) =? 0)
          then Handle.truncateNow b h 0 else (0, b, h) in
        (rt = 0 -> h' = snd (Handle.updateATime now ht))
        /\ (rt <> 0 ->
            r = rt /\ b' = bt /\ h' = ht
            /\ Inode.atime (_inode h') = Inode.atime (_inode h)))
  /\ (forall now b h r b' h',
        Inode.type (_inode h) = TypeDIR ->
        Handle.openDir now b h = (r, b', h') ->
        let '(updated, hu) := Handle.updateATime now h in
        if updated then
          let '(rw, bw) := Base.inodeWrite b (_inodeIndex h) (_inode hu) in
          r = rw /\ b' = bw /\ h' = (if rw =? 0 then hu else h)
        else r = 0 /\ b' = b /\ h' = h)
  /\ (forall now b h bufsize r out b' h',
        Inode.type (_inode h) = TypeLNK ->
        Handle.readlink now b h bufsize = (r, out, b', h') ->
        let '(rb, block, b1) :=
          Base.blockRead b (Inode.slotTree (_inode h) 0) Block.zero in
        if rb =? 0 then
          let '(updated, hu) := Handle.updateATime now h in
          if updated then
            let '(rw, bw) := Base.inodeWrite b1 (_inodeIndex h) (_inode hu) in
            r = rw /\ b' = bw /\ h' = (if rw =? 0 then hu else h)
          else r = 0 /\ b' = b1 /\ h' = h
        else r = rb /\ b' = b1 /\ h' = h).
Proof.
  split; [| split; [| split; [| split]]].
  - intros b h offset count.
    destruct (Handle.read b h offset count) as [[[r out] b'] h'] eqn:E.
    eapply read_inode; eassumption.
  - intros now h. unfold Handle.updateATime.
    change (60 * 60 * 24) with 86400.
    destruct (Time.isOlderThan _ (Inode.ctime _)) eqn:E1;
      destruct (Time.isOlderThan _ (Inode.mtime _)) eqn:E2;
      destruct (Time.isOlderThan _ (Time.mk _ _)) eqn:E3; simpl;
      (split; [split; [auto | intros [?|[?|?]]; congruence] | split; congruence]).
  - intros now b h trunc append r b' h' Ht. unfold Handle.open.
    rewrite Ht, Z.eqb_refl. cbn [negb].
    destruct (if trunc && negb (Inode.size (_inode h) =? 0)
              then Handle.truncateNow b h 0 else (0, b, h)) as [[rt bt] ht] eqn:Et.
    destruct (rt =? 0) eqn:Ert.
    + apply Z.eqb_eq in Ert. subst rt.
      destruct (Handle.updateATime now ht) as [updated hu] eqn:Eu. cbn [snd].
      intros H. split; [intros _|intros Hne; contradiction].
      destruct updated; [destruct (Base.inodeWrite _ _ _)|];
        injection H as _ _ <-; reflexivity.
    + apply Z.eqb_neq in Ert. intros H. injection H as <- <- <-.
      split; [intros E; contradiction|intros _].
      split; [reflexivity|]. split; [reflexivity|]. split; [reflexivity|].
      destruct (trunc && negb (Inode.size (_inode h) =? 0)).
      * apply truncateNow_kept_attrs, kept_attrs_inode in Et. tauto.
      * injection Et as _ _ <-. reflexivity.
  - intros now b h r b' h' Ht. unfold Handle.openDir.
    rewrite Ht, Z.eqb_refl. cbn [negb].
    destruct (updateATime_cases now h) as [E|E]; rewrite E.
    + cbn [_inodeIndex _inode set_inode].
      destruct (Base.inodeWrite _ _ _) as [rw bw].
      rewrite set_inode_back.
      destruct (rw =? 0); intros H; injection H as <- <- <-; auto.
    + intros H; injection H as <- <- <-; auto.
  - intros now b h bufsize r out b' h' Ht. unfold Handle.readlink.
    rewrite Ht, Z.eqb_refl. cbn [negb].
    destruct (Base.blockRead _ _ _) as [[rb block] b1].
    destruct (rb =? 0) eqn:Erb.
    + destruct (updateATime_cases now h) as [E|E]; rewrite E.
      * cbn [_inodeIndex _inode set_inode].
        destruct (Base.inodeWrite _ _ _) as [rw bw].
        rewrite set_inode_back.
        destruct (rw =? 0); intros H; injection H as <- _ <- <-; auto.
      * apply Z.eqb_eq in Erb. subst rb.
        intros H; injection H as <- _ <- <-; auto.
    + intros H; injection H as <- _ <- <-; auto.
Qed.

(** The relatime condition holds for "/f" in [fs_file_written]: a read-only
    open at 2000 s refreshes the atime, with and without truncation. *)
Lemma read_leaves_atime_relatime_on_open_witness :
  let b := snd fs_file_written in
  let h := HandleCache.deref b (Some 1) in
  Inode.type (_inode h) = TypeREG
  /\ Inode.atime (_inode (snd (Handle.open t2000 b h true false false))) = t2000
  /\ Inode.atime (_inode (snd (Handle.open t2000 b h true true false))) = t2000.
Proof.
  intros b h.
  destruct read_leaves_atime_relatime_on_open as (_ & _ & Hopen & _).
  assert (Inode.type (_inode h) = TypeREG) as Ht by reflexivity.
  split; [exact Ht|]. split.
  - pose proof (Hopen t2000 b h false false _ _ _ Ht
                  (triple_eta (Handle.open t2000 b h true false false))) as [H _].
    cbn [andb] in H. rewrite (H eq_refl). reflexivity.
  - pose proof (Hopen t2000 b h true false _ _ _ Ht
                  (triple_eta (Handle.open t2000 b h true true false))) as H.
    destruct (if true && negb (Inode.size (_inode h) =? 0)
              then Handle.truncateNow b h 0 else (0, b, h)) as [[rt bt] ht] eqn:Et.
    assert (rt = 0) as Hrt by (revert Et; vm_compute; congruence).
    destruct H as [H _]. rewrite (H Hrt).
    replace ht with (snd (if true && negb (Inode.size (_inode h) =? 0)
              then Handle.truncateNow b h 0 else (0, b, h))) by (rewrite Et; reflexivity).
    vm_compute. reflexivity.
Defined.

(** ** Handle: what a write changes and returns *)



(** A write that returns [count] although its block loop has failed: on
    [fs_file_quota_one_block] a write of 8192 bytes adds the first block
    and sets the size to 4096; the second block is refused with [-ENOSPC];
    the inode has changed, its write-back returns 0, and this result
    replaces that of the loop. *)
Lemma write_short_returns_count :
  let b := snd fs_file_quota_one_block in
  let h := HandleCache.deref b (Some 1) in
  let buf := replicate (Z.to_nat 8192) 65 in
  Forall (fun r => r = 0) (fst fs_file_quota_one_block)
  /\ fst (fst (Handle.write_blocks b h 0 buf 8192)) = - ENOSPC
  /\ (let '(r, b') := SixFS.write b (Some 1) 0 buf 8192 in
      r = 8192 /\ Inode.size (_inode (HandleCache.deref b' (Some 1))) = 4096).
Proof.
  vm_compute. split; [repeat constructor | repeat split; reflexivity].
Qed.



Lemma Storage_write_lookup {A : Type} (zero : A) (s s' : Storage.t A) (index : Z) (buf : A) :
  0 <= index ->
  Storage.write zero s index buf = (0, s') ->
  Storage.chunks s' !! Z.to_nat index = Some buf.
Proof.
  intros Hi. unfold Storage.write.
  destruct (Storage.backend s) as [r s1]. intros H.
  repeat step; results; bools; simpl.
  - lia.
  - apply list_lookup_insert_eq. lia.
  - rewrite lookup_app_r by (rewrite length_resize; lia).
    rewrite length_resize, Nat.sub_diag. reflexivity.
Qed.

Lemma inodeWrite_stored (b b' : Base) (index : Z) (inode : Inode.t) :
  0 <= index ->
  Base.inodeWrite b index inode = (0, b') ->
  Storage.chunks (ChunkManager._chunks (_inodeMgr b')) !! Z.to_nat index = Some inode.
Proof.
  intros Hi. unfold Base.inodeWrite, ChunkManager.write. intros H.
  repeat step; results; simpl.
  eapply Storage_write_lookup; eassumption.
Qed.

(** C9, as stated, fails when [truncateNow] cannot grow the file: on
    [fs_file_quota_opened], mounted with a ceiling of one byte, the empty
    regular file "/f" is open and not in append mode, and a write of zero
    bytes at offset 4097 returns [-ENOSPC] and leaves the size at 0. *)
Lemma write_zero_bytes_counterexample :
  let b := snd fs_file_quota_opened in
  let h := HandleCache.deref b (Some 1) in
  Forall (fun r => r = 0) (fst fs_file_quota_opened)
  /\ Inode.type (_inode h) = TypeREG
  /\ _append h = false
  /\ Inode.size (_inode h) = 0
  /\ (let '(r, b') := SixFS.write b (Some 1) 4097 [] 0 in
      r = - ENOSPC /\ r <> 0
      /\ Inode.size (_inode (HandleCache.deref b' (Some 1))) = 0).
Proof.
  vm_compute. split; [repeat constructor | repeat split; congruence].
Qed.

(** C9, amended.  For a handle that is not in append mode and an offset
    greater than the size of the file, [Handle::write(offset, buf, 0)]
    calls [truncateNow(offset)].  When that returns 0, the size of the
    inode is [offset] afterwards and the inode is handed to [inodeWrite]:
    write returns 0 when [inodeWrite] does, and the enlarged inode is then
    in the inode container; a negative result of [inodeWrite] is the result
    of the write.  When [truncateNow] fails, the size stays as it was, and
    its error is the result of the write if it has left the inode as it
    was. *)
Theorem write_zero_bytes_past_end
    (b : Base) (h : Handle) (offset : Z) (buf : list Z)
    (r : Z) (b' : Base) (h' : Handle) :
  _append h = false ->
  Inode.size (_inode h) < offset ->
  0 <= _inodeIndex h ->
  Handle.write b h offset buf 0 = (r, b', h') ->
  let '(r1, b1, h1) := Handle.truncateNow b h offset in
  h' = h1
  /\ (r1 = 0 ->
      Inode.size (_inode h') = offset
      /\ (let '(rw, b2) := Base.inodeWrite b1 (_inodeIndex h) (_inode h') in
          b' = b2
          /\ (rw < 0 -> r = rw)
          /\ (rw = 0 ->
              r = 0
              /\ Storage.chunks (ChunkManager._chunks (_inodeMgr b'))
                   !! Z.to_nat (_inodeIndex h) = Some (_inode h'))))
  /\ (r1 <> 0 -> Inode.size (_inode h') = Inode.size (_inode h))
  /\ (r1 < 0 -> _inode h' = _inode h -> r = r1).
Proof.
  intros Ha Hs Hi H. unfold Handle.write, Handle.write_blocks in H.
  rewrite Ha in H.
  destruct (offset >? Inode.size (_inode h)) eqn:E; [| bools; lia].
  destruct (Handle.truncateNow b h offset) as [[r1 b1] h1] eqn:Et.
  simpl in H.
  pose proof (truncateNow_kept_attrs _ _ _ _ _ _ Et) as Hk.
  apply kept_attrs_inode in Hk as Hattrs.
  assert (_inodeIndex h1 = _inodeIndex h) as Hidx.
  { revert Hk. clear. intros Hk.
    assert (snd (kept_attrs h1) = snd (kept_attrs h)) as Hx by congruence.
    exact Hx. }
  split; [| split; [| split]].
  - repeat step; results; reflexivity.
  - intros ->. apply truncateNow_size in Et as Hsz.
    assert (_inode h1 <> _inode h) as Hne by (intros Heq; rewrite Heq in Hsz; lia).
    rewrite bool_decide_eq_false_2 in H by assumption. simpl in H.
    rewrite Hidx in H.
    destruct (Base.inodeWrite b1 (_inodeIndex h) (_inode h1)) as [rw b2] eqn:Ew.
    results. split; [reflexivity |].
    rewrite Ew. split; [reflexivity |]. split.
    + intros Hneg. destruct (rw <? 0) eqn:E1; bools; [reflexivity | lia].
    + intros ->. split; [reflexivity |].
      eapply inodeWrite_stored; eassumption.
  - intros Hr1.
    assert (h' = h1) as -> by (repeat step; results; reflexivity).
    revert Et Hr1. clear. unfold Handle.truncateNow. intros H Hr1.
    repeat step; results; try reflexivity; try (bools; congruence).
    all: repeat match goal with
                | E : _ = (_, _) |- _ => kept_fact E; apply kept_size in E
                end; congruence.
  - intros Hneg Heq.
    assert (h' = h1) as -> by (repeat step; results; reflexivity).
    rewrite bool_decide_eq_true_2 in H by assumption. simpl in H.
    assert ((r1 <? 0) = true) as Hlt by lia. rewrite Hlt in H.
    results. reflexivity.
Qed.

Lemma write_zero_bytes_past_end_witness :
  let b := snd fs_file_written in
  let h := HandleCache.deref b (Some 1) in
  Inode.size (_inode (snd (Handle.write b h 100 [] 0))) = 100.
Proof.
  intros b h.
  pose proof (write_zero_bytes_past_end b h 100 []
                (fst (fst (Handle.write b h 100 [] 0)))
                (snd (fst (Handle.write b h 100 [] 0)))
                (snd (Handle.write b h 100 [] 0))) as P.
  specialize (P ltac:(vm_compute; reflexivity) ltac:(vm_compute; reflexivity)
                ltac:(vm_compute; discriminate) (triple_eta _)).
  destruct (Handle.truncateNow b h 100) as [[r1 b1] h1] eqn:Et.
  assert (r1 = 0) as Hr1.
  { apply (f_equal (fun x => fst (fst x))) in Et. vm_compute in Et. congruence. }
  destruct P as (_ & P & _). exact (proj1 (P Hr1)).
Defined.

(** ** SixFS: rename *)

(** C2.  In "/a" with the files "x", "y", "z" (inodes 2, 3, 4),
    [rename("/a/y", "/a/z", RenameExchange)] returns 0; afterwards "/a/y"
    does not resolve any more and "/a/z" still resolves to its own inode 4
    (the two directory slots were exchanged, each entry kept its name and
    its inode); the same call once more returns [-ENOENT]. *)
Lemma rename_exchange_keeps_names :
  let b := snd fs_three_files in
  Forall (fun r => r = 0) (fst fs_three_files)
  /\ fs_lookup b "/a/y" = (0, 3)
  /\ fs_lookup b "/a/z" = (0, 4)
  /\ (let '(r, b1) := SixFS.rename t2000 b "/a/y" "/a/z" SixFS.RenameExchange in
      r = 0
      /\ fst (fs_lookup b1 "/a/y") = - ENOENT
      /\ fs_lookup b1 "/a/z" = (0, 4)
      /\ fs_lookup b1 "/a/x" = (0, 2)
      /\ fst (SixFS.rename t2000 b1 "/a/y" "/a/z" SixFS.RenameExchange) = - ENOENT).
Proof.
  vm_compute. split; [repeat constructor | repeat split; reflexivity].
Qed.

(** ** The encryption frame *)

(** C3.  Assume the contract of the secretbox of libsodium: a ciphertext
    is 16 bytes longer than its message, and opening a ciphertext with the
    nonce and the 32-byte key it was made with gives the message back.
    Then for every 32-byte key, every 24-byte nonce and every plaintext [m],
    [dec] applied to the frame that [enc] made returns 0 and [m]; and for
    every frame whose first byte is 0, [dec] returns 0 and [msgSize] zero
    bytes and does not call [crypto_secretbox_open_easy]. *)
Theorem dec_enc_roundtrip_and_hole
    (easy : list Z -> list Z -> list Z -> list Z)
    (open_easy : list Z -> list Z -> list Z -> option (list Z))
    (Hlen : forall m nonce key, length (easy m nonce key) = (16 + length m)%nat)
    (Hopen : forall m nonce key,
        length key = 32%nat -> length nonce = 24%nat ->
        open_easy (easy m nonce key) nonce key = Some m) :
  (forall key nonce m buf,
     length key = 32%nat -> length nonce = 24%nat ->
     Encrypt.dec open_easy key
       (Encrypt.enc easy key m (Z.of_nat (length m)) nonce)
       (Z.of_nat (length m) + Encrypt.EncOverhead) buf (Z.of_nat (length m))
     = (0, m, 1%nat))
  /\ (forall key frame rest inSize buf msgSize,
        frame = 0 :: rest ->
        Encrypt.dec open_easy key frame inSize buf msgSize
        = (0, replicate (Z.to_nat msgSize) 0, 0%nat)).
Proof.
  split.
  - intros key nonce m buf Hk Hn.
    unfold Encrypt.dec, Encrypt.enc, Encrypt.EncOverhead,
      Encrypt.crypto_secretbox_NONCEBYTES, Encrypt.crypto_secretbox_MACBYTES.
    rewrite Nat2Z.id, firstn_all. simpl (default _ _ =? 0).
    cbn [drop].
    replace (Z.to_nat 24) with 24%nat by reflexivity.
    replace (Z.to_nat (1 + 24)) with 25%nat by reflexivity.
    change (drop 0 (nonce ++ easy m nonce key)) with (nonce ++ easy m nonce key).
    rewrite (take_app_length' nonce (easy m nonce key) 24 (eq_sym Hn)).
    change (drop 25 (255 :: nonce ++ easy m nonce key))
      with (drop 24 (nonce ++ easy m nonce key)).
    rewrite (drop_app_length' nonce (easy m nonce key) 24 (eq_sym Hn)).
    rewrite take_ge by (rewrite Hlen; lia).
    rewrite Hopen by assumption. reflexivity.
  - intros key frame rest inSize buf msgSize ->. reflexivity.
Qed.

Lemma dec_enc_roundtrip_and_hole_witness :
  Encrypt.dec toy_secretbox_open_easy (replicate 32 7)
    (Encrypt.enc toy_secretbox_easy (replicate 32 7) [1; 2; 3] 3 (replicate 24 9))
    (3 + Encrypt.EncOverhead) [0; 0; 0] 3
  = (0, [1; 2; 3], 1%nat)
  /\ Encrypt.dec toy_secretbox_open_easy (replicate 32 7)
       (0 :: replicate 43 5) 44 [8; 8; 8] 3
     = (0, [0; 0; 0], 0%nat).
Proof.
  assert (forall m nonce key,
             length (toy_secretbox_easy m nonce key) = (16 + length m)%nat) as Hlen.
  { intros m nonce key. unfold toy_secretbox_easy.
    rewrite length_app, length_replicate. reflexivity. }
  assert (forall m nonce key,
             length key = 32%nat -> length nonce = 24%nat ->
             toy_secretbox_open_easy (toy_secretbox_easy m nonce key) nonce key = Some m)
    as Hopen.
  { intros m nonce key _ _. reflexivity. }
  destruct (dec_enc_roundtrip_and_hole toy_secretbox_easy toy_secretbox_open_easy
              Hlen Hopen) as [Hround Hhole].
  split.
  - apply (Hround (replicate 32 7) (replicate 24 9) [1; 2; 3] [0; 0; 0]); reflexivity.
  - apply (Hhole (replicate 32 7) (0 :: replicate 43 5) (replicate 43 5) 44 [8; 8; 8] 3).
    reflexivity.
Defined.

(** ** ChunkManager: add *)

(** C5, as stated, fails where the rollback fails.  On a new container
    whose data Storage grows, then fails the write with EIO and the
    shrinking with ENOSPC, [add] returns [-EIO] and raises no emergency: the
    source only logs that a dead chunk remains.  The bit of slot 0 is clear
    again and [_chunksInStorage] is 0 again, but the Storage keeps the chunk
    it grew by. *)
Lemma add_rollback_failure_counterexample :
  let c := cm_fresh plan_write_and_shrink_fail in
  let '(r, index, c', e) := ChunkManager.add 0 c 9 7 in
  (ChunkManager._chunksInStorage c = 0
   /\ Storage.chunks (ChunkManager._chunks c) = [])
  /\ r = - EIO /\ index = 0
  /\ e = EmergencyNone
  /\ Map.bit (ChunkManager._map c') 0 = false
  /\ ChunkManager._chunksInStorage c' = 0
  /\ Storage.chunks (ChunkManager._chunks c') = [0].
Proof. vm_compute. repeat split; reflexivity. Qed.

(** When it is the growing that fails, [add] clears the bit again but
    leaves [_chunksInStorage] at the value it had assigned before the
    call of [setSize]: the counter says 1 while the Storage has no chunk. *)
Lemma add_failed_grow_keeps_the_new_count :
  let c := cm_fresh plan_grow_fails in
  let '(r, index, c', e) := ChunkManager.add 0 c 9 7 in
  ChunkManager._chunksInStorage c = 0
  /\ r = - ENOSPC /\ index = 0
  /\ e = EmergencyNone
  /\ Map.bit (ChunkManager._map c') 0 = false
  /\ ChunkManager._chunksInStorage c' = 1
  /\ Storage.chunks (ChunkManager._chunks c') = [].
Proof. vm_compute. repeat split; reflexivity. Qed.

(** *** Bits of 64-bit words *)

Lemma ctz_from_spec (n : nat) (x : Z) : forall i : Z,
  0 <= i ->
  i <= ctz_from n i x <= i + Z.of_nat n
  /\ (ctz_from n i x < i + Z.of_nat n -> Z.testbit x (ctz_from n i x) = true)
  /\ (forall k, i <= k < ctz_from n i x -> Z.testbit x k = false).
Proof.
  induction n as [|n IH]; intros i Hi; cbn [ctz_from].
  - repeat split; intros; lia.
  - destruct (Z.testbit x i) eqn:Hb.
    + repeat split; intros; first [assumption | lia].
    + destruct (IH (i + 1)) as (Hr & Hset & Hlow); [lia|].
      split; [lia|]. split.
      * intros Hlt. apply Hset. lia.
      * intros k Hk. destruct (decide (k = i)) as [->|Hne]; [assumption|].
        apply Hlow. lia.
Qed.

Lemma word_no_bits (x : Z) :
  Map.word x -> (forall k, 0 <= k < 64 -> Z.testbit x k = false) -> x = 0.
Proof.
  intros [Hlo Hhi] Hbits. apply Z.bits_inj'. intros k Hk.
  rewrite Z.bits_0. destruct (Z_lt_ge_dec k 64) as [Hlt|Hge].
  - apply Hbits; lia.
  - rewrite <- (Z.mod_small x (2 ^ 64)) by lia.
    apply Z.mod_pow2_bits_high; lia.
Qed.

Lemma ctzll_spec (x : Z) :
  Map.word x -> x <> 0 ->
  0 <= ctzll x < 64 /\ Z.testbit x (ctzll x) = true.
Proof.
  intros Hw Hx. unfold ctzll.
  destruct (ctz_from_spec 64 x 0) as (Hr & Hset & Hlow); [lia|].
  change (Z.of_nat 64) with 64 in *.
  destruct (Z_lt_ge_dec (ctz_from 64 0 x) 64) as [Hlt|Hge].
  - split; [lia|]. apply Hset; lia.
  - exfalso. apply Hx, word_no_bits; [assumption|].
    intros k Hk. apply Hlow; lia.
Qed.

Lemma not64_word (x : Z) : Map.word (not64 x).
Proof. unfold Map.word, not64, u64. apply Z.mod_pos_bound. lia. Qed.

Lemma not64_testbit (x k : Z) :
  0 <= k < 64 -> Z.testbit (not64 x) k = negb (Z.testbit x k).
Proof.
  intros Hk. unfold not64, u64.
  rewrite Z.mod_pow2_bits_low by lia. apply Z.lnot_spec; lia.
Qed.

Lemma mask_testbit (p k : Z) :
  0 <= p < 64 -> 0 <= k ->
  Z.testbit (u64 (Z.shiftl 1 p)) k = bool_decide (k = p).
Proof.
  intros Hp Hk. unfold u64. rewrite Z.shiftl_1_l.
  rewrite Z.mod_small.
  - case_bool_decide as Heq.
    + subst. apply Z.pow2_bits_true; lia.
    + apply Z.pow2_bits_false; lia.
  - split; [lia|]. apply Z.pow_lt_mono_r; lia.
Qed.

(** *** The backing Storage *)

Lemma backend_chunks {A} (s s' : Storage.t A) (r : Z) :
  Storage.backend s = (r, s') -> Storage.chunks s' = Storage.chunks s.
Proof.
  unfold Storage.backend. destruct (Storage.faults s) as [|[e|] rest];
    intros H; inversion H; reflexivity.
Qed.

Lemma read_Forall {A} (P : A -> Prop) (s s' : Storage.t A) (i r : Z) (buf c : A) :
  Forall P (Storage.chunks s) -> P buf ->
  Storage.read s i buf = (r, c, s') ->
  P c /\ Storage.chunks s' = Storage.chunks s.
Proof.
  intros Hall Hbuf. unfold Storage.read.
  destruct (Storage.backend s) as [r0 s0] eqn:Eb. apply backend_chunks in Eb.
  destruct (r0 <? 0).
  - intros H; inversion H; subst. auto.
  - destruct (Storage.chunks s0 !! Z.to_nat i) as [c0|] eqn:El;
      intros H; inversion H; subst; split; auto.
    rewrite Eb in El. eapply Forall_lookup_1; eauto.
Qed.

Lemma setSize_Forall {A} (P : A -> Prop) (zero : A) (s s' : Storage.t A) (n r : Z) :
  Forall P (Storage.chunks s) -> P zero ->
  Storage.setSize zero s n = (r, s') ->
  Forall P (Storage.chunks s').
Proof.
  intros Hall Hz. unfold Storage.setSize.
  destruct (Storage.backend s) as [r0 s0] eqn:Eb. apply backend_chunks in Eb.
  destruct (r0 <? 0); intros H; inversion H; subst; cbn; rewrite ?Eb; auto.
  apply Forall_resize; auto.
Qed.

Lemma write_Forall {A} (P : A -> Prop) (zero : A) (s s' : Storage.t A) (i r : Z) (buf : A) :
  Forall P (Storage.chunks s) -> P zero -> P buf ->
  Storage.write zero s i buf = (r, s') ->
  Forall P (Storage.chunks s').
Proof.
  intros Hall Hz Hbuf. unfold Storage.write.
  destruct (Storage.backend s) as [r0 s0] eqn:Eb. apply backend_chunks in Eb.
  destruct (r0 <? 0); [intros H; inversion H; subst; rewrite Eb; auto|].
  destruct (i <? Z.of_nat (length (Storage.chunks s0)));
    intros H; inversion H; subst; cbn; rewrite Eb.
  - apply Forall_insert; auto.
  - apply Forall_app; split; [apply Forall_resize; auto|]. constructor; auto.
Qed.

(** *** Map: the invariant and the cursor *)

Lemma u64_word (z : Z) : Map.word (u64 z).
Proof. unfold Map.word, u64. apply Z.mod_pos_bound. lia. Qed.

Lemma word_0 : Map.word 0.
Proof. unfold Map.word. lia. Qed.

Lemma sync_loop_inv (n : nat) : forall (r : Z) (m : Map.t) (r' : Z) (m' : Map.t),
  Map.inv m ->
  Map.sync_loop n r m = (r', m') ->
  Map.inv m' /\ Map._bitChunksInStorage m' = Map._bitChunksInStorage m.
Proof.
  induction n as [|n IH]; intros r m r' m' Hinv; cbn [Map.sync_loop].
  - intros H; inversion H; subst; auto.
  - destruct (Map._currentBitChunkIndex m >? 1); [|intros H; inversion H; subst; auto].
    cbn.
    destruct (Storage.read _ _ _) as [[r1 c1] s1] eqn:Er.
    destruct Hinv as (Hc & Hi & Hn & Hall).
    apply (read_Forall Map.word) in Er as [Hc1 Hs1]; auto.
    assert (Map.inv (Map.set_currentBitChunk c1 (Map.set_storage s1
              (Map.set_currentBitChunkIndex (u64 (Map._currentBitChunkIndex m - 1)) m))))
      as Hinv1.
    { unfold Map.inv; cbn. rewrite Hs1. split_and!; auto; apply u64_word. }
    cbn.
    destruct ((r1 <? 0) || negb (c1 =? 0)).
    + intros H; inversion H; subst. split; [exact Hinv1|reflexivity].
    + intros H. apply IH in H as [H1 H2]; [|exact Hinv1]. split; [exact H1|].
      rewrite H2. reflexivity.
Qed.

Lemma sync_ok (m m' : Map.t) (r : Z) (e : EmergencyType) :
  Map.inv m ->
  Map.sync m = (r, m', e) ->
  Map.inv m'
  /\ ((r <? 0) = false ->
      r = 0 /\ e = EmergencyNone
      /\ Map._currentBitChunkIndex m < Map._bitChunksInStorage m
      /\ Map._bitChunksInStorage m' <= Map._bitChunksInStorage m).
Proof.
  intros Hinv. unfold Map.sync.
  destruct (Map._currentBitChunkIndex m >=? Map._bitChunksInStorage m) eqn:Hge.
  { intros H; inversion H; subst. split; [assumption|]. intros Hr; discriminate Hr. }
  assert (Map._currentBitChunkIndex m < Map._bitChunksInStorage m) as Hlt by lia.
  pose proof Hinv as (Hc & Hi & Hn & Hall).
  match goal with
  | |- (let '(_, _) := ?X in _) = _ -> _ => destruct X as [r1 m1] eqn:E1
  end.
  assert (Map.inv m1
          /\ Map._bitChunksInStorage m1 <= Map._bitChunksInStorage m) as (Hinv1 & Hle).
  { destruct ((Map._currentBitChunk m =? 0)
              && (u64 (Map._currentBitChunkIndex m + 1) =? Map._bitChunksInStorage m)).
    - cbv zeta in E1.
      destruct (Map.sync_loop _ _ _) as [r2 m2] eqn:El.
      apply sync_loop_inv in El as [Hinv2 Hn2].
      2:{ unfold Map.inv; cbn. split_and!; auto; apply u64_word. }
      cbn in Hn2.
      assert (Map._bitChunksInStorage m2 <= Map._bitChunksInStorage m) as Hle2.
      { rewrite Hn2. unfold u64. destruct Hi, Hn. rewrite Z.mod_small; lia. }
      destruct (r2 =? 0).
      + destruct (Storage.setSize _ _ _) as [r3 s3] eqn:Es.
        inversion E1; subst.
        destruct Hinv2 as (? & ? & ? & ?).
        apply (setSize_Forall Map.word) in Es; auto using word_0.
        split; [|exact Hle2]. unfold Map.inv; cbn. split_and!; auto.
      + inversion E1; subst. auto.
    - destruct (Map._currentBitChunkModified m).
      + destruct (Storage.write _ _ _ _) as [r3 s3] eqn:Ew.
        inversion E1; subst.
        apply (write_Forall Map.word) in Ew; auto using word_0.
        split; [|cbn; lia]. unfold Map.inv; cbn. split_and!; auto.
      + inversion E1; subst. split; [assumption|lia]. }
  destruct (r1 <? 0) eqn:Hr1; intros H; inversion H; subst.
  - split; [assumption|]. intros Hr; congruence.
  - split.
    + destruct Hinv1 as (? & ? & ? & ?). unfold Map.inv; cbn. split_and!; auto.
    + intros _. cbn. split_and!; auto.
Qed.

Lemma not64_0 : not64 0 <> 0.
Proof. vm_compute. discriminate. Qed.

Lemma setCurrentBitChunkIndex_ok (m m' : Map.t) (c r : Z) (e : EmergencyType) :
  Map.inv m -> Map.word c ->
  Map.setCurrentBitChunkIndex m c = (r, m', e) ->
  Map.inv m'
  /\ ((r <? 0) = false ->
      r = 0 /\ e = EmergencyNone
      /\ Map._currentBitChunkIndex m' = c
      /\ (c <> Map._currentBitChunkIndex m ->
          Map._currentBitChunkIndex m < Map._bitChunksInStorage m)
      /\ (not64 (Map._currentBitChunk m') = 0 ->
          Map._bitChunksInStorage m' <= Map._bitChunksInStorage m)).
Proof.
  intros Hinv Hc. unfold Map.setCurrentBitChunkIndex.
  destruct (c =? Map._currentBitChunkIndex m) eqn:Heq.
  { intros H; inversion H; subst. split; [assumption|]. intros _.
    split_and!; auto; lia. }
  destruct (Map.sync m) as [[r0 m0] e0] eqn:Es.
  apply sync_ok in Es as [Hinv0 Hok]; [|assumption].
  destruct (r0 <? 0) eqn:Hr0.
  { intros H; inversion H; subst. split; [assumption|]. congruence. }
  destruct (Hok eq_refl) as (-> & -> & Hlt & Hle).
  pose proof Hinv0 as (Hc0 & Hi0 & Hn0 & Hall0).
  destruct (c >=? Map._bitChunksInStorage m0) eqn:Hext.
  - cbv zeta. destruct (Storage.setSize _ _ _) as [r1 s1] eqn:Ez.
    apply (setSize_Forall Map.word) in Ez; [|exact Hall0|exact word_0].
    destruct (r1 <? 0) eqn:Hr1; intros H; inversion H; subst.
    + split; [|congruence]. unfold Map.inv; cbn.
      split_and!; auto using word_0, u64_word.
    + split.
      * unfold Map.inv; cbn. split_and!; auto using word_0, u64_word.
      * intros _. cbn. split_and!; auto.
        intros Hfull. exfalso. exact (not64_0 Hfull).
  - destruct (Storage.read _ _ _) as [[r1 c1] s1] eqn:Er.
    apply (read_Forall Map.word) in Er as [Hc1 Hs1]; auto.
    destruct (r1 <? 0) eqn:Hr1; intros H; inversion H; subst.
    + split; [|congruence]. unfold Map.inv; cbn. rewrite Hs1. split_and!; auto.
    + split.
      * unfold Map.inv; cbn. rewrite Hs1. split_and!; auto.
      * intros _. cbn. split_and!; auto.
Qed.

Lemma firstZero_loop_ok (fuel : nat) :
  forall (m m' : Map.t) (c c' bi : Z) (e : EmergencyType),
  Map.inv m -> Map.word c ->
  Map.firstZero_loop fuel m c = (0, (c', bi), m', e) ->
  e = EmergencyNone
  /\ Map.inv m'
  /\ Map._currentBitChunkIndex m' = c'
  /\ not64 (Map._currentBitChunk m') <> 0
  /\ bi = ctzll (not64 (Map._currentBitChunk m'))
  /\ (c <> Map._currentBitChunkIndex m ->
      Map._currentBitChunkIndex m < Map._bitChunksInStorage m)
  /\ (c' = c \/ c < c' <= Map._bitChunksInStorage m).
Proof.
  induction fuel as [|fuel IH]; intros m m' c c' bi e Hinv Hc; cbn [Map.firstZero_loop].
  { intros H; inversion H. }
  destruct (Map.setCurrentBitChunkIndex m c) as [[r1 m1] e1] eqn:E1.
  apply setCurrentBitChunkIndex_ok in E1 as [Hinv1 Hok]; [|assumption..].
  destruct (r1 <? 0) eqn:Hr1.
  { intros H. injection H as Hr _ _ _ _. subst r1. discriminate Hr1. }
  destruct (Hok eq_refl) as (-> & -> & Hcur & Hlt & Hle).
  destruct (not64 (Map._currentBitChunk m1) =? 0) eqn:Hfull; cbn [negb].
  - destruct (Map.firstZero_loop fuel m1 (u64 (c + 1))) as [[[r2 [c2 b2]] m2] e2] eqn:E2.
    intros H. injection H as Hr2 Hc2' Hb2 Hm2 He. subst r2 c2 b2 m2.
    apply IH in E2 as (-> & Hinv2 & Hcur2 & Hnz & Hbi & Hlt2 & Hc2);
      [|assumption|apply u64_word].
    cbn in He. subst e.
    apply Z.eqb_eq in Hfull. specialize (Hle Hfull).
    destruct Hc as [Hc0 Hc64]. destruct Hinv as (_ & _ & [_ Hn64] & _).
    assert (c < Map._bitChunksInStorage m1) as Hcn.
    { rewrite Hcur in Hlt2. apply Hlt2. unfold u64.
      destruct (Z.eq_dec (c + 1) (2 ^ 64)) as [Hw|Hw].
      - rewrite Hw, Z.mod_same by lia. lia.
      - rewrite Z.mod_small by lia. lia. }
    assert (u64 (c + 1) = c + 1) as Hu by (unfold u64; rewrite Z.mod_small; lia).
    rewrite Hu in Hc2. split_and!; auto. right. lia.
  - intros H. injection H as Hc' Hbi Hm' He. subst c' bi m' e.
    apply Z.eqb_neq in Hfull. split_and!; auto.
Qed.

Lemma firstZero_ok (m m' : Map.t) (index idx : Z) (e : EmergencyType) :
  Map.wf m ->
  Map.firstZero m index = (0, idx, m', e) ->
  e = EmergencyNone
  /\ 0 <= idx < 2 ^ 63
  /\ Map.toBitChunkIndex idx = Map._currentBitChunkIndex m'
  /\ Map.bit m' idx = false.
Proof.
  intros (Hinv & Hn & Hcand). unfold Map.firstZero.
  destruct (Map.firstZero_loop _ _ _) as [[[r [c bi]] m1] e1] eqn:El.
  destruct (r =? 0) eqn:Hr; [|intros H; inversion H; subst; discriminate Hr].
  apply Z.eqb_eq in Hr. subst r.
  assert (0 <= Map.toBitChunkIndex (Map._firstZeroCandidate m) < 2 ^ 57) as Hc0.
  { unfold Map.toBitChunkIndex. split.
    - apply Z.div_pos; lia.
    - apply Z.div_lt_upper_bound; lia. }
  apply firstZero_loop_ok in El as (-> & Hinv1 & Hcur & Hnz & Hbi & _ & Hc);
    [|assumption|unfold Map.word; lia].
  destruct (ctzll_spec (not64 (Map._currentBitChunk m1))) as [Hb Hset];
    [apply not64_word|assumption|].
  rewrite <- Hbi in Hb, Hset.
  destruct Hinv as (_ & _ & [Hn0 _] & _).
  assert (0 <= c < 2 ^ 57) as Hcr by lia.
  assert (u64 (c * 64 + bi) = c * 64 + bi) as Hu
    by (unfold u64; rewrite Z.mod_small; lia).
  cbn. rewrite Hu. intros H. injection H as Hidx Hm'. subst idx m'.
  assert ((c * 64 + bi) / 64 = c) as Hdiv by (symmetry; apply (Z.div_unique _ 64 c bi); lia).
  assert ((c * 64 + bi) mod 64 = bi) as Hmod by (symmetry; apply (Z.mod_unique _ 64 c bi); lia).
  split_and!; [congruence|lia|lia| |].
  - cbn. unfold Map.toBitChunkIndex. rewrite Hdiv. congruence.
  - unfold Map.bit, Map.toBitChunkIndex, Map.toBitIndex. cbn.
    rewrite Hdiv, Hmod, Hcur, Z.eqb_refl.
    rewrite not64_testbit in Hset by lia.
    destruct (Z.testbit (Map._currentBitChunk m1) bi); [discriminate Hset|reflexivity].
Qed.

Lemma firstZero_failed (m m' : Map.t) (index idx r : Z) (e : EmergencyType) :
  Map.firstZero m index = (r, idx, m', e) -> r <> 0 -> idx = index.
Proof.
  unfold Map.firstZero.
  destruct (Map.firstZero_loop _ _ _) as [[[r1 [c bi]] m1] e1].
  destruct (r1 =? 0); intros H; inversion H; subst; congruence.
Qed.

Lemma set_resident_fields (m : Map.t) (idx : Z) (b : bool) :
  Map.toBitChunkIndex idx = Map._currentBitChunkIndex m ->
  exists m',
    Map.set m idx b = (0, m', EmergencyNone)
    /\ Map._currentBitChunkIndex m' = Map._currentBitChunkIndex m
    /\ Map._storage m' = Map._storage m
    /\ Map._currentBitChunk m' =
       if b
       then Z.lor (Map._currentBitChunk m) (u64 (Z.shiftl 1 (Map.toBitIndex idx)))
       else Z.land (Map._currentBitChunk m) (not64 (u64 (Z.shiftl 1 (Map.toBitIndex idx)))).
Proof.
  intros Hres. unfold Map.set, Map.setCurrentBitChunkIndex.
  rewrite Hres, Z.eqb_refl. cbn [Z.ltb Z.compare].
  eexists. split; [reflexivity|].
  destruct b; cbv zeta;
    repeat match goal with
           | |- context [if ?c then _ else _] => destruct c
           end; split_and!; reflexivity.
Qed.

(** [Map::set] on a slot of the resident chunk changes that bit and
    nothing else, and cannot fail. *)
Lemma set_resident (m : Map.t) (idx : Z) (b : bool) :
  Map.toBitChunkIndex idx = Map._currentBitChunkIndex m ->
  exists m',
    Map.set m idx b = (0, m', EmergencyNone)
    /\ Map._currentBitChunkIndex m' = Map._currentBitChunkIndex m
    /\ (forall j, Map.bit m' j = if bool_decide (j = idx) then b else Map.bit m j).
Proof.
  intros Hres.
  destruct (set_resident_fields m idx b Hres) as (m' & Eset & Hi & Hs & Hc).
  exists m'. split; [exact Eset|]. split; [exact Hi|].
  intros j.
  assert (0 <= Map.toBitIndex idx < 64) as Hp
    by (unfold Map.toBitIndex; apply Z.mod_pos_bound; lia).
  assert (0 <= Map.toBitIndex j < 64) as Hq
    by (unfold Map.toBitIndex; apply Z.mod_pos_bound; lia).
  assert (Map.toBitChunkIndex j = Map.toBitChunkIndex idx ->
          Map.toBitIndex j = Map.toBitIndex idx -> j = idx) as Hsplit.
  { unfold Map.toBitChunkIndex, Map.toBitIndex. intros Hd Hm.
    rewrite (Z.div_mod j 64), (Z.div_mod idx 64) by lia. congruence. }
  unfold Map.bit. rewrite Hi, Hs, Hc.
  destruct (Map.toBitChunkIndex j =? Map._currentBitChunkIndex m) eqn:Hj.
  - apply Z.eqb_eq in Hj.
    assert (bool_decide (j = idx)
            = bool_decide (Map.toBitIndex j = Map.toBitIndex idx)) as ->.
    { apply bool_decide_ext. split; [intros ->; reflexivity|].
      apply Hsplit. congruence. }
    destruct b.
    + rewrite Z.lor_spec, mask_testbit by lia.
      case_bool_decide; [apply orb_true_r|apply orb_false_r].
    + rewrite Z.land_spec, not64_testbit, mask_testbit by lia.
      case_bool_decide; [apply andb_false_r|apply andb_true_r].
  - apply Z.eqb_neq in Hj. case_bool_decide as Heq; [|reflexivity].
    exfalso. subst j. auto.
Qed.

Lemma backend_result {A} (s s' : Storage.t A) (r : Z) :
  Storage.backend s = (r, s') -> r = 0 \/ r < 0.
Proof.
  unfold Storage.backend. destruct (Storage.faults s) as [|[e|] rest];
    intros H; inversion H; subst;
    first [left; reflexivity | right; apply Pos2Z.neg_is_neg].
Qed.

Lemma setSize_result {A} (zero : A) (s s' : Storage.t A) (n r : Z) :
  Storage.setSize zero s n = (r, s') -> r = 0 \/ r < 0.
Proof.
  unfold Storage.setSize. destruct (Storage.backend s) as [r0 s0] eqn:Eb.
  apply backend_result in Eb.
  destruct (r0 <? 0) eqn:Hr; intros H; inversion H; subst; auto.
Qed.

Lemma write_result {A} (zero : A) (s s' : Storage.t A) (i r : Z) (buf : A) :
  Storage.write zero s i buf = (r, s') -> r = 0 \/ r < 0.
Proof.
  unfold Storage.write. destruct (Storage.backend s) as [r0 s0] eqn:Eb.
  apply backend_result in Eb.
  destruct (r0 <? 0) eqn:Hr; [intros H; inversion H; subst; right; lia|].
  destruct (i <? _); intros H; inversion H; subst; auto.
Qed.

(** C5, amended.  [ChunkManager::add] takes the slot that
    [Map::firstZero] returns; when [firstZero] fails, [add] returns its
    result and does nothing more.  Otherwise it sets the bit of the slot,
    grows the data Storage to [idx + 1] chunks when [idx] is not below
    [_chunksInStorage], and writes [buf] at the slot.  On success the bit
    of the slot is set, no other bit changes, the Storage holds [buf] at
    the slot and [_chunksInStorage] is the maximum of its old value and
    [idx + 1].  When growing or writing fails, [add] returns the error of
    that step and the bitmap holds the same bits as when [firstZero]
    returned; after a failed write of the last slot, [_chunksInStorage] is
    [idx] and the Storage is what [setSize(idx)] leaves, whether that call
    succeeds or not.  In every case in which [firstZero] succeeds [add]
    raises no emergency, whatever becomes of the rollback. *)
Theorem add_rolls_back_without_emergency {A : Type} (zero : A)
    (c : ChunkManager.t A) (index : Z) (buf : A)
    (r0 idx : Z) (m1 : Map.t) (e0 : EmergencyType)
    (r out : Z) (c' : ChunkManager.t A) (e : EmergencyType) :
  Map.wf (ChunkManager._map c) ->
  Map.firstZero (ChunkManager._map c) index = (r0, idx, m1, e0) ->
  ChunkManager.add zero c index buf = (r, out, c', e) ->
  (r0 <> 0 -> r = r0 /\ out = index /\ c' = ChunkManager.set_map m1 c /\ e = e0)
  /\ (r0 = 0 ->
      out = idx /\ e = EmergencyNone /\ Map.bit m1 idx = false
      /\ (r = 0 ->
          Map.bit (ChunkManager._map c') idx = true
          /\ (forall j, j <> idx -> Map.bit (ChunkManager._map c') j = Map.bit m1 j)
          /\ Storage.chunks (ChunkManager._chunks c') !! Z.to_nat idx = Some buf
          /\ ChunkManager._chunksInStorage c'
             = Z.max (ChunkManager._chunksInStorage c) (idx + 1))
      /\ (r <> 0 ->
          r < 0
          /\ (forall j, Map.bit (ChunkManager._map c') j = Map.bit m1 j)
          /\ exists rs s1,
               (if idx >=? ChunkManager._chunksInStorage c
                then Storage.setSize zero (ChunkManager._chunks c) (idx + 1)
                else (0, ChunkManager._chunks c)) = (rs, s1)
               /\ (rs < 0 /\ r = rs
                   \/ rs = 0
                      /\ exists s2,
                           Storage.write zero s1 idx buf = (r, s2)
                           /\ if idx + 1 =? Z.max (ChunkManager._chunksInStorage c) (idx + 1)
                              then ChunkManager._chunksInStorage c' = idx
                                   /\ ChunkManager._chunks c'
                                      = snd (Storage.setSize zero s2 idx)
                              else ChunkManager._chunksInStorage c'
                                   = ChunkManager._chunksInStorage c
                                   /\ ChunkManager._chunks c' = s2))).
Proof.
  intros Hwf Efz. unfold ChunkManager.add. rewrite Efz.
  cbn [ChunkManager._map ChunkManager.set_map ChunkManager._chunks
       ChunkManager._chunksInStorage ChunkManager._punchHolesForEmptyChunks].
  destruct (r0 =? 0) eqn:Hr0.
  2:{ cbn [andb fst snd]. rewrite Hr0. cbn [andb fst snd]. rewrite Hr0. apply Z.eqb_neq in Hr0.
      cbn [ChunkManager._map ChunkManager.set_map ChunkManager._chunks
       ChunkManager._chunksInStorage ChunkManager._punchHolesForEmptyChunks].
      intros H. injection H as <- <- <- <-.
      split; [|intros; contradiction]. intros _.
      split_and!; try reflexivity. eapply firstZero_failed; eauto. }
  apply Z.eqb_eq in Hr0. subst r0.
  destruct (firstZero_ok _ _ _ _ _ Hwf Efz) as (-> & Hidx & Hres & Hfree).
  destruct (set_resident m1 idx true Hres) as (m2 & Eone & Hres2 & Hbits2).
  destruct (set_resident m2 idx false) as (m3 & Ezero & Hres3 & Hbits3);
    [congruence|].
  assert (forall j, Map.bit m3 j = Map.bit m1 j) as Hback.
  { intros j. rewrite Hbits3, Hbits2. case_bool_decide; congruence. }
  assert (u64 (idx + 1) = idx + 1) as Hu
    by (unfold u64; rewrite Z.mod_small; lia).
  unfold Map.setOne, Map.setZero. rewrite Eone.
  cbn [ChunkManager._map ChunkManager.set_map ChunkManager._chunks
       ChunkManager._chunksInStorage ChunkManager.set_chunksInStorage
       ChunkManager.set_chunks andb emergency Z.eqb].
  rewrite Hu, Ezero.
  destruct (idx >=? ChunkManager._chunksInStorage c) eqn:Hgrow.
  - destruct (Storage.setSize zero (ChunkManager._chunks c) (idx + 1)) as [rs s1] eqn:Es.
    destruct (setSize_result _ _ _ _ _ Es) as [->|Hneg].
    + cbn [Z.ltb Z.compare Z.eqb ChunkManager._map ChunkManager.set_map
           ChunkManager._chunks ChunkManager._chunksInStorage
           ChunkManager.set_chunksInStorage ChunkManager.set_chunks].
      rewrite Ezero, Z.eqb_refl. cbn [andb emergency].
      destruct (Storage.write zero s1 idx buf) as [rw s2] eqn:Ew.
      destruct (write_result _ _ _ _ _ _ Ew) as [->|Hneg].
      * cbn [Z.ltb Z.compare]. intros H. injection H as Hr Ho Hc He; subst r out c' e.
        split; [intros Hne; contradiction|]. intros _.
        split_and!; try reflexivity; try assumption; [|intros Hne; contradiction].
        intros _. cbn. split_and!.
        -- rewrite Hbits2, bool_decide_true; reflexivity.
        -- intros j Hj. rewrite Hbits2, bool_decide_false; auto.
        -- eapply Storage_write_lookup; [|exact Ew]. lia.
        -- lia.
      * apply Z.ltb_lt in Hneg as Hlt. rewrite Hlt, ?Z.eqb_refl.
        replace (u64 (idx + 1 - 1)) with idx
          by (unfold u64; rewrite Z.mod_small; lia).
        destruct (Storage.setSize zero s2 idx) as [rb s3] eqn:Eb.
        intros H. injection H as Hr Ho Hc He; subst r out c' e.
        split; [intros Hne; contradiction|]. intros _.
        split_and!; try reflexivity; try assumption; [intros; lia|].
        intros _. split_and!; [assumption|exact Hback|].
        exists 0, s1. split; [reflexivity|]. right. split; [reflexivity|].
        exists s2. split; [exact Ew|].
        replace (Z.max (ChunkManager._chunksInStorage c) (idx + 1)) with (idx + 1) by lia.
        rewrite Z.eqb_refl. cbn. rewrite Eb. auto.
    + apply Z.ltb_lt in Hneg as Hlt. rewrite Hlt.
      assert ((rs =? 0) = false) as -> by lia.
      intros H. injection H as Hr Ho Hc He; subst r out c' e.
      split; [intros Hne; contradiction|]. intros _.
      split_and!; try reflexivity; try assumption; [intros; lia|].
      intros _. split_and!; [assumption|exact Hback|].
      exists rs, s1. split; [reflexivity|]. left. auto.
  - cbn [Z.ltb Z.compare Z.eqb ChunkManager._map ChunkManager.set_map
         ChunkManager._chunks ChunkManager._chunksInStorage
         ChunkManager.set_chunksInStorage ChunkManager.set_chunks].
    rewrite Ezero. cbn [andb emergency].
    destruct (Storage.write zero (ChunkManager._chunks c) idx buf) as [rw s2] eqn:Ew.
    destruct (write_result _ _ _ _ _ _ Ew) as [->|Hneg].
    + cbn [Z.ltb Z.compare]. intros H. injection H as Hr Ho Hc He; subst r out c' e.
      split; [intros Hne; contradiction|]. intros _.
      split_and!; try reflexivity; try assumption; [|intros Hne; contradiction].
      intros _. cbn. split_and!.
      * rewrite Hbits2, bool_decide_true; reflexivity.
      * intros j Hj. rewrite Hbits2, bool_decide_false; auto.
      * eapply Storage_write_lookup; [|exact Ew]. lia.
      * lia.
    + apply Z.ltb_lt in Hneg as Hlt. rewrite Hlt.
      replace (Z.max (ChunkManager._chunksInStorage c) (idx + 1))
        with (ChunkManager._chunksInStorage c) by lia.
      destruct (idx + 1 =? ChunkManager._chunksInStorage c) eqn:Hlast.
      * apply Z.eqb_eq in Hlast.
        replace (u64 (ChunkManager._chunksInStorage c - 1)) with idx
          by (unfold u64; rewrite Z.mod_small; lia).
        destruct (Storage.setSize zero s2 idx) as [rb s3] eqn:Eb.
        intros H. injection H as Hr Ho Hc He; subst r out c' e.
        split; [intros Hne; contradiction|]. intros _.
        split_and!; try reflexivity; try assumption; [intros; lia|].
        intros _. split_and!; [assumption|exact Hback|].
        exists 0, (ChunkManager._chunks c). split; [reflexivity|]. right.
        split; [reflexivity|]. exists s2. split; [exact Ew|].
        cbn. rewrite Eb. auto.
      * intros H. injection H as Hr Ho Hc He; subst r out c' e.
        split; [intros Hne; contradiction|]. intros _.
        split_and!; try reflexivity; try assumption; [intros; lia|].
        intros _. split_and!; [assumption|exact Hback|].
        exists 0, (ChunkManager._chunks c). split; [reflexivity|]. right.
        split; [reflexivity|]. exists s2. split; [exact Ew|].
        cbn. auto.
Qed.

Lemma quad_eta {A B C D : Type} (x : A * B * C * D) :
  x = (fst (fst (fst x)), snd (fst (fst x)), snd (fst x), snd x).
Proof. destruct x as [[[? ?] ?] ?]; reflexivity. Qed.

Lemma add_rolls_back_without_emergency_witness :
  let c := cm_fresh plan_write_and_shrink_fail in
  let m1 := snd (fst (Map.firstZero (ChunkManager._map c) 9)) in
  let res := ChunkManager.add 0 c 9 7 in
  Map.wf (ChunkManager._map c)
  /\ snd res = EmergencyNone
  /\ forall j, Map.bit (ChunkManager._map (snd (fst res))) j = Map.bit m1 j.
Proof.
  intros c m1 res.
  assert (Map.wf (ChunkManager._map c)) as Hwf.
  { split; [split; [|split; [|split]]|split].
    1-3, 5-6: vm_compute; first [split; [discriminate|reflexivity] | reflexivity].
    replace (Storage.chunks (Map._storage (ChunkManager._map c))) with [0]
      by (vm_compute; reflexivity).
    repeat constructor; unfold Map.word; lia. }
  split; [exact Hwf|].
  pose proof (add_rolls_back_without_emergency 0 c 9 7 _ _ _ _ _ _ _ _ Hwf
                (quad_eta (Map.firstZero (ChunkManager._map c) 9))
                (quad_eta (ChunkManager.add 0 c 9 7)))
    as [_ Hok].
  assert (fst (fst (fst (Map.firstZero (ChunkManager._map c) 9))) = 0) as E0
    by (vm_compute; reflexivity).
  destruct (Hok E0) as (_ & He & _ & _ & Hfail).
  split; [exact He|].
  assert (fst (fst (fst (ChunkManager.add 0 c 9 7))) <> 0) as E1
    by (vm_compute; discriminate).
  destruct (Hfail E1) as (_ & Hbits & _).
  exact Hbits.
Defined.

(** ** Map: firstZero where the resident chunk is tracked correctly

    The lemmas of this part show what C1 asks for in every Map in which the
    flag [_currentBitChunkModified] tells the truth ([Map.coherent]) and
    the hint is sound ([Map.hint_ok]), and that successful calls keep both
    as long as no [set] leaves its bit unchanged.  Where a call makes the
    bitmap grow, the lemmas use that the Storage fills the new chunks with
    zeroes, as the memory and file backends do (see the notes on
    Storage). *)

Lemma bit_chunkAt (m : Map.t) (j : Z) :
  Map.bit m j = Z.testbit (Map.chunkAt m (Map.toBitChunkIndex j)) (Map.toBitIndex j).
Proof.
  unfold Map.bit, Map.chunkAt, Map.stored.
  destruct (Map.toBitChunkIndex j =? Map._currentBitChunkIndex m); reflexivity.
Qed.

Lemma read_ok {A} (s s' : Storage.t A) (i r : Z) (buf c : A) :
  Storage.read s i buf = (r, c, s') -> (r <? 0) = false ->
  r = 0 /\ Storage.chunks s !! Z.to_nat i = Some c
  /\ Storage.chunks s' = Storage.chunks s.
Proof.
  unfold Storage.read.
  destruct (Storage.backend s) as [r0 s0] eqn:Eb. apply backend_chunks in Eb.
  destruct (r0 <? 0) eqn:Hr0.
  - intros H Hr. injection H as -> _ _. congruence.
  - destruct (Storage.chunks s0 !! Z.to_nat i) as [c0|] eqn:El; intros H Hr.
    + injection H as <- <- <-. rewrite <- Eb. auto.
    + injection H as <- _ _. discriminate Hr.
Qed.

Lemma setSize_ok {A} (zero : A) (s s' : Storage.t A) (n r : Z) :
  Storage.setSize zero s n = (r, s') -> (r <? 0) = false ->
  r = 0 /\ Storage.chunks s' = resize (Z.to_nat n) zero (Storage.chunks s).
Proof.
  unfold Storage.setSize.
  destruct (Storage.backend s) as [r0 s0] eqn:Eb. apply backend_chunks in Eb.
  destruct (r0 <? 0) eqn:Hr0; intros H Hr.
  - injection H as -> _. congruence.
  - injection H as <- <-. split; [reflexivity|].
    exact (f_equal (resize (Z.to_nat n) zero) Eb).
Qed.

Lemma write_ok {A} (zero : A) (s s' : Storage.t A) (i r : Z) (buf : A) :
  Storage.write zero s i buf = (r, s') -> (r <? 0) = false ->
  i < Z.of_nat (length (Storage.chunks s)) ->
  r = 0 /\ Storage.chunks s' = <[Z.to_nat i := buf]> (Storage.chunks s).
Proof.
  unfold Storage.write.
  destruct (Storage.backend s) as [r0 s0] eqn:Eb. apply backend_chunks in Eb.
  destruct (r0 <? 0) eqn:Hr0; intros H Hr Hi.
  - injection H as -> _. congruence.
  - rewrite Eb in H. apply Z.ltb_lt in Hi. rewrite Hi in H.
    injection H as <- <-. split; reflexivity.
Qed.

Lemma read_result {A} (s s' : Storage.t A) (i r : Z) (buf c : A) :
  Storage.read s i buf = (r, c, s') -> r = 0 \/ r < 0.
Proof.
  unfold Storage.read. destruct (Storage.backend s) as [r0 s0] eqn:Eb.
  apply backend_result in Eb.
  destruct (r0 <? 0) eqn:Hr; [intros H; injection H as <- _ _; right; lia|].
  destruct (Storage.chunks s0 !! _); intros H; injection H as <- _ _;
    [left; reflexivity | right; reflexivity].
Qed.

Lemma default_resize (l : list Z) (n k : nat) :
  default 0 (resize n 0 l !! k)
  = if bool_decide (k < n)%nat then default 0 (l !! k) else 0.
Proof.
  case_bool_decide as Hk.
  - destruct (decide (k < length l)%nat) as [Hl|Hl].
    + rewrite lookup_resize by assumption. reflexivity.
    + rewrite lookup_resize_new by lia.
      rewrite (lookup_ge_None_2 l k) by lia. reflexivity.
  - rewrite lookup_resize_old by lia. reflexivity.
Qed.

Lemma sync_loop_steps (n : nat) : forall (r : Z) (m : Map.t) (r' : Z) (m' : Map.t),
  Map.word (Map._currentBitChunkIndex m) ->
  r = 0 \/ r < 0 ->
  Map.sync_loop n r m = (r', m') ->
  (r' = 0 \/ r' < 0)
  /\ Storage.chunks (Map._storage m') = Storage.chunks (Map._storage m)
  /\ Map._bitChunksInStorage m' = Map._bitChunksInStorage m
  /\ Map._currentBitChunkModified m' = Map._currentBitChunkModified m
  /\ Map._firstZeroCandidate m' = Map._firstZeroCandidate m
  /\ (Map._currentBitChunkIndex m' = Map._currentBitChunkIndex m
      /\ Map._currentBitChunk m' = Map._currentBitChunk m /\ r' = r
      \/ 1 <= Map._currentBitChunkIndex m' < Map._currentBitChunkIndex m
         /\ ((r' <? 0) = false ->
             Storage.chunks (Map._storage m) !! Z.to_nat (Map._currentBitChunkIndex m')
             = Some (Map._currentBitChunk m'))).
Proof.
  induction n as [|n IH]; intros r m r' m' Hw Hr; cbn [Map.sync_loop].
  { intros H. injection H as <- <-. split_and!; auto. }
  destruct (Map._currentBitChunkIndex m >? 1) eqn:Hgt.
  2:{ intros H. injection H as <- <-. split_and!; auto. }
  assert (u64 (Map._currentBitChunkIndex m - 1) = Map._currentBitChunkIndex m - 1) as Hu.
  { destruct Hw. unfold u64. rewrite Z.mod_small; lia. }
  cbn [Map._storage Map._currentBitChunkIndex Map._currentBitChunk
       Map.set_currentBitChunkIndex Map.set_currentBitChunk Map.set_storage].
  rewrite Hu.
  destruct (Storage.read _ _ _) as [[r1 c1] s1] eqn:Er.
  cbn [Map._storage Map._currentBitChunkIndex Map._currentBitChunk
       Map.set_currentBitChunkIndex Map.set_currentBitChunk Map.set_storage].
  assert ((r1 <? 0) = false ->
          Storage.chunks (Map._storage m) !! Z.to_nat (Map._currentBitChunkIndex m - 1)
          = Some c1 /\ Storage.chunks s1 = Storage.chunks (Map._storage m)) as Hread.
  { intros Hr1. apply read_ok in Er as (_ & Hl & Hs); auto. }
  assert (r1 = 0 \/ r1 < 0) as Hsign by (eapply read_result; exact Er).
  assert (Storage.chunks s1 = Storage.chunks (Map._storage m)) as Hs1.
  { unfold Storage.read in Er.
    destruct (Storage.backend (Map._storage m)) as [r0 s0] eqn:Eb.
    apply backend_chunks in Eb.
    destruct (r0 <? 0); [injection Er as _ _ <-; exact Eb|].
    destruct (Storage.chunks s0 !! _); injection Er as _ _ <-; exact Eb. }
  destruct ((r1 <? 0) || negb (c1 =? 0)) eqn:Hbreak.
  - intros H. injection H as <- <-. cbn. split_and!; auto.
    right. split; [lia|]. intros Hr1. apply Hread; assumption.
  - apply orb_false_iff in Hbreak as [Hr1 _].
    intros H. apply IH in H; [|cbn; destruct Hw; unfold Map.word; lia|exact Hsign].
    cbn in H. destruct H as (Hsign' & Hc & Hn & Hm & Hf & Hcase).
    split_and!; try congruence.
    right. destruct Hcase as [(Hi & Hk & ->)|(Hi & Hk)].
    + rewrite Hi, Hk. split; [lia|]. intros _. apply Hread; assumption.
    + split; [lia|]. intros Hr'. rewrite <- Hs1. apply Hk; assumption.
Qed.

Lemma sync_coherent (m m' : Map.t) (r : Z) (e : EmergencyType) :
  Map.coherent m ->
  Map.sync m = (r, m', e) -> (r <? 0) = false ->
  Map.coherent m'
  /\ Map._currentBitChunkModified m' = false
  /\ Map._firstZeroCandidate m' = Map._firstZeroCandidate m
  /\ (forall k, 0 <= k -> Map.chunkAt m' k = Map.chunkAt m k)
  /\ (Map._currentBitChunkIndex m' = Map._currentBitChunkIndex m
      \/ Map._currentBitChunkIndex m' < Map._bitChunksInStorage m').
Proof.
  intros (Hinv & Hlen & Hcoh) Es Hr.
  destruct (sync_ok _ _ _ _ Hinv Es) as [Hinv' Hok].
  destruct (Hok Hr) as (-> & -> & Hlt & Hle). clear Hok.
  pose proof Hinv as (Hc & Hi & Hn & Hall).
  unfold Map.sync in Es.
  destruct (Map._currentBitChunkIndex m >=? Map._bitChunksInStorage m) eqn:Hge;
    [lia|].
  destruct ((Map._currentBitChunk m =? 0)
            && (u64 (Map._currentBitChunkIndex m + 1) =? Map._bitChunksInStorage m))
    eqn:Hshrink.
  - apply andb_true_iff in Hshrink as [Hz Hlast].
    apply Z.eqb_eq in Hz. apply Z.eqb_eq in Hlast.
    assert (Map._currentBitChunkIndex m + 1 = Map._bitChunksInStorage m) as Hlast'.
    { revert Hlast. unfold u64. destruct Hi as [Hi0 Hi1].
      destruct (Z.eq_dec (Map._currentBitChunkIndex m + 1) (2 ^ 64)) as [Hw|Hw].
      - rewrite Hw, Z.mod_same by lia. lia.
      - rewrite Z.mod_small by lia. auto. }
    assert (u64 (Map._bitChunksInStorage m - 1) = Map._currentBitChunkIndex m) as Hu.
    { unfold u64. destruct Hi. rewrite Z.mod_small; lia. }
    cbv zeta in Es. rewrite Hu in Es.
    cbn [Map._currentBitChunkIndex Map.set_bitChunksInStorage] in Es.
    destruct (Map.sync_loop _ _ _) as [r2 m2] eqn:El.
    apply sync_loop_steps in El as (Hsign & Hch & Hcnt & Hmod & Hcand & Hcase);
      [|exact Hi|left; reflexivity].
    cbn in Hch, Hcnt, Hmod, Hcand, Hcase.
    destruct (r2 =? 0) eqn:Hr2.
    2:{ exfalso. destruct Hsign as [->|Hneg]; [discriminate Hr2|].
        assert ((r2 <? 0) = true) as Hlt2 by lia. cbv beta iota zeta in Es.
        rewrite Hlt2 in Es. injection Es as Es _. lia. }
    apply Z.eqb_eq in Hr2. subst r2.
    destruct (Storage.setSize _ _ _) as [r3 s3] eqn:Ez.
    cbv beta iota zeta in Es.
    destruct (r3 <? 0) eqn:Hr3; [injection Es as E0 _; lia|].
    apply setSize_ok in Ez as [-> Hs3]; [|assumption].
    rewrite Hcnt, Hch in Hs3.
    injection Es as <-.
    assert (forall k, 0 <= k ->
              default 0 (Storage.chunks s3 !! Z.to_nat k)
              = if bool_decide (k < Map._currentBitChunkIndex m)
                then Map.stored m k else 0) as Hst.
    { intros k Hk. rewrite Hs3, default_resize.
      destruct Hi. repeat case_bool_decide; try reflexivity; lia. }
    assert (forall k, Map._currentBitChunkIndex m < k ->
              Map.stored m k = 0) as Hbeyond.
    { intros k Hk. unfold Map.stored.
      rewrite lookup_ge_None_2; [reflexivity|]. destruct Hi. lia. }
    split_and!.
    + split; [exact Hinv'|]. split.
      * cbn. rewrite Hs3, length_resize. destruct Hi. rewrite Hcnt. lia.
      * intros _. cbn. unfold Map.stored. cbn.
        destruct Hcase as [(Hi2 & Hk2 & _)|(Hi2 & Hk2)].
        -- rewrite Hst, Hi2, Hk2 by (destruct Hi; lia).
           rewrite bool_decide_false by lia. congruence.
        -- rewrite Hst by lia. rewrite bool_decide_true by lia.
           unfold Map.stored. rewrite (Hk2 eq_refl). reflexivity.
    + reflexivity.
    + exact Hcand.
    + intros k Hk. unfold Map.chunkAt. cbn. unfold Map.stored at 1. cbn.
      rewrite Hst by assumption.
      destruct Hcase as [(Hi2 & Hk2 & _)|(Hi2 & Hk2)].
      * rewrite Hi2, Hk2.
        destruct (k =? Map._currentBitChunkIndex m) eqn:Hki; [reflexivity|].
        apply Z.eqb_neq in Hki.
        case_bool_decide; [reflexivity|]. symmetry. apply Hbeyond. lia.
      * destruct (k =? Map._currentBitChunkIndex m2) eqn:Hk2i.
        -- apply Z.eqb_eq in Hk2i. subst k.
           assert ((Map._currentBitChunkIndex m2 =? Map._currentBitChunkIndex m) = false)
             as -> by lia.
           unfold Map.stored. rewrite (Hk2 eq_refl). reflexivity.
        -- destruct (k =? Map._currentBitChunkIndex m) eqn:Hki.
           ++ apply Z.eqb_eq in Hki. subst k.
              rewrite bool_decide_false by lia. congruence.
           ++ apply Z.eqb_neq in Hki.
              case_bool_decide; [reflexivity|]. symmetry. apply Hbeyond. lia.
    + cbn. rewrite Hcnt.
      destruct Hcase as [(Hi2 & _)|(Hi2 & _)]; [left; exact Hi2|right; lia].
  - destruct (Map._currentBitChunkModified m) eqn:Hmodified.
    + destruct (Storage.write _ _ _ _) as [r3 s3] eqn:Ew.
      cbv beta iota zeta in Es.
      destruct (r3 <? 0) eqn:Hr3; [injection Es as E0 _; lia|].
      apply write_ok in Ew as [-> Hs3]; [|assumption|lia].
      injection Es as <-.
      assert (Z.to_nat (Map._currentBitChunkIndex m)
              < length (Storage.chunks (Map._storage m)))%nat as Hin
        by (destruct Hi; lia).
      split_and!.
      * split; [exact Hinv'|]. split.
        -- cbn. rewrite Hs3, length_insert. exact Hlen.
        -- intros _. cbn. unfold Map.stored. cbn. rewrite Hs3.
           rewrite list_lookup_insert_eq by exact Hin. reflexivity.
      * reflexivity.
      * reflexivity.
      * intros k Hk. unfold Map.chunkAt. cbn.
        destruct (k =? Map._currentBitChunkIndex m) eqn:Hki; [reflexivity|].
        apply Z.eqb_neq in Hki. unfold Map.stored. cbn. rewrite Hs3.
        rewrite list_lookup_insert_ne by (destruct Hi; lia). reflexivity.
      * left. reflexivity.
    + injection Es as <-. split_and!.
      * split; [exact Hinv'|]. split; [exact Hlen|]. intros _. apply Hcoh. reflexivity.
      * reflexivity.
      * reflexivity.
      * intros k Hk. reflexivity.
      * left. reflexivity.
Qed.

Lemma chunkAt_stored (m : Map.t) (k : Z) :
  Map.coherent m -> Map._currentBitChunkModified m = false ->
  Map.chunkAt m k = Map.stored m k.
Proof.
  intros (_ & _ & Hcoh) Hmod. unfold Map.chunkAt.
  destruct (k =? Map._currentBitChunkIndex m) eqn:Hk; [|reflexivity].
  apply Z.eqb_eq in Hk. subst k. symmetry. apply Hcoh. exact Hmod.
Qed.

Lemma setCurrentBitChunkIndex_coherent (m m' : Map.t) (c r : Z) (e : EmergencyType) :
  Map.coherent m -> 0 <= c < 2 ^ 63 ->
  Map.setCurrentBitChunkIndex m c = (r, m', e) -> (r <? 0) = false ->
  Map.coherent m'
  /\ Map._firstZeroCandidate m' = Map._firstZeroCandidate m
  /\ (forall k, 0 <= k -> Map.chunkAt m' k = Map.chunkAt m k).
Proof.
  intros Hcoh Hc Es Hr.
  assert (Map.word c) as Hcw by (unfold Map.word; lia).
  destruct (setCurrentBitChunkIndex_ok _ _ _ _ _ (proj1 Hcoh) Hcw Es) as [Hinv' _].
  unfold Map.setCurrentBitChunkIndex in Es.
  destruct (c =? Map._currentBitChunkIndex m) eqn:Heq.
  { injection Es as _ <- _. split_and!; auto. }
  destruct (Map.sync m) as [[r0 m0] e0] eqn:Esync.
  destruct (r0 <? 0) eqn:Hr0; [injection Es as E0 _ _; lia|].
  destruct (sync_coherent _ _ _ _ Hcoh Esync Hr0) as (Hcoh0 & Hmod0 & Hcand0 & Hat0 & _).
  pose proof Hcoh0 as (Hinv0 & Hlen0 & _).
  pose proof Hinv0 as (_ & _ & Hn0 & _).
  destruct (c >=? Map._bitChunksInStorage m0) eqn:Hext.
  - cbv zeta in Es.
    cbn [Map._storage Map._bitChunksInStorage Map.set_bitChunksInStorage
         Map.set_currentBitChunk] in Es.
    assert (u64 (c + 1) = c + 1) as Hu by (unfold u64; rewrite Z.mod_small; lia).
    rewrite Hu in Es.
    destruct (Storage.setSize _ _ _) as [r1 s1] eqn:Ez.
    cbv beta iota zeta in Es.
    destruct (r1 <? 0) eqn:Hr1; [injection Es as E0 _ _; lia|].
    apply setSize_ok in Ez as [-> Hs1]; [|assumption].
    injection Es as _ <- _.
    assert (forall k, 0 <= k ->
              default 0 (Storage.chunks s1 !! Z.to_nat k) = Map.stored m0 k) as Hst.
    { intros k Hk. rewrite Hs1, default_resize. unfold Map.stored.
      case_bool_decide; [reflexivity|].
      rewrite lookup_ge_None_2; [reflexivity|]. lia. }
    split_and!.
    + split; [exact Hinv'|]. split.
      * cbn. rewrite Hs1, length_resize. lia.
      * intros _. cbn. unfold Map.stored. cbn. rewrite Hst by lia.
        unfold Map.stored. rewrite lookup_ge_None_2; [reflexivity|]. lia.
    + cbn. exact Hcand0.
    + intros k Hk. rewrite <- Hat0 by assumption.
      rewrite (chunkAt_stored m0) by assumption.
      unfold Map.chunkAt. cbn. unfold Map.stored at 1. cbn. rewrite Hst by assumption.
      destruct (k =? c) eqn:Hkc; [|reflexivity].
      apply Z.eqb_eq in Hkc. subst k. unfold Map.stored.
      rewrite lookup_ge_None_2; [reflexivity|]. lia.
  - destruct (Storage.read _ _ _) as [[r1 c1] s1] eqn:Er.
    cbv beta iota zeta in Es.
    destruct (r1 <? 0) eqn:Hr1; [injection Es as E0 _ _; lia|].
    apply read_ok in Er as (-> & Hl & Hs1); [|assumption].
    injection Es as _ <- _.
    split_and!.
    + split; [exact Hinv'|]. split.
      * cbn. rewrite Hs1. exact Hlen0.
      * intros _. cbn. unfold Map.stored. cbn. rewrite Hs1, Hl. reflexivity.
    + cbn. exact Hcand0.
    + intros k Hk. rewrite <- Hat0 by assumption.
      rewrite (chunkAt_stored m0) by assumption.
      unfold Map.chunkAt. cbn. unfold Map.stored. cbn. rewrite Hs1.
      destruct (k =? c) eqn:Hkc; [|reflexivity].
      apply Z.eqb_eq in Hkc. subst k. rewrite Hl. reflexivity.
Qed.

Lemma not64_full (x : Z) : Map.word x -> not64 x = 0 -> x = 2 ^ 64 - 1.
Proof.
  intros [H0 H1] Hn. unfold not64, u64 in Hn.
  assert (Z.lnot x = - x - 1) as Hl by (unfold Z.lnot; lia).
  rewrite Hl in Hn.
  assert ((- x - 1) mod 2 ^ 64 = 2 ^ 64 - x - 1) as Hm.
  { symmetry. apply (Z.mod_unique _ _ (-1)); lia. }
  lia.
Qed.

Lemma firstZero_loop_coherent (fuel : nat) :
  forall (m m' : Map.t) (c c' bi : Z) (e : EmergencyType),
  Map.coherent m -> 0 <= c < 2 ^ 63 -> Map._bitChunksInStorage m < 2 ^ 57 ->
  Map.firstZero_loop fuel m c = (0, (c', bi), m', e) ->
  Map.coherent m'
  /\ Map._firstZeroCandidate m' = Map._firstZeroCandidate m
  /\ (forall k, 0 <= k -> Map.chunkAt m' k = Map.chunkAt m k)
  /\ (forall k, c <= k < c' -> Map.chunkAt m' k = 2 ^ 64 - 1).
Proof.
  induction fuel as [|fuel IH]; intros m m' c c' bi e Hcoh Hc Hn; cbn [Map.firstZero_loop].
  { intros H; inversion H. }
  destruct (Map.setCurrentBitChunkIndex m c) as [[r1 m1] e1] eqn:E1.
  destruct (r1 <? 0) eqn:Hr1.
  { intros H. injection H as Hr _ _ _ _. subst r1. discriminate Hr1. }
  assert (Map.word c) as Hcw by (unfold Map.word; lia).
  destruct (setCurrentBitChunkIndex_ok _ _ _ _ _ (proj1 Hcoh) Hcw E1) as [Hinv1 Hok].
  destruct (Hok Hr1) as (_ & _ & Hcur & _ & Hle). clear Hok.
  destruct (setCurrentBitChunkIndex_coherent _ _ _ _ _ Hcoh Hc E1 Hr1)
    as (Hcoh1 & Hcand1 & Hat1).
  destruct (not64 (Map._currentBitChunk m1) =? 0) eqn:Hfull; cbn [negb].
  - destruct (Map.firstZero_loop fuel m1 (u64 (c + 1))) as [[[r2 [c2 b2]] m2] e2] eqn:E2.
    intros H. injection H as Hr2 Hc2' Hb2 Hm2 He. subst r2 c2 b2 m2.
    apply Z.eqb_eq in Hfull. specialize (Hle Hfull).
    destruct (firstZero_loop_ok _ _ _ _ _ _ _ Hinv1 (u64_word _) E2)
      as (_ & _ & _ & _ & _ & Hlt2 & _).
    assert (c < Map._bitChunksInStorage m1) as Hcn.
    { rewrite Hcur in Hlt2. apply Hlt2. unfold u64. rewrite Z.mod_small; lia. }
    assert (u64 (c + 1) = c + 1) as Hu by (unfold u64; rewrite Z.mod_small; lia).
    rewrite Hu in E2.
    apply IH in E2 as (Hcoh2 & Hcand2 & Hat2 & Hfull2); [|assumption|lia|lia].
    split_and!; [assumption|congruence| |].
    + intros k Hk. rewrite Hat2, Hat1 by assumption. reflexivity.
    + intros k Hk. destruct (Z.eq_dec k c) as [->|Hne].
      * rewrite Hat2 by lia. unfold Map.chunkAt. rewrite Hcur, Z.eqb_refl.
        apply not64_full; [apply Hinv1|assumption].
      * apply Hfull2. lia.
  - intros H. injection H as Hc' Hbi Hm' He. subst c' bi m' e.
    split_and!; auto. intros k Hk. lia.
Qed.

Lemma ctzll_low (x i : Z) : 0 <= i < ctzll x -> Z.testbit x i = false.
Proof.
  intros Hi. unfold ctzll in *.
  destruct (ctz_from_spec 64 x 0) as (_ & _ & Hlow); [lia|]. apply Hlow. exact Hi.
Qed.

Lemma full_testbit (i : Z) : 0 <= i < 64 -> Z.testbit (2 ^ 64 - 1) i = true.
Proof.
  intros Hi. change (2 ^ 64 - 1) with (Z.ones 64). apply Z.ones_spec_low. exact Hi.
Qed.

Lemma bits_of_chunks (m m' : Map.t) :
  (forall k, 0 <= k -> Map.chunkAt m' k = Map.chunkAt m k) ->
  forall j, 0 <= j -> Map.bit m' j = Map.bit m j.
Proof.
  intros H j Hj. rewrite !bit_chunkAt. rewrite H; [reflexivity|].
  unfold Map.toBitChunkIndex. apply Z.div_pos; lia.
Qed.

(** In a coherent Map with a sound hint, a successful [Map::firstZero]
    returns the smallest slot whose bit is zero; it changes no bit and
    leaves the Map coherent and the hint sound. *)
Lemma firstZero_smallest (m m' : Map.t) (index idx : Z) (e : EmergencyType) :
  Map.coherent m -> Map.wf m -> Map.hint_ok m ->
  Map.firstZero m index = (0, idx, m', e) ->
  Map.bit m' idx = false
  /\ (forall j, 0 <= j < idx -> Map.bit m' j = true)
  /\ (forall j, 0 <= j -> Map.bit m' j = Map.bit m j)
  /\ Map.coherent m' /\ Map.hint_ok m'.
Proof.
  intros Hcoh Hwf Hhint Efz.
  destruct (firstZero_ok _ _ _ _ _ Hwf Efz) as (_ & Hidx & Hres & Hfree).
  destruct Hwf as (Hinv & Hn & Hcand).
  unfold Map.firstZero in Efz.
  destruct (Map.firstZero_loop _ _ _) as [[[r [c bi]] m1] e1] eqn:El.
  destruct (r =? 0) eqn:Hr; [|injection Efz as E0 _ _ _; lia].
  apply Z.eqb_eq in Hr. subst r.
  assert (0 <= Map.toBitChunkIndex (Map._firstZeroCandidate m) < 2 ^ 57) as Hc0.
  { unfold Map.toBitChunkIndex. split.
    - apply Z.div_pos; lia.
    - apply Z.div_lt_upper_bound; lia. }
  pose proof El as El'.
  apply firstZero_loop_ok in El' as (_ & Hinv1 & Hcur & Hnz & Hbi & _ & Hc);
    [|assumption|unfold Map.word; lia].
  apply firstZero_loop_coherent in El as (Hcoh1 & Hcand1 & Hat1 & Hfull);
    [|assumption|lia|lia].
  destruct (ctzll_spec (not64 (Map._currentBitChunk m1))) as [Hb Hset];
    [apply not64_word|assumption|].
  rewrite <- Hbi in Hb, Hset.
  destruct Hinv as (_ & _ & [Hn0 _] & _).
  assert (0 <= c < 2 ^ 57) as Hcr by lia.
  assert (u64 (c * 64 + bi) = c * 64 + bi) as Hu
    by (unfold u64; rewrite Z.mod_small; lia).
  cbn in Efz. rewrite Hu in Efz. injection Efz as <- <- _.
  set (m2 := Map.set_firstZeroCandidate (c * 64 + bi) m1) in *.
  assert (forall k, Map.chunkAt m2 k = Map.chunkAt m1 k) as Hat2 by reflexivity.
  assert (forall j, 0 <= j -> Map.bit m2 j = Map.bit m j) as Hbits.
  { apply bits_of_chunks. intros k Hk. rewrite Hat2. apply Hat1. exact Hk. }
  assert (forall j, 0 <= j < c * 64 + bi -> Map.bit m2 j = true) as Hbelow.
  { intros j Hj.
    destruct (Z_lt_ge_dec j (Map._firstZeroCandidate m)) as [Hlt|Hge].
    - rewrite Hbits by lia. apply Hhint. lia.
    - rewrite bit_chunkAt, Hat2. unfold Map.toBitChunkIndex, Map.toBitIndex.
      pose proof (Z.div_mod j 64 ltac:(lia)) as Hdm.
      pose proof (Z.mod_pos_bound j 64 ltac:(lia)) as Hmb.
      assert (Map.toBitChunkIndex (Map._firstZeroCandidate m) <= j / 64) as Hlo
        by (unfold Map.toBitChunkIndex; apply Z.div_le_mono; lia).
      assert (j / 64 < c + 1) as Hhi
        by (apply Z.div_lt_upper_bound; lia).
      destruct (Z.eq_dec (j / 64) c) as [Heq|Hne].
      + rewrite Heq. unfold Map.chunkAt. rewrite Hcur, Z.eqb_refl.
        assert (Z.testbit (not64 (Map._currentBitChunk m1)) (j mod 64) = false) as Hz.
        { apply ctzll_low. rewrite <- Hbi. lia. }
        rewrite not64_testbit in Hz by lia.
        destruct (Z.testbit (Map._currentBitChunk m1) (j mod 64)); [reflexivity|discriminate Hz].
      + rewrite Hfull by (destruct Hc; lia). apply full_testbit. lia. }
  split_and!.
  - exact Hfree.
  - exact Hbelow.
  - exact Hbits.
  - destruct Hcoh1 as (Hi1 & Hl1 & Hc1). split; [|split].
    + destruct Hi1 as (? & ? & ? & ?). unfold Map.inv. cbn. split_and!; auto.
    + exact Hl1.
    + exact Hc1.
  - intros j Hj. apply Hbelow. exact Hj.
Qed.

Lemma word_bits (x : Z) :
  Map.word x <-> 0 <= x /\ forall i, 64 <= i -> Z.testbit x i = false.
Proof.
  split.
  - intros [H0 H1]. split; [exact H0|]. intros i Hi.
    rewrite <- (Z.mod_small x (2 ^ 64)) by lia.
    apply Z.mod_pow2_bits_high. lia.
  - intros [H0 Hhigh]. split; [exact H0|].
    assert (x mod 2 ^ 64 = x) as Hm.
    { apply Z.bits_inj'. intros i Hi.
      destruct (Z_lt_ge_dec i 64) as [Hlt|Hge].
      - apply Z.mod_pow2_bits_low. lia.
      - rewrite Z.mod_pow2_bits_high by lia. symmetry. apply Hhigh. lia. }
    rewrite <- Hm. apply Z.mod_pos_bound. lia.
Qed.

Lemma word_lor (a b : Z) : Map.word a -> Map.word b -> Map.word (Z.lor a b).
Proof.
  rewrite !word_bits. intros [Ha Hah] [Hb Hbh]. split.
  - apply Z.lor_nonneg. auto.
  - intros i Hi. rewrite Z.lor_spec, Hah, Hbh by assumption. reflexivity.
Qed.

Lemma word_land (a b : Z) : Map.word a -> Map.word (Z.land a b).
Proof.
  rewrite !word_bits. intros [Ha Hah]. split.
  - apply Z.land_nonneg. auto.
  - intros i Hi. rewrite Z.land_spec, Hah by assumption. reflexivity.
Qed.

Lemma set_resident_state (m m' : Map.t) (i : Z) (b : bool) :
  Map.toBitChunkIndex i = Map._currentBitChunkIndex m ->
  Map.set m i b = (0, m', EmergencyNone) ->
  Map._storage m' = Map._storage m
  /\ Map._bitChunksInStorage m' = Map._bitChunksInStorage m
  /\ Map._currentBitChunkIndex m' = Map._currentBitChunkIndex m
  /\ Map._currentBitChunk m'
     = (if b
        then Z.lor (Map._currentBitChunk m) (u64 (Z.shiftl 1 (Map.toBitIndex i)))
        else Z.land (Map._currentBitChunk m)
               (not64 (u64 (Z.shiftl 1 (Map.toBitIndex i)))))
  /\ Map._currentBitChunkModified m'
     = negb (Map._currentBitChunk m =? Map._currentBitChunk m')
  /\ Map._firstZeroCandidate m'
     = (if b
        then if i =? Map._firstZeroCandidate m
             then u64 (Map._firstZeroCandidate m + 1) else Map._firstZeroCandidate m
        else if i <? Map._firstZeroCandidate m
             then i else Map._firstZeroCandidate m).
Proof.
  intros Hres. unfold Map.set, Map.setCurrentBitChunkIndex.
  rewrite Hres, Z.eqb_refl. cbn [Z.ltb Z.compare].
  intros H. injection H as <-.
  destruct b; cbv zeta;
    repeat match goal with
           | |- context [if ?c then _ else _] =>
               lazymatch c with
               | context [if _ then _ else _] => fail
               | _ => destruct c
               end
           end; split_and!; reflexivity.
Qed.

(** A [Map::set] that changes the bit of its slot keeps the Map coherent
    and the hint sound, and changes no other bit. *)
Lemma set_effective (m m' : Map.t) (i r : Z) (b : bool) (e : EmergencyType) :
  Map.coherent m -> Map.hint_ok m -> 0 <= i < 2 ^ 63 ->
  Map.set m i b = (r, m', e) -> (r <? 0) = false ->
  Map.bit m i = negb b ->
  Map.coherent m' /\ Map.hint_ok m'
  /\ (forall j, 0 <= j -> Map.bit m' j = if bool_decide (j = i) then b else Map.bit m j).
Proof.
  intros Hcoh Hhint Hi Eset Hr Hbit.
  assert (0 <= Map.toBitChunkIndex i < 2 ^ 63) as Hc.
  { unfold Map.toBitChunkIndex. split; [apply Z.div_pos; lia|].
    apply Z.div_lt_upper_bound; lia. }
  assert (exists m1 e1,
            Map.setCurrentBitChunkIndex m (Map.toBitChunkIndex i) = (0, m1, e1)
            /\ Map.set m1 i b = (0, m', EmergencyNone)) as (m1 & e1 & E1 & Eset1).
  { unfold Map.set in Eset.
    destruct (Map.setCurrentBitChunkIndex m (Map.toBitChunkIndex i))
      as [[r1 m1] e1] eqn:E1.
    destruct (r1 <? 0) eqn:Hr1; [injection Eset as E0 _ _; lia|].
    assert (Map.word (Map.toBitChunkIndex i)) as Hcw by (unfold Map.word; lia).
    destruct (setCurrentBitChunkIndex_ok _ _ _ _ _ (proj1 Hcoh) Hcw E1) as [_ Hok].
    destruct (Hok Hr1) as (-> & _ & Hcur & _).
    exists m1, e1. split; [reflexivity|].
    unfold Map.set, Map.setCurrentBitChunkIndex.
    rewrite Hcur, Z.eqb_refl. cbn [Z.ltb Z.compare].
    injection Eset as _ <- _. reflexivity. }
  assert (Map.word (Map.toBitChunkIndex i)) as Hcw by (unfold Map.word; lia).
  destruct (setCurrentBitChunkIndex_ok _ _ _ _ _ (proj1 Hcoh) Hcw E1) as [Hinv1 Hok].
  destruct (Hok eq_refl) as (_ & _ & Hcur & _). clear Hok.
  destruct (setCurrentBitChunkIndex_coherent _ _ _ _ _ Hcoh Hc E1 eq_refl)
    as (Hcoh1 & Hcand1 & Hat1).
  pose proof (bits_of_chunks _ _ Hat1) as Hbits1.
  destruct (set_resident m1 i b (eq_sym Hcur)) as (m2 & Eset2 & _ & Hbits2).
  rewrite Eset1 in Eset2. injection Eset2 as <-.
  destruct (set_resident_state m1 m' i b (eq_sym Hcur) Eset1)
    as (Hst & Hcnt & Hidx & Hchunk & Hmod & Hcand).
  assert (forall j, 0 <= j ->
            Map.bit m' j = if bool_decide (j = i) then b else Map.bit m j) as Hbits.
  { intros j Hj. rewrite Hbits2. case_bool_decide; [reflexivity|]. apply Hbits1. exact Hj. }
  assert (Map._currentBitChunkModified m' = true) as Hmodified.
  { rewrite Hmod. destruct (Map._currentBitChunk m1 =? Map._currentBitChunk m') eqn:Heq;
      [|reflexivity].
    exfalso. apply Z.eqb_eq in Heq.
    assert (Map.bit m' i = Map.bit m1 i) as Hsame.
    { unfold Map.bit. rewrite Hidx, <- Hcur, Z.eqb_refl, Heq. reflexivity. }
    rewrite Hbits2, bool_decide_true, Hbits1, Hbit in Hsame by (reflexivity || lia).
    destruct b; discriminate Hsame. }
  split_and!.
  - destruct Hinv1 as (Hw1 & Hi1 & Hn1 & Hall1).
    destruct Hcoh1 as (_ & Hlen1 & _).
    split; [|split].
    + unfold Map.inv. rewrite Hst, Hcnt, Hidx, Hchunk. split_and!; auto.
      destruct b; [apply word_lor; [assumption|apply u64_word]|apply word_land; assumption].
    + rewrite Hst, Hcnt. exact Hlen1.
    + intros Hf. congruence.
  - intros j Hj. rewrite Hbits by lia. rewrite Hcand, Hcand1 in Hj.
    case_bool_decide as Hji.
    + subst j. destruct b; [reflexivity|]. exfalso.
      destruct (i <? Map._firstZeroCandidate m) eqn:Hlt; [lia|].
      apply Z.ltb_ge in Hlt. lia.
    + apply Hhint. destruct b.
      * destruct (i =? Map._firstZeroCandidate m) eqn:Heq; [|lia].
        apply Z.eqb_eq in Heq.
        assert (u64 (Map._firstZeroCandidate m + 1) <= Map._firstZeroCandidate m + 1).
        { unfold u64. apply Z.mod_le; lia. }
        lia.
      * destruct (i <? Map._firstZeroCandidate m) eqn:Hlt; [|lia].
        apply Z.ltb_lt in Hlt. lia.
  - exact Hbits.
Qed.

Lemma land_mask (x p : Z) :
  0 <= p < 64 ->
  negb (Z.land x (u64 (Z.shiftl 1 p)) =? 0) = Z.testbit x p.
Proof.
  intros Hp.
  assert (u64 (Z.shiftl 1 p) = 2 ^ p) as ->.
  { unfold u64. rewrite Z.shiftl_1_l. apply Z.mod_small.
    split; [lia|]. apply Z.pow_lt_mono_r; lia. }
  destruct (Z.testbit x p) eqn:Hb.
  - destruct (Z.land x (2 ^ p) =? 0) eqn:Hz; [|reflexivity].
    apply Z.eqb_eq in Hz. exfalso.
    assert (Z.testbit (Z.land x (2 ^ p)) p = true) as Ht
      by (rewrite Z.land_spec, Hb, Z.pow2_bits_true by lia; reflexivity).
    rewrite Hz, Z.bits_0 in Ht. discriminate Ht.
  - assert (Z.land x (2 ^ p) = 0) as ->; [|reflexivity].
    apply Z.bits_inj'. intros n Hn. rewrite Z.land_spec, Z.bits_0.
    destruct (Z.eq_dec n p) as [->|Hne].
    + rewrite Hb. reflexivity.
    + rewrite Z.pow2_bits_false by lia. apply andb_false_r.
Qed.

(** A successful [Map::get] reports the bit of its slot and changes no bit. *)
Lemma get_coherent (m m' : Map.t) (i r : Z) (b0 b : bool) (e : EmergencyType) :
  Map.coherent m -> 0 <= i < 2 ^ 63 ->
  Map.get m i b0 = (r, b, m', e) -> (r <? 0) = false ->
  Map.coherent m'
  /\ Map._firstZeroCandidate m' = Map._firstZeroCandidate m
  /\ (forall j, 0 <= j -> Map.bit m' j = Map.bit m j)
  /\ b = Map.bit m i.
Proof.
  intros Hcoh Hi Eget Hr.
  assert (0 <= Map.toBitChunkIndex i < 2 ^ 63) as Hc.
  { unfold Map.toBitChunkIndex. split; [apply Z.div_pos; lia|].
    apply Z.div_lt_upper_bound; lia. }
  assert (Map.word (Map.toBitChunkIndex i)) as Hcw by (unfold Map.word; lia).
  unfold Map.get in Eget.
  destruct (Map.setCurrentBitChunkIndex m (Map.toBitChunkIndex i)) as [[r1 m1] e1] eqn:E1.
  destruct (r1 <? 0) eqn:Hr1; [injection Eget as E0 _ _ _; lia|].
  destruct (setCurrentBitChunkIndex_ok _ _ _ _ _ (proj1 Hcoh) Hcw E1) as [_ Hok].
  destruct (Hok Hr1) as (_ & _ & Hcur & _). clear Hok.
  destruct (setCurrentBitChunkIndex_coherent _ _ _ _ _ Hcoh Hc E1 Hr1)
    as (Hcoh1 & Hcand1 & Hat1).
  pose proof (bits_of_chunks _ _ Hat1) as Hbits1.
  cbv zeta in Eget. injection Eget as _ <- <- _.
  split_and!; auto.
  rewrite <- Hbits1 by lia. unfold Map.bit. rewrite Hcur, Z.eqb_refl.
  apply land_mask. unfold Map.toBitIndex. apply Z.mod_pos_bound. lia.
Qed.

Lemma map_fresh_coherent : Map.coherent map_fresh /\ Map.hint_ok map_fresh.
Proof.
  split.
  - split; [|split].
    + split; [|split; [|split]].
      1-3: vm_compute; split; [discriminate|reflexivity].
      replace (Storage.chunks (Map._storage map_fresh)) with [0] by reflexivity.
      repeat constructor; unfold Map.word; lia.
    + reflexivity.
    + intros _. reflexivity.
  - intros j Hj. change (Map._firstZeroCandidate map_fresh) with 0 in Hj. lia.
Qed.

Lemma calls_effective_coherent (cs : list MapCall) : forall m : Map.t,
  Map.coherent m -> Map.hint_ok m -> calls_effective m cs ->
  Map.coherent (snd (Map_run m cs)) /\ Map.hint_ok (snd (Map_run m cs)).
Proof.
  induction cs as [|c cs IH]; intros m Hcoh Hhint Heff; cbn [Map_run].
  { auto. }
  destruct Heff as (Hwf & Hcall & Hr & Heff).
  destruct (Map_call m c) as [r m1] eqn:Ec. cbn [fst snd] in Hr, Heff. subst r.
  destruct (Map_run m1 cs) as [rs m2] eqn:Erun. cbn [snd].
  assert (Map.coherent m1 /\ Map.hint_ok m1) as [Hcoh1 Hhint1].
  { destruct c as [|i b|i|]; cbn [Map_call] in Ec.
    - destruct (Map.firstZero m 0) as [[[r idx] m'] e] eqn:Efz.
      injection Ec as -> <-.
      destruct (firstZero_smallest _ _ _ _ _ Hcoh Hwf Hhint Efz) as (_ & _ & _ & H1 & H2).
      auto.
    - destruct Hcall as [Hi Hbit].
      destruct (Map.set m i b) as [[r m'] e] eqn:Es.
      injection Ec as -> <-.
      destruct (set_effective _ _ _ _ _ _ Hcoh Hhint Hi Es eq_refl Hbit) as (H1 & H2 & _).
      auto.
    - destruct (Map.get m i false) as [[[r b] m'] e] eqn:Eg.
      injection Ec as -> <-.
      destruct (get_coherent _ _ _ _ _ _ _ Hcoh Hcall Eg eq_refl) as (H1 & Hc & Hb & _).
      split; [exact H1|]. intros j Hj. rewrite Hb by lia. apply Hhint. lia.
    - destruct (Map.sync m) as [[r m'] e] eqn:Es.
      injection Ec as -> <-.
      destruct (sync_coherent _ _ _ _ Hcoh Es eq_refl) as (H1 & _ & Hc & Hat & _).
      split; [exact H1|]. intros j Hj.
      rewrite (bits_of_chunks _ _ Hat) by lia. apply Hhint. lia. }
  specialize (IH m1 Hcoh1 Hhint1 Heff). rewrite Erun in IH. exact IH.
Qed.

(** After any run of successful calls on a fresh Map in which every [set]
    changes the bit of its slot, a successful [Map::firstZero] returns the
    smallest slot whose bit is zero (over a Storage that fills a grown
    container with zeroes). *)
Lemma firstZero_smallest_after_effective_calls
    (cs : list MapCall) (index idx : Z) (m' : Map.t) (e : EmergencyType) :
  calls_effective map_fresh cs ->
  Map.wf (snd (Map_run map_fresh cs)) ->
  Map.firstZero (snd (Map_run map_fresh cs)) index = (0, idx, m', e) ->
  Map.bit m' idx = false /\ forall j, 0 <= j < idx -> Map.bit m' j = true.
Proof.
  intros Heff Hwf Efz.
  destruct map_fresh_coherent as [Hcoh Hhint].
  destruct (calls_effective_coherent cs map_fresh Hcoh Hhint Heff) as [Hcoh' Hhint'].
  destruct (firstZero_smallest _ _ _ _ _ Hcoh' Hwf Hhint' Efz) as (H1 & H2 & _).
  auto.
Qed.

(** [Map.wf] of a Map that is given by a closed term. *)
Ltac wf_by_evaluation :=
  split; [split; [|split; [|split]]|split];
  lazymatch goal with
  | |- Forall _ ?l =>
      let l' := eval vm_compute in l in
      change l with l'; repeat constructor; unfold Map.word; lia
  | |- _ => vm_compute; first [split; [discriminate|reflexivity] | reflexivity]
  end.

Ltac effective_by_evaluation :=
  cbn [calls_effective];
  repeat match goal with
         | |- True => exact I
         | |- Map.wf _ => wf_by_evaluation
         | |- _ /\ _ => split
         | |- _ = _ => vm_compute; reflexivity
         | |- _ <= _ => lia
         | |- _ < _ => lia
         end.

(** A run that frees slot 1 again: [firstZero] returns 1, not the hint's
    successor. *)
Lemma firstZero_smallest_example :
  let cs := [CallSet 0 true; CallSet 1 true; CallSet 2 true; CallGet 100;
             CallSet 1 false; CallSync] in
  calls_effective map_fresh cs
  /\ fst (fst (Map.firstZero (snd (Map_run map_fresh cs)) 0)) = (0, 1).
Proof.
  split; [effective_by_evaluation | vm_compute; reflexivity].
Qed.

(** ** Handle: removal of an unlinked open file *)

(** A [set] that leaves its bit unchanged is within reach of the
    filesystem.  In [fs_unlinked_open_file] every operation succeeds; the
    blocks 1..5 of "/f" are freed when the file is closed, and block 4, the
    root of its tree 2, is freed twice: once as the block that the handle
    had cached at level 0 when the removal began, and once more after the
    walk over the slots has loaded it again.  The second [setZero(4)]
    changes nothing and resets the flag: the resident chunk of the block
    map (blocks 0 and 6 in use) is marked as unmodified although the
    backing Storage still holds zero. *)
Lemma removeNow_frees_a_block_twice :
  let m := ChunkManager._map (_blockMgr (snd fs_unlinked_open_file)) in
  Forall (fun r => 0 <= r) (fst fs_unlinked_open_file)
  /\ Map._currentBitChunkIndex m = 0
  /\ Map._currentBitChunk m = 65
  /\ Map._currentBitChunkModified m = false
  /\ Map.stored m 0 = 0.
Proof.
  vm_compute. split; [repeat constructor; discriminate | repeat split; reflexivity].
Qed.

(** ** StorageMemory: the byte container under its chunk interface *)

(** A value in the range of [uint64_t] is not changed by the wrap-around. *)
Lemma u64_small (z : Z) : 0 <= z < 2 ^ 64 -> u64 z = z.
Proof. intros. unfold u64. apply Z.mod_small. assumption. Qed.

(** The vector after a [writeBytes] that returned 0: grown to the end of
    the written range if it was shorter, with the range replaced. *)
Lemma writeBytes_ok (s s' : StorageMemory.t) (index size : Z) (buf : list Z) :
  0 <= index -> 0 <= size -> index + size < 2 ^ 64 ->
  StorageMemory.writeBytes s index size buf = (0, s') ->
  StorageMemory._fatalError s = false
  /\ StorageMemory._fatalError s' = false
  /\ StorageMemory._chunkSize s' = StorageMemory._chunkSize s
  /\ StorageMemory._storage s'
     = take (Z.to_nat index)
         (resize (Z.to_nat (Z.max (index + size)
                              (Z.of_nat (length (StorageMemory._storage s))))) 0
            (StorageMemory._storage s))
       ++ resize (Z.to_nat size) 0 buf
       ++ drop (Z.to_nat index + Z.to_nat size)
            (resize (Z.to_nat (Z.max (index + size)
                                 (Z.of_nat (length (StorageMemory._storage s))))) 0
               (StorageMemory._storage s)).
Proof.
  intros Hi Hs Hb H. unfold StorageMemory.writeBytes in H.
  destruct (StorageMemory._fatalError s) eqn:Ef; [discriminate H|].
  rewrite u64_small in H by lia.
  destruct (index + size >? Z.of_nat (length (StorageMemory._storage s))) eqn:Eg.
  - apply Z.gtb_lt in Eg. rewrite Z.max_l by lia.
    unfold StorageMemory.resize_storage in H.
    destruct (StorageMemory.allocs s) as [|[|] rest]; cbn in H.
    + rewrite Ef in H. injection H as <-. cbn. auto.
    + discriminate H.
    + rewrite Ef in H. injection H as <-. cbn. auto.
  - rewrite Ef in H. injection H as <-. cbn.
    assert (index + size <= Z.of_nat (length (StorageMemory._storage s))) by lia.
    rewrite Z.max_r by lia. rewrite Nat2Z.id, resize_all. auto.
Qed.

Lemma resize_lookup_old (l : list Z) (n p : nat) :
  (p < length l)%nat -> (p < n)%nat -> resize n 0 l !! p = l !! p.
Proof. intros. rewrite lookup_resize by lia. destruct (l !! p) eqn:E; [reflexivity|].
  apply lookup_ge_None in E. lia. Qed.

(** X1.  In the memory backend, a [Storage::write] of [size] chunks at chunk
    [index] that returns 0 is read back by [Storage::read] of the same
    range; the container then ends at the end of the range or where it
    ended before, every byte outside the range that existed keeps its
    value, and the bytes of a gap between the old end and the range are
    zero.  ([index], [size] and the chunk size are such that the byte
    offsets do not wrap around.) *)
Theorem StorageMemory_write_then_read (s s' : StorageMemory.t) (index size : Z) (buf buf0 : list Z) :
  0 <= index -> 0 <= size -> 0 <= StorageMemory._chunkSize s ->
  (index + size) * StorageMemory._chunkSize s < 2 ^ 64 ->
  Z.of_nat (length buf) = size * StorageMemory._chunkSize s ->
  length buf0 = length buf ->
  StorageMemory.write s index size buf = (0, s') ->
  fst (StorageMemory.read s' index size buf0) = (0, buf)
  /\ Z.of_nat (length (StorageMemory._storage s'))
     = Z.max ((index + size) * StorageMemory._chunkSize s)
         (Z.of_nat (length (StorageMemory._storage s)))
  /\ (forall p : nat,
        (Z.of_nat p < index * StorageMemory._chunkSize s
         \/ (index + size) * StorageMemory._chunkSize s <= Z.of_nat p) ->
        (p < length (StorageMemory._storage s))%nat ->
        StorageMemory._storage s' !! p = StorageMemory._storage s !! p)
  /\ (forall p : nat,
        (length (StorageMemory._storage s) <= p)%nat ->
        Z.of_nat p < index * StorageMemory._chunkSize s ->
        StorageMemory._storage s' !! p = Some 0).
Proof.
  intros Hi Hs Hc Hb Hl Hl0 H.
  set (cs := StorageMemory._chunkSize s) in *.
  assert (0 <= index * cs) as HI by nia.
  assert (0 <= size * cs) as HS by nia.
  assert (index * cs + size * cs < 2 ^ 64) as HB by nia.
  unfold StorageMemory.write in H.
  destruct (StorageMemory.writeBytes s (u64 (index * StorageMemory._chunkSize s))
              (u64 (size * StorageMemory._chunkSize s)) buf) as [r s1] eqn:Ew.
  fold cs in Ew.
  rewrite !u64_small in Ew by lia.
  destruct (r <? 0) eqn:Er; [injection H as E _; lia|].
  injection H as <-.
  assert (r = 0) as ->.
  { unfold StorageMemory.writeBytes in Ew.
    destruct (StorageMemory._fatalError s); [injection Ew as <- _; discriminate Er|].
    match type of Ew with
    | (if StorageMemory._fatalError ?x then _ else _) = _ =>
        destruct (StorageMemory._fatalError x)
    end; injection Ew as <- _; [discriminate Er | reflexivity]. }
  apply writeBytes_ok in Ew; [|lia..].
  destruct Ew as (Ef & Ef1 & Ecs & Est).
  set (old := StorageMemory._storage s) in *.
  set (big := resize (Z.to_nat (Z.max (index * cs + size * cs) (Z.of_nat (length old)))) 0 old)
    in *.
  assert (length big = Z.to_nat (Z.max (index * cs + size * cs) (Z.of_nat (length old))))
    as Hbig by (unfold big; apply length_resize).
  assert (length (StorageMemory._storage s1)
          = Z.to_nat (Z.max (index * cs + size * cs) (Z.of_nat (length old)))) as Hlen.
  { rewrite Est, !length_app, length_take, length_resize, length_drop, Hbig. lia. }
  split_and!.
  - unfold StorageMemory.read, StorageMemory.readBytes. cbn.
    rewrite Ef1, Ecs. fold cs.
    rewrite (u64_small (index * cs)), (u64_small (size * cs)),
      (u64_small (index * cs + size * cs)) by lia.
    rewrite Hlen.
    replace (index * cs + size * cs
             >? Z.of_nat (Z.to_nat (Z.max (index * cs + size * cs) (Z.of_nat (length old)))))
      with false by (symmetry; rewrite Z.gtb_ltb; apply Z.ltb_ge; lia).
    cbn. f_equal.
    rewrite Est.
    rewrite drop_app_length' by (rewrite length_take, Hbig; lia).
    rewrite take_app_length' by (rewrite length_resize; lia).
    replace (Z.to_nat (size * cs)) with (length buf) by lia.
    rewrite resize_all.
    rewrite (drop_ge buf0) by lia. apply app_nil_r.
  - cbn. rewrite Hlen. lia.
  - intros p Hp Hpl. cbn. rewrite Est.
    destruct Hp as [Hp|Hp].
    + rewrite lookup_app_l by (rewrite length_take, Hbig; lia).
      rewrite lookup_take_lt by lia. unfold big. apply resize_lookup_old; lia.
    + rewrite lookup_app_r by (rewrite length_take, Hbig; lia).
      rewrite lookup_app_r by (rewrite length_take, length_resize, Hbig; lia).
      rewrite lookup_drop. rewrite length_take, length_resize, Hbig.
      replace (Z.to_nat (index * cs) + Z.to_nat (size * cs) +
         (p - Z.to_nat (index * cs) `min` Z.to_nat (Z.max (index * cs + size * cs) (Z.of_nat (length old))) -
          Z.to_nat (size * cs)))%nat with p by lia.
      unfold big. apply resize_lookup_old; lia.
  - intros p Hp Hpi. cbn. rewrite Est.
    rewrite lookup_app_l by (rewrite length_take, Hbig; lia).
    rewrite lookup_take_lt by lia. unfold big.
    rewrite lookup_resize_new by lia. reflexivity.
Qed.

(** The theorem at a concrete input. *)
Lemma StorageMemory_write_then_read_witness :
  let res := StorageMemory.write sm_two_chunks 3 1 [9; 9; 9; 9] in
  fst res = 0
  /\ fst (StorageMemory.read (snd res) 3 1 [0; 0; 0; 0]) = (0, [9; 9; 9; 9])
  /\ StorageMemory._storage (snd res) !! 9%nat = Some 0
  /\ StorageMemory._storage (snd res) !! 5%nat = Some 6.
Proof.
  intros res.
  assert (StorageMemory.write sm_two_chunks 3 1 [9; 9; 9; 9] = (0, snd res)) as E
    by (vm_compute; reflexivity).
  destruct (StorageMemory_write_then_read sm_two_chunks (snd res) 3 1 [9; 9; 9; 9] [0; 0; 0; 0]
              ltac:(lia) ltac:(lia) ltac:(vm_compute; discriminate)
              ltac:(vm_compute; reflexivity) ltac:(vm_compute; reflexivity)
              ltac:(reflexivity) E) as (Hread & _ & Hkeep & Hgap).
  split; [vm_compute; reflexivity|]. split; [exact Hread|]. split.
  - apply Hgap; [vm_compute; lia|vm_compute; reflexivity].
  - rewrite Hkeep; [vm_compute; reflexivity|left; vm_compute; reflexivity|vm_compute; lia].
Defined.

(** X2.  Once [_fatalError] is set in the memory backend, every operation on
    the container, [close] included, returns [-EIO] and changes nothing. *)
Theorem fatal_error_is_final (s : StorageMemory.t) :
  StorageMemory._fatalError s = true ->
  StorageMemory.close s = (- EIO, s)
  /\ (forall old, StorageMemory.size s old = (- EIO, old, s))
  /\ (forall index size buf, StorageMemory.read s index size buf = (- EIO, buf, s))
  /\ (forall index size buf, StorageMemory.write s index size buf = (- EIO, s))
  /\ (forall index size, StorageMemory.punchHole s index size = (- EIO, s))
  /\ (forall size, StorageMemory.setSize s size = (- EIO, s)).
Proof.
  intros Hf.
  unfold StorageMemory.close, StorageMemory.size, StorageMemory.read, StorageMemory.write,
    StorageMemory.punchHole, StorageMemory.setSize, StorageMemory.sizeInBytes,
    StorageMemory.readBytes, StorageMemory.writeBytes, StorageMemory.punchHoleBytes,
    StorageMemory.setSizeBytes.
  rewrite Hf. split_and!; reflexivity.
Qed.

(** The theorem at a concrete input. *)
Lemma fatal_error_is_final_witness :
  let s := snd (StorageMemory.setSize (StorageMemory.new [true]) 10) in
  fst (StorageMemory.setSize (StorageMemory.new [true]) 10) = - ENOMEM
  /\ StorageMemory._fatalError s = true
  /\ StorageMemory.write s 0 1 [1] = (- EIO, s)
  /\ StorageMemory.close s = (- EIO, s).
Proof.
  intros s.
  assert (StorageMemory._fatalError s = true) as Hf by (vm_compute; reflexivity).
  destruct (fatal_error_is_final s Hf) as (Hclose & _ & _ & Hwrite & _).
  split; [vm_compute; reflexivity|]. split; [exact Hf|].
  split; [apply Hwrite|exact Hclose].
Defined.

(** The two outcomes of [resize]: it throws, or the vector has the new
    size. *)
Lemma resize_storage_cases (s : StorageMemory.t) (n : Z) :
  StorageMemory._fatalError s = false ->
  (StorageMemory._fatalError (StorageMemory.resize_storage s n) = true
   /\ StorageMemory._storage (StorageMemory.resize_storage s n) = StorageMemory._storage s
   /\ exists rest, StorageMemory.allocs s = true :: rest)
  \/ (StorageMemory._fatalError (StorageMemory.resize_storage s n) = false
      /\ StorageMemory._storage (StorageMemory.resize_storage s n)
         = resize (Z.to_nat n) 0 (StorageMemory._storage s)
      /\ head (StorageMemory.allocs s) <> Some true).
Proof.
  intros Hf. unfold StorageMemory.resize_storage.
  destruct (StorageMemory.allocs s) as [|[|] rest]; cbn.
  - right. rewrite Hf. split_and!; [reflexivity..|discriminate].
  - left. split_and!; [reflexivity..|]. exists rest. reflexivity.
  - right. rewrite Hf. split_and!; [reflexivity..|]. intros [=].
Qed.

(** X3.  On a memory container without fatal error, [Storage::write] and
    [Storage::setSize] either return 0 and leave [_fatalError] clear, or
    return [-ENOMEM]: then the allocation has failed, the bytes of the
    container are as before and [_fatalError] is set. *)
Theorem failed_allocation_is_fatal (s s' : StorageMemory.t) (r : Z) :
  StorageMemory._fatalError s = false ->
  (forall index size buf,
     StorageMemory.write s index size buf = (r, s') ->
     (r = 0 /\ StorageMemory._fatalError s' = false)
     \/ (r = - ENOMEM /\ StorageMemory._fatalError s' = true
         /\ StorageMemory._storage s' = StorageMemory._storage s
         /\ head (StorageMemory.allocs s) = Some true))
  /\ (forall size,
        StorageMemory.setSize s size = (r, s') ->
        (r = 0 /\ StorageMemory._fatalError s' = false)
        \/ (r = - ENOMEM /\ StorageMemory._fatalError s' = true
            /\ StorageMemory._storage s' = StorageMemory._storage s
            /\ head (StorageMemory.allocs s) = Some true)).
Proof.
  intros Hf. split.
  - intros index size buf H.
    unfold StorageMemory.write, StorageMemory.writeBytes in H. rewrite Hf in H.
    destruct (u64 (u64 (index * StorageMemory._chunkSize s)
                   + u64 (size * StorageMemory._chunkSize s))
              >? Z.of_nat (length (StorageMemory._storage s))).
    + destruct (resize_storage_cases s
                  (u64 (u64 (index * StorageMemory._chunkSize s)
                        + u64 (size * StorageMemory._chunkSize s))) Hf)
        as [(E1 & E2 & rest & E3)|(E1 & E2 & E3)]; rewrite E1 in H; cbn in H.
      * injection H as <- <-. right. rewrite E3. auto.
      * injection H as <- <-. left. cbn. auto.
    + rewrite Hf in H. cbn in H. injection H as <- <-. left. cbn. auto.
  - intros size H.
    unfold StorageMemory.setSize, StorageMemory.setSizeBytes in H. rewrite Hf in H.
    destruct (resize_storage_cases s (u64 (size * StorageMemory._chunkSize s)) Hf)
      as [(E1 & E2 & rest & E3)|(E1 & E2 & E3)]; rewrite E1 in H.
    + injection H as <- <-. right. rewrite E3. auto.
    + injection H as <- <-. left. auto.
Qed.

(** The theorem at a concrete input. *)
Lemma failed_allocation_is_fatal_witness :
  let s := StorageMemory.new [false; true] in
  let s1 := snd (StorageMemory.write s 0 2 [5; 6]) in
  StorageMemory._fatalError s = false
  /\ fst (StorageMemory.write s 0 2 [5; 6]) = 0
  /\ StorageMemory._fatalError s1 = false
  /\ fst (StorageMemory.setSize s1 100) = - ENOMEM
  /\ StorageMemory._storage (snd (StorageMemory.setSize s1 100)) = [5; 6].
Proof.
  intros s s1.
  assert (StorageMemory._fatalError s1 = false) as Hf1 by (vm_compute; reflexivity).
  destruct (failed_allocation_is_fatal s1 (snd (StorageMemory.setSize s1 100))
              (fst (StorageMemory.setSize s1 100)) Hf1) as [_ Hset].
  destruct (Hset 100 (surjective_pairing _)) as [[Hr _]|(Hr & _ & Hst & _)].
  - exfalso. revert Hr. vm_compute. discriminate.
  - split; [reflexivity|]. split; [vm_compute; reflexivity|]. split; [exact Hf1|].
    split; [exact Hr|]. rewrite Hst. vm_compute. reflexivity.
Defined.

(** X4.  After [Storage::setSize(n)] has returned 0 on a memory container,
    [Storage::size] reports [n] chunks, every byte below the new end has
    the value it had, or zero if it did not exist, and each of the [n]
    chunks can be read. *)
Theorem setSize_then_size (s s' : StorageMemory.t) (n old : Z) :
  0 <= n -> 0 < StorageMemory._chunkSize s ->
  n * StorageMemory._chunkSize s < 2 ^ 64 ->
  StorageMemory.setSize s n = (0, s') ->
  StorageMemory.size s' old = (0, n, s')
  /\ (forall p : nat,
        Z.of_nat p < n * StorageMemory._chunkSize s ->
        StorageMemory._storage s' !! p
        = Some (default 0 (StorageMemory._storage s !! p)))
  /\ (forall j buf,
        0 <= j < n -> Z.of_nat (length buf) = StorageMemory._chunkSize s ->
        fst (StorageMemory.read s' j 1 buf) = (0, StorageMemory.chunk s' j)).
Proof.
  intros Hn Hc Hb H.
  set (cs := StorageMemory._chunkSize s) in *.
  unfold StorageMemory.setSize, StorageMemory.setSizeBytes in H. fold cs in H.
  rewrite u64_small in H by nia.
  destruct (StorageMemory._fatalError s) eqn:Hf; [discriminate H|].
  destruct (resize_storage_cases s (n * cs) Hf) as [(E1 & E2 & E3)|(E1 & E2 & E3)];
    rewrite E1 in H; [discriminate H|].
  injection H as <-.
  assert (StorageMemory._chunkSize (StorageMemory.resize_storage s (n * cs)) = cs) as Ecs.
  { unfold StorageMemory.resize_storage.
    destruct (StorageMemory.allocs s) as [|[|] ?]; reflexivity. }
  assert (length (StorageMemory._storage (StorageMemory.resize_storage s (n * cs)))
          = Z.to_nat (n * cs)) as Hlen by (rewrite E2; apply length_resize).
  split_and!.
  - unfold StorageMemory.size, StorageMemory.sizeInBytes. rewrite E1. cbn.
    rewrite Ecs, Hlen. rewrite Z2Nat.id by nia.
    rewrite Z.div_mul by (unfold cs in *; lia). reflexivity.
  - intros p Hp. rewrite E2.
    destruct (StorageMemory._storage s !! p) as [x|] eqn:Ep; cbn.
    + rewrite lookup_resize; [exact Ep|unfold cs in *; lia|].
      apply lookup_lt_Some in Ep. exact Ep.
    + apply lookup_ge_None in Ep.
      apply lookup_resize_new; [exact Ep|unfold cs in *; lia].
  - intros j buf Hj Hbuf.
    unfold StorageMemory.read, StorageMemory.readBytes, StorageMemory.chunk.
    rewrite E1, Ecs, Hlen.
    rewrite (u64_small (j * cs)), (u64_small (1 * cs)), (u64_small (j * cs + 1 * cs)) by nia.
    replace (j * cs + 1 * cs >? Z.of_nat (Z.to_nat (n * cs))) with false
      by (symmetry; rewrite Z.gtb_ltb; apply Z.ltb_ge; nia).
    cbn. f_equal. rewrite Z.mul_1_l.
    rewrite (drop_ge buf) by lia. apply app_nil_r.
Qed.

(** The theorem at a concrete input. *)
Lemma setSize_then_size_witness :
  let s' := snd (StorageMemory.setSize sm_two_chunks 5) in
  fst (StorageMemory.setSize sm_two_chunks 5) = 0
  /\ StorageMemory.size s' 0 = (0, 5, s')
  /\ StorageMemory.chunk s' 1 = [5; 6; 7; 8]
  /\ StorageMemory.chunk s' 4 = [0; 0; 0; 0].
Proof.
  intros s'.
  assert (StorageMemory.setSize sm_two_chunks 5 = (0, s')) as E by (vm_compute; reflexivity).
  destruct (setSize_then_size sm_two_chunks s' 5 0 ltac:(lia)
              ltac:(vm_compute; reflexivity) ltac:(vm_compute; reflexivity) E)
    as (Hsize & _ & _).
  split; [vm_compute; reflexivity|]. split; [exact Hsize|].
  split; vm_compute; reflexivity.
Defined.

(** ** The mmap and file backends: where they differ from the model of Storage *)

(** X30.  The mmap backend does not erase what a shrink cuts off.  As long
    as the number of mapped pages stays the same, [setSizeBytes] only
    assigns [_size]: bytes written to the container, then cut off by a
    smaller size (a read of them fails with [-EIO]), are read back
    unchanged after the container has been given its old size again,
    where the memory and file backends give zeroes. *)
Theorem mmap_shrink_keeps_the_bytes
    (s : StorageMmap.t) (k index size : Z) (buf buf0 : list Z) :
  Z.of_nat (length (StorageMmap._map s)) = StorageMmap._len s ->
  StorageMmap._size s <= StorageMmap._len s ->
  StorageMmap._size s < 2 ^ 64 ->
  0 <= k <= index -> 0 < size -> index + size <= StorageMmap._size s ->
  Z.of_nat (length buf) = size ->
  StorageMmap.sizeToMapLength (StorageMmap._pagesize s) k = StorageMmap._len s ->
  StorageMmap.sizeToMapLength (StorageMmap._pagesize s) (StorageMmap._size s)
  = StorageMmap._len s ->
  let '(r1, s1) := StorageMmap.writeBytes s index size buf in
  let '(r2, s2) := StorageMmap.setSizeBytes s1 k in
  let '(r3, s3) := StorageMmap.setSizeBytes s2 (StorageMmap._size s) in
  r1 = 0 /\ r2 = 0 /\ r3 = 0
  /\ StorageMmap._size s2 = k /\ StorageMmap._size s3 = StorageMmap._size s
  /\ StorageMmap.readBytes s2 index size buf0 = (- EIO, buf0, s2)
  /\ StorageMmap.readBytes s3 index size buf0
     = (0, buf ++ drop (Z.to_nat size) buf0, s3).
Proof.
  intros Hlen Hsl Hs64 Hk Hsize Hin Hbuf Hk' Hn'.
  assert (u64 (index + size) = index + size) as Hu by (apply u64_small; lia).
  unfold StorageMmap.writeBytes. rewrite Hu.
  assert ((index + size >? StorageMmap._size s) = false) as E1 by lia.
  rewrite E1. cbn [negb Z.eqb].
  unfold StorageMmap.setSizeBytes at 1.
  cbn [StorageMmap._pagesize StorageMmap._len StorageMmap.set_map StorageMmap._map].
  rewrite Hk', Z.eqb_refl. cbn [negb Z.eqb].
  unfold StorageMmap.setSizeBytes.
  cbn [StorageMmap._pagesize StorageMmap._len StorageMmap.set_map StorageMmap.set_size
       StorageMmap._map StorageMmap._size].
  rewrite Hn', Z.eqb_refl. cbn [negb Z.eqb].
  split; [reflexivity|]. split; [reflexivity|]. split; [reflexivity|].
  split; [reflexivity|]. split; [reflexivity|].
  unfold StorageMmap.readBytes.
  cbn [StorageMmap._pagesize StorageMmap._len StorageMmap.set_map StorageMmap.set_size
       StorageMmap._map StorageMmap._size].
  rewrite Hu.
  assert ((index + size >? k) = true) as E2 by lia. rewrite E2, E1.
  split; [reflexivity|].
  f_equal. f_equal.
  assert (Z.to_nat size = length buf) as -> by lia.
  rewrite resize_all.
  rewrite drop_app_length'; [|rewrite length_take; lia].
  rewrite take_app_length. reflexivity.
Qed.

(** The theorem at a concrete input. *)
Lemma mmap_shrink_keeps_the_bytes_witness :
  let s := mmap_sixteen_bytes in
  let s1 := snd (StorageMmap.writeBytes s 8 8 [1; 2; 3; 4; 5; 6; 7; 8]) in
  let s2 := snd (StorageMmap.setSizeBytes s1 8) in
  let s3 := snd (StorageMmap.setSizeBytes s2 16) in
  fst (fst (StorageMmap.readBytes s2 8 8 (replicate 8 0))) = - EIO
  /\ fst (StorageMmap.readBytes s3 8 8 (replicate 8 0))
     = (0, [1; 2; 3; 4; 5; 6; 7; 8]).
Proof.
  intros s s1 s2 s3.
  pose proof (mmap_shrink_keeps_the_bytes s 8 8 8 [1; 2; 3; 4; 5; 6; 7; 8] (replicate 8 0)
                ltac:(vm_compute; reflexivity) ltac:(vm_compute; discriminate)
                ltac:(vm_compute; reflexivity) ltac:(lia) ltac:(lia)
                ltac:(vm_compute; discriminate) ltac:(reflexivity)
                ltac:(vm_compute; reflexivity) ltac:(vm_compute; reflexivity)) as H.
  fold s1 s2 s3 in H.
  rewrite (surjective_pairing (StorageMmap.writeBytes s 8 8 [1; 2; 3; 4; 5; 6; 7; 8])) in H.
  fold s1 in H.
  rewrite (surjective_pairing (StorageMmap.setSizeBytes s1 8)) in H. fold s2 in H.
  rewrite (surjective_pairing (StorageMmap.setSizeBytes s2 (StorageMmap._size s))) in H.
  change (StorageMmap._size s) with 16 in H. fold s3 in H.
  destruct H as (_ & _ & _ & _ & _ & H2 & H3).
  rewrite H2, H3. split; reflexivity.
Defined.

(** In the file backend a read that reaches past the end of the file does
    not return: [pread] gives 0 at the end of the file, so [size] stays
    above 0 and the loop goes on, however many rounds it is given. *)
Lemma file_read_past_the_end_never_returns (fuel : nat) :
  forall (s : StorageFile.t) (index size : Z) (buf : list Z),
  StorageFile.calls s = [] ->
  0 <= index -> 0 < size -> index + size < 2 ^ 64 ->
  Z.of_nat (length (StorageFile.file s)) < index + size ->
  StorageFile.readBytes fuel s index size buf = None.
Proof.
  induction fuel as [|fuel IH]; intros s index size buf Hcalls Hi Hs Hw Hend;
    cbn [StorageFile.readBytes]; [reflexivity|].
  assert ((size >? 0) = true) as -> by lia.
  unfold StorageFile.pread. rewrite Hcalls.
  set (data := take (Z.to_nat size) (drop (Z.to_nat index) (StorageFile.file s))).
  assert (Z.of_nat (length data) < size) as Hshort.
  { unfold data. rewrite length_take, length_drop. lia. }
  assert ((Z.of_nat (length data) <? 0) = false) as -> by lia.
  rewrite !u64_small by lia.
  apply IH; [exact Hcalls|lia|lia|lia|lia].
Qed.

(** ** Map: the allocation bits through the operations *)

(** [map_reused] is in step with its backing Storage. *)
Lemma map_reused_coherent :
  Map.coherent map_reused /\ Map.wf map_reused /\ Map.hint_ok map_reused.
Proof.
  destruct map_fresh_coherent as [Hc Hh].
  destruct (calls_effective_coherent
              [CallSet 0 true; CallSet 1 true; CallSet 2 true; CallGet 100;
               CallSet 1 false; CallSync] map_fresh Hc Hh) as [Hc' Hh'].
  { effective_by_evaluation. }
  split; [exact Hc'|]. split; [|exact Hh'].
  unfold map_reused. wf_by_evaluation.
Qed.

(** X5.  [Map::initialize()] on a new Map over a container of 64-bit words:
    when it returns 0, chunk 0 is resident, the Map is coherent and
    well-formed with a sound hint, and the allocation bits are those of the
    words in the container; an empty container has become one zero
    chunk. *)
Theorem initialize_loads_the_bitmap (s : Storage.t Z) (m : Map.t) :
  Forall Map.word (Storage.chunks s) ->
  Z.of_nat (length (Storage.chunks s)) < 2 ^ 57 ->
  Map.initialize (Map.new s) = (0, m) ->
  Map.coherent m /\ Map.wf m /\ Map.hint_ok m
  /\ Map._currentBitChunkIndex m = 0
  /\ Storage.chunks (Map._storage m)
     = (if bool_decide (Storage.chunks s = []) then [0] else Storage.chunks s)
  /\ (forall j, 0 <= j ->
        Map.bit m j
        = Z.testbit (default 0 (Storage.chunks s !! Z.to_nat (Map.toBitChunkIndex j)))
            (Map.toBitIndex j)).
Proof.
  intros Hw Hlen H.
  unfold Map.initialize, Map.new in H. cbn in H.
  unfold Storage.size in H.
  destruct (Storage.backend _) as [r0 s0] eqn:E0 in H.
  pose proof (backend_chunks _ _ _ E0) as Hc0. cbn in Hc0.
  destruct (r0 <? 0) eqn:Er0; cbn in H; rewrite ?Er0 in H; cbn in H;
    [injection H as E _; lia|].
  rewrite Hc0 in H.
  destruct (Z.of_nat (length (Storage.chunks s)) =? 0) eqn:Ez; cbn in H.
  - apply Z.eqb_eq in Ez.
    assert (Storage.chunks s = []) as Hnil by (destruct (Storage.chunks s); [reflexivity|cbn in Ez; lia]).
    destruct (Storage.setSize 0 s0 1) as [r1 s1] eqn:E1.
    destruct (r1 <? 0) eqn:Er1; [injection H as E _; lia|].
    apply setSize_ok in E1; [|exact Er1]. destruct E1 as [-> E1].
    rewrite Hc0, Hnil in E1. cbn in E1.
    injection H as <-.
    rewrite Hnil. cbn.
    assert (Forall Map.word [0]) as Hw0 by (repeat constructor; unfold Map.word; lia).
    split_and!.
    + unfold Map.coherent, Map.inv, Map.stored. cbn. rewrite E1. cbn.
      split_and!; try (unfold Map.word; lia); auto.
    + unfold Map.wf, Map.inv. cbn. rewrite E1.
      split_and!; try (unfold Map.word; lia); auto.
    + intros j Hj. cbn in Hj. lia.
    + reflexivity.
    + exact E1.
    + intros j Hj. unfold Map.bit. cbn. rewrite E1.
      rewrite lookup_nil. cbn.
      destruct (Map.toBitChunkIndex j =? 0) eqn:Ej.
      * reflexivity.
      * destruct (Z.to_nat (Map.toBitChunkIndex j)) eqn:En; reflexivity.
  - apply Z.eqb_neq in Ez.
    destruct (Storage.read s0 0 0) as [[r1 c1] s1] eqn:E1.
    destruct (r1 <? 0) eqn:Er1; [injection H as E _; lia|].
    apply read_ok in E1; [|exact Er1]. destruct E1 as (-> & E1 & E1').
    rewrite Hc0 in E1, E1'. cbn in E1.
    injection H as <-.
    assert (Storage.chunks s <> []) as Hne by (intros E; rewrite E in Ez; cbn in Ez; lia).
    rewrite bool_decide_eq_false_2 by exact Hne.
    assert (Map.word c1) as Hwc.
    { eapply Forall_lookup_1 in Hw; [exact Hw|exact E1]. }
    split_and!.
    + unfold Map.coherent, Map.inv, Map.stored. cbn. rewrite E1'. cbn. rewrite E1. cbn.
      split_and!; try (unfold Map.word; lia); auto.
    + unfold Map.wf, Map.inv. cbn. rewrite E1'.
      split_and!; try (unfold Map.word; lia); auto.
    + intros j Hj. cbn in Hj. lia.
    + reflexivity.
    + exact E1'.
    + intros j Hj. unfold Map.bit. cbn. rewrite E1'.
      destruct (Map.toBitChunkIndex j =? 0) eqn:Ej; [|reflexivity].
      apply Z.eqb_eq in Ej. rewrite Ej. cbn. rewrite E1. reflexivity.
Qed.

(** The theorem at a concrete input. *)
Lemma initialize_loads_the_bitmap_witness :
  let s := Storage.mk 8 [5; 0] [] false in
  let m := snd (Map.initialize (Map.new s)) in
  Map.coherent m /\ Map.bit m 0 = true /\ Map.bit m 1 = false /\ Map.bit m 2 = true.
Proof.
  intros s m.
  assert (Forall Map.word (Storage.chunks s)) as Hw
    by (repeat constructor; unfold Map.word; lia).
  assert (Z.of_nat (length (Storage.chunks s)) < 2 ^ 57) as Hl by (cbn; lia).
  assert (Map.initialize (Map.new s) = (0, m)) as E by (vm_compute; reflexivity).
  destruct (initialize_loads_the_bitmap s m Hw Hl E) as (Hc & _ & _ & _ & _ & Hb).
  split; [exact Hc|].
  rewrite !Hb by lia. split_and!; reflexivity.
Defined.

(** A successful [setCurrentBitChunkIndex] either stays on the resident
    chunk and changes nothing, or leaves a chunk that is not marked as
    modified. *)
Lemma setCurrentBitChunkIndex_clean (m m' : Map.t) (c r : Z) (e : EmergencyType) :
  Map.setCurrentBitChunkIndex m c = (r, m', e) -> (r <? 0) = false ->
  (c = Map._currentBitChunkIndex m /\ m' = m)
  \/ (c <> Map._currentBitChunkIndex m /\ Map._currentBitChunkModified m' = false).
Proof.
  intros H Hr. unfold Map.setCurrentBitChunkIndex in H.
  destruct (c =? Map._currentBitChunkIndex m) eqn:Ec.
  - apply Z.eqb_eq in Ec. injection H as _ <- _. left. auto.
  - apply Z.eqb_neq in Ec. right. split; [exact Ec|].
    destruct (Map.sync m) as [[r1 m1] e1] eqn:Es.
    assert ((r1 <? 0) = false -> Map._currentBitChunkModified m1 = false) as Hm1.
    { intros Hr1. unfold Map.sync in Es.
      destruct (Map._currentBitChunkIndex m >=? Map._bitChunksInStorage m);
        [injection Es as <- _ _; vm_compute in Hr1; discriminate Hr1|].
      match type of Es with
      | (let '(_, _) := ?x in _) = _ => destruct x as [r2 m2]
      end.
      destruct (r2 <? 0) eqn:Hr2; injection Es as <- <- _; [congruence|reflexivity]. }
    destruct (r1 <? 0) eqn:Hr1; [injection H as <- _ _; congruence|].
    specialize (Hm1 eq_refl).
    destruct (c >=? Map._bitChunksInStorage m1).
    + destruct (Storage.setSize _ _ _) as [r2 s2] in H. cbn in H.
      destruct (r2 <? 0) eqn:Hr2; injection H as <- <- _; [congruence|exact Hm1].
    + destruct (Storage.read _ _ _) as [[r2 c2] s2] in H. cbn in H.
      destruct (r2 <? 0) eqn:Hr2; injection H as <- <- _; [congruence|exact Hm1].
Qed.

(** A successful [Map::sync] leaves the number of bit chunks as it was, or
    takes away the last chunk, which then was the resident one. *)
Lemma sync_count (m m0 : Map.t) (r : Z) (e : EmergencyType) :
  Map.inv m ->
  Map.sync m = (r, m0, e) -> (r <? 0) = false ->
  Map._bitChunksInStorage m0 = Map._bitChunksInStorage m
  \/ Map._bitChunksInStorage m0 = Map._bitChunksInStorage m - 1
     /\ Map._currentBitChunkIndex m = Map._bitChunksInStorage m - 1.
Proof.
  intros Hinv. unfold Map.sync.
  destruct (Map._currentBitChunkIndex m >=? Map._bitChunksInStorage m) eqn:Hge.
  { intros H Hr. injection H as <- _ _. discriminate Hr. }
  pose proof Hinv as (Hc & Hi & Hn & Hall).
  destruct ((Map._currentBitChunk m =? 0)
            && (u64 (Map._currentBitChunkIndex m + 1) =? Map._bitChunksInStorage m))
    eqn:Hshrink.
  - apply andb_true_iff in Hshrink as [_ Hlast]. apply Z.eqb_eq in Hlast.
    assert (Map._currentBitChunkIndex m + 1 = Map._bitChunksInStorage m) as Hlast'.
    { revert Hlast. unfold u64. destruct Hi as [Hi0 Hi1], Hn as [Hn0 Hn1].
      destruct (Z.eq_dec (Map._currentBitChunkIndex m + 1) (2 ^ 64)) as [E|E].
      - rewrite E, Z.mod_same by lia. lia.
      - rewrite Z.mod_small by lia. auto. }
    cbv zeta.
    destruct (Map.sync_loop _ _ _) as [r2 m2] eqn:El.
    apply sync_loop_inv in El as [_ Hn2].
    2:{ unfold Map.inv; cbn. split_and!; auto; apply u64_word. }
    cbn in Hn2.
    assert (Map._bitChunksInStorage m2 = Map._bitChunksInStorage m - 1) as Hn2'.
    { rewrite Hn2. unfold u64. destruct Hi, Hn. rewrite Z.mod_small; lia. }
    destruct (r2 =? 0).
    + destruct (Storage.setSize _ _ _) as [r3 s3].
      destruct (r3 <? 0) eqn:E3; intros H Hr; injection H as <- <- _;
        [congruence|right; cbn; lia].
    + destruct (r2 <? 0) eqn:E3; intros H Hr; injection H as <- <- _;
        [congruence|right; cbn; lia].
  - destruct (Map._currentBitChunkModified m).
    + destruct (Storage.write _ _ _ _) as [r3 s3].
      destruct (r3 <? 0) eqn:E3; intros H Hr; injection H as <- <- _;
        [congruence|left; reflexivity].
    + cbn. intros H Hr; injection H as <- <- _. left; reflexivity.
Qed.

(** [setCurrentBitChunkIndex] to a chunk within the bitmap does not make
    the bitmap grow. *)
Lemma setCurrentBitChunkIndex_within (m m' : Map.t) (c r : Z) (e : EmergencyType) :
  Map.inv m -> c < Map._bitChunksInStorage m ->
  Map.setCurrentBitChunkIndex m c = (r, m', e) -> (r <? 0) = false ->
  Map._bitChunksInStorage m' <= Map._bitChunksInStorage m.
Proof.
  intros Hinv Hc. unfold Map.setCurrentBitChunkIndex.
  destruct (c =? Map._currentBitChunkIndex m) eqn:Heq.
  { intros H _. injection H as _ <- _. lia. }
  apply Z.eqb_neq in Heq.
  destruct (Map.sync m) as [[r0 m0] e0] eqn:Es.
  destruct (r0 <? 0) eqn:Hr0; [intros H Hr; injection H as <- _ _; congruence|].
  pose proof (sync_count _ _ _ _ Hinv Es Hr0) as Hcount.
  destruct (c >=? Map._bitChunksInStorage m0) eqn:Hext.
  { exfalso. lia. }
  destruct (Storage.read _ _ _) as [[r1 c1] s1].
  destruct (r1 <? 0) eqn:E1; intros H Hr; injection H as <- <- _; [congruence|].
  cbn. lia.
Qed.

(** X6.  [Map::set(i, b)] on a slot whose chunk lies within the bitmap:
    when it returns 0, slot [i] has the value [b] and every other slot is
    as it was, the Map stays coherent with a sound hint, and the bitmap has
    not grown (so the call has not asked a backend to extend the
    container), provided that the call changes the bit, or that the chunk
    of [i] is not a resident chunk marked as modified.  (In the remaining
    case, a [set] that changes nothing on a modified resident chunk, the
    flag is lost: see C1.) *)
Theorem set_sets_the_bit (m m' : Map.t) (i : Z) (b : bool) (e : EmergencyType) :
  Map.coherent m -> Map.hint_ok m -> 0 <= i < 2 ^ 63 ->
  Map.toBitChunkIndex i < Map._bitChunksInStorage m ->
  Map.bit m i = negb b
  \/ (Map.toBitChunkIndex i = Map._currentBitChunkIndex m ->
      Map._currentBitChunkModified m = false) ->
  Map.set m i b = (0, m', e) ->
  (forall j, 0 <= j -> Map.bit m' j = if bool_decide (j = i) then b else Map.bit m j)
  /\ Map.coherent m' /\ Map.hint_ok m'
  /\ Map._bitChunksInStorage m' <= Map._bitChunksInStorage m.
Proof.
  intros Hcoh Hhint Hi Hin Hsafe Eset.
  assert (0 <= Map.toBitChunkIndex i < 2 ^ 63) as Hc.
  { unfold Map.toBitChunkIndex. split; [apply Z.div_pos; lia|].
    apply Z.div_lt_upper_bound; lia. }
  assert (Map.word (Map.toBitChunkIndex i)) as Hcw by (unfold Map.word; lia).
  assert (exists m1 e1,
            Map.setCurrentBitChunkIndex m (Map.toBitChunkIndex i) = (0, m1, e1)
            /\ Map.set m1 i b = (0, m', EmergencyNone)) as (m1 & e1 & E1 & Eset1).
  { unfold Map.set in Eset.
    destruct (Map.setCurrentBitChunkIndex m (Map.toBitChunkIndex i))
      as [[r1 m1] e1] eqn:E1.
    destruct (r1 <? 0) eqn:Hr1; [injection Eset as E0 _ _; lia|].
    destruct (setCurrentBitChunkIndex_ok _ _ _ _ _ (proj1 Hcoh) Hcw E1) as [_ Hok].
    destruct (Hok Hr1) as (-> & _ & Hcur & _).
    exists m1, e1. split; [reflexivity|].
    unfold Map.set, Map.setCurrentBitChunkIndex.
    rewrite Hcur, Z.eqb_refl. cbn [Z.ltb Z.compare].
    injection Eset as <- _. reflexivity. }
  destruct (setCurrentBitChunkIndex_ok _ _ _ _ _ (proj1 Hcoh) Hcw E1) as [Hinv1 Hok].
  destruct (Hok eq_refl) as (_ & _ & Hcur & _). clear Hok.
  destruct (setCurrentBitChunkIndex_coherent _ _ _ _ _ Hcoh Hc E1 eq_refl)
    as (Hcoh1 & Hcand1 & Hat1).
  pose proof (setCurrentBitChunkIndex_within _ _ _ _ _ (proj1 Hcoh) Hin E1 eq_refl)
    as Hcount1.
  pose proof (bits_of_chunks _ _ Hat1) as Hbits1.
  destruct (set_resident m1 i b (eq_sym Hcur)) as (m2 & Eset_sets_the_bit & _ & Hbits2).
  rewrite Eset1 in Eset_sets_the_bit. injection Eset_sets_the_bit as <-.
  destruct (set_resident_state m1 m' i b (eq_sym Hcur) Eset1)
    as (Hst & Hcnt & Hidx & Hchunk & Hmod & Hcand).
  assert (forall j, 0 <= j ->
            Map.bit m' j = if bool_decide (j = i) then b else Map.bit m j) as Hbits.
  { intros j Hj. rewrite Hbits2. case_bool_decide; [reflexivity|]. apply Hbits1. exact Hj. }
  split_and!.
  - exact Hbits.
  - destruct Hinv1 as (Hw1 & Hi1 & Hn1 & Hall1).
    destruct Hcoh1 as (_ & Hlen1 & Hclean1).
    split; [|split].
    + unfold Map.inv. rewrite Hst, Hcnt, Hidx, Hchunk. split_and!; auto.
      destruct b; [apply word_lor; [assumption|apply u64_word]|apply word_land; assumption].
    + rewrite Hst, Hcnt. exact Hlen1.
    + intros Hf. rewrite Hmod in Hf. apply negb_false_iff, Z.eqb_eq in Hf.
      unfold Map.stored. rewrite Hst, Hidx, <- Hf. apply Hclean1.
      assert (Map.bit m i = b) as Hsame.
      { rewrite <- Hbits1 by lia.
        transitivity (Map.bit m' i).
        - unfold Map.bit. rewrite Hidx, <- Hcur, Z.eqb_refl, Hf. reflexivity.
        - rewrite Hbits2, bool_decide_true by reflexivity. reflexivity. }
      destruct (setCurrentBitChunkIndex_clean _ _ _ _ _ E1 eq_refl) as [[Heq ->]|[_ Hcl]];
        [|exact Hcl].
      destruct Hsafe as [Hflip|Hsafe]; [|exact (Hsafe Heq)].
      rewrite Hsame in Hflip. destruct b; discriminate Hflip.
  - intros j Hj. rewrite Hbits by lia. rewrite Hcand, Hcand1 in Hj.
    case_bool_decide as Hji.
    + subst j. destruct b; [reflexivity|]. exfalso.
      destruct (i <? Map._firstZeroCandidate m) eqn:Hlt; [lia|].
      apply Z.ltb_ge in Hlt. lia.
    + apply Hhint. destruct b.
      * destruct (i =? Map._firstZeroCandidate m) eqn:Heq; [|lia].
        apply Z.eqb_eq in Heq.
        assert (u64 (Map._firstZeroCandidate m + 1) <= Map._firstZeroCandidate m + 1).
        { unfold u64. apply Z.mod_le; lia. }
        lia.
      * destruct (i <? Map._firstZeroCandidate m) eqn:Hlt; [|lia].
        apply Z.ltb_lt in Hlt. lia.
  - rewrite Hcnt. exact Hcount1.
Qed.

(** The theorem at a concrete input. *)
Lemma set_sets_the_bit_witness :
  let m := map_reused in
  let m' := snd (fst (Map.set m 1 true)) in
  Map.toBitChunkIndex 1 < Map._bitChunksInStorage m
  /\ Map.bit m 1 = false
  /\ Map.bit m' 1 = true
  /\ Map.coherent m'
  /\ forall j, 0 <= j -> j <> 1 -> Map.bit m' j = Map.bit m j.
Proof.
  intros m m'.
  destruct map_reused_coherent as (Hc & _ & Hh).
  assert (Map.toBitChunkIndex 1 < Map._bitChunksInStorage m) as Hin
    by (vm_compute; reflexivity).
  assert (Map.bit m 1 = negb true) as Hb by (vm_compute; reflexivity).
  assert (Map.set m 1 true = (0, m', snd (Map.set m 1 true))) as E
    by (vm_compute; reflexivity).
  destruct (set_sets_the_bit m m' 1 true _ Hc Hh ltac:(lia) Hin (or_introl Hb) E)
    as (Hbits & Hc' & _).
  split_and!.
  - exact Hin.
  - exact Hb.
  - rewrite Hbits by lia. reflexivity.
  - exact Hc'.
  - intros j Hj Hne. rewrite Hbits by exact Hj.
    rewrite bool_decide_eq_false_2 by exact Hne. reflexivity.
Defined.

(** X7.  On a coherent, well-formed Map with a sound hint, [Map::firstZero]
    that returns 0 returns the smallest slot whose bit is zero, changes no
    bit, raises no emergency and keeps the hint sound; the chunk of the
    slot is resident, and the Storage holds as many chunks as the Map
    counts.  Coherence is stated for the Map after [Map::setOne] of the
    slot found, the call that [ChunkManager::add] makes next: it marks the
    resident chunk as modified, so that the Map is coherent again whatever
    a backend has put into a chunk that [firstZero] has appended. *)
Theorem firstZero_finds_the_smallest_zero (m m' : Map.t) (index idx : Z) (e : EmergencyType) :
  Map.coherent m -> Map.wf m -> Map.hint_ok m ->
  Map.firstZero m index = (0, idx, m', e) ->
  0 <= idx
  /\ Map.bit m idx = false
  /\ (forall j, 0 <= j < idx -> Map.bit m j = true)
  /\ (forall j, 0 <= j -> Map.bit m' j = Map.bit m j)
  /\ Map.hint_ok m' /\ e = EmergencyNone
  /\ Map.toBitChunkIndex idx = Map._currentBitChunkIndex m'
  /\ Z.of_nat (length (Storage.chunks (Map._storage m'))) = Map._bitChunksInStorage m'
  /\ (forall m'' e',
        Map.setOne m' idx = (0, m'', e') ->
        Map._currentBitChunkModified m'' = true
        /\ Map.coherent m'' /\ Map.hint_ok m''
        /\ forall j, 0 <= j ->
             Map.bit m'' j = if bool_decide (j = idx) then true else Map.bit m j).
Proof.
  intros Hcoh Hwf Hhint E.
  destruct (firstZero_ok _ _ _ _ _ Hwf E) as (He & Hidx & Hres & _).
  destruct (firstZero_smallest _ _ _ _ _ Hcoh Hwf Hhint E)
    as (Hz & Hlow & Hsame & Hcoh' & Hhint').
  split_and!; auto.
  - lia.
  - rewrite <- Hsame by lia. exact Hz.
  - intros j Hj. rewrite <- Hsame by lia. apply Hlow. exact Hj.
  - apply Hcoh'.
  - intros m'' e' Es. unfold Map.setOne in Es.
    destruct (set_effective _ _ _ _ _ _ Hcoh' Hhint' Hidx Es eq_refl Hz)
      as (Hc2 & Hh2 & Hb2).
    split_and!; auto.
    + destruct (set_resident m' idx true Hres) as (m2 & Es2 & _).
      rewrite Es in Es2. injection Es2 as -> ->.
      destruct (set_resident_state m' m2 idx true Hres Es)
        as (_ & _ & Hidx2 & Hchunk & Hmod & _).
      rewrite Hmod. apply negb_true_iff, Z.eqb_neq. intros Heq.
      assert (Map.bit m2 idx = Map.bit m' idx) as Hbit.
      { unfold Map.bit. rewrite Hidx2, Hres, Z.eqb_refl, Heq. reflexivity. }
      rewrite Hb2, bool_decide_true, Hz in Hbit by (reflexivity || lia).
      discriminate Hbit.
    + intros j Hj. rewrite Hb2 by exact Hj. case_bool_decide; [reflexivity|].
      apply Hsame. exact Hj.
Qed.

(** The theorem at a concrete input. *)
Lemma firstZero_finds_the_smallest_zero_witness :
  let m := map_reused in
  Map.coherent m /\ Map.wf m /\ Map.hint_ok m
  /\ fst (fst (Map.firstZero m 0)) = (0, 1)
  /\ Map.bit m 1 = false
  /\ (forall j, 0 <= j < 1 -> Map.bit m j = true)
  /\ Map.coherent (snd (fst (Map.setOne (snd (fst (Map.firstZero m 0))) 1))).
Proof.
  intros m.
  destruct map_reused_coherent as (Hc & Hw & Hh).
  assert (Map.firstZero m 0
          = (0, 1, snd (fst (Map.firstZero m 0)), snd (Map.firstZero m 0))) as E
    by (vm_compute; reflexivity).
  destruct (firstZero_finds_the_smallest_zero m _ 0 1 _ Hc Hw Hh E)
    as (_ & Hz & Hlow & _ & _ & _ & _ & _ & Hset).
  split_and!; auto.
  assert (Map.setOne (snd (fst (Map.firstZero m 0))) 1
          = (0, snd (fst (Map.setOne (snd (fst (Map.firstZero m 0))) 1)),
             snd (Map.setOne (snd (fst (Map.firstZero m 0))) 1))) as E1
    by (vm_compute; reflexivity).
  destruct (Hset _ _ E1) as (_ & Hc2 & _). exact Hc2.
Defined.

(** X8.  [Map::get(i, &b)] on a slot whose chunk lies within the bitmap:
    when it returns 0 on a coherent Map, it reports the bit of slot [i] and
    changes no bit, whatever chunk was resident; the Map stays coherent
    with a sound hint and the bitmap has not grown. *)
Theorem get_reads_the_bit (m m' : Map.t) (i : Z) (b0 b : bool) (e : EmergencyType) :
  Map.coherent m -> Map.hint_ok m -> 0 <= i < 2 ^ 63 ->
  Map.toBitChunkIndex i < Map._bitChunksInStorage m ->
  Map.get m i b0 = (0, b, m', e) ->
  b = Map.bit m i
  /\ (forall j, 0 <= j -> Map.bit m' j = Map.bit m j)
  /\ Map.coherent m' /\ Map.hint_ok m'
  /\ Map._bitChunksInStorage m' <= Map._bitChunksInStorage m.
Proof.
  intros Hcoh Hhint Hi Hin E.
  destruct (get_coherent _ _ _ _ _ _ _ Hcoh Hi E eq_refl) as (Hcoh' & Hcand & Hsame & Hb).
  split_and!; auto.
  - intros j Hj. rewrite Hcand in Hj. rewrite Hsame by lia. apply Hhint. exact Hj.
  - unfold Map.get in E.
    destruct (Map.setCurrentBitChunkIndex m (Map.toBitChunkIndex i))
      as [[r1 m1] e1] eqn:E1.
    destruct (r1 <? 0) eqn:Hr1; [inversion E; lia|].
    inversion E; subst.
    exact (setCurrentBitChunkIndex_within _ _ _ _ _ (proj1 Hcoh) Hin E1 Hr1).
Qed.

(** The theorem at a concrete input. *)
Lemma get_reads_the_bit_witness :
  let m := map_reused in
  Map.toBitChunkIndex 2 < Map._bitChunksInStorage m
  /\ fst (fst (Map.get m 2 false)) = (0, Map.bit m 2).
Proof.
  intros m.
  destruct map_reused_coherent as (Hc & _ & Hh).
  assert (Map.toBitChunkIndex 2 < Map._bitChunksInStorage m) as Hin
    by (vm_compute; reflexivity).
  assert (Map.get m 2 false
          = (0, snd (fst (fst (Map.get m 2 false))),
             snd (fst (Map.get m 2 false)), snd (Map.get m 2 false))) as E
    by (vm_compute; reflexivity).
  destruct (get_reads_the_bit m _ 2 false _ _ Hc Hh ltac:(lia) Hin E) as (Hb & _).
  split; [exact Hin|].
  rewrite E. cbn [fst snd]. rewrite <- Hb. reflexivity.
Defined.

(** X9.  On a coherent Map, [Map::sync()] that returns 0 changes no bit;
    afterwards the resident chunk is not marked as modified and the backing
    Storage holds every chunk as the Map saw it. *)
Theorem sync_keeps_every_bit (m m' : Map.t) (e : EmergencyType) :
  Map.coherent m -> Map.hint_ok m ->
  Map.sync m = (0, m', e) ->
  (forall j, 0 <= j -> Map.bit m' j = Map.bit m j)
  /\ Map._currentBitChunkModified m' = false
  /\ (forall k, 0 <= k -> Map.stored m' k = Map.chunkAt m k)
  /\ Map.coherent m' /\ Map.hint_ok m'.
Proof.
  intros Hcoh Hhint E.
  destruct (sync_coherent _ _ _ _ Hcoh E eq_refl) as (Hcoh' & Hmod & Hcand & Hat & _).
  pose proof (bits_of_chunks _ _ Hat) as Hsame.
  split_and!; auto.
  - intros k Hk. rewrite <- Hat by exact Hk. symmetry. apply chunkAt_stored; assumption.
  - intros j Hj. rewrite Hcand in Hj. rewrite Hsame by lia. apply Hhint. exact Hj.
Qed.

(** The theorem at a concrete input. *)
Lemma sync_keeps_every_bit_witness :
  let m := snd (Map_run map_fresh [CallSet 0 true; CallSet 70 true]) in
  let m' := snd (fst (Map.sync m)) in
  Map._currentBitChunkModified m = true
  /\ Storage.chunks (Map._storage m') = [1; 64]
  /\ forall j, 0 <= j -> Map.bit m' j = Map.bit m j.
Proof.
  intros m m'.
  destruct map_fresh_coherent as [Hc0 Hh0].
  destruct (calls_effective_coherent [CallSet 0 true; CallSet 70 true] map_fresh Hc0 Hh0)
    as [Hc Hh].
  { effective_by_evaluation. }
  assert (Map.sync m = (0, m', snd (Map.sync m))) as E by (vm_compute; reflexivity).
  destruct (sync_keeps_every_bit m m' _ Hc Hh E) as (Hbits & _).
  split_and!; [vm_compute; reflexivity..|exact Hbits].
Defined.

(** X10.  [Map::set] on a slot of the resident chunk cannot fail: it returns
    0 without an emergency, does not touch the backing Storage, and
    changes the bit of that slot only. *)
Theorem set_on_the_resident_chunk (m : Map.t) (i : Z) (b : bool) :
  Map.toBitChunkIndex i = Map._currentBitChunkIndex m ->
  exists m',
    Map.set m i b = (0, m', EmergencyNone)
    /\ Map._storage m' = Map._storage m
    /\ Map._bitChunksInStorage m' = Map._bitChunksInStorage m
    /\ Map._currentBitChunkIndex m' = Map._currentBitChunkIndex m
    /\ (forall j, Map.bit m' j = if bool_decide (j = i) then b else Map.bit m j).
Proof.
  intros Hres.
  destruct (set_resident m i b Hres) as (m' & E & Hidx & Hbits).
  exists m'.
  destruct (set_resident_state m m' i b Hres E) as (Hst & Hcnt & _).
  split_and!; auto.
Qed.

(** The theorem at a concrete input. *)
Lemma set_on_the_resident_chunk_witness :
  Map.toBitChunkIndex 7 = Map._currentBitChunkIndex map_fresh
  /\ exists m', Map.set map_fresh 7 true = (0, m', EmergencyNone)
                /\ Map._storage m' = Map._storage map_fresh.
Proof.
  assert (Map.toBitChunkIndex 7 = Map._currentBitChunkIndex map_fresh) as H
    by (vm_compute; reflexivity).
  split; [exact H|].
  destruct (set_on_the_resident_chunk map_fresh 7 true H) as (m' & E & Hs & _).
  exists m'. auto.
Defined.

(** [Map::setCurrentBitChunkIndex] returns 0 or a negative result. *)
Lemma setCurrentBitChunkIndex_result (m m' : Map.t) (c r : Z) (e : EmergencyType) :
  Map.setCurrentBitChunkIndex m c = (r, m', e) -> r = 0 \/ r < 0.
Proof.
  unfold Map.setCurrentBitChunkIndex.
  destruct (c =? Map._currentBitChunkIndex m); [intros H; injection H as <- _ _; auto|].
  destruct (Map.sync m) as [[r0 m0] e0].
  destruct (r0 <? 0) eqn:Hr0; [intros H; injection H as <- _ _; right; lia|].
  destruct (c >=? Map._bitChunksInStorage m0).
  - cbv zeta. destruct (Storage.setSize _ _ _) as [r1 s1].
    destruct (r1 <? 0) eqn:Hr1; intros H; injection H as <- _ _; [right; lia|auto].
  - destruct (Storage.read _ _ _) as [[r1 c1] s1].
    destruct (r1 <? 0) eqn:Hr1; intros H; injection H as <- _ _; [right; lia|auto].
Qed.

(** [Map::set] returns 0 or a negative result. *)
Lemma Map_set_result (m m' : Map.t) (i r : Z) (v : bool) (e : EmergencyType) :
  Map.set m i v = (r, m', e) -> r = 0 \/ r < 0.
Proof.
  unfold Map.set.
  destruct (Map.setCurrentBitChunkIndex _ _) as [[r0 m0] e0].
  destruct (r0 <? 0) eqn:Hr0; intros H; injection H as <- _ _; [right; lia|auto].
Qed.

(** On the resident chunk, [setCurrentBitChunkIndex] does nothing. *)
Lemma setCurrentBitChunkIndex_same (m : Map.t) :
  Map.setCurrentBitChunkIndex m (Map._currentBitChunkIndex m) = (0, m, EmergencyNone).
Proof. unfold Map.setCurrentBitChunkIndex. rewrite Z.eqb_refl. reflexivity. Qed.

(** A chunk that [setCurrentBitChunkIndex] has made resident and that has
    no zero bit lies within the bitmap: a chunk appended by the call is
    zero. *)
Lemma setCurrentBitChunkIndex_full (m m' : Map.t) (c r : Z) (e : EmergencyType) :
  Map.setCurrentBitChunkIndex m c = (r, m', e) -> (r <? 0) = false ->
  c <> Map._currentBitChunkIndex m ->
  not64 (Map._currentBitChunk m') = 0 ->
  c < Map._bitChunksInStorage m'.
Proof.
  unfold Map.setCurrentBitChunkIndex. intros H Hr Hne Hfull.
  destruct (c =? Map._currentBitChunkIndex m) eqn:Heq; [lia|].
  destruct (Map.sync m) as [[r0 m0] e0].
  destruct (r0 <? 0) eqn:Hr0; [injection H as <- _ _; congruence|].
  destruct (c >=? Map._bitChunksInStorage m0) eqn:Hext.
  - cbv zeta in H. destruct (Storage.setSize _ _ _) as [r1 s1].
    destruct (r1 <? 0) eqn:Hr1; injection H as <- <- _; [congruence|].
    cbn in Hfull. exfalso. exact (not64_0 Hfull).
  - destruct (Storage.read _ _ _) as [[r1 c1] s1].
    destruct (r1 <? 0) eqn:Hr1; injection H as <- <- _; [congruence|].
    cbn. lia.
Qed.

(** The rounds of the loop of [Map::firstZero]: started at chunk [c] it
    ends within [_bitChunksInStorage - c + 1] rounds when the resident
    chunk lies within the bitmap, and within two rounds (one, if [c] is
    not the resident chunk) when it does not; more fuel does not change
    the result. *)
Lemma firstZero_loop_enough (fuel : nat) :
  forall (m : Map.t) (c : Z),
  Map.inv m -> Map.word c ->
  (Map._currentBitChunkIndex m < Map._bitChunksInStorage m ->
   (Z.to_nat (Map._bitChunksInStorage m - c) + 1 <= fuel)%nat) ->
  (Map._bitChunksInStorage m <= Map._currentBitChunkIndex m ->
   ((if (c =? Map._currentBitChunkIndex m)%Z then 2 else 1) <= fuel)%nat) ->
  exists r ij m' e,
    Map.firstZero_loop fuel m c = (r, ij, m', e)
    /\ (r = 0 \/ r < 0)
    /\ forall k : nat, Map.firstZero_loop (fuel + k) m c = (r, ij, m', e).
Proof.
  induction fuel as [|fuel IH]; intros m c Hinv Hc H1 H2.
  { exfalso.
    destruct (Z_lt_le_dec (Map._currentBitChunkIndex m) (Map._bitChunksInStorage m))
      as [Hlt|Hle]; [specialize (H1 Hlt); lia|specialize (H2 Hle)].
    destruct (c =? _) in H2; lia. }
  cbn [Map.firstZero_loop Nat.add].
  destruct (Map.setCurrentBitChunkIndex m c) as [[r1 m1] e1] eqn:E1.
  destruct (r1 <? 0) eqn:Hr1.
  { do 4 eexists. split; [reflexivity|]. split; [right; lia|]. intros k. reflexivity. }
  destruct (setCurrentBitChunkIndex_ok _ _ _ _ _ Hinv Hc E1) as [Hinv1 Hok].
  destruct (Hok Hr1) as (-> & -> & Hcur & Hlt & Hle). clear Hok.
  destruct (not64 (Map._currentBitChunk m1) =? 0) eqn:Hfull; cbn [negb].
  2: { do 4 eexists. split; [reflexivity|]. split; [left; reflexivity|].
       intros k. reflexivity. }
  apply Z.eqb_eq in Hfull. specialize (Hle Hfull).
  assert (u64 (c + 1) <> c) as Hnext.
  { unfold u64. destruct Hc as [Hc0 Hc1].
    destruct (Z.eq_dec c (2 ^ 64 - 1)) as [->|Hn]; [vm_compute; discriminate|].
    rewrite Z.mod_small; lia. }
  destruct (IH m1 (u64 (c + 1)) Hinv1 (u64_word _)) as (r & ij & m' & e & E & Hr & Hk).
  - intros Hlt1. rewrite Hcur in Hlt1.
    assert (u64 (c + 1) = c + 1) as ->.
    { unfold u64. destruct Hc as [? ?]. pose proof Hinv1 as (_ & _ & Hn1 & _).
      destruct Hn1 as [? ?].
      rewrite Z.mod_small; lia. }
    destruct (Z.eq_dec c (Map._currentBitChunkIndex m)) as [Heq|Hne].
    + rewrite Heq, setCurrentBitChunkIndex_same in E1. injection E1 as <-.
      assert (Map._currentBitChunkIndex m < Map._bitChunksInStorage m) as Hl by lia.
      specialize (H1 Hl). lia.
    + specialize (H1 (Hlt Hne)). lia.
  - intros Hge1. rewrite Hcur in Hge1.
    destruct (u64 (c + 1) =? Map._currentBitChunkIndex m1) eqn:Heq1; [lia|].
    destruct (Z.eq_dec c (Map._currentBitChunkIndex m)) as [Heq|Hne].
    + rewrite Heq, setCurrentBitChunkIndex_same in E1. injection E1 as <-.
      assert (Map._bitChunksInStorage m <= Map._currentBitChunkIndex m) as Hl by lia.
      specialize (H2 Hl). rewrite Heq, Z.eqb_refl in H2. lia.
    + pose proof (setCurrentBitChunkIndex_full _ _ _ _ _ E1 Hr1 Hne Hfull). lia.
  - rewrite E. do 4 eexists. split; [reflexivity|]. split; [exact Hr|].
    intros k. rewrite Hk. reflexivity.
Qed.

(** The fuel that [firstZero] gives to its loop is enough. *)
Lemma firstZero_fuel (m : Map.t) :
  Map.inv m -> Map.word (Map._firstZeroCandidate m) ->
  exists r ij m' e,
    (r = 0 \/ r < 0)
    /\ forall k : nat,
         Map.firstZero_loop (Z.to_nat (Map._bitChunksInStorage m) + 2 + k) m
           (Map.toBitChunkIndex (Map._firstZeroCandidate m)) = (r, ij, m', e).
Proof.
  intros Hinv Hcand.
  destruct (firstZero_loop_enough (Z.to_nat (Map._bitChunksInStorage m) + 2) m
              (Map.toBitChunkIndex (Map._firstZeroCandidate m)) Hinv)
    as (r & ij & m' & e & _ & Hr & Hk).
  - unfold Map.toBitChunkIndex, Map.word in *. split.
    + apply Z.div_pos; lia.
    + apply Z.div_lt_upper_bound; lia.
  - intros _. assert (0 <= Map.toBitChunkIndex (Map._firstZeroCandidate m)).
    { unfold Map.toBitChunkIndex, Map.word in *. apply Z.div_pos; lia. }
    lia.
  - intros _. destruct (_ =? _); lia.
  - exists r, ij, m', e. auto.
Qed.

(** [Map::firstZero] returns 0 or a negative result. *)
Lemma firstZero_result (m m' : Map.t) (index idx r : Z) (e : EmergencyType) :
  Map.inv m -> Map.word (Map._firstZeroCandidate m) ->
  Map.firstZero m index = (r, idx, m', e) -> r = 0 \/ r < 0.
Proof.
  intros Hinv Hcand. unfold Map.firstZero.
  destruct (firstZero_fuel m Hinv Hcand) as (r1 & [c bi] & m1 & e1 & Hr & Hk).
  specialize (Hk 0%nat). rewrite Nat.add_0_r in Hk. rewrite Hk.
  destruct (r1 =? 0) eqn:E; intros H; injection H as <- _ _ _; auto.
Qed.

(** A successful [Map::sync] keeps the Storage at the number of chunks
    that the Map counts. *)
Lemma sync_sized (m m0 : Map.t) (r : Z) (e : EmergencyType) :
  Map.inv m ->
  Z.of_nat (length (Storage.chunks (Map._storage m))) = Map._bitChunksInStorage m ->
  Map.sync m = (r, m0, e) -> (r <? 0) = false ->
  Z.of_nat (length (Storage.chunks (Map._storage m0))) = Map._bitChunksInStorage m0.
Proof.
  intros Hinv Hlen. unfold Map.sync.
  destruct (Map._currentBitChunkIndex m >=? Map._bitChunksInStorage m) eqn:Hge.
  { intros H Hr. injection H as <- _ _. discriminate Hr. }
  pose proof Hinv as (Hc & Hi & Hn & Hall).
  destruct ((Map._currentBitChunk m =? 0)
            && (u64 (Map._currentBitChunkIndex m + 1) =? Map._bitChunksInStorage m)).
  - cbv zeta.
    destruct (Map.sync_loop _ _ _) as [r2 m2] eqn:El.
    apply sync_loop_steps in El; [|exact Hi|left; reflexivity].
    destruct El as (Hres & Hch2 & Hn2 & _). cbn in Hch2, Hn2.
    destruct (r2 =? 0) eqn:E0.
    + destruct (Storage.setSize _ _ _) as [r3 s3] eqn:E3.
      destruct (r3 <? 0) eqn:Er3; intros H Hr; injection H as <- <- _; [congruence|].
      apply setSize_ok in E3; [|exact Er3]. destruct E3 as [_ E3].
      cbn. rewrite E3, length_resize, Hn2.
      pose proof (u64_word (Map._bitChunksInStorage m - 1)) as [? ?]. lia.
    + destruct (r2 <? 0) eqn:Er2; intros H Hr; injection H as <- <- _; [congruence|].
      exfalso. bools. lia.
  - destruct (Map._currentBitChunkModified m).
    + destruct (Storage.write _ _ _ _) as [r3 s3] eqn:E3.
      destruct (r3 <? 0) eqn:Er3; intros H Hr; injection H as <- <- _; [congruence|].
      apply write_ok in E3; [|exact Er3|bools; lia]. destruct E3 as [_ E3].
      cbn. rewrite E3, length_insert. exact Hlen.
    + cbn. intros H Hr; injection H as <- <- _. exact Hlen.
Qed.

(** So does a successful [setCurrentBitChunkIndex]. *)
Lemma setCurrentBitChunkIndex_sized (m m' : Map.t) (c r : Z) (e : EmergencyType) :
  Map.inv m ->
  Z.of_nat (length (Storage.chunks (Map._storage m))) = Map._bitChunksInStorage m ->
  Map.setCurrentBitChunkIndex m c = (r, m', e) -> (r <? 0) = false ->
  Z.of_nat (length (Storage.chunks (Map._storage m'))) = Map._bitChunksInStorage m'.
Proof.
  intros Hinv Hlen. unfold Map.setCurrentBitChunkIndex.
  destruct (c =? Map._currentBitChunkIndex m).
  { intros H _. injection H as _ <- _. exact Hlen. }
  destruct (Map.sync m) as [[r0 m0] e0] eqn:Es.
  destruct (r0 <? 0) eqn:Hr0; [intros H Hr; injection H as <- _ _; congruence|].
  pose proof (sync_sized _ _ _ _ Hinv Hlen Es Hr0) as Hlen0.
  destruct (c >=? Map._bitChunksInStorage m0).
  - cbv zeta. cbn [Map._storage Map.set_bitChunksInStorage Map.set_currentBitChunk
                   Map._bitChunksInStorage].
    destruct (Storage.setSize _ _ _) as [r1 s1] eqn:E1.
    destruct (r1 <? 0) eqn:Er1; intros H Hr; injection H as <- <- _; [congruence|].
    apply setSize_ok in E1; [|exact Er1]. destruct E1 as [_ E1].
    cbn. rewrite E1, length_resize.
    pose proof (u64_word (c + 1)) as [? ?]. lia.
  - destruct (Storage.read _ _ _) as [[r1 c1] s1] eqn:E1.
    destruct (r1 <? 0) eqn:Er1; intros H Hr; injection H as <- <- _; [congruence|].
    apply read_ok in E1; [|exact Er1]. destruct E1 as (_ & _ & E1).
    cbn. rewrite E1. exact Hlen0.
Qed.

(** So does the loop of [firstZero], round by round. *)
Lemma firstZero_loop_sized (fuel : nat) :
  forall (m m' : Map.t) (c : Z) (ij : Z * Z) (e : EmergencyType),
  Map.inv m -> Map.word c ->
  Z.of_nat (length (Storage.chunks (Map._storage m))) = Map._bitChunksInStorage m ->
  Map.firstZero_loop fuel m c = (0, ij, m', e) ->
  Z.of_nat (length (Storage.chunks (Map._storage m'))) = Map._bitChunksInStorage m'.
Proof.
  induction fuel as [|fuel IH]; intros m m' c ij e Hinv Hc Hlen; cbn [Map.firstZero_loop].
  { intros H; inversion H. }
  destruct (Map.setCurrentBitChunkIndex m c) as [[r1 m1] e1] eqn:E1.
  destruct (r1 <? 0) eqn:Hr1.
  { intros H. injection H as Hr _ _ _. subst r1. discriminate Hr1. }
  pose proof (setCurrentBitChunkIndex_sized _ _ _ _ _ Hinv Hlen E1 Hr1) as Hlen1.
  destruct (setCurrentBitChunkIndex_ok _ _ _ _ _ Hinv Hc E1) as [Hinv1 _].
  destruct (negb (not64 (Map._currentBitChunk m1) =? 0)).
  - intros H. injection H as _ <- _. exact Hlen1.
  - destruct (Map.firstZero_loop fuel m1 (u64 (c + 1))) as [[[r2 ij2] m2] e2] eqn:E2.
    intros H. injection H as -> _ <- _.
    exact (IH _ _ _ _ _ Hinv1 (u64_word _) Hlen1 E2).
Qed.

(** So does [firstZero]. *)
Lemma firstZero_sized (m m' : Map.t) (index idx : Z) (e : EmergencyType) :
  Map.inv m -> Map.word (Map._firstZeroCandidate m) ->
  Z.of_nat (length (Storage.chunks (Map._storage m))) = Map._bitChunksInStorage m ->
  Map.firstZero m index = (0, idx, m', e) ->
  Z.of_nat (length (Storage.chunks (Map._storage m'))) = Map._bitChunksInStorage m'.
Proof.
  intros Hinv Hcand Hlen. unfold Map.firstZero.
  destruct (Map.firstZero_loop _ _ _) as [[[r1 [c bi]] m1] e1] eqn:El.
  destruct (r1 =? 0) eqn:Er1; intros H;
    [injection H as _ <- _|injection H as -> _ _ _; discriminate Er1].
  apply Z.eqb_eq in Er1. subst r1. cbn.
  apply firstZero_loop_sized in El; [exact El|exact Hinv| |exact Hlen].
  unfold Map.toBitChunkIndex, Map.word in *. split.
  - apply Z.div_pos; lia.
  - apply Z.div_lt_upper_bound; lia.
Qed.

(** X28.  The loop [for (;;)] of [Map::firstZero] ends.  On a Map of 64-bit
    words whose Storage holds as many chunks as the Map counts (so that no
    read of the loop reaches past the end of the container, where the file
    backend would not return), the loop makes at most
    [_bitChunksInStorage + 2] calls of [setCurrentBitChunkIndex]: the
    model's loop gives the same result with any greater number of rounds,
    [firstZero] returns 0 or a negative result (never the value that
    stands for a loop cut short), and with 0 the Storage again holds as
    many chunks as the Map counts. *)
Theorem firstZero_terminates (m : Map.t) (index : Z) :
  Map.inv m -> Map.word (Map._firstZeroCandidate m) ->
  Z.of_nat (length (Storage.chunks (Map._storage m))) = Map._bitChunksInStorage m ->
  (forall k : nat,
     Map.firstZero_loop (Z.to_nat (Map._bitChunksInStorage m) + 2 + k) m
       (Map.toBitChunkIndex (Map._firstZeroCandidate m))
     = Map.firstZero_loop (Z.to_nat (Map._bitChunksInStorage m) + 2) m
         (Map.toBitChunkIndex (Map._firstZeroCandidate m)))
  /\ (forall r idx m' e,
        Map.firstZero m index = (r, idx, m', e) ->
        (r = 0 \/ r < 0)
        /\ (r = 0 ->
            Z.of_nat (length (Storage.chunks (Map._storage m')))
            = Map._bitChunksInStorage m')).
Proof.
  intros Hinv Hcand Hlen. split.
  - destruct (firstZero_fuel m Hinv Hcand) as (r1 & ij & m1 & e1 & _ & Hk).
    intros k. rewrite Hk. specialize (Hk 0%nat). rewrite Nat.add_0_r in Hk.
    rewrite Hk. reflexivity.
  - intros r idx m' e E. split.
    + exact (firstZero_result _ _ _ _ _ _ Hinv Hcand E).
    + intros ->. exact (firstZero_sized _ _ _ _ _ Hinv Hcand Hlen E).
Qed.

(** The theorem at [map_trailing], a Map of four chunks. *)
Lemma firstZero_terminates_witness :
  let m := map_trailing in
  Map._bitChunksInStorage m = 4
  /\ (forall k : nat,
        Map.firstZero_loop (6 + k) m 0 = Map.firstZero_loop 6 m 0)
  /\ fst (fst (fst (Map.firstZero m 0))) = 0.
Proof.
  intros m.
  assert (Map.inv m) as Hinv.
  { unfold m, map_trailing.
    split; [|split; [|split]];
      lazymatch goal with
      | |- Forall _ ?l =>
          let l' := eval vm_compute in l in
          change l with l'; repeat constructor; unfold Map.word; lia
      | |- _ => vm_compute; split; [discriminate|reflexivity]
      end. }
  assert (Map.word (Map._firstZeroCandidate m)) as Hcand
    by (vm_compute; split; [discriminate|reflexivity]).
  assert (Z.of_nat (length (Storage.chunks (Map._storage m)))
          = Map._bitChunksInStorage m) as Hlen by (vm_compute; reflexivity).
  destruct (firstZero_terminates m 0 Hinv Hcand Hlen) as [Hk Hr].
  split; [vm_compute; reflexivity|]. split; [exact Hk|].
  destruct (Hr _ _ _ _ (quad_eta (Map.firstZero m 0))) as [[Hr0|Hr0] _]; [exact Hr0|].
  exfalso. revert Hr0. vm_compute. discriminate.
Defined.

(** ** ChunkManager: chunks written, added and removed *)

(** The Map of [cm_three] is in step with its backing Storage. *)
Lemma cm_three_coherent :
  Map.coherent (ChunkManager._map cm_three) /\ Map.wf (ChunkManager._map cm_three)
  /\ Map.hint_ok (ChunkManager._map cm_three).
Proof.
  assert (ChunkManager._map cm_three
          = snd (Map_run map_fresh [CallSet 0 true; CallSet 1 true; CallSet 2 true])) as E
    by (vm_compute; reflexivity).
  rewrite E.
  destruct map_fresh_coherent as [Hc Hh].
  destruct (calls_effective_coherent [CallSet 0 true; CallSet 1 true; CallSet 2 true]
              map_fresh Hc Hh) as [Hc' Hh'].
  { effective_by_evaluation. }
  split; [exact Hc'|]. split; [|exact Hh'].
  wf_by_evaluation.
Qed.

(** [ChunkManager::read] of a chunk below [_chunksInStorage] that the data
    Storage holds: the chunk, unless the backend fails. *)
Lemma read_after_lookup {A : Type} (c : ChunkManager.t A) (index : Z) (buf buf0 : A) :
  index < ChunkManager._chunksInStorage c ->
  Storage.chunks (ChunkManager._chunks c) !! Z.to_nat index = Some buf ->
  forall r out c' e,
    ChunkManager.read c index buf0 = (r, out, c', e) ->
    e = EmergencyNone
    /\ ChunkManager._map c' = ChunkManager._map c
    /\ Storage.chunks (ChunkManager._chunks c') = Storage.chunks (ChunkManager._chunks c)
    /\ (r = 0 /\ out = buf \/ r < 0 /\ out = buf0).
Proof.
  intros Hlt Hl r out c' e H. unfold ChunkManager.read in H.
  destruct (index >=? ChunkManager._chunksInStorage c) eqn:E; bools; [lia|].
  destruct (Storage.read _ _ _) as [[r1 out1] s1] eqn:Er in H.
  injection H as <- <- <- <-.
  unfold Storage.read in Er.
  destruct (Storage.backend _) as [r0 s0] eqn:Eb in Er.
  pose proof (backend_chunks _ _ _ Eb) as Hc.
  pose proof (backend_result _ _ _ Eb) as Hr0.
  destruct (r0 <? 0) eqn:Er0; bools.
  - injection Er as <- <- <-. cbn. split_and!; auto.
  - rewrite Hc, Hl in Er. injection Er as <- <- <-. cbn. split_and!; auto.
Qed.

(** X11.  After [ChunkManager::write(index, buf)] has returned 0,
    [ChunkManager::read(index, ...)] returns 0 with the chunk written, or
    a negative result of the backend with the buffer untouched; no
    emergency is raised, and the write has changed neither the Map nor
    [_chunksInStorage]. *)
Theorem ChunkManager_write_then_read {A : Type} (zero : A) (c c' : ChunkManager.t A)
    (index : Z) (buf buf0 : A) (e : EmergencyType) :
  0 <= index ->
  ChunkManager.write zero c index buf = (0, c', e) ->
  e = EmergencyNone
  /\ index < ChunkManager._chunksInStorage c
  /\ ChunkManager._map c' = ChunkManager._map c
  /\ ChunkManager._chunksInStorage c' = ChunkManager._chunksInStorage c
  /\ forall r out c'' e',
       ChunkManager.read c' index buf0 = (r, out, c'', e') ->
       e' = EmergencyNone /\ (r = 0 /\ out = buf \/ r < 0 /\ out = buf0).
Proof.
  intros Hi H. unfold ChunkManager.write in H.
  destruct (index >=? ChunkManager._chunksInStorage c) eqn:E; bools;
    [injection H as E0 _ _; discriminate E0|].
  destruct (Storage.write _ _ _ _) as [r1 s1] eqn:Ew in H.
  injection H as -> <- <-.
  apply Storage_write_lookup in Ew; [|exact Hi].
  split_and!; auto.
  intros r out c'' e' Hr.
  eapply read_after_lookup in Hr; [|cbn; lia|cbn; exact Ew].
  destruct Hr as (He & _ & _ & Hres). auto.
Qed.

(** The theorem at a concrete input. *)
Lemma ChunkManager_write_then_read_witness :
  let c := snd (fst (ChunkManager.add 0 (cm_fresh []) 0 7)) in
  let c' := snd (fst (ChunkManager.write 0 c 0 9)) in
  fst (fst (ChunkManager.write 0 c 0 9)) = 0
  /\ fst (fst (ChunkManager.read c' 0 5)) = (0, 9).
Proof.
  intros c c'.
  assert (ChunkManager.write 0 c 0 9 = (0, c', snd (ChunkManager.write 0 c 0 9))) as E
    by (vm_compute; reflexivity).
  destruct (ChunkManager_write_then_read 0 c c' 0 9 5 _ ltac:(lia) E) as (_ & _ & _ & _ & Hread).
  split; [rewrite E; reflexivity|].
  destruct (Hread _ _ _ _ (quad_eta (ChunkManager.read c' 0 5))) as (_ & [[Hr Ho]|[Hr _]]).
  - rewrite (surjective_pairing (fst (fst (ChunkManager.read c' 0 5)))), Hr, Ho. reflexivity.
  - exfalso. revert Hr. vm_compute. discriminate.
Defined.

(** A successful [ChunkManager::add] has stored the chunk below
    [_chunksInStorage]. *)
Lemma add_stored {A : Type} (zero : A) (c c' : ChunkManager.t A)
    (index idx : Z) (buf : A) (e : EmergencyType) :
  Map.wf (ChunkManager._map c) ->
  ChunkManager.add zero c index buf = (0, idx, c', e) ->
  0 <= idx < 2 ^ 63
  /\ idx < ChunkManager._chunksInStorage c'
  /\ ChunkManager._chunksInStorage c' = Z.max (ChunkManager._chunksInStorage c) (idx + 1)
  /\ Storage.chunks (ChunkManager._chunks c') !! Z.to_nat idx = Some buf.
Proof.
  intros Hwf H. unfold ChunkManager.add in H.
  destruct (Map.firstZero (ChunkManager._map c) index) as [[[r0 i0] m0] e0] eqn:Ef.
  destruct (r0 =? 0) eqn:Er0; bools.
  2: { cbn in H. rewrite (proj2 (Z.eqb_neq r0 0) Er0) in H. cbn in H.
       rewrite (proj2 (Z.eqb_neq r0 0) Er0) in H. injection H as E _ _ _. congruence. }
  subst r0.
  destruct (firstZero_ok _ _ _ _ _ Hwf Ef) as (_ & Hidx & _).
  cbn [ChunkManager._map ChunkManager.set_map] in H.
  destruct (Map.setOne m0 i0) as [[r1 m1] e1] eqn:Es.
  cbn [ChunkManager._chunksInStorage ChunkManager.set_map ChunkManager._chunks] in H.
  destruct (r1 =? 0) eqn:Er1; bools.
  2: { cbn in H. rewrite (proj2 (Z.eqb_neq r1 0) Er1) in H. injection H as E _ _ _.
       congruence. }
  subst r1. cbn [andb Z.eqb] in H.
  assert (u64 (i0 + 1) = i0 + 1) as Hu by (unfold u64; apply Z.mod_small; lia).
  destruct (i0 >=? ChunkManager._chunksInStorage c) eqn:Eg; bools.
  - cbn in H. rewrite Hu in H.
    destruct (Storage.setSize zero (ChunkManager._chunks c) (i0 + 1)) as [r2 s2] eqn:E2.
    destruct (r2 <? 0) eqn:Er2.
    + destruct (Map.setZero m1 i0) as [[r3 m3] e3]. cbn in H.
      destruct (r2 =? 0) eqn:Er20; bools; [lia|].
      injection H as E _ _ _. congruence.
    + cbn in H. apply setSize_ok in E2; [|exact Er2]. destruct E2 as [-> E2].
      cbn in H.
      destruct (Storage.write zero s2 i0 buf) as [r4 s4] eqn:E4.
      destruct (r4 <? 0) eqn:Er4.
      * destruct (Map.setZero m1 i0) as [[r5 m5] e5]. cbn in H.
        destruct ((r5 =? 0) && _) in H.
        -- destruct (Storage.setSize _ _ _) in H. injection H as E _ _ _. bools. lia.
        -- injection H as E _ _ _. bools. lia.
      * injection H as -> <- <- <-. cbn.
        pose proof (Storage_write_lookup zero _ _ i0 buf ltac:(lia) E4) as Hl.
        split; [lia|]. split; [lia|]. split; [lia|exact Hl].
  - cbn in H.
    destruct (Storage.write zero (ChunkManager._chunks c) i0 buf) as [r4 s4] eqn:E4.
    destruct (r4 <? 0) eqn:Er4.
    + destruct (Map.setZero m1 i0) as [[r5 m5] e5]. cbn in H.
      destruct ((r5 =? 0) && (u64 (i0 + 1) =? ChunkManager._chunksInStorage c)); cbn in H.
      * destruct (Storage.setSize _ _ _) in H. injection H as E _ _ _. bools. lia.
      * injection H as E _ _ _. bools. lia.
    + injection H as -> <- <- <-. cbn.
      pose proof (Storage_write_lookup zero _ _ i0 buf ltac:(lia) E4) as Hl.
      split; [lia|]. split; [lia|]. split; [lia|exact Hl].
Qed.

(** X12.  After [ChunkManager::add(&index, buf)] has returned 0 on a
    well-formed Map, the returned index lies below [_chunksInStorage],
    which is the maximum of its old value and [index + 1], the data
    Storage holds [buf] at the index, and [ChunkManager::read] of the index
    returns 0 with [buf] or a negative result of the backend. *)
Theorem add_then_read {A : Type} (zero : A) (c c' : ChunkManager.t A)
    (index idx : Z) (buf buf0 : A) (e : EmergencyType) :
  Map.wf (ChunkManager._map c) ->
  ChunkManager.add zero c index buf = (0, idx, c', e) ->
  0 <= idx < ChunkManager._chunksInStorage c'
  /\ ChunkManager._chunksInStorage c' = Z.max (ChunkManager._chunksInStorage c) (idx + 1)
  /\ Storage.chunks (ChunkManager._chunks c') !! Z.to_nat idx = Some buf
  /\ forall r out c'' e',
       ChunkManager.read c' idx buf0 = (r, out, c'', e') ->
       e' = EmergencyNone /\ (r = 0 /\ out = buf \/ r < 0 /\ out = buf0).
Proof.
  intros Hwf H.
  destruct (add_stored zero c c' index idx buf e Hwf H) as (Hidx & Hlt & Hmax & Hl).
  split; [lia|]. split; [exact Hmax|]. split; [exact Hl|].
  intros r out c'' e' Hr.
  destruct (read_after_lookup _ _ _ buf0 Hlt Hl _ _ _ _ Hr) as (He & _ & _ & Hres).
  auto.
Qed.

(** The theorem at a concrete input. *)
Lemma add_then_read_witness :
  let res := ChunkManager.add 0 cm_three 0 6 in
  Map.wf (ChunkManager._map cm_three)
  /\ fst (fst (fst res)) = 0 /\ snd (fst (fst res)) = 3
  /\ fst (fst (ChunkManager.read (snd (fst res)) 3 0)) = (0, 6).
Proof.
  intros res.
  destruct cm_three_coherent as (_ & Hwf & _).
  assert (ChunkManager.add 0 cm_three 0 6 = (0, 3, snd (fst res), snd res)) as E
    by (vm_compute; reflexivity).
  destruct (add_then_read 0 cm_three _ 0 3 6 0 _ Hwf E) as (_ & _ & _ & Hread).
  split; [exact Hwf|]. split; [vm_compute; reflexivity|]. split; [vm_compute; reflexivity|].
  destruct (Hread _ _ _ _ (quad_eta (ChunkManager.read (snd (fst res)) 3 0)))
    as (_ & [[Hr Ho]|[Hr _]]).
  - rewrite (surjective_pairing (fst (fst (ChunkManager.read (snd (fst res)) 3 0)))),
      Hr, Ho. reflexivity.
  - exfalso. revert Hr. vm_compute. discriminate.
Defined.

(** [ChunkManager::add] returns 0 or a negative result. *)
Lemma add_result {A : Type} (zero : A) (c c' : ChunkManager.t A)
    (index idx r : Z) (buf : A) (e : EmergencyType) :
  Map.inv (ChunkManager._map c) ->
  Map.word (Map._firstZeroCandidate (ChunkManager._map c)) ->
  ChunkManager.add zero c index buf = (r, idx, c', e) -> r = 0 \/ r < 0.
Proof.
  intros Hinv Hcand. unfold ChunkManager.add.
  destruct (Map.firstZero _ _) as [[[r0 i0] m0] e0] eqn:Ef.
  apply firstZero_result in Ef; [|assumption..].
  destruct (r0 =? 0) eqn:Er0; bools.
  2: { cbn. rewrite (proj2 (Z.eqb_neq r0 0) Er0). cbn.
       rewrite (proj2 (Z.eqb_neq r0 0) Er0).
       intros H. injection H as <- _ _ _. lia. }
  subst r0. cbn [ChunkManager._map ChunkManager.set_map].
  destruct (Map.setOne m0 i0) as [[r1 m1] e1] eqn:Es.
  apply Map_set_result in Es.
  destruct (r1 =? 0) eqn:Er1; bools.
  2: { cbn. rewrite (proj2 (Z.eqb_neq r1 0) Er1).
       intros H. injection H as <- _ _ _. lia. }
  subst r1. cbn [andb Z.eqb].
  destruct (_ >=? _).
  - cbn. destruct (Storage.setSize _ _ _) as [r2 s2] eqn:E2.
    pose proof (setSize_result _ _ _ _ _ E2) as Hr2.
    destruct (r2 <? 0) eqn:Er2.
    + destruct (Map.setZero _ _) as [[r3 m3] e3]. cbn.
      destruct (r2 =? 0) eqn:Er20; bools; [lia|].
      intros H. injection H as <- _ _ _. lia.
    + bools. assert (r2 = 0) as -> by lia. cbn.
      destruct (Storage.write _ _ _ _) as [r4 s4] eqn:E4.
      pose proof (write_result _ _ _ _ _ _ E4) as Hr4.
      destruct (r4 <? 0) eqn:Er4.
      * destruct (Map.setZero _ _) as [[r5 m5] e5]. cbn.
        destruct (_ && _); [destruct (Storage.setSize _ s4 _)|];
          intros H; injection H as <- _ _ _; exact Hr4.
      * intros H; injection H as <- _ _ _; exact Hr4.
  - cbn. destruct (Storage.write _ _ _ _) as [r4 s4] eqn:E4.
    pose proof (write_result _ _ _ _ _ _ E4) as Hr4.
    destruct (r4 <? 0) eqn:Er4.
    + destruct (Map.setZero _ _) as [[r5 m5] e5]. cbn.
      destruct (_ && _); [destruct (Storage.setSize _ s4 _)|];
        intros H; injection H as <- _ _ _; exact Hr4.
    + intros H; injection H as <- _ _ _; exact Hr4.
Qed.

(** The loop of [ChunkManager::remove] walks down over free slots only and
    changes no bit. *)
Lemma remove_loop_spec {A : Type} (n : nat) :
  forall (c c' : ChunkManager.t A) (index : Z) (e e' : EmergencyType),
  Map.coherent (ChunkManager._map c) -> Map.hint_ok (ChunkManager._map c) ->
  0 <= index <= Z.of_nat n -> index < 2 ^ 63 ->
  ChunkManager._chunksInStorage c = index ->
  ChunkManager.remove_loop n c index 0 e = (0, c', e') ->
  Map.coherent (ChunkManager._map c') /\ Map.hint_ok (ChunkManager._map c')
  /\ (forall j, 0 <= j ->
        Map.bit (ChunkManager._map c') j = Map.bit (ChunkManager._map c) j)
  /\ 0 <= ChunkManager._chunksInStorage c' <= index
  /\ (forall j, ChunkManager._chunksInStorage c' <= j < index ->
        Map.bit (ChunkManager._map c) j = false)
  /\ ChunkManager._chunks c' = ChunkManager._chunks c.
Proof.
  induction n as [|n IH]; intros c c' index e e' Hcoh Hhint Hidx Hb Hcis H.
  - cbn in H. injection H as <- <-. split_and!; auto; try lia; try (intros j Hj; lia).
  - cbn [ChunkManager.remove_loop] in H.
    destruct (index >? 0) eqn:Egt; bools.
    2: { injection H as <- <-. split_and!; auto; try lia; try (intros j Hj; lia). }
    assert (u64 (index - 1) = index - 1) as Hu by (unfold u64; apply Z.mod_small; lia).
    rewrite Hu in H.
    destruct (Map.get (ChunkManager._map c) (index - 1) false) as [[[r2 bit] m2] e2] eqn:Eg.
    cbn [ChunkManager._map ChunkManager.set_map ChunkManager._chunksInStorage] in H.
    destruct (r2 <? 0) eqn:Er2.
    { injection H as E _ _. vm_compute in E. discriminate E. }
    destruct (get_coherent (ChunkManager._map c) m2 (index - 1) r2 false bit e2 Hcoh
                ltac:(lia) Eg Er2) as (Hcoh2 & Hcand2 & Hbits2 & Hbit).
    assert (Map.hint_ok m2) as Hhint2.
    { intros j Hj. rewrite Hcand2 in Hj. rewrite Hbits2 by lia. apply Hhint. exact Hj. }
    destruct bit.
    + injection H as <- <-. cbn. split_and!; auto; try lia; try (intros j Hj; lia).
    + rewrite Hcis in H.
      assert (u64 (index - 1) = index - 1) as Hu' by exact Hu. rewrite Hu' in H.
      apply IH in H; cbn; auto; try lia.
      cbn in H. destruct H as (Hc' & Hh' & Hb' & Hcis' & Hfree & Hch).
      split_and!; auto; try lia.
      * intros j Hj. rewrite Hb' by exact Hj. apply Hbits2. exact Hj.
      * intros j Hj. destruct (Z.eq_dec j (index - 1)) as [->|Hne].
        -- symmetry. exact Hbit.
        -- rewrite <- Hbits2 by lia. apply Hfree. lia.
Qed.

(** X13.  [ChunkManager::remove(idx)] of an allocated chunk that returns 0
    clears the bit of [idx] and no other bit, and never cuts off an
    allocated chunk: [_chunksInStorage] does not grow, and every slot from
    its new value up to its old value is free. *)
Theorem remove_frees_the_slot {A : Type} (zero : A) (c c' : ChunkManager.t A)
    (idx : Z) (e : EmergencyType) :
  Map.coherent (ChunkManager._map c) -> Map.hint_ok (ChunkManager._map c) ->
  0 <= idx -> ChunkManager._chunksInStorage c < 2 ^ 63 ->
  Map.bit (ChunkManager._map c) idx = true ->
  ChunkManager.remove zero c idx = (0, c', e) ->
  idx < ChunkManager._chunksInStorage c
  /\ (forall j, 0 <= j ->
        Map.bit (ChunkManager._map c') j
        = if bool_decide (j = idx) then false else Map.bit (ChunkManager._map c) j)
  /\ 0 <= ChunkManager._chunksInStorage c' <= ChunkManager._chunksInStorage c
  /\ (forall j, ChunkManager._chunksInStorage c' <= j < ChunkManager._chunksInStorage c ->
        Map.bit (ChunkManager._map c') j = false)
  /\ Map.coherent (ChunkManager._map c') /\ Map.hint_ok (ChunkManager._map c').
Proof.
  intros Hcoh Hhint Hidx Hcis Hbit H. unfold ChunkManager.remove in H.
  destruct (idx >=? ChunkManager._chunksInStorage c) eqn:Ege; bools.
  { injection H as E _ _. vm_compute in E. discriminate E. }
  split; [lia|].
  unfold Map.setZero in H.
  destruct (Map.set (ChunkManager._map c) idx false) as [[r1 m1] e1] eqn:Es.
  destruct (r1 =? 0) eqn:Er1; bools; [|injection H as E _ _; congruence].
  subst r1.
  destruct (set_effective (ChunkManager._map c) m1 idx 0 false e1 Hcoh Hhint
              ltac:(lia) Es eq_refl Hbit)
    as (Hcoh1 & Hhint1 & Hbits1).
  cbn [ChunkManager._map ChunkManager.set_map ChunkManager._chunksInStorage
       ChunkManager._punchHolesForEmptyChunks ChunkManager._chunks] in H.
  assert (u64 (idx + 1) = idx + 1) as Hu by (unfold u64; apply Z.mod_small; lia).
  rewrite Hu in H.
  destruct (idx + 1 =? ChunkManager._chunksInStorage c) eqn:Elast; bools.
  - assert (u64 (ChunkManager._chunksInStorage c - 1) = idx) as Hu2
      by (unfold u64; rewrite Z.mod_small; lia).
    rewrite Hu2 in H.
    destruct (ChunkManager.remove_loop _ _ _ _ _) as [[r2 c2] e2] eqn:El in H.
    destruct (r2 =? 0) eqn:Er2; bools; [|injection H as E _ _; congruence].
    subst r2.
    apply remove_loop_spec in El; cbn; auto; try lia.
    cbn in El. destruct El as (Hc2 & Hh2 & Hb2 & Hcis2 & Hfree & Hch).
    destruct (Storage.setSize _ _ _) as [r3 s3] in H.
    destruct (r3 <? 0); [injection H as E _ _; vm_compute in E; discriminate E|].
    injection H as <- <-. cbn.
    split_and!; auto; try lia.
    + intros j Hj. rewrite Hb2 by exact Hj. apply Hbits1. exact Hj.
    + intros j Hj. rewrite Hb2 by lia.
      destruct (Z.eq_dec j idx) as [->|Hne].
      * rewrite Hbits1 by lia. rewrite bool_decide_eq_true_2 by reflexivity. reflexivity.
      * apply Hfree. lia.
  - destruct (ChunkManager._punchHolesForEmptyChunks c).
    + destruct (Storage.punchHole _ _ _) as [r3 s3] in H.
      injection H as <- <-. cbn. split_and!; auto; try lia; try (intros j Hj; lia).
    + injection H as <- <-. cbn. split_and!; auto; try lia; try (intros j Hj; lia).
Qed.

(** The theorem at a concrete input. *)
Lemma remove_frees_the_slot_witness :
  let res := ChunkManager.remove 0 cm_three 2 in
  Map.bit (ChunkManager._map cm_three) 2 = true
  /\ fst (fst res) = 0
  /\ ChunkManager._chunksInStorage cm_three = 3
  /\ ChunkManager._chunksInStorage (snd (fst res)) = 2
  /\ Map.bit (ChunkManager._map (snd (fst res))) 2 = false
  /\ Map.bit (ChunkManager._map (snd (fst res))) 1 = true.
Proof.
  intros res.
  destruct cm_three_coherent as (Hc & _ & Hh).
  assert (Map.bit (ChunkManager._map cm_three) 2 = true) as Hb by (vm_compute; reflexivity).
  assert (ChunkManager.remove 0 cm_three 2 = (0, snd (fst res), snd res)) as E
    by (vm_compute; reflexivity).
  destruct (remove_frees_the_slot 0 cm_three _ 2 _ Hc Hh ltac:(lia)
              ltac:(vm_compute; reflexivity) Hb E) as (_ & Hbits & _).
  split; [exact Hb|]. split; [vm_compute; reflexivity|].
  split; [vm_compute; reflexivity|]. split; [vm_compute; reflexivity|].
  split.
  - rewrite Hbits by lia. reflexivity.
  - rewrite Hbits by lia. vm_compute. reflexivity.
Defined.

(** ** Time and Inode *)

(** X14.  [Time::isOlderThan] is a strict total order on times: irreflexive,
    transitive, and two times of which neither is older than the other are
    equal. *)
Theorem isOlderThan_strict_total_order :
  (forall a, Time.isOlderThan a a = false)
  /\ (forall a b c,
        Time.isOlderThan a b = true -> Time.isOlderThan b c = true ->
        Time.isOlderThan a c = true)
  /\ (forall a b,
        Time.isOlderThan a b = false -> Time.isOlderThan b a = false -> a = b).
Proof.
  unfold Time.isOlderThan. split_and!.
  - intros a. rewrite !Z.ltb_irrefl, andb_false_r. reflexivity.
  - intros a b c H1 H2.
    apply orb_true_iff in H1, H2. apply orb_true_iff.
    rewrite !andb_true_iff, !Z.ltb_lt, !Z.eqb_eq in *. lia.
  - intros [sa na] [sb nb] H1 H2. cbn in *.
    apply orb_false_iff in H1, H2.
    rewrite !andb_false_iff, !Z.ltb_ge, !Z.eqb_neq in *.
    f_equal; lia.
Qed.

(** The theorem at a concrete input. *)
Lemma isOlderThan_strict_total_order_witness :
  Time.isOlderThan (Time.mk 5 999) (Time.mk 6 0) = true
  /\ Time.isOlderThan (Time.mk 6 0) (Time.mk 6 1) = true
  /\ Time.isOlderThan (Time.mk 5 999) (Time.mk 6 1) = true.
Proof.
  destruct isOlderThan_strict_total_order as (_ & Htrans & _).
  assert (Time.isOlderThan (Time.mk 5 999) (Time.mk 6 0) = true) as H1 by reflexivity.
  assert (Time.isOlderThan (Time.mk 6 0) (Time.mk 6 1) = true) as H2 by reflexivity.
  split_and!; [exact H1|exact H2|exact (Htrans _ _ _ H1 H2)].
Defined.

(** The bits of [~x] on a [uint32_t]. *)
Lemma not32_testbit (x k : Z) :
  0 <= k -> Z.testbit (not32 x) k = (k <? 32) && negb (Z.testbit x k).
Proof.
  intros Hk. unfold not32.
  destruct (k <? 32) eqn:E.
  - apply Z.ltb_lt in E. rewrite Z.mod_pow2_bits_low by lia.
    rewrite Z.lnot_spec by lia. reflexivity.
  - apply Z.ltb_ge in E. rewrite Z.mod_pow2_bits_high by lia. reflexivity.
Qed.

Lemma land_not32_other (x s m : Z) :
  0 <= m < 2 ^ 32 -> Z.land m s = 0 ->
  Z.land (Z.land x (not32 s)) m = Z.land x m.
Proof.
  intros Hm Hs. apply Z.bits_inj'. intros k Hk.
  rewrite !Z.land_spec, not32_testbit by lia.
  destruct (Z.testbit m k) eqn:Em; [|rewrite !andb_false_r; reflexivity].
  assert (Z.testbit s k = false) as Es.
  { assert (Z.testbit (Z.land m s) k = false) as E by (rewrite Hs; apply Z.bits_0).
    rewrite Z.land_spec, Em in E. exact E. }
  assert (k < 32) as Hk32.
  { destruct (Z.lt_ge_cases k 32) as [|Hge]; [assumption|].
    assert (Z.testbit m k = false) as E; [|congruence].
    destruct (Z.eq_dec m 0) as [->|]; [apply Z.bits_0|].
    apply Z.bits_above_log2; [lia|].
    assert (Z.log2 m < 32) by (apply Z.log2_lt_pow2; lia). lia. }
  rewrite Es. apply Z.ltb_lt in Hk32. rewrite Hk32. cbn. rewrite !andb_true_r. reflexivity.
Qed.

Lemma land_not32_self (x s : Z) : Z.land (Z.land x (not32 s)) s = 0.
Proof.
  apply Z.bits_inj'. intros k Hk.
  rewrite !Z.land_spec, not32_testbit, Z.bits_0 by lia.
  destruct (Z.testbit s k); cbn; rewrite ?andb_false_r; reflexivity.
Qed.

(** X15.  [Inode::directory(parent, mode)] makes a directory inode whatever
    bits [mode] has: the type is [TypeDIR], the link count 2, the size and
    the slot count 0, the three times are the current time and the owner
    is the effective user; under a parent with the set-group-ID bit the
    group is the parent's and the bit is set, else the group is the
    effective group. *)
Theorem directory_makes_a_directory
    (now : Time.t) (euid egid : Z) (parent : option Inode.t) (mode : Z) :
  let i := Inode.directory now euid egid parent mode in
  let sgid := match parent with
              | Some p => negb (Z.land (Inode.typeAndMode p) ModeSGID =? 0)
              | None => false
              end in
  Inode.type i = TypeDIR
  /\ Inode.nlink i = 2 /\ Inode.size i = 0
  /\ Handle.inodeSlotCount i = 0
  /\ Inode.uid i = euid
  /\ Inode.gid i = (if sgid then Inode.gid (default Inode.zero parent) else egid)
  /\ (sgid = true -> Z.land (Inode.typeAndMode i) ModeSGID = ModeSGID)
  /\ Inode.atime i = now /\ Inode.mtime i = now /\ Inode.ctime i = now.
Proof.
  intros i sgid.
  assert (Inode.type i = TypeDIR) as Ht.
  { unfold i, Inode.directory, Inode.type. fold sgid.
    assert (Z.land (Z.lor TypeDIR (Z.land (not32 TypeMask) mode)) TypeMask = TypeDIR) as E.
    { rewrite Z.land_lor_distr_l, (Z.land_comm (not32 TypeMask) mode), land_not32_self.
      reflexivity. }
    destruct sgid; cbn.
    - rewrite Z.land_lor_distr_l, E. reflexivity.
    - exact E. }
  split; [exact Ht|].
  assert (Inode.size i = 0) as Hs by (unfold i, Inode.directory; destruct parent as [p|];
    cbn; [destruct (negb _)|]; reflexivity).
  split_and!.
  - unfold i, Inode.directory. reflexivity.
  - exact Hs.
  - unfold Handle.inodeSlotCount. rewrite Ht, Hs. reflexivity.
  - unfold i, Inode.directory. fold sgid. destruct sgid; reflexivity.
  - unfold i, Inode.directory. fold sgid. destruct sgid; reflexivity.
  - intros E. unfold i, Inode.directory. fold sgid. rewrite E. cbn.
    rewrite Z.land_lor_distr_l, Z.land_diag.
    apply Z.bits_inj'. intros k Hk. rewrite Z.lor_spec, Z.land_spec.
    destruct (Z.testbit _ k), (Z.testbit ModeSGID k); reflexivity.
  - unfold i, Inode.directory. fold sgid. destruct sgid; reflexivity.
  - unfold i, Inode.directory. fold sgid. destruct sgid; reflexivity.
  - unfold i, Inode.directory. fold sgid. destruct sgid; reflexivity.
Qed.

(** ** Base: the emergency latch *)

(** A latch that is set keeps its value. *)
Lemma emergency_latched (t l : EmergencyType) :
  l <> EmergencyNone -> emergency t l = l.
Proof. destruct l; [contradiction|reflexivity..]. Qed.

Lemma checkWriteAction_latched (b : Base) (n : Z) :
  emergencyType b <> EmergencyNone -> Base.checkWriteAction b n = - EROFS.
Proof.
  intros H. unfold Base.checkWriteAction.
  destruct (emergencyType b); [contradiction|reflexivity..].
Qed.

(** X16.  Once the emergency latch is set, the six gateways of Base that add
    or remove an inode, a directory entry or a block return [-EROFS] and
    change nothing, and no read or write gateway resets the latch. *)
Theorem emergency_makes_add_and_remove_fail (b : Base) :
  emergencyType b <> EmergencyNone ->
  (forall index inode, Base.inodeAdd b index inode = (- EROFS, index, b))
  /\ (forall index dirent, Base.direntAdd b index dirent = (- EROFS, index, b))
  /\ (forall index block, Base.blockAdd b index block = (- EROFS, index, b))
  /\ (forall index, Base.inodeRemove b index = (- EROFS, b))
  /\ (forall index, Base.direntRemove b index = (- EROFS, b))
  /\ (forall index, Base.blockRemove b index = (- EROFS, b))
  /\ (forall index inode,
        emergencyType (snd (Base.inodeWrite b index inode)) = emergencyType b)
  /\ (forall index dirent,
        emergencyType (snd (Base.direntWrite b index dirent)) = emergencyType b)
  /\ (forall index block,
        emergencyType (snd (Base.blockWrite b index block)) = emergencyType b)
  /\ (forall index inode,
        emergencyType (snd (Base.inodeRead b index inode)) = emergencyType b)
  /\ (forall index dirent,
        emergencyType (snd (Base.direntRead b index dirent)) = emergencyType b)
  /\ (forall index block,
        emergencyType (snd (Base.blockRead b index block)) = emergencyType b).
Proof.
  intros H.
  unfold Base.inodeAdd, Base.direntAdd, Base.blockAdd,
    Base.inodeRemove, Base.direntRemove, Base.blockRemove.
  rewrite !checkWriteAction_latched by exact H.
  split_and!; try reflexivity.
  - intros index x. unfold Base.inodeWrite.
    destruct (ChunkManager.write _ _ _ _) as [[r mgr] e]. cbn.
    apply emergency_latched. exact H.
  - intros index x. unfold Base.direntWrite.
    destruct (ChunkManager.write _ _ _ _) as [[r mgr] e]. cbn.
    apply emergency_latched. exact H.
  - intros index x. unfold Base.blockWrite.
    destruct (ChunkManager.write _ _ _ _) as [[r mgr] e]. cbn.
    apply emergency_latched. exact H.
  - intros index x. unfold Base.inodeRead.
    destruct (ChunkManager.read _ _ _) as [[[r y] mgr] e]. cbn.
    apply emergency_latched. exact H.
  - intros index x. unfold Base.direntRead.
    destruct (ChunkManager.read _ _ _) as [[[r y] mgr] e]. cbn.
    apply emergency_latched. exact H.
  - intros index x. unfold Base.blockRead.
    destruct (ChunkManager.read _ _ _) as [[[r y] mgr] e]. cbn.
    apply emergency_latched. exact H.
Qed.

(** The theorem at a concrete input. *)
Lemma emergency_makes_add_and_remove_fail_witness :
  let b := raise EmergencyBug (snd fs_one_file) in
  emergencyType b <> EmergencyNone
  /\ Base.blockAdd b 7 Block.zero = (- EROFS, 7, b)
  /\ Base.inodeRemove b 1 = (- EROFS, b)
  /\ fst (Base.inodeWrite b 1 Inode.zero) = 0
  /\ emergencyType (snd (Base.inodeWrite b 1 Inode.zero)) = EmergencyBug.
Proof.
  intros b.
  assert (emergencyType b <> EmergencyNone) as H by (vm_compute; discriminate).
  destruct (emergency_makes_add_and_remove_fail b H)
    as (_ & _ & Hadd & Hrm & _ & _ & Hw & _).
  split_and!.
  - exact H.
  - apply Hadd.
  - apply Hrm.
  - vm_compute. reflexivity.
  - rewrite Hw. vm_compute. reflexivity.
Defined.

(** ** Handle: slots and directory entries *)

Lemma ijkl_at_0 a b c d : Handle.ijkl_at [a; b; c; d] 0 = a.
Proof. reflexivity. Qed.

Lemma ijkl_at_1 a b c d : Handle.ijkl_at [a; b; c; d] 1 = b.
Proof. reflexivity. Qed.

Lemma ijkl_at_2 a b c d : Handle.ijkl_at [a; b; c; d] 2 = c.
Proof. reflexivity. Qed.

Lemma ijkl_at_3 a b c d : Handle.ijkl_at [a; b; c; d] 3 = d.
Proof. reflexivity. Qed.

(** X17.  For a slot below [maxSlotCount], [Handle::slotToTreeIndices] gives
    a tree number from 0 to 4 and four indices of which the first [tree]
    are below [N] and the others are [InvalidIndex], and the slot is the
    number that tree and indices stand for ([treeIndicesToSlot]); so two
    slots never share their tree and indices. *)
Theorem slotToTreeIndices_is_positional (slot : Z) :
  0 <= slot < Handle.maxSlotCount ->
  let '(tree, ijkl) := Handle.slotToTreeIndices slot in
  0 <= tree <= 4
  /\ length ijkl = 4%nat
  /\ (forall l, 0 <= l < tree -> 0 <= Handle.ijkl_at ijkl l < Handle.N)
  /\ (forall l, tree <= l < 4 -> Handle.ijkl_at ijkl l = InvalidIndex)
  /\ treeIndicesToSlot tree ijkl = slot.
Proof.
  intros Hs. unfold Handle.maxSlotCount, Handle.N in Hs.
  unfold Handle.slotToTreeIndices, treeIndicesToSlot, Handle.N, u64.
  repeat match goal with
         | |- context [if ?c then _ else _] =>
             lazymatch c with
             | context [if _ then _ else _] => fail
             | _ => destruct c eqn:?
             end
         end; bools;
  (split; [lia|]); (split; [reflexivity|]);
  (split; [intros l Hlt; assert (l = 0 \/ l = 1 \/ l = 2 \/ l = 3) as Hc by lia;
           destruct Hc as [->|[->|[->| ->]]]; try lia;
           rewrite ?ijkl_at_0, ?ijkl_at_1, ?ijkl_at_2, ?ijkl_at_3;
           Z.div_mod_to_equations; lia|]);
  (split; [intros l Hlt; assert (l = 0 \/ l = 1 \/ l = 2 \/ l = 3) as Hc by lia;
           destruct Hc as [->|[->|[->| ->]]]; try lia; reflexivity|]);
  rewrite ?ijkl_at_0, ?ijkl_at_1, ?ijkl_at_2, ?ijkl_at_3;
  cbn [Z.eqb Pos.eqb]; Z.div_mod_to_equations; lia.
Qed.

(** The theorem at a concrete input. *)
Lemma slotToTreeIndices_is_positional_witness :
  0 <= 2056 < Handle.maxSlotCount
  /\ Handle.slotToTreeIndices 2056 = (2, [3; 7; InvalidIndex; InvalidIndex])
  /\ treeIndicesToSlot 2 [3; 7; InvalidIndex; InvalidIndex] = 2056.
Proof.
  assert (0 <= 2056 < Handle.maxSlotCount) as Hs
    by (vm_compute; split; [discriminate|reflexivity]).
  pose proof (slotToTreeIndices_is_positional 2056 Hs) as H.
  assert (Handle.slotToTreeIndices 2056 = (2, [3; 7; InvalidIndex; InvalidIndex])) as E
    by (vm_compute; reflexivity).
  rewrite E in H. destruct H as (_ & _ & _ & _ & H).
  split; [exact Hs|]. split; [exact E|exact H].
Defined.

(** X18.  The slot operations of a handle leave its attributes alone,
    whatever they return: [getSlot] does not change the inode, and
    [setSlot], [insertSlot] and [removeSlot] change nothing of the inode
    but its slot trees, and neither [_append] nor [_inodeIndex]. *)
Theorem slot_operations_keep_the_attributes (b : Base) (h : Handle) (slot index : Z) :
  (forall r out b' h',
     Handle.getSlot b h slot index = (r, out, b', h') -> _inode h' = _inode h)
  /\ (forall r b' h',
        Handle.setSlot b h slot index = (r, b', h') ->
        Inode.set_slotTrees (Inode.slotTrees (_inode h')) (_inode h) = _inode h'
        /\ _append h' = _append h /\ _inodeIndex h' = _inodeIndex h)
  /\ (forall r b' h',
        Handle.insertSlot b h slot index = (r, b', h') ->
        Inode.set_slotTrees (Inode.slotTrees (_inode h')) (_inode h) = _inode h'
        /\ _append h' = _append h /\ _inodeIndex h' = _inodeIndex h)
  /\ (forall flag r b' h',
        Handle.removeSlot b h slot flag = (r, b', h') ->
        Inode.set_slotTrees (Inode.slotTrees (_inode h')) (_inode h) = _inode h'
        /\ _append h' = _append h /\ _inodeIndex h' = _inodeIndex h).
Proof.
  split_and!.
  - intros r out b' h' H. eapply getSlot_inode. exact H.
  - intros r b' h' H. apply kept_inode. eapply setSlot_kept. exact H.
  - intros r b' h' H. apply kept_inode. eapply insertSlot_kept. exact H.
  - intros flag r b' h' H. apply kept_inode. eapply removeSlot_kept. exact H.
Qed.

(** The theorem at a concrete input. *)
Lemma slot_operations_keep_the_attributes_witness :
  let b := snd fs_three_files in
  let h := Handle.new 1 (snd (fst (Base.inodeRead b 1 Inode.new))) in
  let h' := snd (Handle.removeSlot b h 0 true) in
  fst (fst (Handle.removeSlot b h 0 true)) = 0
  /\ Inode.size (_inode h') = 3 /\ _slotCount h' = 2
  /\ Inode.nlink (_inode h') = Inode.nlink (_inode h).
Proof.
  intros b h h'.
  destruct (slot_operations_keep_the_attributes b h 0 0) as (_ & _ & _ & Hrm).
  destruct (Hrm true _ _ _ (triple_eta (Handle.removeSlot b h 0 true))) as (Hi & _).
  fold h' in Hi.
  split_and!; [vm_compute; reflexivity..|].
  rewrite <- Hi. reflexivity.
Defined.

(** Strings that compare as equal are equal. *)
Lemma strcmp_0 (a b : string) : Handle.strcmp a b = 0 -> a = b.
Proof.
  unfold Handle.strcmp. destruct (String.compare a b) eqn:E; try discriminate.
  intros _. apply String.compare_eq_iff. exact E.
Qed.

(** The binary search stays within its bounds and stops on an entry of
    the name only. *)
Lemma findDirentNow_loop_sound (n : nat) :
  forall b h name lo hi s0 i0 d0 r found lo' slot idx dirent b' h',
  0 <= lo -> hi < 2 ^ 63 -> lo <= hi + 1 ->
  Handle.findDirentNow_loop n b h name lo hi s0 i0 d0
  = (r, found, lo', slot, idx, dirent, b', h') ->
  _inode h' = _inode h
  /\ (found = true ->
      r = 0 /\ Dirent.name dirent = name /\ lo <= slot <= hi)
  /\ (found = false -> lo <= lo' <= hi + 1 /\ slot = s0).
Proof.
  induction n as [|n IH]; intros b h name lo hi s0 i0 d0 r found lo' slot idx dirent b' h'
    Hlo Hhi Hle H.
  - cbn in H. injection H as <- <- <- <- <- <- <- <-.
    split_and!; [reflexivity|discriminate|intros _; split; [lia|reflexivity]].
  - cbn [Handle.findDirentNow_loop] in H.
    destruct (hi >=? lo) eqn:Ege; bools.
    2: { injection H as <- <- <- <- <- <- <- <-.
         split_and!; [reflexivity|discriminate|intros _; split; [lia|reflexivity]]. }
    assert (lo <= Z.quot (lo + hi) 2 <= hi) as Hc.
    { rewrite Z.quot_div_nonneg by lia. split.
      - apply Z.div_le_lower_bound; lia.
      - apply Z.div_le_upper_bound; lia. }
    set (c := Z.quot (lo + hi) 2) in *.
    destruct (Handle.getSlot b h (u64 c) i0) as [[[r1 idx1] b1] h1] eqn:Eg.
    pose proof (getSlot_inode _ _ _ _ _ _ _ _ Eg) as Hk1.
    destruct (r1 <? 0) eqn:Er1.
    { injection H as <- <- <- <- <- <- <- <-.
      split_and!; [exact Hk1|discriminate|intros _; split; [lia|reflexivity]]. }
    destruct (Base.direntRead b1 idx1 d0) as [[r2 d2] b2] eqn:Ed.
    destruct (r2 <? 0) eqn:Er2.
    { injection H as <- <- <- <- <- <- <- <-.
      split_and!; [exact Hk1|discriminate|intros _; split; [lia|reflexivity]]. }
    destruct (Handle.strcmp name (Dirent.name d2) >? 0) eqn:Egt.
    { apply IH in H; [|lia..]. destruct H as (Hk & Hf & Hnf).
      split_and!; [congruence| |].
      - intros Ht. destruct (Hf Ht) as (? & ? & ?). split_and!; auto; lia.
      - intros Ht. destruct (Hnf Ht). split; [lia|assumption]. }
    destruct (Handle.strcmp name (Dirent.name d2) <? 0) eqn:Elt.
    { apply IH in H; [|lia..]. destruct H as (Hk & Hf & Hnf).
      split_and!; [congruence| |].
      - intros Ht. destruct (Hf Ht) as (? & ? & ?). split_and!; auto; lia.
      - intros Ht. destruct (Hnf Ht). split; [lia|assumption]. }
    injection H as <- <- <- <- <- <- <- <-.
    split_and!; [exact Hk1| |discriminate].
    intros _. bools.
    assert (u64 c = c) as -> by (unfold u64; apply Z.mod_small; lia).
    assert (r2 = 0) as ->.
    { unfold Base.direntRead in Ed.
      destruct (ChunkManager.read _ _ _) as [[[r3 x] mgr] e] eqn:Ec in Ed.
      injection Ed as <- _ _.
      unfold ChunkManager.read in Ec.
      destruct (_ >=? _); [injection Ec as <- _ _ _; unfold ENOTRECOVERABLE in *; lia|].
      destruct (Storage.read _ _ _) as [[r4 y] s4] eqn:Es in Ec.
      injection Ec as <- _ _ _.
      destruct (read_result _ _ _ _ _ _ Es); lia. }
    split_and!; [reflexivity| |lia|lia].
    symmetry. apply strcmp_0. lia.
Qed.

(** X19.  In a directory of fewer than [2 ^ 63] entries,
    [Handle::findDirentNow] that returns 0 returns an entry whose name is
    the name looked for and a slot below the slot count; with [-ENOENT] the
    slot is a position from 0 to the slot count (or the caller's value,
    when it is the backend that returned this error); the inode of the
    handle is never changed. *)
Theorem findDirentNow_finds_the_name
    (b : Base) (h : Handle) (name : string) (s0 i0 : Z) (d0 : Dirent.t)
    (r slot idx : Z) (dirent : Dirent.t) (b' : Base) (h' : Handle) :
  0 <= Handle.slotCount h < 2 ^ 63 ->
  Handle.findDirentNow b h name s0 i0 d0 = (r, slot, idx, dirent, b', h') ->
  (r = 0 -> Dirent.name dirent = name /\ 0 <= slot < Handle.slotCount h)
  /\ (r = - ENOENT -> 0 <= slot <= Handle.slotCount h \/ slot = s0)
  /\ _inode h' = _inode h.
Proof.
  intros Hsc H. unfold Handle.findDirentNow in H.
  assert (Handle.to_int64 (Handle.slotCount h) = Handle.slotCount h) as Hti.
  { unfold Handle.to_int64. rewrite Z.mod_small by lia. lia. }
  rewrite Hti in H.
  destruct (Handle.findDirentNow_loop _ _ _ _ _ _ _ _ _)
    as [[[[[[[r1 found] lo'] slot1] idx1] d1] b1] h1] eqn:El in H.
  apply findDirentNow_loop_sound in El; [|lia..].
  destruct El as (Hk & Hf & Hnf).
  destruct (r1 =? 0) eqn:Er1; bools.
  - subst r1. destruct found; cbn in H; injection H as <- <- <- <- <- <-.
    + destruct (Hf eq_refl) as (_ & Hn & Hs).
      split_and!; [intros _; split; [exact Hn|lia]|discriminate|exact Hk].
    + destruct (Hnf eq_refl) as (Hlo & _).
      assert (u64 lo' = lo') as -> by (unfold u64; apply Z.mod_small; lia).
      split_and!; [discriminate|intros _; left; lia|exact Hk].
  - injection H as <- <- <- <- <- <-.
    split_and!; [congruence| |exact Hk].
    intros ->. destruct found.
    + destruct (Hf eq_refl) as (E & _). discriminate E.
    + destruct (Hnf eq_refl) as (_ & E). right. exact E.
Qed.

(** The theorem at a concrete input. *)
Lemma findDirentNow_finds_the_name_witness :
  let b := snd fs_three_files in
  let h := Handle.new 1 (snd (fst (Base.inodeRead b 1 Inode.new))) in
  0 <= Handle.slotCount h < 2 ^ 63
  /\ (let '(r, slot, idx, dirent, _, _) :=
         Handle.findDirentNow b h "y" 0 0 Dirent.zero in
       r = 0 /\ slot = 1 /\ Dirent.name dirent = "y"%string).
Proof.
  intros b h.
  assert (0 <= Handle.slotCount h < 2 ^ 63) as Hsc
    by (vm_compute; split; [discriminate|reflexivity]).
  split; [exact Hsc|].
  destruct (Handle.findDirentNow b h "y" 0 0 Dirent.zero)
    as [[[[[r slot] idx] dirent] b'] h'] eqn:E.
  destruct (findDirentNow_finds_the_name _ _ _ _ _ _ _ _ _ _ _ _ Hsc E) as (Hok & _).
  assert (r = 0 /\ slot = 1) as [Hr Hs].
  { vm_compute in E. injection E as <- <- _ _ _ _. split; reflexivity. }
  split_and!; [exact Hr|exact Hs|apply Hok; exact Hr].
Defined.

(** ** Handle: attributes, size and content *)

Lemma set_inode_same (h : Handle) : set_inode (_inode h) h = h.
Proof. destruct h. reflexivity. Qed.

Lemma set_inode_set_inode (i j : Inode.t) (h : Handle) :
  set_inode i (set_inode j h) = set_inode i h.
Proof. reflexivity. Qed.

(** X20.  [Handle::chmod], [Handle::chown] and [Handle::utimens] are atomic
    on the handle: when the result is not 0 the handle is as before, and
    when it is 0 the inode has the new attributes and is the inode that
    the inode Storage holds at the handle's index.  [utimens] without any
    flag returns 0 and does nothing. *)
Theorem attribute_setters_are_atomic (b : Base) (h : Handle) :
  0 <= _inodeIndex h ->
  (forall now mode r b' h',
     Handle.chmod now b h mode = (r, b', h') ->
     (r <> 0 -> h' = h)
     /\ (r = 0 ->
         h' = set_inode
                (Inode.set_ctime now
                   (Inode.set_typeAndMode
                      (Z.lor (Z.land (Inode.typeAndMode (_inode h)) TypeMask) mode)
                      (_inode h))) h
         /\ Storage.chunks (ChunkManager._chunks (_inodeMgr b'))
              !! Z.to_nat (_inodeIndex h) = Some (_inode h')))
  /\ (forall now uid gid r b' h',
        Handle.chown now b h uid gid = (r, b', h') ->
        (r <> 0 -> h' = h)
        /\ (r = 0 ->
            h' = set_inode
                   (Inode.set_ctime now
                      (Inode.set_typeAndMode
                         (Z.land (Inode.typeAndMode (_inode h))
                            (not32 (Z.lor ModeSUID ModeSGID)))
                         (Inode.set_gid gid (Inode.set_uid uid (_inode h))))) h
            /\ Storage.chunks (ChunkManager._chunks (_inodeMgr b'))
                 !! Z.to_nat (_inodeIndex h) = Some (_inode h')))
  /\ (forall ua atime um mtime uc ctime r b' h',
        Handle.utimens b h ua atime um mtime uc ctime = (r, b', h') ->
        (r <> 0 -> h' = h)
        /\ (r = 0 ->
            Inode.atime (_inode h') = (if ua then atime else Inode.atime (_inode h))
            /\ Inode.mtime (_inode h') = (if um then mtime else Inode.mtime (_inode h))
            /\ Inode.ctime (_inode h') = (if uc then ctime else Inode.ctime (_inode h))
            /\ (ua || um || uc = true ->
                Storage.chunks (ChunkManager._chunks (_inodeMgr b'))
                  !! Z.to_nat (_inodeIndex h) = Some (_inode h'))
            /\ (ua || um || uc = false -> b' = b /\ h' = h))).
Proof.
  intros Hidx. split_and!.
  - intros now mode r b' h' H. unfold Handle.chmod in H. cbn in H.
    destruct (Base.inodeWrite _ _ _) as [r1 b1] eqn:Ew in H.
    destruct (r1 =? 0) eqn:Er; cbn in H; injection H as <- <- <-.
    + apply Z.eqb_eq in Er. subst r1. split; [congruence|]. intros _.
      split; [reflexivity|]. cbn. eapply inodeWrite_stored; eassumption.
    + apply Z.eqb_neq in Er. split; [|congruence]. intros _.
      rewrite set_inode_set_inode. apply set_inode_same.
  - intros now uid gid r b' h' H. unfold Handle.chown in H. cbn in H.
    destruct (Base.inodeWrite _ _ _) as [r1 b1] eqn:Ew in H.
    destruct (r1 =? 0) eqn:Er; cbn in H; injection H as <- <- <-.
    + apply Z.eqb_eq in Er. subst r1. split; [congruence|]. intros _.
      split; [reflexivity|]. cbn. eapply inodeWrite_stored; eassumption.
    + apply Z.eqb_neq in Er. split; [|congruence]. intros _.
      rewrite set_inode_set_inode. apply set_inode_same.
  - intros ua atime um mtime uc ctime r b' h' H. unfold Handle.utimens in H.
    destruct (negb ua && negb um && negb uc) eqn:Enone.
    + injection H as <- <- <-.
      assert (ua = false /\ um = false /\ uc = false) as (-> & -> & ->)
        by (destruct ua, um, uc; try discriminate Enone; auto).
      split; [reflexivity|]. intros _. split_and!; auto. discriminate.
    + cbn in H.
      destruct (Base.inodeWrite _ _ _) as [r1 b1] eqn:Ew in H.
      destruct (r1 =? 0) eqn:Er; cbn in H; injection H as <- <- <-.
      * apply Z.eqb_eq in Er. subst r1. split; [congruence|]. intros _.
        split_and!.
        -- destruct ua, um, uc; reflexivity.
        -- destruct ua, um, uc; reflexivity.
        -- destruct ua, um, uc; reflexivity.
        -- intros _. cbn. eapply inodeWrite_stored; eassumption.
        -- intros Hn. destruct ua, um, uc; discriminate.
      * apply Z.eqb_neq in Er. split; [|congruence]. intros _.
        rewrite set_inode_set_inode. apply set_inode_same.
Qed.

(** The theorem at a concrete input. *)
Lemma attribute_setters_are_atomic_witness :
  let b := snd fs_file_suid in
  let h := HandleCache.deref b (Some 1) in
  let res := Handle.chown t2000 b h 7 8 in
  0 <= _inodeIndex h
  /\ fst (fst res) = 0
  /\ Inode.uid (_inode (snd res)) = 7
  /\ Storage.chunks (ChunkManager._chunks (_inodeMgr (snd (fst res)))) !! 1%nat
     = Some (_inode (snd res)).
Proof.
  intros b h res.
  assert (0 <= _inodeIndex h) as Hidx by (vm_compute; discriminate).
  destruct (attribute_setters_are_atomic b h Hidx) as (_ & Hchown & _).
  destruct (Hchown t2000 7 8 _ _ _ (triple_eta (Handle.chown t2000 b h 7 8))) as [_ Hok].
  assert (fst (fst res) = 0) as Hr by (vm_compute; reflexivity).
  destruct (Hok Hr) as [Hh' Hst].
  split_and!; [exact Hidx|exact Hr| |exact Hst].
  fold res in Hh'. rewrite Hh'. reflexivity.
Defined.

(** X21.  [Handle::chmod] with a mode that has no type bits and
    [Handle::chown] never change the type of the inode; a successful
    [chown] sets owner and group, clears the set-user-ID and set-group-ID
    bits and keeps all other bits of [typeAndMode]. *)
Theorem chmod_and_chown_keep_the_type (now : Time.t) (b : Base) (h : Handle) :
  (forall mode,
     Z.land mode TypeMask = 0 ->
     Inode.type (_inode (snd (Handle.chmod now b h mode))) = Inode.type (_inode h))
  /\ (forall uid gid,
        Inode.type (_inode (snd (Handle.chown now b h uid gid))) = Inode.type (_inode h))
  /\ (forall uid gid,
        fst (fst (Handle.chown now b h uid gid)) = 0 ->
        let i' := _inode (snd (Handle.chown now b h uid gid)) in
        Inode.uid i' = uid /\ Inode.gid i' = gid
        /\ Z.land (Inode.typeAndMode i') (Z.lor ModeSUID ModeSGID) = 0
        /\ (forall m, 0 <= m < 2 ^ 32 -> Z.land m (Z.lor ModeSUID ModeSGID) = 0 ->
              Z.land (Inode.typeAndMode i') m = Z.land (Inode.typeAndMode (_inode h)) m)).
Proof.
  split_and!.
  - intros mode Hmode. unfold Handle.chmod. cbn.
    destruct (Base.inodeWrite _ _ _) as [r1 b1].
    destruct (r1 =? 0); cbn; [|reflexivity].
    unfold Inode.type. cbn.
    rewrite Z.land_lor_distr_l, Hmode, Z.lor_0_r, <- Z.land_assoc, Z.land_diag.
    reflexivity.
  - intros uid gid. unfold Handle.chown. cbn.
    destruct (Base.inodeWrite _ _ _) as [r1 b1].
    destruct (r1 =? 0); cbn; [|reflexivity].
    unfold Inode.type. cbn.
    apply land_not32_other; [vm_compute; split; [discriminate|reflexivity]|reflexivity].
  - intros uid gid. unfold Handle.chown. cbn.
    destruct (Base.inodeWrite _ _ _) as [r1 b1].
    destruct (r1 =? 0) eqn:Er; cbn; [|intros ->; discriminate Er].
    intros _. split_and!; [reflexivity..| |].
    + apply land_not32_self.
    + intros m Hm Hms. apply land_not32_other; assumption.
Qed.

(** The theorem at a concrete input. *)
Lemma chmod_and_chown_keep_the_type_witness :
  let b := snd fs_file_suid in
  let h := HandleCache.deref b (Some 1) in
  Z.land (Inode.typeAndMode (_inode h)) ModeSUID = ModeSUID
  /\ Inode.type (_inode (snd (Handle.chmod t2000 b h 0x1A4))) = TypeREG
  /\ Z.land (Inode.typeAndMode (_inode (snd (Handle.chown t2000 b h 7 8))))
       (Z.lor ModeSUID ModeSGID) = 0.
Proof.
  intros b h.
  destruct (chmod_and_chown_keep_the_type t2000 b h) as (Hchmod & _ & Hchown).
  split_and!.
  - vm_compute. reflexivity.
  - rewrite Hchmod by reflexivity. vm_compute. reflexivity.
  - assert (fst (fst (Handle.chown t2000 b h 7 8)) = 0) as Hr by (vm_compute; reflexivity).
    destruct (Hchown 7 8 Hr) as (_ & _ & Hz & _). exact Hz.
Defined.

(** X22.  [Handle::truncate(length)] never changes atime, owner, group, link
    count and type of the inode; when it returns 0 the size is [length],
    mtime and ctime are the current time, the set-user-ID and set-group-ID
    bits are clear and the inode Storage holds the inode of the handle. *)
Theorem truncate_sets_size_and_times
    (now : Time.t) (b : Base) (h : Handle) (length r : Z) (b' : Base) (h' : Handle) :
  0 <= _inodeIndex h ->
  Handle.truncate now b h length = (r, b', h') ->
  (Inode.atime (_inode h') = Inode.atime (_inode h)
   /\ Inode.uid (_inode h') = Inode.uid (_inode h)
   /\ Inode.gid (_inode h') = Inode.gid (_inode h)
   /\ Inode.nlink (_inode h') = Inode.nlink (_inode h)
   /\ Inode.type (_inode h') = Inode.type (_inode h)
   /\ _inodeIndex h' = _inodeIndex h)
  /\ (r = 0 ->
      Inode.size (_inode h') = length
      /\ Inode.mtime (_inode h') = now /\ Inode.ctime (_inode h') = now
      /\ Z.land (Inode.typeAndMode (_inode h')) (Z.lor ModeSUID ModeSGID) = 0
      /\ Storage.chunks (ChunkManager._chunks (_inodeMgr b'))
           !! Z.to_nat (_inodeIndex h) = Some (_inode h')).
Proof.
  intros Hidx H. unfold Handle.truncate in H.
  destruct (Handle.truncateNow b h length) as [[r1 b1] h1] eqn:Et.
  pose proof (truncateNow_kept_attrs _ _ _ _ _ _ Et) as Hk.
  destruct (kept_attrs_inode _ _ Hk) as (Ha & Hc & Hm & Htm & Hn & Hu & Hg).
  assert (_inodeIndex h1 = _inodeIndex h) as Hi.
  { with_strategy transparent [kept_attrs] (unfold kept_attrs in Hk). congruence. }
  destruct (r1 =? 0) eqn:Er1.
  - apply Z.eqb_eq in Er1. subst r1.
    pose proof (truncateNow_size _ _ _ _ _ Et) as Hsz.
    cbn in H. destruct (Base.inodeWrite _ _ _) as [r2 b2] eqn:Ew in H.
    injection H as <- <- <-. cbn. split.
    + split_and!; auto.
      unfold Inode.type. cbn. rewrite <- Htm.
      apply land_not32_other; [vm_compute; split; [discriminate|reflexivity]|reflexivity].
    + intros ->. split_and!; auto.
      * apply land_not32_self.
      * rewrite <- Hi. eapply inodeWrite_stored; [|exact Ew]. cbn. lia.
  - apply Z.eqb_neq in Er1. injection H as <- <- <-.
    split; [|congruence].
    split_and!; auto. unfold Inode.type. congruence.
Qed.

(** The theorem at a concrete input. *)
Lemma truncate_sets_size_and_times_witness :
  let b := snd fs_file_suid in
  let h := HandleCache.deref b (Some 1) in
  let res := Handle.truncate t2000 b h 5000 in
  0 <= _inodeIndex h
  /\ fst (fst res) = 0
  /\ Inode.size (_inode (snd res)) = 5000
  /\ Z.land (Inode.typeAndMode (_inode (snd res))) (Z.lor ModeSUID ModeSGID) = 0.
Proof.
  intros b h res.
  assert (0 <= _inodeIndex h) as Hidx by (vm_compute; discriminate).
  assert (fst (fst res) = 0) as Hr by (vm_compute; reflexivity).
  destruct (truncate_sets_size_and_times t2000 b h 5000 _ _ _ Hidx
              (triple_eta (Handle.truncate t2000 b h 5000))) as [_ Hok].
  destruct (Hok Hr) as (Hsz & _ & _ & Hm & _).
  split_and!; auto.
Defined.

(** [Base::inodeWrite] returns 0 or a negative result. *)
Lemma inodeWrite_result (b b' : Base) (index r : Z) (inode : Inode.t) :
  Base.inodeWrite b index inode = (r, b') -> r = 0 \/ r < 0.
Proof.
  unfold Base.inodeWrite, ChunkManager.write. intros H.
  destruct (index >=? _); [injection H as <- _; right; reflexivity|].
  destruct (Storage.write _ _ _ _) as [r1 s1] eqn:E in H. injection H as <- _.
  eapply write_result. exact E.
Qed.

(** X23.  [Handle::link] is atomic on the handle: when the result is not 0
    the handle is as before (the link count and ctime are restored after a
    failed write), and when it is 0 the inode is a regular file whose link
    count has grown by one and whose ctime is the current time, and the
    inode Storage holds it. *)
Theorem link_is_atomic (now : Time.t) (b : Base) (h : Handle) (r : Z) (b' : Base) (h' : Handle) :
  0 <= _inodeIndex h -> 0 <= Inode.nlink (_inode h) < 2 ^ 64 ->
  Handle.link now b h = (r, b', h') ->
  (r <> 0 -> h' = h)
  /\ (r = 0 ->
      Inode.type (_inode h) = TypeREG
      /\ h' = set_inode
                (Inode.set_ctime now
                   (Inode.set_nlink (Inode.nlink (_inode h) + 1) (_inode h))) h
      /\ Storage.chunks (ChunkManager._chunks (_inodeMgr b'))
           !! Z.to_nat (_inodeIndex h) = Some (_inode h')).
Proof.
  intros Hidx Hn H. unfold Handle.link in H.
  destruct (Inode.type (_inode h) =? TypeREG) eqn:Et; cbn [negb] in H.
  2: { destruct (Inode.nlink (_inode h) =? UINT64_MAX); cbn in H;
       injection H as <- <- <-; (split; [reflexivity|discriminate]). }
  destruct (Inode.nlink (_inode h) =? UINT64_MAX) eqn:Em; cbn [Z.eqb] in H.
  { cbn in H. injection H as <- <- <-. split; [reflexivity|discriminate]. }
  bools. unfold UINT64_MAX in Em.
  assert (u64 (Inode.nlink (_inode h) + 1) = Inode.nlink (_inode h) + 1) as Hu
    by (unfold u64; apply Z.mod_small; lia).
  cbn [_inode set_inode _inodeIndex Inode.nlink Inode.set_nlink Inode.set_ctime Inode.ctime]
    in H.
  rewrite Hu in H.
  destruct (Base.inodeWrite _ _ _) as [r1 b1] eqn:Ew in H.
  destruct (inodeWrite_result _ _ _ _ _ Ew) as [-> | Hneg].
  - cbn in H. injection H as <- <- <-. split; [congruence|]. intros _.
    split_and!; [exact Et|reflexivity|].
    cbn. eapply inodeWrite_stored; [|exact Ew]. exact Hidx.
  - assert ((r1 <? 0) = true) as Hlt by (apply Z.ltb_lt; exact Hneg).
    rewrite Hlt in H. injection H as <- <- <-. split; [|lia]. intros _.
    replace (u64 (Inode.nlink (_inode h) + 1 - 1)) with (Inode.nlink (_inode h))
      by (unfold u64; rewrite Z.mod_small; lia).
    destruct h as [? [] ? ? ? ? ? ? ?]. reflexivity.
Qed.

(** The theorem at a concrete input. *)
Lemma link_is_atomic_witness :
  let b := snd fs_file_suid in
  let h := HandleCache.deref b (Some 1) in
  let res := Handle.link t2000 b h in
  0 <= _inodeIndex h
  /\ 0 <= Inode.nlink (_inode h) < 2 ^ 64
  /\ fst (fst res) = 0
  /\ Inode.nlink (_inode (snd res)) = 2.
Proof.
  intros b h res.
  assert (0 <= _inodeIndex h) as Hidx by (vm_compute; discriminate).
  assert (0 <= Inode.nlink (_inode h) < 2 ^ 64) as Hn
    by (vm_compute; split; [discriminate|reflexivity]).
  assert (fst (fst res) = 0) as Hr by (vm_compute; reflexivity).
  destruct (link_is_atomic t2000 b h _ _ _ Hidx Hn (triple_eta (Handle.link t2000 b h)))
    as [_ Hok].
  destruct (Hok Hr) as (_ & Hh' & _).
  split; [exact Hidx|]. split; [exact Hn|]. split; [exact Hr|].
  fold res in Hh'. rewrite Hh'. vm_compute. reflexivity.
Defined.

(** The loop of [Handle::read] copies at most [count] bytes. *)
Lemma read_loop_length (n : nat) : forall b h offset count block out r out' b' h',
  0 <= count ->
  Handle.read_loop n b h offset count block out = (r, out', b', h') ->
  (r = 0 \/ r < 0)
  /\ Z.of_nat (length out') <= Z.of_nat (length out) + count
  /\ (count = 0 -> r = 0 /\ out' = out /\ b' = b /\ h' = h).
Proof.
  induction n as [|n IH]; intros b h offset count block out r out' b' h' Hc H.
  - cbn in H. injection H as <- <- <- <-. split_and!; auto; lia.
  - cbn [Handle.read_loop] in H.
    destruct (count >? 0) eqn:Ec; bools.
    2: { injection H as <- <- <- <-. split_and!; auto; lia. }
    destruct (Handle.getSlot b h (offset / Block.size) 0) as [[[r1 bi] b1] h1] eqn:Eg.
    destruct (r1 <? 0) eqn:Er1; bools.
    { injection H as <- <- <- <-. split_and!; [right; lia|lia|intros; lia]. }
    destruct (if bi =? InvalidIndex then _ else _) as [[r2 blk] b2] eqn:Eb in H.
    destruct (r2 <? 0) eqn:Er2; bools.
    { injection H as <- <- <- <-. split_and!; [right; lia|lia|intros; lia]. }
    assert (0 < Block.size - offset mod Block.size) as Hpos.
    { unfold Block.size. pose proof (Z.mod_pos_bound offset 4096 ltac:(lia)). lia. }
    apply IH in H; [|lia].
    destruct H as (Hr & Hl & _).
    split_and!; [exact Hr| |intros; lia].
    rewrite length_app, length_take in Hl. lia.
Qed.

(** X24.  [Handle::read(offset, buf, count)] returns a negative result or the
    number of bytes from [offset] to the end of the file, at most [count],
    and copies no more bytes than that; at or behind the end of the file it
    returns 0, copies nothing and touches neither the Base nor the
    handle.  ([count] is below [2 ^ 31], so that the [int] result does not
    wrap.) *)
Theorem read_stops_at_the_end_of_file
    (b : Base) (h : Handle) (offset count r : Z) (out : list Z) (b' : Base) (h' : Handle) :
  0 <= offset -> 0 <= count < 2 ^ 31 -> offset + count < 2 ^ 64 ->
  Handle.read b h offset count = (r, out, b', h') ->
  let n := if offset >=? Inode.size (_inode h) then 0
           else Z.min count (Inode.size (_inode h) - offset) in
  (r < 0 \/ r = n)
  /\ Z.of_nat (length out) <= n
  /\ (Inode.size (_inode h) <= offset -> r = 0 /\ out = [] /\ b' = b /\ h' = h).
Proof.
  intros Ho Hc Hoc H n. unfold Handle.read in H.
  assert ((if offset >=? Inode.size (_inode h) then 0
           else if u64 (offset + count) >? Inode.size (_inode h)
                then u64 (Inode.size (_inode h) - offset) else count) = n) as Hn.
  { unfold n, u64. destruct (offset >=? Inode.size (_inode h)) eqn:E; [reflexivity|]. bools.
    rewrite (Z.mod_small (offset + count)) by lia.
    destruct (offset + count >? Inode.size (_inode h)) eqn:E2; bools.
    - rewrite Z.mod_small by lia. lia.
    - lia. }
  rewrite Hn in H.
  assert (0 <= n <= count) as Hnb.
  { unfold n. destruct (offset >=? Inode.size (_inode h)) eqn:E; bools; lia. }
  destruct (Handle.read_loop _ _ _ _ _ _ _) as [[[r1 out1] b1] h1] eqn:El in H.
  apply read_loop_length in El; [|lia]. destruct El as (Hr1 & Hl & Hz).
  assert (to_int n = n) as Hti.
  { unfold to_int. rewrite Z.mod_small by lia. lia. }
  rewrite Hti in H.
  destruct (r1 <? 0) eqn:Er1; bools; injection H as <- <- <- <-.
  - split_and!; [left; lia|cbn in Hl; lia|].
    intros Hsz. assert (n = 0) as Hn0.
    { unfold n. destruct (offset >=? Inode.size (_inode h)) eqn:E; bools; lia. }
    destruct (Hz Hn0) as (-> & _). lia.
  - split_and!; [right; reflexivity|cbn in Hl; lia|].
    intros Hsz. assert (n = 0) as Hn0.
    { unfold n. destruct (offset >=? Inode.size (_inode h)) eqn:E; bools; lia. }
    destruct (Hz Hn0) as (_ & -> & -> & ->). auto.
Qed.

(** The theorem at a concrete input. *)
Lemma read_stops_at_the_end_of_file_witness :
  let b := snd fs_file_written in
  let h := HandleCache.deref b (Some 1) in
  Inode.size (_inode h) = 1
  /\ fst (fst (fst (Handle.read b h 0 100))) = 1
  /\ Handle.read b h 1 100 = (0, [], b, h).
Proof.
  intros b h.
  assert (Inode.size (_inode h) = 1) as Hs by (vm_compute; reflexivity).
  split; [exact Hs|]. split.
  - destruct (read_stops_at_the_end_of_file b h 0 100 _ _ _ _ ltac:(lia) ltac:(lia)
                ltac:(lia) (quad_eta (Handle.read b h 0 100))) as ([Hneg|Hr] & _ & _).
    + exfalso. revert Hneg. vm_compute. discriminate.
    + rewrite Hr, Hs. reflexivity.
  - destruct (read_stops_at_the_end_of_file b h 1 100 _ _ _ _ ltac:(lia) ltac:(lia)
                ltac:(lia) (quad_eta (Handle.read b h 1 100))) as (_ & _ & Heof).
    destruct (Heof ltac:(lia)) as (Hr & Ho & Hb & Hh).
    rewrite (quad_eta (Handle.read b h 1 100)), Hr, Ho, Hb, Hh. reflexivity.
Defined.

(** [Base::blockAdd] that returns 0 has stored the block; neither the inode
    manager nor the handle map has changed. *)
Lemma blockAdd_stored (b b1 : Base) (index bi : Z) (block : Block) :
  Map.wf (ChunkManager._map (_blockMgr b)) ->
  Base.blockAdd b index block = (0, bi, b1) ->
  0 <= bi < 2 ^ 63
  /\ bi < ChunkManager._chunksInStorage (_blockMgr b1)
  /\ Storage.chunks (ChunkManager._chunks (_blockMgr b1)) !! Z.to_nat bi = Some block
  /\ _inodeMgr b1 = _inodeMgr b /\ _handleMap b1 = _handleMap b.
Proof.
  intros Hwf H. unfold Base.blockAdd in H.
  destruct (Base.checkWriteAction b _ =? 0) eqn:Ec; bools.
  2: { injection H as E _ _. congruence. }
  destruct (ChunkManager.add _ _ _ _) as [[[r i] mgr] e] eqn:Ea in H.
  injection H as -> <- <-.
  destruct (add_stored _ _ _ _ _ _ _ Hwf Ea) as (Hi & Hlt & _ & Hl).
  cbn. split_and!; auto; lia.
Qed.

(** [Base::blockRead] of a block that the block Storage holds below
    [_chunksInStorage]. *)
Lemma blockRead_stored (b : Base) (bi : Z) (block buf0 : Block) :
  bi < ChunkManager._chunksInStorage (_blockMgr b) ->
  Storage.chunks (ChunkManager._chunks (_blockMgr b)) !! Z.to_nat bi = Some block ->
  forall r out b',
    Base.blockRead b bi buf0 = (r, out, b') ->
    r = 0 /\ out = block \/ r < 0.
Proof.
  intros Hlt Hl r out b' H. unfold Base.blockRead in H.
  destruct (ChunkManager.read _ _ _) as [[[r1 o1] mgr] e] eqn:Er in H.
  injection H as <- <- _.
  destruct (read_after_lookup _ _ _ _ Hlt Hl _ _ _ _ Er) as (_ & _ & _ & [[? ?]|[? ?]]); auto.
Qed.

(** [Base::blockAdd] returns 0 or a negative result. *)
Lemma blockAdd_result (b b1 : Base) (index bi r : Z) (block : Block) :
  Map.inv (ChunkManager._map (_blockMgr b)) ->
  Map.word (Map._firstZeroCandidate (ChunkManager._map (_blockMgr b))) ->
  Base.blockAdd b index block = (r, bi, b1) -> r = 0 \/ r < 0.
Proof.
  intros Hinv Hcand. unfold Base.blockAdd.
  destruct (Base.checkWriteAction b _ =? 0) eqn:Ec; bools.
  - destruct (ChunkManager.add _ _ _ _) as [[[r1 i1] mgr] e] eqn:Ea.
    intros H. injection H as <- _ _. exact (add_result _ _ _ _ _ _ _ _ Hinv Hcand Ea).
  - intros H. injection H as <- _ _. right. revert Ec. unfold Base.checkWriteAction.
    repeat match goal with |- context [if ?c then _ else _] => destruct c end;
      unfold EROFS, ENOSPC; lia.
Qed.

(** [Handle::insertSlot] of slot 0 into a handle without slots. *)
Lemma insertSlot_first (b : Base) (h : Handle) (index : Z) :
  Handle.slotCount h = 0 ->
  Handle.insertSlot b h 0 index
  = (0, b, set_inode (Inode.set_slotTree 0 index (_inode h)) (set_slotCount 1 h)).
Proof.
  unfold Handle.slotCount. intros Hsc.
  unfold Handle.insertSlot, Handle.slotCount. rewrite Hsc. cbn. reflexivity.
Qed.

(** [Handle::getSlot] of slot 0 of a handle with one slot. *)
Lemma getSlot_first (b : Base) (h : Handle) (index : Z) :
  Handle.slotCount h = 1 ->
  Handle.getSlot b h 0 index = (0, Inode.slotTree (_inode h) 0, b, h).
Proof. intros Hsc. unfold Handle.getSlot. rewrite Hsc. reflexivity. Qed.

(** X29.  What [Handle::write] puts into an empty file, [Handle::read]
    returns.  On a handle that is not in append mode, of an inode of size 0
    without slots, a write of [count] bytes ([0 < count <= 4096]) at offset
    0 that returns [count] leaves a file of size [count] with one slot, and
    a read of [count] bytes at offset 0 then returns [count] and the bytes
    written, or a negative result of the backend with nothing copied.
    (The Map of the block manager is well-formed, and [slotTrees] has its
    five entries.) *)
Theorem write_then_read_first_block (b b1 b2 : Base) (h h1 h2 : Handle)
    (buf out : list Z) (count r : Z) :
  Map.wf (ChunkManager._map (_blockMgr b)) ->
  length (Inode.slotTrees (_inode h)) = 5%nat ->
  _append h = false -> Inode.size (_inode h) = 0 -> Handle.slotCount h = 0 ->
  0 < count <= Block.size -> Z.of_nat (length buf) = count ->
  Handle.write b h 0 buf count = (count, b1, h1) ->
  Handle.read b1 h1 0 count = (r, out, b2, h2) ->
  Inode.size (_inode h1) = count /\ Handle.slotCount h1 = 1
  /\ (r < 0 /\ out = [] \/ r = count /\ out = buf).
Proof.
  intros Hwf Htrees Happ Hsize Hsc Hcount Hlen Hw Hr.
  assert (Block.size = 4096) as Hbs by reflexivity.
  unfold Handle.write, Handle.write_blocks in Hw. rewrite Happ, Hsize in Hw.
  change (0 >? 0) with false in Hw. cbv iota in Hw.
  destruct (Z.to_nat count) as [|n] eqn:En; [lia|].
  cbn [Handle.write_loop] in Hw.
  change (0 `div` Block.size) with 0 in Hw. change (0 `mod` Block.size) with 0 in Hw.
  rewrite Z.sub_0_r, (Z.min_l count Block.size), Hsc in Hw by lia.
  change (0 >=? Handle.maxSlotCount) with false in Hw.
  change (0 >? 0) with false in Hw. change (0 <? 0) with false in Hw.
  change (0 =? 0) with true in Hw.
  assert ((count >? 0) = true) as Hc1 by lia. rewrite Hc1 in Hw.
  cbn [andb] in Hw. cbv beta iota in Hw.
  change (InvalidIndex =? InvalidIndex) with true in Hw. cbv beta iota in Hw.
  change (0 <? 0) with false in Hw. cbv beta iota in Hw.
  replace (if negb (count =? Block.size) then Block.initializeData else Block.zero)
    with Block.zero in Hw by (destruct (negb _); reflexivity).
  set (block := Block.memcpy_in Block.zero 0 buf count) in *.
  destruct (Base.blockAdd b InvalidIndex block) as [[ra bi] ba] eqn:Ea.
  pose proof Hwf as (Hinv & _ & Hcand).
  assert (Map.word (Map._firstZeroCandidate (ChunkManager._map (_blockMgr b)))) as Hcw
    by (unfold Map.word; lia).
  destruct (blockAdd_result _ _ _ _ _ _ Hinv Hcw Ea) as [->|Hneg].
  2: { assert ((ra =? 0) = false) as E0 by lia. assert ((ra <? 0) = true) as E1 by lia.
       rewrite E0 in Hw. cbv beta iota in Hw. rewrite E1 in Hw.
       rewrite bool_decide_eq_true_2 in Hw by reflexivity. cbn [negb] in Hw.
       rewrite E1 in Hw. injection Hw as Hw _ _. lia. }
  change (0 =? 0) with true in Hw. cbv beta iota in Hw.
  rewrite Hsc in Hw. change (0 =? 0) with true in Hw. cbv beta iota in Hw.
  rewrite insertSlot_first in Hw by exact Hsc.
  change (0 <? 0) with false in Hw. cbv beta iota in Hw.
  cbn [_inode set_inode Inode.size Inode.set_slotTree Inode.set_slotTrees Inode.set_size]
    in Hw.
  rewrite Hsize, Z.add_0_l, (u64_small count), Hc1, Z.sub_diag in Hw by lia.
  assert (forall k b' h' off l blk, Handle.write_loop k b' h' off l 0 blk 0 = (0, b', h'))
    as Hstop by (intros [|k]; reflexivity).
  rewrite Hstop in Hw. cbn [_inode set_inode] in Hw.
  rewrite bool_decide_eq_false_2 in Hw.
  2: { intros Heq. apply (f_equal Inode.size) in Heq. cbn in Heq. lia. }
  cbn [negb] in Hw.
  destruct (Base.inodeWrite ba _ _) as [rw bw] eqn:Ew in Hw.
  destruct (rw <? 0) eqn:Erw; [injection Hw as Hw _ _; lia|].
  injection Hw as _ <- <-.
  assert (_blockMgr bw = _blockMgr ba) as Hmgr.
  { unfold Base.inodeWrite in Ew.
    destruct (ChunkManager.write _ _ _ _) as [[r0 mgr] e0] in Ew.
    injection Ew as _ <-. reflexivity. }
  destruct (blockAdd_stored _ _ _ _ _ Hwf Ea) as (Hbi & Hlt & Hl & _).
  rewrite <- Hmgr in Hlt, Hl.
  split; [reflexivity|]. split; [reflexivity|].
  unfold Handle.read in Hr.
  cbn [_inode set_inode Inode.size Inode.set_slotTree Inode.set_slotTrees Inode.set_size]
    in Hr.
  set (hf := set_inode _ _) in *.
  assert ((0 >=? count) = false) as Hc2 by lia.
  rewrite Hc2, Z.add_0_l, (u64_small count) in Hr by lia.
  assert ((count >? count) = false) as Hc3 by lia.
  rewrite Hc3, En in Hr. cbn [Handle.read_loop] in Hr. rewrite Hc1 in Hr.
  change (0 `div` Block.size) with 0 in Hr. change (0 `mod` Block.size) with 0 in Hr.
  rewrite getSlot_first in Hr by reflexivity.
  assert (Inode.slotTree (_inode hf) 0 = bi) as Htree.
  { unfold Inode.slotTree. cbn. rewrite list_lookup_insert_eq by lia. reflexivity. }
  rewrite Htree in Hr. change (0 <? 0) with false in Hr. cbv beta iota in Hr.
  assert ((bi =? InvalidIndex) = false) as Hbi' by (unfold InvalidIndex, UINT64_MAX; lia).
  rewrite Hbi' in Hr.
  destruct (Base.blockRead bw bi Block.zero) as [[rr blk] br] eqn:Ebr.
  destruct (blockRead_stored _ _ _ _ Hlt Hl _ _ _ Ebr) as [[-> ->]|Hneg].
  2: { assert ((rr <? 0) = true) as E1 by lia. rewrite E1 in Hr. cbv beta iota in Hr.
       rewrite E1 in Hr. injection Hr as <- <- _ _. left. split; [lia|reflexivity]. }
  change (0 <? 0) with false in Hr. cbv beta iota in Hr.
  rewrite Z.sub_0_r, (Z.min_l count Block.size), Z.sub_diag in Hr by lia.
  assert (forall k b' h' off blk o, Handle.read_loop k b' h' off 0 blk o = (0, o, b', h'))
    as Hstop' by (intros [|k]; reflexivity).
  rewrite Hstop' in Hr. change (0 <? 0) with false in Hr. cbv beta iota in Hr.
  injection Hr as <- <- _ _. right. split.
  - unfold to_int. rewrite Z.mod_small; lia.
  - unfold block, Block.memcpy_in.
    assert (Z.to_nat count = length buf) as -> by lia.
    change (Z.to_nat 0) with 0%nat. rewrite resize_all.
    rewrite take_0, drop_0, app_nil_l, take_app_length. reflexivity.
Qed.

(** The theorem at "/f" of [fs_file_suid], an empty file that is open for
    writing, and the three bytes of "Hi!". *)
Lemma write_then_read_first_block_witness :
  let b := snd fs_file_suid in
  let h := HandleCache.deref b (Some 1) in
  let res := Handle.write b h 0 [72; 105; 33] 3 in
  let b1 := snd (fst res) in
  let h1 := snd res in
  fst (fst res) = 3
  /\ Inode.size (_inode h1) = 3 /\ Handle.slotCount h1 = 1
  /\ fst (fst (Handle.read b1 h1 0 3)) = (3, [72; 105; 33]).
Proof.
  intros b h res b1 h1.
  assert (Handle.write b h 0 [72; 105; 33] 3 = (3, b1, h1)) as E
    by (vm_compute; reflexivity).
  assert (Map.wf (ChunkManager._map (_blockMgr b))) as Hwf
    by (unfold b; wf_by_evaluation).
  destruct (write_then_read_first_block b b1 _ h h1 _ [72; 105; 33] _ 3 _ Hwf
              ltac:(vm_compute; reflexivity) ltac:(vm_compute; reflexivity)
              ltac:(vm_compute; reflexivity) ltac:(vm_compute; reflexivity)
              ltac:(vm_compute; split; [reflexivity|discriminate])
              ltac:(reflexivity) E (quad_eta (Handle.read b1 h1 0 3)))
    as (Hsize & Hsc & Hres).
  split; [vm_compute; reflexivity|]. split; [exact Hsize|]. split; [exact Hsc|].
  destruct Hres as [[Hr _]|[Hr Ho]].
  - exfalso. revert Hr. vm_compute. discriminate.
  - rewrite (surjective_pairing (fst (fst (Handle.read b1 h1 0 3)))), Hr, Ho. reflexivity.
Defined.

(** ** The handle cache and the removal of directory entries *)

Ltac map_simpl :=
  cbn [_handleMap set_handleMap _inodeMgr _direntMgr _blockMgr emergencyType
       mbind option_bind fst snd default _refCount set_refCount
       _removeOnceUnused Handle.removeOnceUnused Handle.new].

(** X25.  [Base::handleGet] followed by [Base::handleRelease] restores the
    handle map.  When [handleGet] fails it returns no handle and the map is
    as before; when it succeeds the handle of the inode has one reference
    more (a new handle has one), no other handle has changed, and the
    release returns 0, gives back the map as it was and changes nothing
    else of the Base.  (A handle that is in the map has a reference count
    other than 0.) *)
Theorem handleGet_then_handleRelease
    (now : Time.t) (b b1 : Base) (inodeIndex r : Z) (handle : option Z) :
  (forall h, _handleMap b !! inodeIndex = Some h -> _refCount h <> 0) ->
  HandleCache.handleGet b inodeIndex = (r, handle, b1) ->
  (r <> 0 -> handle = None /\ _handleMap b1 = _handleMap b)
  /\ (r = 0 ->
      handle = Some inodeIndex
      /\ _refCount (HandleCache.deref b1 handle)
         = default 0 (_refCount <$> _handleMap b !! inodeIndex) + 1
      /\ (forall k, k <> inodeIndex -> _handleMap b1 !! k = _handleMap b !! k)
      /\ exists b2,
           HandleCache.handleRelease now b1 handle = (0, b2)
           /\ _handleMap b2 = _handleMap b
           /\ _inodeMgr b2 = _inodeMgr b1 /\ _direntMgr b2 = _direntMgr b1
           /\ _blockMgr b2 = _blockMgr b1 /\ emergencyType b2 = emergencyType b1).
Proof.
  intros Hused H. unfold HandleCache.handleGet in H.
  destruct (_handleMap b !! inodeIndex) as [h|] eqn:Eh.
  - injection H as <- <- <-. split; [congruence|]. intros _.
    split; [reflexivity|].
    unfold HandleCache.deref, HandleCache.handleRelease. map_simpl.
    rewrite !lookup_insert_eq. map_simpl.
    split; [reflexivity|]. split.
    + intros k Hk. apply lookup_insert_ne. congruence.
    + replace (_refCount h + 1 - 1) with (_refCount h) by lia.
      pose proof (Hused h eq_refl) as Hne. apply Z.eqb_neq in Hne. rewrite Hne.
      eexists. split; [reflexivity|]. map_simpl. split_and!; try reflexivity.
      rewrite insert_insert_eq.
      replace (set_refCount (_refCount h) (set_refCount (_refCount h + 1) h)) with h
        by (destruct h; reflexivity).
      apply insert_id. exact Eh.
  - destruct (Base.inodeRead b inodeIndex Inode.new) as [[r1 inode] b0] eqn:Er.
    assert (_handleMap b0 = _handleMap b) as Hmap.
    { unfold Base.inodeRead in Er. destruct (ChunkManager.read _ _ _) as [[[? ?] ?] ?].
      injection Er as _ _ <-. reflexivity. }
    destruct (r1 =? 0) eqn:Er1; bools.
    + subst r1. injection H as <- <- <-. split; [congruence|]. intros _.
      split; [reflexivity|].
      unfold HandleCache.deref, HandleCache.handleRelease. map_simpl.
      rewrite !lookup_insert_eq. map_simpl.
      split; [reflexivity|]. split.
      * intros k Hk. rewrite lookup_insert_ne by congruence. rewrite Hmap. reflexivity.
      * cbn [Z.add Z.sub Z.opp Z.pos_sub Z.eqb Z.succ_double Z.pred_double Z.double].
        eexists. split; [reflexivity|]. map_simpl. split_and!; try reflexivity.
        rewrite delete_insert_eq, Hmap. apply delete_id. exact Eh.
    + injection H as <- <- <-. split; [|congruence]. intros _. auto.
Qed.

(** The theorem at a concrete input. *)
Lemma handleGet_then_handleRelease_witness :
  let b := snd fs_file_written in
  let res := HandleCache.handleGet b 1 in
  _refCount (HandleCache.deref b (Some 1)) = 1
  /\ fst (fst res) = 0
  /\ _refCount (HandleCache.deref (snd res) (Some 1)) = 2
  /\ _handleMap (snd (HandleCache.handleRelease t2000 (snd res) (Some 1))) = _handleMap b.
Proof.
  intros b res.
  assert (forall h, _handleMap b !! 1 = Some h -> _refCount h <> 0) as Hused.
  { intros h Hh. vm_compute in Hh. injection Hh as <-. discriminate. }
  destruct (handleGet_then_handleRelease t2000 b _ 1 _ _ Hused
              (triple_eta (HandleCache.handleGet b 1))) as [_ Hok].
  assert (fst (fst res) = 0) as Hr by (vm_compute; reflexivity).
  destruct (Hok Hr) as (Hh & Hrc & _ & b2 & Hrel & Hmap & _).
  split; [vm_compute; reflexivity|]. split; [exact Hr|].
  split; [vm_compute; reflexivity|].
  rewrite Hh in Hrel. unfold res. rewrite Hrel. exact Hmap.
Defined.

(** The handle that a successful [handleGet] returns is that of the inode. *)
Lemma handleGet_handle (b b1 : Base) (inodeIndex : Z) (handle : option Z) :
  HandleCache.handleGet b inodeIndex = (0, handle, b1) -> handle = Some inodeIndex.
Proof.
  unfold HandleCache.handleGet.
  destruct (_handleMap b !! inodeIndex).
  - intros [= <- <-]. reflexivity.
  - destruct (Base.inodeRead _ _ _) as [[r i] b0].
    destruct (r =? 0) eqn:E; [intros [= _ <- _]; reflexivity|].
    intros [= -> _ _]. discriminate E.
Qed.

(** X26.  [Handle::rmdirent] loses the result of [inodeChecker].  When the
    entry is found and its handle obtained, but the checker refuses the
    inode, the result of [rmdirent] is that of [Base::handleRelease]: the
    statement [if (handle) r = _base->handleRelease(handle);] overwrites
    [r].  When the release returns 0, [rmdirent] goes on as after a
    removal: size and link count of the directory are decremented, its
    times set and its inode written, while the slot trees and the slot
    count still hold the entry.  So [rmdir] of a directory that is not
    empty returns 0 (see the witness). *)
Theorem rmdirent_drops_the_checker_result
    (now : Time.t) (b : Base) (this : Z) (name : string) (inodeChecker : Inode.t -> Z)
    (direntSlot direntIndex : Z) (dirent : Dirent.t) (b1 b2 : Base) (handle : option Z) :
  Inode.type (Handle.inode (HandleCache.deref b (Some this))) = TypeDIR ->
  Z.of_nat (String.length name) < Dirent.nameSize ->
  Inode.nlink (Handle.inode (HandleCache.deref b (Some this))) <> 2 ->
  SixFS.findDirentAt b (Some this) name 0 0 Dirent.zero
  = (0, direntSlot, direntIndex, dirent, b1) ->
  HandleCache.handleGet b1 (Dirent.inodeIndex dirent) = (0, handle, b2) ->
  inodeChecker (Handle.inode (HandleCache.deref b2 handle)) <> 0 ->
  let '(r3, b3) := HandleCache.handleRelease now b2 handle in
  let '(r, b') := HandleCache.rmdirent now b (Some this) name inodeChecker in
  (r3 <> 0 -> r = r3 /\ b' = b3)
  /\ (r3 = 0 ->
      forall h, _handleMap b3 !! this = Some h ->
      exists h',
        _handleMap b' !! this = Some h'
        /\ Inode.size (_inode h') = u64 (Inode.size (_inode h) - 1)
        /\ Inode.nlink (_inode h') = u64 (Inode.nlink (_inode h) - 1)
        /\ Inode.mtime (_inode h') = now /\ Inode.ctime (_inode h') = now
        /\ Inode.slotTrees (_inode h') = Inode.slotTrees (_inode h)
        /\ _slotCount h' = _slotCount h
        /\ r = fst (Base.inodeWrite b3 (_inodeIndex h) (_inode h'))).
Proof.
  intros Hdir Hname Hnlink Hfind Hget Hcheck.
  pose proof (handleGet_handle _ _ _ _ Hget) as ->.
  unfold HandleCache.rmdirent.
  assert (HandleCache.call (0, 0, 0, Dirent.zero) b (Some this)
            (fun b h =>
               let '(r, direntSlot, direntIndex, dirent, b, h) :=
                 Handle.findDirentNow b h name 0 0 Dirent.zero in
               ((r, direntSlot, direntIndex, dirent), b, h))
          = ((0, direntSlot, direntIndex, dirent), b1)) as Ecall.
  { unfold SixFS.findDirentAt, Handle.findDirent in Hfind.
    destruct (HandleCache.call _ b (Some this) _) as [[[[r0 s0] i0] d0] b0].
    injection Hfind as -> -> -> -> ->. reflexivity. }
  rewrite Ecall, Hdir.
  replace (Z.of_nat (String.length name) >=? Dirent.nameSize) with false
    by (symmetry; rewrite Z.geb_leb; apply Z.leb_gt; exact Hname).
  apply Z.eqb_neq in Hnlink. rewrite Hnlink.
  cbn -[HandleCache.call HandleCache.handleGet HandleCache.handleRelease
        HandleCache.deref].
  rewrite Hget.
  apply Z.eqb_neq in Hcheck.
  cbn -[HandleCache.call HandleCache.handleGet HandleCache.handleRelease
        HandleCache.deref].
  do 3 (rewrite ?Hcheck;
        cbn -[HandleCache.call HandleCache.handleGet HandleCache.handleRelease
              HandleCache.deref]).
  destruct (HandleCache.handleRelease now b2 (Some (Dirent.inodeIndex dirent)))
    as [r3 b3] eqn:Erel.
  cbn -[HandleCache.call HandleCache.handleGet HandleCache.handleRelease
        HandleCache.deref].
  destruct (r3 =? 0) eqn:Er3; bools.
  - subst r3.
    destruct (HandleCache.call 0 b3 (Some this) _) as [r b'] eqn:Ec.
    split; [congruence|]. intros _ h Hh.
    unfold HandleCache.call in Ec. rewrite Hh in Ec.
    destruct (Base.inodeWrite b3 _ _) as [rw bw] eqn:Ew in Ec.
    injection Ec as <- <-. cbn [_handleMap set_handleMap].
    eexists. split; [apply lookup_insert_eq|]. cbn.
    split_and!; try reflexivity.
    cbn in Ew. rewrite Ew. reflexivity.
  - split; [|congruence]. intros _. auto.
Qed.

(** The theorem at [rmdir("/a")] in [fs_three_files], where "/a" holds three
    files: the checker returns [-ENOTEMPTY], and yet [rmdirent] and
    [SixFS::rmdir] return 0; the size of the root directory drops from 1
    to 0 while its slot count stays 1, and "/a" is not found any more. *)
Lemma rmdirent_drops_the_checker_result_witness :
  let b0 := snd fs_three_files in
  let b := snd (SixFS.getHandle b0 "/" 1) in
  let res := HandleCache.rmdirent t2000 b (Some 0) "a" SixFS.rmdir_checker in
  SixFS.rmdir_checker (snd (fst (Base.inodeRead b 1 Inode.new))) = - ENOTEMPTY
  /\ Inode.size (_inode (HandleCache.deref b (Some 0))) = 1
  /\ fst res = 0
  /\ Inode.size (_inode (HandleCache.deref (snd res) (Some 0))) = 0
  /\ _slotCount (HandleCache.deref (snd res) (Some 0)) = 1
  /\ fst (SixFS.rmdir t2000 b0 "/a") = 0
  /\ fst (fs_lookup (snd (SixFS.rmdir t2000 b0 "/a")) "/a") = - ENOENT.
Proof.
  intros b0 b res.
  pose (x := SixFS.findDirentAt b (Some 0) "a" 0 0 Dirent.zero).
  pose (dirent := snd (fst x)).
  pose (b1 := snd x).
  pose (y := HandleCache.handleGet b1 (Dirent.inodeIndex dirent)).
  assert (x = (0, 0, 0, dirent, b1)) as Hfind by (vm_compute; reflexivity).
  assert (y = (0, Some 1, snd y)) as Hget by (vm_compute; reflexivity).
  pose proof (rmdirent_drops_the_checker_result t2000 b 0 "a" SixFS.rmdir_checker
                0 0 dirent b1 (snd y) (Some 1)
                ltac:(vm_compute; reflexivity) ltac:(vm_compute; reflexivity)
                ltac:(vm_compute; discriminate) Hfind Hget
                ltac:(vm_compute; discriminate)) as H.
  destruct (HandleCache.handleRelease t2000 (snd y) (Some 1)) as [r3 b3] eqn:Erel.
  fold res in H. destruct res as [r b'] eqn:Eres.
  destruct H as [_ Hok].
  assert (r3 = 0) as Hr3.
  { assert (fst (HandleCache.handleRelease t2000 (snd y) (Some 1)) = 0) as E
      by (vm_compute; reflexivity).
    rewrite Erel in E. exact E. }
  pose (h := HandleCache.deref b3 (Some 0)).
  assert (_handleMap b3 !! 0 = Some h) as Hh.
  { assert (b3 = snd (HandleCache.handleRelease t2000 (snd y) (Some 1))) as ->
      by (rewrite Erel; reflexivity).
    vm_compute. reflexivity. }
  destruct (Hok Hr3 h Hh) as (h' & Hh' & Hsize & _ & _ & _ & _ & Hsc & Hr).
  assert (HandleCache.deref b' (Some 0) = h') as Hd.
  { unfold HandleCache.deref. cbn. rewrite Hh'. reflexivity. }
  split; [vm_compute; reflexivity|]. split; [vm_compute; reflexivity|].
  split.
  { cbn. assert (r = fst res) as -> by (rewrite Eres; reflexivity).
    vm_compute. reflexivity. }
  split.
  { cbn [snd]. rewrite Hd, Hsize.
    assert (Inode.size (_inode h) = 1) as ->.
    { unfold h.
      assert (b3 = snd (HandleCache.handleRelease t2000 (snd y) (Some 1))) as ->
        by (rewrite Erel; reflexivity).
      vm_compute. reflexivity. }
    reflexivity. }
  split.
  { cbn [snd]. rewrite Hd, Hsc. unfold h.
    assert (b3 = snd (HandleCache.handleRelease t2000 (snd y) (Some 1))) as ->
      by (rewrite Erel; reflexivity).
    vm_compute. reflexivity. }
  split; vm_compute; reflexivity.
Defined.

(** ** SixFS: paths *)

(** The loop of [separate] stops at the last slash at or before the start
    position, or at 0. *)
Lemma separate_loop_spec (path : string) (n : nat) : forall p : Z,
  0 <= p <= Z.of_nat n ->
  0 <= SixFS.separate_loop n path p <= p
  /\ (0 < SixFS.separate_loop n path p ->
      SixFS.isSlash path (SixFS.separate_loop n path p) = true)
  /\ (forall i, SixFS.separate_loop n path p < i <= p -> SixFS.isSlash path i = false).
Proof.
  induction n as [|n IH]; intros p Hp.
  - cbn. assert (p = 0) as -> by lia. split_and!; [lia|lia|lia|intros i Hi; lia].
  - cbn [SixFS.separate_loop].
    destruct (p >? 0) eqn:Ep.
    + destruct (SixFS.isSlash path p) eqn:Es.
      * split_and!; [lia|lia|auto|intros i Hi; lia].
      * destruct (IH (p - 1) ltac:(lia)) as (Hq & Hs & Hn).
        split_and!; [lia|lia|exact Hs|].
        intros i Hi. destruct (Z.eq_dec i p) as [->|Hne]; [exact Es|].
        apply Hn. lia.
    + split_and!; [lia|lia| |intros i Hi; lia].
      intros H. bools. lia.
Qed.

(** X27.  [SixFS::separate] on a path of [len] characters: the parent is
    not empty and, for [len >= 2], shorter than the path (which is what
    makes [recursiveFind] terminate); the name is the rest of the path
    after the parent and its slash; a parent longer than one character
    ends before a slash; and the name contains no slash, except for a
    slash at position 1 that the root parent leaves in it. *)
Theorem separate_splits_at_the_last_slash (path : string) (len : Z) :
  1 <= len < 2 ^ 64 ->
  let '(parentLen, nameOffset, nameLen) := SixFS.separate path len in
  1 <= parentLen
  /\ (2 <= len -> parentLen < len)
  /\ nameOffset = (if parentLen =? 1 then 1 else parentLen + 1)
  /\ nameOffset + nameLen = len
  /\ (1 < parentLen -> SixFS.isSlash path parentLen = true)
  /\ (forall i, nameOffset <= i < len -> SixFS.isSlash path i = true ->
        i = 1 /\ parentLen = 1).
Proof.
  intros Hlen. unfold SixFS.separate.
  assert (u64 (len - 1) = len - 1) as -> by (unfold u64; apply Z.mod_small; lia).
  destruct (separate_loop_spec path (Z.to_nat (len - 1)) (len - 1) ltac:(lia))
    as (Hq & Hs & Hn).
  set (q := SixFS.separate_loop (Z.to_nat (len - 1)) path (len - 1)) in *.
  destruct (q =? 0) eqn:Eq0; bools.
  - cbn [Z.eqb Pos.eqb]. 
    assert (u64 (len - 1) = len - 1) as -> by (unfold u64; apply Z.mod_small; lia).
    split_and!; [lia|lia|reflexivity|lia|lia|].
    intros i Hi Hsl. rewrite Hn in Hsl by lia. discriminate Hsl.
  - destruct (q =? 1) eqn:Eq1; bools.
    + assert (u64 (len - 1) = len - 1) as -> by (unfold u64; apply Z.mod_small; lia).
      split_and!; [lia|lia|reflexivity|lia|lia|].
      intros i Hi Hsl. destruct (Z.eq_dec i 1) as [->|Hne]; [lia|].
      rewrite Hn in Hsl by lia. discriminate Hsl.
    + assert (u64 (len - (q + 1)) = len - (q + 1)) as ->
        by (unfold u64; apply Z.mod_small; lia).
      split_and!; [lia|lia|reflexivity|lia|intros _; apply Hs; lia|].
      intros i Hi Hsl. rewrite Hn in Hsl by lia. discriminate Hsl.
Qed.

(** The theorem at a concrete input. *)
Lemma separate_splits_at_the_last_slash_witness :
  SixFS.separate "/usr/lib/x" 10 = (8, 9, 1)
  /\ SixFS.isSlash "/usr/lib/x" 8 = true
  /\ forall i, 9 <= i < 10 -> SixFS.isSlash "/usr/lib/x" i = true -> i = 1 /\ 8 = 1.
Proof.
  pose proof (separate_splits_at_the_last_slash "/usr/lib/x" 10 ltac:(lia)) as H.
  assert (SixFS.separate "/usr/lib/x" 10 = (8, 9, 1)) as E by (vm_compute; reflexivity).
  rewrite E in H. destruct H as (_ & _ & _ & _ & Hs & Hn).
  split_and!; [exact E|apply Hs; lia|exact Hn].
Defined.
